(* ===== verification/_CoqProject ===== *)
-Q . S2P
Prelude.v
Ring.v
Safe.v
Printf.v
Mem.v
Str.v
Riscv.v
Kalloc.v
Vm.v
VmInv.v
VmUser.v
VmCopy.v
VmFork.v
VmFree.v
VmProps.v
Sleeplock.v
Bio.v
BioInv.v
Log.v
LogInv.v
LogProps.v
TxDisk.v
Fs.v
FsBlocks.v
FsMap.v
FsFile.v
Mkfs.v
MkfsProps.v
Kernel.v
UserMem.v
Example.v
Virtio.v
VirtioProps.v
VirtioRun.v
Spinlock.v
Sched.v
SchedProps.v
Uart.v
UartProps.v
Pipe.v
PipeProps.v
File.v
Proc.v
ProcProps.v
ForkProps.v
Exec.v
Sysfile.v
Syscall.v
SyscallProps.v
Trap.v
UserSys.v
Umalloc.v
UmallocProps.v
Ulib.v
Grep.v
Utils.v
Find.v
Pipeline.v
Sh.v
ShProps.v
ShRun.v
ShPrint.v
