(* ===== verification/Prelude.v ===== *)
(** * Verification of xv6 for RISC-V, with its user programs

    The program is a teaching operating system in C: a kernel (src/kernel), user
    programs (src/user) and the builder of the disk image (src/mkfs). This library
    translates the kernel and the programs into executable Rocq functions and proves
    what makes them correct.

    ** How code is modelled

    - C integers are [Z] with their wrap-around written out ([u8] to [u64], [s16],
      [s32]).  Physical memory is a finite map from addresses to bytes (Mem.v); page
      tables, the free list of pages, trapframes, kernel stacks and the arguments of
      system calls live in it at the addresses the C code uses.  Tables that the
      code indexes (processes, files, inodes, buffers) are lists.
    - A routine is a function of the monad [M St A]: it returns with a new state, calls
      [panic], or never returns ([Hang]).  [wp c Q s] says that [c] started in [s]
      returns and that [Q] holds then: every theorem stated with it is one of total
      correctness.  [safe] (Safe.v) also allows a panic, for code that rejects input by
      panicking; it excludes non-termination.
    - A loop is [while_], which gives up ([Hang]) after 2^64 passes; the rules
      [wp_while] and [safe_while] ask for a measure below that bound, so a proved loop
      is one that ends.  Counted loops are [for_].  Recursion that is not structural has
      fuel, with a theorem that some amount is enough: 4 n + 4 for the shell's parser
      on n bytes ([ShProps.parse_safe]), 513 for find ([Find.find_reports]: a
      path grows with each level and ends at 512 bytes), one more than the length of the
      path for namex, three levels for page tables.
    - Critical sections of spin locks are atomic in all files but Spinlock.v, which
      shows on interleaved CPUs that they may be taken so.  A routine that sleeps runs
      the rest of the system through the class [Platform] (Kernel.v): [pf_others] is
      any behaviour of the other processes that keeps to the laws of the component.

    ** Parts and files

    Memory. Mem.v (memory), Str.v (kernel/string.c), Riscv.v (kernel/riscv.h and
    memlayout.h: page arithmetic), Kalloc.v (kernel/kalloc.c), Vm.v (kernel/vm.c) with
    VmInv.v (trees of page tables and the ownership of pages), VmUser.v (growing and
    shrinking), VmCopy.v (copyin, copyout, copyinstr), VmFork.v (uvmcopy), VmFree.v
    (freewalk and uvmfree give every page back); VmProps.v has the theorems. They show
    that a page is never handed out twice, that mapping, growing, shrinking and copying
    an address space do what they say and undo themselves when memory runs out, and that
    user copies stay inside the process whatever address they are given.

    Disk. Sleeplock.v, Bio.v (kernel/bio.c) with its invariant in BioInv.v, Log.v
    (kernel/log.c) with LogInv.v; LogProps.v shows that an operation is atomic with
    respect to crashes after any disk write, and that begin_op lets in operations that
    together overflow the log. TxDisk.v is the interface ([Class TxDisk]) between the
    log and the file system, implemented by the log; Fs.v (kernel/fs.c) is written
    against it. FsBlocks.v specifies the block allocator, FsMap.v the map from the
    blocks of a file to the blocks of the disk, FsFile.v reading and writing: what
    writei stores readi reads back. Mkfs.v (mkfs/mkfs.c) builds an image; MkfsProps.v
    shows that the image is a file system with the given files. Virtio.v is the disk
    driver (kernel/virtio_disk.c) and the device it talks to, VirtioProps.v the
    invariant of its rings, VirtioRun.v its runs, in which processes, the interrupt
    handler and the device interleave; [Bio.virtio_disk_rw] is a whole transfer as the
    buffer cache sees it.

    Processes and devices. Kernel.v has the state of the whole kernel; UserMem.v the
    user memory of the running process; Example.v a small machine for the witnesses.
    Sched.v (sleep, wakeup, kill, the scheduler) with SchedProps.v, Proc.v (fork, exit,
    wait and the rest of kernel/proc.c) with ProcProps.v (address spaces and entries of
    the table are made and given back without losing a page) and ForkProps.v (the child
    is a copy of its parent, or nothing has happened), Uart.v (kernel/uart.c and
    console.c) with UartProps.v (the line editor, reads and writes of the console),
    Ring.v (ring buffers), Pipe.v (kernel/pipe.c) with PipeProps.v (a pipe is a bounded
    queue), File.v (kernel/file.c), Exec.v (kernel/exec.c), Sysfile.v
    (kernel/sysfile.c), Syscall.v (kernel/syscall.c and sysproc.c) with SyscallProps.v
    (the tracing of calls and sysinfo), Trap.v (kernel/trap.c and plic.c), Spinlock.v
    (kernel/spinlock.c), Printf.v (both printf.c).

    User programs. UserSys.v is the contract of the system calls they use ([Class
    UserSys]), with an instance of in-memory files; Ulib.v (user/ulib.c), Umalloc.v
    (user/umalloc.c) with UmallocProps.v (the free list and the blocks handed out stay
    disjoint), Grep.v, Utils.v (cat, wc, echo, ...), Find.v (find, ls), Pipeline.v
    (primes, xargs, pingpong). Sh.v is the shell: ShProps.v shows that the parser ends
    and that its strings are the words of the line, ShPrint.v that a printed command
    parses back, ShRun.v that programs are connected as the line says.

    ** Theorems

    A theorem whose comment starts with C and a number is a claim about the program; one
    with hypotheses is followed by a witness that applies it to a concrete state. Claims
    about defects (the log overflow, the byte a pipe loses, the lines grep ignores, the
    child that xargs leaves behind) are theorems about the code as it is.

    ** Not modelled

    Assembly (kernelvec.S, trampoline.S, swtch.S, entry.S, initcode.S, the stubs of
    usys.pl), because the models follow control flow across it; start.c and main.c,
    which set machine registers and call the initialisation of each component;
    ramdisk.c, which is not compiled in; init.c, a loop of fork, exec and wait; and the
    test programs (usertests, grind, forktest, stressfs, sysinfotest). *)

From stdpp Require Import base list gmap strings.
From Stdlib Require Import ZArith Lia.

#[local] Open Scope Z_scope.

(** ** Machine integers *)

(** C unsigned types wrap modulo their width. *)
Definition u8 (x : Z) : Z := x mod 2 ^ 8.
Definition u16 (x : Z) : Z := x mod 2 ^ 16.
Definition u32 (x : Z) : Z := x mod 2 ^ 32.
Definition u64 (x : Z) : Z := x mod 2 ^ 64.

(** Conversion to a signed C type of [w] bits (two's complement). *)
Definition sgn (w x : Z) : Z :=
  let y := x mod 2 ^ w in if y <? 2 ^ (w - 1) then y else y - 2 ^ w.
Definition s16 (x : Z) : Z := sgn 16 x.
Definition s32 (x : Z) : Z := sgn 32 x.

(** C truth value of an integer. *)
Definition nz (x : Z) : bool := negb (x =? 0).

(** Character codes of a literal. *)
Definition chars (s : string) : list Z :=
  (fun a => Z.of_N (Ascii.N_of_ascii a)) <$> String.list_ascii_of_string s.

(** ** State, panic and divergence *)

(** Outcome of a piece of kernel code: it returns a value and a new state, it
    calls [panic], or it never returns. *)
Inductive res (St A : Type) : Type :=
| Ok (a : A) (s : St)
| Panic (msg : string)
| Hang.
Arguments Ok {St A}.
Arguments Panic {St A}.
Arguments Hang {St A}.

Definition M (St A : Type) : Type := St -> res St A.

Definition ret {St A} (a : A) : M St A := fun s => Ok a s.
Definition panic {St A} (msg : string) : M St A := fun _ => Panic msg.
Definition hang {St A} : M St A := fun _ => Hang.
Definition bind {St A B} (c : M St A) (k : A -> M St B) : M St B :=
  fun s => match c s with
           | Ok a s' => k a s'
           | Panic msg => Panic msg
           | Hang => Hang
           end.
Definition gets {St A} (f : St -> A) : M St A := fun s => Ok (f s) s.
Definition modify {St} (f : St -> St) : M St unit := fun s => Ok tt (f s).

Declare Scope xv6_scope.
Delimit Scope xv6_scope with xv6.
Notation "x <- c ;; k" := (bind c (fun x => k))
  (at level 89, c at next level, right associativity) : xv6_scope.
Notation "c ;;; k" := (bind c (fun _ => k))
  (at level 89, right associativity) : xv6_scope.
#[global] Open Scope xv6_scope.

(** ** Loops *)

(** One pass through a C loop body either goes round again or leaves. *)
Inductive ctl (S R : Type) : Type :=
| Next (s : S)
| Brk (r : R).
Arguments Next {S R}.
Arguments Brk {S R}.

(** [loopM body d] runs at most [2 ^ d] passes; the doubling keeps the depth
    small while the loop stops as soon as the body leaves. *)
Fixpoint loopM {St S R} (body : S -> M St (ctl S R)) (d : nat) (s : S)
  : M St (ctl S R) :=
  match d with
  | O => body s
  | Datatypes.S d' =>
      c <- loopM body d' s ;;
      match c with
      | Next s' => loopM body d' s'
      | Brk r => ret (Brk r)
      end
  end.

(** No C loop over a 64-bit counter makes more than [2 ^ 64] passes without
    repeating its state, so a loop that does not leave within that bound hangs. *)
Definition loop_depth : nat := 64%nat.

Definition while_ {St S R} (body : S -> M St (ctl S R)) (s : S) : M St R :=
  c <- loopM body loop_depth s ;;
  match c with Brk r => ret r | Next _ => hang end.

(** A C [for] loop over [n] consecutive values from [i], whose body always runs to
    its end. *)
Fixpoint for_ {St} (i : Z) (n : nat) (body : Z -> M St unit) : M St unit :=
  match n with
  | O => ret tt
  | S n' => body i ;;; for_ (i + 1) n' body
  end.

(** A statement guarded by an [if] without [else]. *)
Definition when {St} (b : bool) (c : M St unit) : M St unit := if b then c else ret tt.

(** Code of a component run on the part of a larger state it owns. *)
Definition zoom {St Sub A} (get : St -> Sub) (set : Sub -> St -> St) (c : M Sub A) : M St A :=
  fun s => match c (get s) with
           | Ok a t => Ok a (set t s)
           | Panic msg => Panic msg
           | Hang => Hang
           end.

(** ** Field update of C structures *)

(** A structure type gives its eta-expansion once; [x <| f := v |>] is [x] with
    field [f] set to [v]. *)
Class Eta (T : Type) : Type := eta : T -> T.
Class Setter {T F : Type} (proj : T -> F) : Type := set_field : F -> T -> T.
Ltac build_setter :=
  lazymatch goal with
  | |- @Setter ?T ?F ?proj =>
      let i := constr:(_ : Eta T) in
      let e := eval red in i in
      lazymatch (eval pattern proj in e) with
      | ?g _ => let r := eval cbv beta in (fun v : F => g (fun _ => v)) in exact r
      end
  end.
#[export] Hint Extern 0 (Setter _) => build_setter : typeclass_instances.
Notation "x <| f := v |>" := (set_field (proj := f) v x)
  (at level 12, left associativity, f at level 9) : xv6_scope.

(** ** Total-correctness predicate transformer *)

(** [wp c Q s]: from state [s], [c] returns (no panic, no divergence) and the
    result satisfies [Q]. *)
Definition wp {St A} (c : M St A) (Q : A -> St -> Prop) (s : St) : Prop :=
  match c s with Ok a s' => Q a s' | _ => False end.

(** ** Rules of the predicate transformer *)

Lemma wp_ret {St A} (a : A) Q (s : St) : Q a s -> wp (ret a) Q s.
Proof. done. Qed.

Lemma wp_bind {St A B} (c : M St A) (k : A -> M St B) Q s :
  wp c (fun a s' => wp (k a) Q s') s -> wp (bind c k) Q s.
Proof. unfold wp, bind. by destruct (c s). Qed.

Lemma wp_bind_inv {St A B} (c : M St A) (k : A -> M St B) Q s :
  wp (bind c k) Q s -> wp c (fun a s' => wp (k a) Q s') s.
Proof. unfold wp, bind. by destruct (c s). Qed.

Lemma wp_gets {St A} (f : St -> A) Q (s : St) : Q (f s) s -> wp (gets f) Q s.
Proof. done. Qed.

Lemma wp_modify {St} (f : St -> St) Q (s : St) : Q tt (f s) -> wp (modify f) Q s.
Proof. done. Qed.

Lemma wp_zoom {St Sub A} (get : St -> Sub) (set : Sub -> St -> St) (c : M Sub A) Q s :
  wp c (fun a t => Q a (set t s)) (get s) -> wp (zoom get set c) Q s.
Proof. unfold wp, zoom. by destruct (c (get s)). Qed.

Lemma wp_mono {St A} (c : M St A) (P Q : A -> St -> Prop) s :
  wp c P s -> (forall a s', P a s' -> Q a s') -> wp c Q s.
Proof. unfold wp. destruct (c s); naive_solver. Qed.

(** Group two commands of a sequence. *)
Lemma wp_seq2 {St A B C} (c1 : M St A) (c2 : M St B) (k : M St C) Q s :
  wp (c1 ;;; c2) (fun _ s' => wp k Q s') s -> wp (c1 ;;; c2 ;;; k) Q s.
Proof. unfold wp, bind. destruct (c1 s) as [a s'|m|]; [|done..]. by destruct (c2 s'). Qed.

Lemma wp_seq3 {St A B C D} (c1 : M St A) (c2 : M St B) (c3 : M St C) (k : M St D) Q s :
  wp (c1 ;;; c2 ;;; c3) (fun _ s' => wp k Q s') s -> wp (c1 ;;; c2 ;;; c3 ;;; k) Q s.
Proof.
  unfold wp, bind. destruct (c1 s) as [a s1|m|]; [|done..]. destruct (c2 s1) as [b s2|m|]; [|done..].
  by destruct (c3 s2).
Qed.

Lemma wp_elim {St A} (c : M St A) (Q : A -> St -> Prop) s :
  wp c Q s -> exists a s', c s = Ok a s' /\ Q a s'.
Proof. unfold wp. destruct (c s); naive_solver. Qed.

(** The state a program ends in. *)
Definition run {St A} (c : M St A) (s : St) : St :=
  match c s with Ok _ s' => s' | _ => s end.

Lemma wp_run {St A} (c : M St A) (Q : A -> St -> Prop) s :
  wp c Q s -> exists a, c s = Ok a (run c s) /\ Q a (run c s).
Proof. unfold wp, run. destruct (c s); naive_solver. Qed.

Lemma wp_at {St A} (c : M St A) (Q : A -> St -> Prop) s a s' : wp c Q s -> c s = Ok a s' -> Q a s'.
Proof. unfold wp. by destruct (c s); intros; simplify_eq. Qed.
Lemma wp_intro {St A} (c : M St A) (Q : A -> St -> Prop) s a s' :
  c s = Ok a s' -> Q a s' -> wp c Q s.
Proof. unfold wp. by intros ->. Qed.

(** Invariant rule for counted loops. *)
Lemma wp_for {St} (I : Z -> St -> Prop) (body : Z -> M St unit) n i s :
  I i s ->
  (forall j st, i <= j < i + Z.of_nat n -> I j st -> wp (body j) (fun _ st' => I (j + 1) st') st) ->
  wp (for_ i n body) (fun _ s' => I (i + Z.of_nat n) s') s.
Proof.
  revert i s. induction n as [|n IH]; intros i s HI Hb; simpl for_.
  - apply wp_ret. by rewrite Z.add_0_r.
  - apply wp_bind. eapply wp_mono; [apply Hb; [lia|done]|]. intros [] s' HI'.
    replace (i + Z.of_nat (S n)) with (i + 1 + Z.of_nat n) by lia.
    apply IH; [done|]. intros j st Hj. apply Hb. lia.
Qed.

Section loop_rule.
Context {St S R : Type} (body : S -> M St (ctl S R)).
Context (I : Z -> S -> St -> Prop) (Q : R -> St -> Prop).
Hypothesis body_ok : forall n s st, I n s st ->
  wp (body s) (fun c st' => match c with
    | Next s' => exists n', I n' s' st' /\ 0 <= n' < n
    | Brk r => Q r st' end) st.

(** [2 ^ d] passes decrease the bound by at least [2 ^ d]. *)
Lemma wp_loopM d n s st : I n s st ->
  wp (loopM body d s) (fun c st' => match c with
    | Next s' => exists n', I n' s' st' /\ 0 <= n' <= n - 2 ^ Z.of_nat d
    | Brk r => Q r st' end) st.
Proof using body_ok.
  revert n s st. induction d as [|d IH]; intros n s st HI; simpl.
  - eapply wp_mono; [by apply body_ok|]. intros [s'|r] st'; [|done].
    intros (n' & ? & ?). exists n'. split; [done|]. change (2 ^ Z.of_nat 0) with 1. lia.
  - apply wp_bind. eapply wp_mono; [by apply IH|]. intros [s'|r] st' H; [|done].
    destruct H as (n' & HI' & Hm). eapply wp_mono; [by apply IH|].
    intros [s''|r] st''; [|done]. intros (n'' & ? & ?). exists n''. split; [done|].
    rewrite Nat2Z.inj_succ, Z.pow_succ_r by lia. lia.
Qed.

(** Loop rule: an invariant indexed by a decreasing bound, and the exit condition. *)
Lemma wp_while_idx n s st : I n s st -> 0 <= n < 2 ^ 64 -> wp (while_ body s) Q st.
Proof using body_ok.
  intros HI Hm. apply wp_bind. eapply wp_mono; [by apply wp_loopM|].
  intros [s'|r] st' H; [|done]. destruct H as (n' & _ & H).
  change (Z.of_nat loop_depth) with 64 in H. lia.
Qed.
End loop_rule.

(** The rule for a bound computed from the loop variables and the state. *)
Lemma wp_while {St S R} (body : S -> M St (ctl S R)) (I : S -> St -> Prop) (m : S -> St -> Z)
  (Q : R -> St -> Prop) :
  (forall s st, I s st ->
    wp (body s) (fun c st' => match c with
      | Next s' => I s' st' /\ 0 <= m s' st' < m s st
      | Brk r => Q r st' end) st) ->
  forall s st, I s st -> 0 <= m s st < 2 ^ 64 -> wp (while_ body s) Q st.
Proof.
  intros Hb s st HI Hm.
  apply (wp_while_idx body (fun n s st => I s st /\ n = m s st) Q) with (m s st); [|done|done].
  intros n s' st' [HI' ->]. eapply wp_mono; [by apply Hb|].
  intros [s''|r] st''; [|done]. intros [? ?]. by exists (m s'' st'').
Qed.

(** Symbolic execution of a monadic program. *)
Ltac wp_step :=
  match goal with
  | |- wp (bind _ _) _ _ => apply wp_bind
  | |- wp (ret _) _ _ => apply wp_ret
  | |- wp (gets _) _ _ => apply wp_gets
  | |- wp (modify _) _ _ => apply wp_modify
  | |- wp (zoom _ _ _) _ _ => apply wp_zoom
  | |- wp (if ?b then _ else _) _ _ => destruct b eqn:?
  end.
Ltac wp_steps := repeat wp_step.

(** ** Arithmetic of widths *)

Lemma u8_range x : 0 <= u8 x < 256.
Proof. apply Z.mod_pos_bound. lia. Qed.
Lemma u32_range x : 0 <= u32 x < 2 ^ 32.
Proof. apply Z.mod_pos_bound. lia. Qed.
Lemma u64_range x : 0 <= u64 x < 2 ^ 64.
Proof. apply Z.mod_pos_bound. lia. Qed.
Lemma u8_small x : 0 <= x < 256 -> u8 x = x.
Proof. apply Z.mod_small. Qed.
Lemma u16_small x : 0 <= x < 2 ^ 16 -> u16 x = x.
Proof. apply Z.mod_small. Qed.
Lemma u32_small x : 0 <= x < 2 ^ 32 -> u32 x = x.
Proof. apply Z.mod_small. Qed.
Lemma u64_small x : 0 <= x < 2 ^ 64 -> u64 x = x.
Proof. apply Z.mod_small. Qed.
Lemma u8_u8 x : u8 (u8 x) = u8 x.
Proof. apply Z.mod_mod. lia. Qed.

Lemma sgn_small w x : 0 < w -> - 2 ^ (w - 1) <= x < 2 ^ (w - 1) -> sgn w x = x.
Proof.
  intros Hw Hx. unfold sgn.
  assert (2 ^ w = 2 * 2 ^ (w - 1)) as E.
  { rewrite <- Z.pow_succ_r by lia. f_equal. lia. }
  destruct (Z.le_gt_cases 0 x).
  - rewrite Z.mod_small by lia. destruct (Z.ltb_spec x (2 ^ (w - 1))); lia.
  - replace (x mod 2 ^ w) with (x + 2 ^ w).
    + destruct (Z.ltb_spec (x + 2 ^ w) (2 ^ (w - 1))); lia.
    + symmetry. rewrite <- (Z.mod_small (x + 2 ^ w) (2 ^ w)) by lia.
      rewrite <- (Z.mul_1_l (2 ^ w)) at 2. by rewrite Z.mod_add by lia.
Qed.

Lemma s32_small x : - 2 ^ 31 <= x < 2 ^ 31 -> s32 x = x.
Proof. intros. apply sgn_small; lia. Qed.

Lemma sgn_mod w x : 0 <= w -> sgn w x mod 2 ^ w = x mod 2 ^ w.
Proof.
  intros Hw. unfold sgn. pose proof (Z.pow_pos_nonneg 2 w).
  destruct (_ <? _); [by rewrite Z.mod_mod by lia|].
  rewrite <- (Z.mod_add _ 1) by lia. replace (x mod 2 ^ w - 2 ^ w + 1 * 2 ^ w) with (x mod 2 ^ w) by lia.
  by rewrite Z.mod_mod by lia.
Qed.
Lemma s32_mod x : s32 x mod 2 ^ 32 = x mod 2 ^ 32.
Proof. by apply sgn_mod. Qed.
Lemma s32_congr x y : x mod 2 ^ 32 = y mod 2 ^ 32 -> s32 x = s32 y.
Proof. unfold s32, sgn. by intros ->. Qed.
Lemma s32_idem x : s32 (s32 x) = s32 x.
Proof. apply s32_congr, s32_mod. Qed.
Lemma s32_range x : - 2 ^ 31 <= s32 x < 2 ^ 31.
Proof.
  unfold s32, sgn. pose proof (Z.mod_pos_bound x (2 ^ 32) ltac:(lia)).
  change (2 ^ (32 - 1)) with (2 ^ 31). destruct (Z.ltb_spec (x mod 2 ^ 32) (2 ^ 31)); lia.
Qed.

(** ** Bits *)

(** Masking with [~(2^k - 1)] rounds down to a multiple of [2 ^ k]. *)
Lemma land_lnot_ones a k : 0 <= k -> Z.land a (Z.lnot (2 ^ k - 1)) = a - a mod 2 ^ k.
Proof.
  intros Hk. rewrite <- Z.ldiff_land.
  replace (2 ^ k - 1) with (Z.ones k) by (rewrite Z.ones_equiv; lia).
  rewrite Z.ldiff_ones_r by done.
  rewrite Z.shiftr_div_pow2, Z.shiftl_mul_pow2 by done.
  pose proof (Z.div_mod a (2 ^ k)). lia.
Qed.

Lemma land_ones_mod a k : 0 <= k -> Z.land a (2 ^ k - 1) = a mod 2 ^ k.
Proof.
  intros. rewrite <- Z.land_ones by done. by rewrite Z.ones_equiv, <- Z.sub_1_r.
Qed.

(** Disjoint bit fields add. *)
Lemma lor_shifted a b k : 0 <= k -> 0 <= b < 2 ^ k -> Z.lor (a * 2 ^ k) b = a * 2 ^ k + b.
Proof.
  intros Hk Hb. symmetry. rewrite <- Z.lxor_lor; [apply Z.add_nocarry_lxor|].
  all: apply Z.bits_inj'; intros n Hn; rewrite Z.land_spec, Z.bits_0.
  all: destruct (Z.lt_ge_cases n k);
    [rewrite Z.mul_pow2_bits_low by lia; done|].
  all: replace (Z.testbit b n) with false; [by rewrite andb_false_r|].
  all: symmetry; destruct (decide (b = 0)) as [->|]; [by rewrite Z.bits_0|].
  all: apply Z.bits_above_log2; [lia|].
  all: apply Z.log2_lt_pow2; [lia|].
  all: eapply Z.lt_le_trans; [apply Hb|]; by apply Z.pow_le_mono_r.
Qed.

Lemma lor_range a b k : 0 <= k -> 0 <= a < 2 ^ k -> 0 <= b < 2 ^ k -> 0 <= Z.lor a b < 2 ^ k.
Proof.
  intros Hk Ha Hb. assert (0 <= Z.lor a b) by (apply Z.lor_nonneg; lia).
  split; [done|]. destruct (decide (Z.lor a b = 0)) as [->|Hne]; [by apply Z.pow_pos_nonneg|].
  apply Z.log2_lt_pow2; [lia|]. rewrite Z.log2_lor by lia.
  assert (forall x, 0 <= x < 2 ^ k -> x <> 0 -> Z.log2 x < k) as Hl.
  { intros x Hx Hx0. apply Z.log2_lt_pow2; lia. }
  destruct (decide (a = 0)) as [->|]; destruct (decide (b = 0)) as [->|].
  - by rewrite Z.lor_0_l in Hne.
  - rewrite Z.max_r by (change (Z.log2 0) with 0; apply Z.log2_nonneg). auto.
  - rewrite Z.max_l by (change (Z.log2 0) with 0; apply Z.log2_nonneg). auto.
  - apply Z.max_lub_lt; auto.
Qed.

Lemma land_range a b k : 0 <= k -> 0 <= a < 2 ^ k -> 0 <= Z.land a b < 2 ^ k.
Proof.
  intros Hk Ha.
  assert (Z.land a b = Z.land a b mod 2 ^ k) as ->; [|apply Z.mod_pos_bound, Z.pow_pos_nonneg; lia].
  rewrite <- Z.land_ones by done. rewrite <- Z.land_assoc, (Z.land_comm b), Z.land_assoc.
  by rewrite (Z.land_ones a), (Z.mod_small a) by done.
Qed.
