(* ===== verification/Ring.v ===== *)
(** * Ring buffers

    Pipes, the console input buffer and the uart's output buffer are arrays indexed
    by free-running counters modulo a power of two.  [rbuf] is the queue such an
    array holds; the lemmas say what a store behind it, and advancing or moving back
    a counter, do to the queue. *)

From stdpp Require Import base list.
From Stdlib Require Import ZArith Lia.
From S2P Require Import Prelude.

#[local] Open Scope Z_scope.

(** The [n] bytes from counter [r] in an array of [size] bytes. *)
Definition rbuf (size : Z) (data : list Z) (r : Z) (n : nat) : list Z :=
  (fun k => data !!! Z.to_nat ((r + Z.of_nat k) mod size)) <$> seq 0 n.

(** How far counter [w] is ahead of [r], both modulo [2 ^ width]. *)
Definition ahead (width r w : Z) : nat := Z.to_nat ((w - r) mod 2 ^ width).

Section ring.
Context (size : Z).
Hypothesis size_pos : 0 < size.

Lemma rbuf_length data r n : length (rbuf size data r n) = n.
Proof. unfold rbuf. by rewrite length_fmap, length_seq. Qed.

Lemma rbuf_pop data r n :
  rbuf size data r (S n) = data !!! Z.to_nat (r mod size) :: rbuf size data (r + 1) n.
Proof.
  unfold rbuf. rewrite <- cons_seq, fmap_cons, Z.add_0_r. f_equal.
  rewrite <- fmap_S_seq, <- list_fmap_compose. apply list_fmap_ext. intros i k _. simpl.
  do 3 f_equal. lia.
Qed.

Lemma rbuf_snoc data r n :
  rbuf size data r (S n) = rbuf size data r n ++ [data !!! Z.to_nat ((r + Z.of_nat n) mod size)].
Proof. unfold rbuf. rewrite seq_S, fmap_app. done. Qed.

Lemma slot_lt r : (Z.to_nat (r mod size) < Z.to_nat size)%nat.
Proof using size_pos. pose proof (Z.mod_pos_bound r size size_pos). lia. Qed.

(** Slots of different elements differ. *)
Lemma slot_ne r i j :
  (i < j)%nat -> Z.of_nat j - Z.of_nat i < size ->
  Z.to_nat ((r + Z.of_nat i) mod size) <> Z.to_nat ((r + Z.of_nat j) mod size).
Proof using size_pos.
  intros Hij Hs E.
  assert ((r + Z.of_nat i) mod size = (r + Z.of_nat j) mod size) as E'.
  { pose proof (Z.mod_pos_bound (r + Z.of_nat i) size size_pos).
    pose proof (Z.mod_pos_bound (r + Z.of_nat j) size size_pos). lia. }
  pose proof (Z.div_mod (r + Z.of_nat i) size ltac:(lia)) as D1.
  pose proof (Z.div_mod (r + Z.of_nat j) size ltac:(lia)) as D2. rewrite E' in D1.
  set (a := (r + Z.of_nat i) / size) in *. set (b := (r + Z.of_nat j) / size) in *.
  assert (Z.of_nat j - Z.of_nat i = size * (b - a)) as D by lia. clear D1 D2 E E'.
  destruct (Z.le_gt_cases (b - a) 0); nia.
Qed.

(** Storing behind the queue appends to it. *)
Lemma rbuf_push data r n c :
  length data = Z.to_nat size -> Z.of_nat n < size ->
  rbuf size (<[Z.to_nat ((r + Z.of_nat n) mod size) := c]> data) r (S n) = rbuf size data r n ++ [c].
Proof using size_pos.
  intros Hl Hn. rewrite rbuf_snoc. f_equal.
  - unfold rbuf. apply list_fmap_ext. intros i k Hk. apply lookup_seq in Hk as [-> Hi]. simpl.
    apply list_lookup_total_insert_ne. symmetry. apply slot_ne; lia.
  - f_equal. apply list_lookup_total_insert_eq. rewrite Hl. apply slot_lt.
Qed.

(** Counters only matter modulo a multiple of the size. *)
Lemma mod_slot m r : (size | m) -> 0 < m -> (r mod m) mod size = r mod size.
Proof using size_pos. intros Hd Hm. symmetry. by apply Znumtheory.Zmod_div_mod. Qed.

Lemma rbuf_mod data m r n : (size | m) -> 0 < m -> rbuf size data (r mod m) n = rbuf size data r n.
Proof using size_pos.
  intros Hd Hm. unfold rbuf. apply list_fmap_ext. intros i k _. f_equal. f_equal.
  rewrite <- (Z.add_mod_idemp_l r), <- (Z.add_mod_idemp_l (r mod m)) by lia. by rewrite mod_slot.
Qed.
End ring.

(** ** Counters *)

Section counters.
Context (w : Z).
Hypothesis w_pos : 0 < w.

Lemma pow_pos_w : 0 < 2 ^ w.
Proof using w_pos. apply Z.pow_pos_nonneg; lia. Qed.

Lemma ahead_refl r : ahead w r r = 0%nat.
Proof. unfold ahead. rewrite Z.sub_diag. by rewrite Zmod_0_l. Qed.

Lemma ahead_zero r x : 0 <= r < 2 ^ w -> 0 <= x < 2 ^ w -> ahead w r x = 0%nat -> x = r.
Proof using w_pos.
  intros Hr Hx E. unfold ahead in E. pose proof (Z.mod_pos_bound (x - r) (2 ^ w) pow_pos_w).
  assert ((x - r) mod 2 ^ w = 0) as D by lia. apply Z.mod_divide in D as [k D]; [|lia].
  assert (-1 < k < 1) by nia. assert (k = 0) by lia. subst k. lia.
Qed.

(** A counter [n] ahead of [r] is [r + n], wrapped. *)
Lemma ahead_eq r x : 0 <= x < 2 ^ w -> x = (r + Z.of_nat (ahead w r x)) mod 2 ^ w.
Proof using w_pos.
  intros Hx. unfold ahead. rewrite Z2Nat.id by apply Z.mod_pos_bound, pow_pos_w.
  pose proof pow_pos_w. rewrite Z.add_mod_idemp_r by lia. replace (r + (x - r)) with x by lia.
  by rewrite Z.mod_small.
Qed.

Lemma ahead_add r n : Z.of_nat n < 2 ^ w -> ahead w r ((r + Z.of_nat n) mod 2 ^ w) = n.
Proof using w_pos.
  intros Hn. unfold ahead. pose proof pow_pos_w. rewrite Zminus_mod_idemp_l.
  replace (r + Z.of_nat n - r) with (Z.of_nat n) by lia. rewrite Z.mod_small; lia.
Qed.

Lemma ahead_mod_l r x : ahead w (r mod 2 ^ w) x = ahead w r x.
Proof. unfold ahead. by rewrite Zminus_mod_idemp_r. Qed.

(** Advancing the front by one. *)
Lemma ahead_pop r x n : ahead w r x = S n -> ahead w ((r + 1) mod 2 ^ w) x = n.
Proof using w_pos.
  intros E. rewrite ahead_mod_l. unfold ahead in *. pose proof pow_pos_w as Hp.
  pose proof (Z.mod_pos_bound (x - r) (2 ^ w) Hp).
  replace (x - (r + 1)) with ((x - r) - 1) by lia. rewrite <- Zminus_mod_idemp_l.
  rewrite Z.mod_small; lia.
Qed.

(** Advancing the back by one. *)
Lemma ahead_push r x : Z.of_nat (ahead w r x) + 1 < 2 ^ w ->
  ahead w r ((x + 1) mod 2 ^ w) = S (ahead w r x).
Proof using w_pos.
  intros Hn. unfold ahead in *. pose proof pow_pos_w as Hp.
  pose proof (Z.mod_pos_bound (x - r) (2 ^ w) Hp). rewrite Zminus_mod_idemp_l.
  replace (x + 1 - r) with ((x - r) + 1) by lia. rewrite <- Z.add_mod_idemp_l by lia.
  rewrite Z.mod_small; lia.
Qed.

(** Moving the back down by one. *)
Lemma ahead_back r x n : ahead w r x = S n -> ahead w r ((x - 1) mod 2 ^ w) = n.
Proof using w_pos.
  intros E. unfold ahead in *. pose proof pow_pos_w as Hp.
  pose proof (Z.mod_pos_bound (x - r) (2 ^ w) Hp). rewrite Zminus_mod_idemp_l.
  replace (x - 1 - r) with ((x - r) - 1) by lia. rewrite <- Zminus_mod_idemp_l.
  rewrite Z.mod_small; lia.
Qed.
End counters.
