(* ===== verification/Safe.v ===== *)
(** * Correctness up to panic

    [safe c Q s]: from [s], [c] panics or returns with a result that satisfies [Q]; it
    does not run forever.  Code that rejects bad input by panicking is specified
    with it. *)

From stdpp Require Import base list.
From Stdlib Require Import ZArith Lia.
From S2P Require Import Prelude.

#[local] Open Scope Z_scope.

Definition safe {St A} (c : M St A) (Q : A -> St -> Prop) (s : St) : Prop :=
  match c s with Ok a s' => Q a s' | Panic _ => True | Hang => False end.

Lemma wp_safe {St A} (c : M St A) (Q : A -> St -> Prop) s : wp c Q s -> safe c Q s.
Proof. unfold wp, safe. by destruct (c s). Qed.
Lemma safe_at {St A} (c : M St A) (Q : A -> St -> Prop) s a s' : safe c Q s -> c s = Ok a s' -> Q a s'.
Proof. unfold safe. by destruct (c s); intros; simplify_eq. Qed.
Lemma safe_ret {St A} (a : A) Q (s : St) : Q a s -> safe (ret a) Q s.
Proof. done. Qed.
Lemma safe_panic {St A} msg (Q : A -> St -> Prop) s : safe (panic msg) Q s.
Proof. done. Qed.
Lemma safe_gets {St A} (f : St -> A) Q (s : St) : Q (f s) s -> safe (gets f) Q s.
Proof. done. Qed.
Lemma safe_modify {St} (f : St -> St) Q (s : St) : Q tt (f s) -> safe (modify f) Q s.
Proof. done. Qed.
Lemma safe_bind {St A B} (c : M St A) (k : A -> M St B) Q s :
  safe c (fun a s' => safe (k a) Q s') s -> safe (bind c k) Q s.
Proof. unfold safe, bind. by destruct (c s). Qed.
Lemma safe_mono {St A} (c : M St A) (P Q : A -> St -> Prop) s :
  safe c P s -> (forall a s', P a s' -> Q a s') -> safe c Q s.
Proof. unfold safe. destruct (c s); naive_solver. Qed.

Section loop_rule.
Context {St S R : Type} (body : S -> M St (ctl S R)).
Context (I : S -> St -> Prop) (m : S -> St -> Z) (Q : R -> St -> Prop).
Hypothesis body_ok : forall s st, I s st ->
  safe (body s) (fun c st' => match c with
    | Next s' => I s' st' /\ 0 <= m s' st' < m s st
    | Brk r => Q r st' end) st.

Lemma safe_loopM d s st : I s st ->
  safe (loopM body d s) (fun c st' => match c with
    | Next s' => I s' st' /\ 0 <= m s' st' <= m s st - 2 ^ Z.of_nat d
    | Brk r => Q r st' end) st.
Proof using body_ok.
  revert s st. induction d as [|d IH]; intros s st HI; simpl.
  - eapply safe_mono; [by apply body_ok|]. intros [s'|r] st'; [|done].
    intros (? & ?). split; [done|]. change (2 ^ Z.of_nat 0) with 1. lia.
  - apply safe_bind. eapply safe_mono; [by apply IH|]. intros [s'|r] st' H; [|done].
    destruct H as (HI' & Hm). eapply safe_mono; [by apply IH|].
    intros [s''|r] st''; [|done]. intros (? & ?). split; [done|].
    rewrite Nat2Z.inj_succ, Z.pow_succ_r by lia. lia.
Qed.

Lemma safe_while s st : I s st -> 0 <= m s st < 2 ^ 64 -> safe (while_ body s) Q st.
Proof using body_ok.
  intros HI Hm. apply safe_bind. eapply safe_mono; [by apply safe_loopM|].
  intros [s'|r] st' H; [|done]. destruct H as (_ & H).
  change (Z.of_nat loop_depth) with 64 in H. lia.
Qed.
End loop_rule.

Ltac safe_step :=
  match goal with
  | |- safe (bind _ _) _ _ => apply safe_bind
  | |- safe (ret _) _ _ => apply safe_ret
  | |- safe (panic _) _ _ => apply safe_panic
  | |- safe (gets _) _ _ => apply safe_gets
  | |- safe (modify _) _ _ => apply safe_modify
  end.
Ltac safe_steps := repeat safe_step; cbv beta.
