(* ===== verification/Printf.v ===== *)
(** * Formatted output (kernel/printf.c, user/printf.c)

    [printf] as the list of characters it hands to [consputc] or [putc], with the
    variable arguments as a list of tagged values.  The digit loop is the C
    do-while loop over a 32-bit unsigned value. *)

From stdpp Require Import base list strings.
From Stdlib Require Import ZArith Lia.
From S2P Require Import Prelude.

#[local] Open Scope Z_scope.

(** A variable argument: an integer, or a string pointer. *)
Inductive arg : Type := AInt (x : Z) | AStr (s : option (list Z)).

(** ** Integers *)

(** The do-while loop filling [buf]; a 32-bit value has at most 32 digits. *)
Fixpoint digit_loop (fuel : nat) (digits : list Z) (x base : Z) (buf : list Z) : list Z :=
  match fuel with
  | O => buf
  | S fuel' =>
      let buf := buf ++ [digits !!! Z.to_nat (x mod base)] in
      let x := x / base in
      if x =? 0 then buf else digit_loop fuel' digits x base buf
  end.

(** The common body of the two [printint]s. *)
Definition printint_with (digits : list Z) (xx base : Z) (sign : bool) : list Z :=
  let neg := sign && (xx <? 0) in
  let x := if neg then u32 (- xx) else u32 xx in
  let buf := digit_loop 32 digits x base [] in
  let buf := if neg then buf ++ [45] else buf in
  reverse buf.

(** The shift of [printptr], [n] nibbles left. *)
Fixpoint printptr_with (digits : list Z) (n : nat) (x : Z) : list Z :=
  match n with
  | O => []
  | S n' => digits !!! Z.to_nat (Z.shiftr x 60) :: printptr_with digits n' (u64 (Z.shiftl x 4))
  end.

(** A string argument: its characters up to the NUL, or a fixed text for a null
    pointer. *)
Fixpoint to_nul (s : list Z) : list Z :=
  match s with
  | [] => []
  | c :: s' => if c =? 0 then [] else c :: to_nul s'
  end.
Definition print_str (s : option (list Z)) : list Z :=
  match s with Some s => to_nul s | None => chars "(null)" end.

(** ** kernel/printf.c *)

Definition kdigits : list Z := chars "0123456789abcdef".
Definition kprintint (xx base : Z) (sign : bool) : list Z := printint_with kdigits xx base sign.
Definition kprintptr (x : Z) : list Z := chars "0x" ++ printptr_with kdigits 16 x.

(** The format loop; [None] when an argument is missing or of the wrong kind,
    which C leaves undefined. *)
Fixpoint kprintf (fmt : list Z) (ap : list arg) : option (list Z) :=
  match fmt with
  | [] => Some []
  | c :: fmt' =>
      if c =? 0 then Some []
      else if negb (c =? 37) then (fun out => c :: out) <$> kprintf fmt' ap
      else
        match fmt' with
        | [] => Some []
        | c :: fmt' =>
            if c =? 0 then Some []
            else if c =? 100 (* d *) then
              match ap with
              | AInt x :: ap => (fun out => kprintint (s32 x) 10 true ++ out) <$> kprintf fmt' ap
              | _ => None
              end
            else if c =? 120 (* x *) then
              match ap with
              | AInt x :: ap => (fun out => kprintint (s32 x) 16 true ++ out) <$> kprintf fmt' ap
              | _ => None
              end
            else if c =? 112 (* p *) then
              match ap with
              | AInt x :: ap => (fun out => kprintptr (u64 x) ++ out) <$> kprintf fmt' ap
              | _ => None
              end
            else if c =? 115 (* s *) then
              match ap with
              | AStr s :: ap => (fun out => print_str s ++ out) <$> kprintf fmt' ap
              | _ => None
              end
            else if c =? 37 then (fun out => 37 :: out) <$> kprintf fmt' ap
            else (fun out => 37 :: c :: out) <$> kprintf fmt' ap
        end
  end.

(** ** user/printf.c *)

Definition udigits : list Z := chars "0123456789ABCDEF".
Definition printint (xx base : Z) (sgn : bool) : list Z := printint_with udigits xx base sgn.
Definition printptr (x : Z) : list Z := chars "0x" ++ printptr_with udigits 16 x.

(** [vprintf]: [state] is true after a percent sign. *)
Fixpoint vprintf (state : bool) (fmt : list Z) (ap : list arg) : option (list Z) :=
  match fmt with
  | [] => Some []
  | c :: fmt' =>
      if c =? 0 then Some []
      else if negb state then
        (if c =? 37 then vprintf true fmt' ap else (fun out => c :: out) <$> vprintf false fmt' ap)
      else if c =? 100 (* d *) then
        match ap with
        | AInt x :: ap => (fun out => printint (s32 x) 10 true ++ out) <$> vprintf false fmt' ap
        | _ => None
        end
      else if c =? 108 (* l *) then
        match ap with
        | AInt x :: ap => (fun out => printint (s32 x) 10 false ++ out) <$> vprintf false fmt' ap
        | _ => None
        end
      else if c =? 120 (* x *) then
        match ap with
        | AInt x :: ap => (fun out => printint (s32 x) 16 false ++ out) <$> vprintf false fmt' ap
        | _ => None
        end
      else if c =? 112 (* p *) then
        match ap with
        | AInt x :: ap => (fun out => printptr (u64 x) ++ out) <$> vprintf false fmt' ap
        | _ => None
        end
      else if c =? 115 (* s *) then
        match ap with
        | AStr s :: ap => (fun out => print_str s ++ out) <$> vprintf false fmt' ap
        | _ => None
        end
      else if c =? 99 (* c *) then
        match ap with
        | AInt x :: ap => (fun out => u8 x :: out) <$> vprintf false fmt' ap
        | _ => None
        end
      else if c =? 37 then (fun out => c :: out) <$> vprintf false fmt' ap
      else (fun out => 37 :: c :: out) <$> vprintf false fmt' ap
  end.
Definition printf (fmt : list Z) (ap : list arg) : option (list Z) := vprintf false fmt ap.

(** [atoi] (user/ulib.c): the value of the leading decimal digits. *)
Fixpoint atoi_from (n : Z) (s : list Z) : Z :=
  match s with
  | c :: s' => if (48 <=? c) && (c <=? 57) then atoi_from (s32 (n * 10 + c - 48)) s' else n
  | [] => n
  end.
Definition atoi (s : list Z) : Z := atoi_from 0 s.

(** ** Correctness *)

(** The value of a list of digits, least significant first. *)
Fixpoint val_le (base : Z) (l : list Z) : Z :=
  match l with
  | [] => 0
  | d :: l' => d + base * val_le base l'
  end.

(** The digits of [x], least significant first, none for 0. *)
Definition digit_of (digits : list Z) (d : Z) : Z := digits !!! Z.to_nat d.

Section digits.
Context (digits : list Z) (base : Z).
Hypothesis base_ok : 2 <= base.

(** The loop appends the characters of the digits of [x]. *)
Lemma digit_loop_spec fuel x buf :
  0 <= x < base ^ Z.of_nat fuel -> (0 < fuel)%nat ->
  exists ds : list Z, digit_loop fuel digits x base buf = buf ++ (digit_of digits <$> ds) /\
    Forall (fun d => 0 <= d < base) ds /\ val_le base ds = x /\ (0 < length ds <= fuel)%nat /\
    (forall k, x < base ^ Z.of_nat k -> (0 < k)%nat -> (length ds <= k)%nat).
Proof using base_ok.
  revert x buf. induction fuel as [|fuel IH]; intros x buf Hx Hf; [lia|]. cbn [digit_loop].
  pose proof (Z.div_mod x base ltac:(lia)) as D. pose proof (Z.mod_pos_bound x base ltac:(lia)).
  destruct (Z.eqb_spec (x / base) 0) as [E|E].
  - exists [x mod base]. split_and!; [done| |cbn; lia|cbn; lia|cbn; lia|intros; cbn; lia]. by constructor.
  - rewrite Nat2Z.inj_succ, Z.pow_succ_r in Hx by lia.
    assert (0 <= x / base < base ^ Z.of_nat fuel) as Hx'.
    { split; [apply Z.div_pos; lia|]. apply Z.div_lt_upper_bound; lia. }
    destruct fuel as [|fuel]; [change (base ^ Z.of_nat 0) with 1 in Hx'; lia|].
    destruct (IH (x / base) (buf ++ [digits !!! Z.to_nat (x mod base)]) Hx' ltac:(lia))
      as (ds & -> & Hds & Hv & Hl & Hk).
    exists (x mod base :: ds). split_and!.
    + by rewrite <- app_assoc.
    + by constructor.
    + cbn. lia.
    + cbn. lia.
    + cbn. lia.
    + intros [|[|k]] Hlt Hpos; [lia| |].
      * change (Z.of_nat 1) with 1 in Hlt. rewrite Z.pow_1_r in Hlt. rewrite Z.div_small in E by lia. lia.
      * cbn [length]. apply le_n_S, Hk; [|lia]. rewrite Nat2Z.inj_succ, Z.pow_succ_r in Hlt by lia.
        apply Z.div_lt_upper_bound; lia.
Qed.
End digits.

(** Characters of decimal digits. *)
Lemma decimal_digit digits d :
  (digits = kdigits \/ digits = udigits) -> 0 <= d < 10 -> digit_of digits d = 48 + d.
Proof.
  intros Hd H. assert (d = 0 \/ d = 1 \/ d = 2 \/ d = 3 \/ d = 4 \/ d = 5 \/ d = 6 \/ d = 7 \/ d = 8 \/ d = 9)
    as Hc by lia.
  by destruct Hd as [-> | ->]; repeat destruct Hc as [-> | Hc]; subst.
Qed.

(** [atoi] reads decimal digits with 32-bit wrap-around. *)
Lemma atoi_from_digits ds n :
  Forall (fun d => 0 <= d < 10) ds -> s32 n = n ->
  atoi_from n ((fun d => 48 + d) <$> reverse ds) = s32 (n * 10 ^ Z.of_nat (length ds) + val_le 10 ds).
Proof.
  revert n. induction ds as [|d ds IH] using rev_ind; intros n Hds Hn.
  - cbn. by rewrite Z.mul_1_r, Z.add_0_r.
  - apply Forall_app in Hds as [Hds [Hd _]%Forall_cons].
    rewrite reverse_snoc, fmap_cons. cbn [atoi_from].
    rewrite (proj2 (Z.leb_le 48 (48 + d))), (proj2 (Z.leb_le (48 + d) 57)) by lia. cbn [andb].
    rewrite IH; [|done|apply s32_idem]. rewrite length_app, Nat2Z.inj_add. cbn [length].
    assert (forall l, val_le 10 (l ++ [d]) = val_le 10 l + 10 ^ Z.of_nat (length l) * d) as Hv.
    { induction l as [|e l IHl]; cbn [val_le app length]; [change (10 ^ Z.of_nat 0) with 1; lia|].
      rewrite IHl, Nat2Z.inj_succ, Z.pow_succ_r by lia. lia. }
    rewrite Hv. apply s32_congr. rewrite Z.add_mod, Z.mul_mod, s32_mod, <- Z.mul_mod, <- Z.add_mod by lia.
    f_equal. rewrite Z.pow_add_r by lia. change (10 ^ Z.of_nat 1) with 10. lia.
Qed.

(** [printint] in base 10: the sign, then digits that [atoi] reads back. *)
Lemma printint_with_decimal digits x :
  (digits = kdigits \/ digits = udigits) -> - 2 ^ 31 <= x < 2 ^ 31 ->
  exists l, printint_with digits x 10 true = (if x <? 0 then [45] else []) ++ l /\
    Forall (fun c => 48 <= c <= 57) l /\ (0 < length l <= 10)%nat /\ atoi l = s32 (Z.abs x).
Proof.
  intros Hd Hx. unfold printint_with. rewrite andb_true_l.
  set (y := if x <? 0 then u32 (- x) else u32 x).
  assert (y = Z.abs x) as Hy.
  { unfold y. destruct (Z.ltb_spec x 0); rewrite u32_small; lia. }
  destruct (digit_loop_spec digits 10 ltac:(lia) 32 y [] ltac:(lia) ltac:(lia)) as (ds & -> & Hds & Hv & Hl & Hk).
  rewrite app_nil_l. exists (digit_of digits <$> reverse ds). split_and!.
  - rewrite fmap_reverse. destruct (x <? 0); [|done]. by rewrite reverse_snoc.
  - apply Forall_fmap, Forall_reverse. eapply Forall_impl; [exact Hds|]. cbn. intros d Hd'.
    rewrite decimal_digit by done. lia.
  - rewrite length_fmap, length_reverse. lia.
  - rewrite length_fmap, length_reverse. apply Hk; [|lia]. rewrite Hy. change (10 ^ Z.of_nat 10) with 10000000000. lia.
  - assert (digit_of digits <$> reverse ds = (fun d => 48 + d) <$> reverse ds) as ->.
    { apply list_fmap_ext. intros i d Hi. apply decimal_digit; [done|].
      apply Forall_reverse in Hds. exact (proj1 (Forall_lookup _ _) Hds i d Hi). }
    unfold atoi. rewrite atoi_from_digits by done. rewrite Hv, Hy. by f_equal.
Qed.

(** In base 10 the two digit tables agree. *)
Lemma digit_loop_ext fuel d1 d2 x base buf :
  0 <= x -> 2 <= base -> (forall d, 0 <= d < base -> digit_of d1 d = digit_of d2 d) ->
  digit_loop fuel d1 x base buf = digit_loop fuel d2 x base buf.
Proof.
  intros Hx Hb He. revert x buf Hx. induction fuel as [|fuel IH]; intros x buf Hx; [done|]. cbn [digit_loop].
  fold (digit_of d1 (x mod base)) (digit_of d2 (x mod base)). rewrite He by (apply Z.mod_pos_bound; lia).
  destruct (_ =? _); [done|]. apply IH, Z.div_pos; lia.
Qed.

Lemma printint_tables x sign : printint x 10 sign = kprintint x 10 sign.
Proof.
  unfold printint, kprintint, printint_with. rewrite (digit_loop_ext 32 udigits kdigits); [done| |lia|].
  - destruct (sign && (x <? 0)); apply u32_range.
  - intros d Hd. by rewrite !decimal_digit by (done || (by left) || (by right)).
Qed.

(** C32: both [printint]s, on every 32-bit integer in base 10, print an optional
    minus sign and between one and ten decimal digits (so the 16-byte buffer is
    never overrun), and [atoi] reads the digits back as the absolute value (for the
    least integer, whose absolute value is not an [int], as that integer). *)
Theorem printint_atoi x :
  - 2 ^ 31 <= x < 2 ^ 31 ->
  exists l, kprintint x 10 true = (if x <? 0 then [45] else []) ++ l /\
    printint x 10 true = kprintint x 10 true /\
    Forall (fun c => 48 <= c <= 57) l /\ (0 < length l <= 10)%nat /\ atoi l = s32 (Z.abs x).
Proof.
  intros Hx. destruct (printint_with_decimal kdigits x) as (l & E & Hl); [by left|done|].
  exists l. split; [done|]. split; [apply printint_tables|done].
Qed.

Lemma printint_atoi_witness : atoi (chars "2147483648") = s32 (Z.abs (- 2 ^ 31)).
Proof.
  destruct (printint_atoi (- 2 ^ 31)) as (l & E & _ & _ & _ & H); [lia|].
  vm_compute in E. rewrite <- H. f_equal. by injection E.
Defined.
