(* ===== verification/Mem.v ===== *)
(** * Byte-addressed memory

    Physical memory as a finite map from addresses to bytes, with the
    little-endian loads and stores of RISC-V.  Plain [char] is unsigned on
    RISC-V, so every byte is read as a value in [0 .. 255]. *)

From stdpp Require Import base list gmap.
From Stdlib Require Import ZArith Lia.
From S2P Require Import Prelude.

#[local] Open Scope Z_scope.

(** RAM: an address that was never stored to reads as zero. *)
Abbreviation mem := (gmap Z Z).

Definition rd8 (m : mem) (a : Z) : Z := u8 (default 0 (m !! a)).
Definition wr8 (m : mem) (a v : Z) : mem := <[a := u8 v]> m.

(** Little-endian load and store of [n] bytes. *)
Fixpoint rd (m : mem) (a : Z) (n : nat) : Z :=
  match n with
  | O => 0
  | S n' => rd8 m a + 256 * rd m (a + 1) n'
  end.
Fixpoint wr (m : mem) (a : Z) (n : nat) (v : Z) : mem :=
  match n with
  | O => m
  | S n' => wr (wr8 m a v) (a + 1) n' (v / 256)
  end.

Definition rd16 (m : mem) (a : Z) : Z := rd m a 2.
Definition rd32 (m : mem) (a : Z) : Z := rd m a 4.
Definition rd64 (m : mem) (a : Z) : Z := rd m a 8.
Definition wr16 (m : mem) (a v : Z) : mem := wr m a 2 v.
Definition wr32 (m : mem) (a v : Z) : mem := wr m a 4 v.
Definition wr64 (m : mem) (a v : Z) : mem := wr m a 8 v.

Arguments rd8 : simpl never.
Arguments wr8 : simpl never.
Arguments rd16 : simpl never.
Arguments rd32 : simpl never.
Arguments rd64 : simpl never.
Arguments wr16 : simpl never.
Arguments wr32 : simpl never.
Arguments wr64 : simpl never.

(** [n] consecutive bytes, as a list. *)
Fixpoint bytes_at (m : mem) (a : Z) (n : nat) : list Z :=
  match n with
  | O => []
  | S n' => rd8 m a :: bytes_at m (a + 1) n'
  end.

(** Two memories agree on [a .. a+n-1]. *)
Definition agree (m m' : mem) (a n : Z) : Prop :=
  forall i, a <= i < a + n -> rd8 m i = rd8 m' i.

(** ** Single bytes *)

Lemma rd8_range m a : 0 <= rd8 m a < 256.
Proof. apply u8_range. Qed.

Lemma rd8_wr8 m a v b :
  rd8 (wr8 m a v) b = if decide (a = b) then u8 v else rd8 m b.
Proof.
  unfold rd8, wr8. rewrite lookup_insert. case_decide; [|done].
  simpl. apply u8_u8.
Qed.

Lemma rd8_wr8_eq m a v : rd8 (wr8 m a v) a = u8 v.
Proof. rewrite rd8_wr8. by case_decide. Qed.

Lemma rd8_wr8_ne m a v b : a <> b -> rd8 (wr8 m a v) b = rd8 m b.
Proof. intros. rewrite rd8_wr8. by case_decide. Qed.

(** ** Words *)

Lemma rd_range m a n : 0 <= rd m a n < 256 ^ Z.of_nat n.
Proof.
  revert a. induction n as [|n IH]; intros a; simpl; [done|].
  rewrite Nat2Z.inj_succ, Z.pow_succ_r by lia.
  pose proof (rd8_range m a). specialize (IH (a + 1)). lia.
Qed.

Lemma rd64_range m a : 0 <= rd64 m a < 2 ^ 64.
Proof. apply (rd_range m a 8). Qed.
Lemma rd32_range m a : 0 <= rd32 m a < 2 ^ 32.
Proof. apply (rd_range m a 4). Qed.

Lemma rd_ext m m' a n : agree m m' a (Z.of_nat n) -> rd m a n = rd m' a n.
Proof.
  revert a. induction n as [|n IH]; intros a H; simpl; [done|].
  rewrite (H a) by lia. rewrite (IH (a + 1)); [done|]. intros i Hi. apply H. lia.
Qed.

(** The bytes after a store: byte [i] of the value, or the old byte. *)
Lemma rd8_wr m a n v b :
  rd8 (wr m a n v) b =
  if decide (a <= b < a + Z.of_nat n) then u8 (v / 256 ^ (b - a)) else rd8 m b.
Proof.
  revert m a v. induction n as [|n IH]; intros m a v; cbn [wr].
  - case_decide; [lia|done].
  - rewrite IH, rd8_wr8. repeat case_decide; try lia; try done.
    + rewrite Z.div_div by lia. f_equal. f_equal.
      rewrite <- (Z.pow_1_r 256) at 1. rewrite <- Z.pow_add_r by lia. f_equal; lia.
    + subst b. rewrite Z.sub_diag. by rewrite Z.pow_0_r, Z.div_1_r.
Qed.

Lemma rd8_wr_ne m a n v b :
  ~ (a <= b < a + Z.of_nat n) -> rd8 (wr m a n v) b = rd8 m b.
Proof. intros. rewrite rd8_wr. by case_decide. Qed.

Lemma rd_wr_ne m a n v b k :
  b + Z.of_nat k <= a \/ a + Z.of_nat n <= b -> rd (wr m a n v) b k = rd m b k.
Proof. intros H. apply rd_ext. intros i Hi. apply rd8_wr_ne. lia. Qed.

Lemma rd_wr_eq m a n v : rd (wr m a n v) a n = v mod 256 ^ Z.of_nat n.
Proof.
  revert m a v. induction n as [|n IH]; intros m a v; cbn [wr rd].
  - by rewrite Z.mod_1_r.
  - rewrite IH, rd8_wr_ne, rd8_wr8_eq by lia.
    rewrite Nat2Z.inj_succ, Z.pow_succ_r by lia. unfold u8.
    change (2 ^ 8) with 256. rewrite Z.rem_mul_r by lia. lia.
Qed.

Lemma rd64_wr64_eq m a v : 0 <= v < 2 ^ 64 -> rd64 (wr64 m a v) a = v.
Proof. intros. unfold rd64, wr64. rewrite rd_wr_eq. by apply Z.mod_small. Qed.

Lemma rd64_wr64_ne m a v b :
  b + 8 <= a \/ a + 8 <= b -> rd64 (wr64 m a v) b = rd64 m b.
Proof. intros. by apply rd_wr_ne. Qed.

Lemma rd32_wr32_eq m a v : 0 <= v < 2 ^ 32 -> rd32 (wr32 m a v) a = v.
Proof. intros. unfold rd32, wr32. rewrite rd_wr_eq. by apply Z.mod_small. Qed.

Lemma rd32_wr32_ne m a v b :
  b + 4 <= a \/ a + 4 <= b -> rd32 (wr32 m a v) b = rd32 m b.
Proof. intros. by apply rd_wr_ne. Qed.

Lemma rd8_wr64_ne m a v b : ~ (a <= b < a + 8) -> rd8 (wr64 m a v) b = rd8 m b.
Proof. intros. by apply rd8_wr_ne. Qed.

Lemma rd_zero m a n :
  (forall i, a <= i < a + Z.of_nat n -> rd8 m i = 0) -> rd m a n = 0.
Proof.
  revert a. induction n as [|n IH]; intros a H; simpl; [done|].
  rewrite H, IH by (intros; apply H || lia; lia). done.
Qed.

(** ** Byte strings *)

Lemma length_bytes_at m a n : length (bytes_at m a n) = n.
Proof. revert a. induction n; intros; simpl; auto. Qed.

Lemma lookup_bytes_at m a n i :
  (i < n)%nat -> bytes_at m a n !! i = Some (rd8 m (a + Z.of_nat i)).
Proof.
  revert a i. induction n as [|n IH]; intros a [|i] Hi; simpl; try lia.
  - by rewrite Z.add_0_r.
  - rewrite IH by lia. do 2 f_equal. lia.
Qed.

Lemma bytes_at_ext m m' a b n :
  (forall i, 0 <= i < Z.of_nat n -> rd8 m (a + i) = rd8 m' (b + i)) ->
  bytes_at m a n = bytes_at m' b n.
Proof.
  revert a b. induction n as [|n IH]; intros a b H; simpl; [done|].
  f_equal.
  - specialize (H 0). rewrite !Z.add_0_r in H. apply H. lia.
  - apply IH. intros i Hi. specialize (H (i + 1)).
    rewrite !Z.add_assoc in H. rewrite <- !(Z.add_assoc _ 1 i), !(Z.add_comm 1 i), !Z.add_assoc.
    apply H. lia.
Qed.

Lemma bytes_at_app m a n k :
  bytes_at m a (n + k) = bytes_at m a n ++ bytes_at m (a + Z.of_nat n) k.
Proof.
  revert a. induction n as [|n IH]; intros a; simpl.
  - by rewrite Z.add_0_r.
  - rewrite IH. do 2 f_equal. f_equal. lia.
Qed.
