(* ===== verification/Str.v ===== *)
(** * kernel/string.c

    The kernel's memory and string routines over the byte memory of [Mem].
    Each loop of the C code is one structural recursion on its remaining count;
    the routines return the new memory (the C functions also return their
    destination argument unchanged). *)

From stdpp Require Import base list gmap strings.
From Stdlib Require Import ZArith Lia.
From S2P Require Import Prelude Mem.

#[local] Open Scope Z_scope.

(** [for(i = 0; i < n; i++) cdst[i] = c;] with [k] passes left. *)
Fixpoint memset_loop (m : mem) (dst c i : Z) (k : nat) : mem :=
  match k with
  | O => m
  | S k' => memset_loop (wr8 m (dst + i) c) dst c (i + 1) k'
  end.
Definition memset (m : mem) (dst c n : Z) : mem :=
  memset_loop m dst c 0 (Z.to_nat n).

(** [while(n-- > 0){ if( *s1 != *s2) return *s1 - *s2; s1++, s2++; }]. *)
Fixpoint memcmp_loop (m : mem) (s1 s2 : Z) (n : nat) : Z :=
  match n with
  | O => 0
  | S n' =>
      if negb (rd8 m s1 =? rd8 m s2) then rd8 m s1 - rd8 m s2
      else memcmp_loop m (s1 + 1) (s2 + 1) n'
  end.
Definition memcmp (m : mem) (v1 v2 n : Z) : Z := memcmp_loop m v1 v2 (Z.to_nat n).

(** [while(n-- > 0) *d++ = *s++;] *)
Fixpoint copy_up (m : mem) (d s : Z) (n : nat) : mem :=
  match n with
  | O => m
  | S n' => copy_up (wr8 m d (rd8 m s)) (d + 1) (s + 1) n'
  end.
(** [while(n-- > 0) *--d = *--s;] *)
Fixpoint copy_down (m : mem) (d s : Z) (n : nat) : mem :=
  match n with
  | O => m
  | S n' => copy_down (wr8 m (d - 1) (rd8 m (s - 1))) (d - 1) (s - 1) n'
  end.
Definition memmove (m : mem) (dst src n : Z) : mem :=
  if n =? 0 then m
  else if (src <? dst) && (dst <? src + n)
       then copy_down m (dst + n) (src + n) (Z.to_nat n)
       else copy_up m dst src (Z.to_nat n).

Definition memcpy (m : mem) (dst src n : Z) : mem := memmove m dst src n.

(** [while(n > 0 && *p && *p == *q) n--, p++, q++;] and the result. *)
Fixpoint strncmp (m : mem) (p q : Z) (n : nat) : Z :=
  match n with
  | O => 0
  | S n' =>
      if nz (rd8 m p) && (rd8 m p =? rd8 m q)
      then strncmp m (p + 1) (q + 1) n'
      else rd8 m p - rd8 m q
  end.

(** [while(n-- > 0) *s++ = 0;] *)
Fixpoint zero_fill (m : mem) (s : Z) (n : nat) : mem :=
  match n with
  | O => m
  | S n' => zero_fill (wr8 m s 0) (s + 1) n'
  end.
(** [while(n-- > 0 && ( *s++ = *t++) != 0);] followed by the zero fill. *)
Fixpoint strncpy (m : mem) (s t : Z) (n : nat) : mem :=
  match n with
  | O => m
  | S n' =>
      let c := rd8 m t in
      let m' := wr8 m s c in
      if c =? 0 then zero_fill m' (s + 1) n' else strncpy m' (s + 1) (t + 1) n'
  end.

(** [while(--n > 0 && ( *s++ = *t++) != 0); *s = 0;] with [k] = n - 1 at entry:
    after copying a NUL the pointer has moved past it. *)
Fixpoint safestrcpy_loop (m : mem) (s t : Z) (k : nat) : mem :=
  match k with
  | O => wr8 m s 0
  | S k' =>
      let c := rd8 m t in
      let m' := wr8 m s c in
      if c =? 0 then wr8 m' (s + 1) 0 else safestrcpy_loop m' (s + 1) (t + 1) k'
  end.
Definition safestrcpy (m : mem) (s t n : Z) : mem :=
  if n <=? 0 then m else safestrcpy_loop m s t (Z.to_nat n - 1).

(** [for(n = 0; s[n]; n++);]: [None] when no NUL is ever met. *)
Definition strlen (m : mem) (s : Z) : option Z :=
  match while_ (fun n => ret (if nz (rd8 m (s + n)) then Next (n + 1) else Brk n)) 0 tt with
  | Ok n _ => Some n
  | _ => None
  end.

(** ** What the routines are meant to do *)

(** A NUL-terminated string [bs] at address [s]. *)
Definition cstr (m : mem) (s : Z) (bs : list Z) : Prop :=
  (forall i b, bs !! i = Some b -> rd8 m (s + Z.of_nat i) = b /\ b <> 0) /\
  rd8 m (s + Z.of_nat (length bs)) = 0.

(** The prefix of a byte string before its first NUL. *)
Fixpoint upto_nul (bs : list Z) : list Z :=
  match bs with
  | [] => []
  | b :: bs' => if b =? 0 then [] else b :: upto_nul bs'
  end.

(** ** Lemmas *)

Lemma rd8_memset_loop m d c i k a :
  rd8 (memset_loop m d c i k) a =
  if decide (d + i <= a < d + i + Z.of_nat k) then u8 c else rd8 m a.
Proof.
  revert m i. induction k as [|k IH]; intros m i; cbn [memset_loop].
  - case_decide; [lia|done].
  - rewrite IH, rd8_wr8. repeat case_decide; done || lia.
Qed.

Lemma rd8_memset m d c n a : 0 <= n ->
  rd8 (memset m d c n) a = if decide (d <= a < d + n) then u8 c else rd8 m a.
Proof.
  intros. unfold memset. rewrite rd8_memset_loop. repeat case_decide; done || lia.
Qed.

Lemma rd8_memset_out m d c n a :
  0 <= n -> ~ (d <= a < d + n) -> rd8 (memset m d c n) a = rd8 m a.
Proof. intros. rewrite rd8_memset by done. by case_decide. Qed.

(** Forward copying is right when the destination starts at or below the
    source, or past its end. *)
Lemma rd8_copy_up m d s n a :
  d <= s \/ s + Z.of_nat n <= d ->
  rd8 (copy_up m d s n) a =
  if decide (d <= a < d + Z.of_nat n) then rd8 m (s + (a - d)) else rd8 m a.
Proof.
  revert m d s. induction n as [|n IH]; intros m d s H; cbn [copy_up].
  - case_decide; [lia|done].
  - rewrite IH by lia. repeat case_decide; try lia.
    + rewrite rd8_wr8_ne by lia. f_equal. lia.
    + replace a with d by lia. rewrite rd8_wr8_eq, u8_small by apply rd8_range.
      f_equal. lia.
    + by rewrite rd8_wr8_ne by lia.
Qed.

(** Backward copying (the arguments are the ends) is right when the source
    starts at or below the destination. *)
Lemma rd8_copy_down m d s n a :
  s <= d ->
  rd8 (copy_down m d s n) a =
  if decide (d - Z.of_nat n <= a < d) then rd8 m (s + (a - d)) else rd8 m a.
Proof.
  revert m d s. induction n as [|n IH]; intros m d s H; cbn [copy_down].
  - case_decide; [lia|done].
  - rewrite IH by lia. repeat case_decide; try lia.
    + rewrite rd8_wr8_ne by lia. f_equal. lia.
    + replace a with (d - 1) by lia. rewrite rd8_wr8_eq, u8_small by apply rd8_range.
      f_equal. lia.
    + by rewrite rd8_wr8_ne by lia.
Qed.

Lemma rd8_memmove m d s n a : 0 <= n ->
  rd8 (memmove m d s n) a = if decide (d <= a < d + n) then rd8 m (s + (a - d)) else rd8 m a.
Proof.
  intros Hn. unfold memmove.
  destruct (Z.eqb_spec n 0); [subst; case_decide; [lia|done]|].
  destruct (Z.ltb_spec s d), (Z.ltb_spec d (s + n)); simpl;
    first [rewrite rd8_copy_down by lia | rewrite rd8_copy_up by lia];
    repeat case_decide; try lia; f_equal; lia.
Qed.

Lemma rd8_memmove_out m d s n a :
  0 <= n -> ~ (d <= a < d + n) -> rd8 (memmove m d s n) a = rd8 m a.
Proof. intros. rewrite rd8_memmove by done. by case_decide. Qed.

Lemma rd8_zero_fill m s n a :
  rd8 (zero_fill m s n) a = if decide (s <= a < s + Z.of_nat n) then 0 else rd8 m a.
Proof.
  revert m s. induction n as [|n IH]; intros m s; cbn [zero_fill].
  - case_decide; [lia|done].
  - rewrite IH, rd8_wr8. repeat case_decide; done || lia.
Qed.

(** Outside the destination [strncpy] changes nothing; inside it stores the
    source up to its NUL and zeros after it. *)
Lemma rd8_strncpy_out m s t n a :
  ~ (s <= a < s + Z.of_nat n) -> rd8 (strncpy m s t n) a = rd8 m a.
Proof.
  revert m s t. induction n as [|n IH]; intros m s t H; cbn [strncpy]; [done|].
  destruct (Z.eqb_spec (rd8 m t) 0).
  - rewrite rd8_zero_fill, rd8_wr8_ne by lia. case_decide; [lia|done].
  - rewrite IH, rd8_wr8_ne by lia. done.
Qed.

Lemma cstr_tail m s b bs : cstr m s (b :: bs) -> cstr m (s + 1) bs.
Proof.
  intros [H1 H2]. split.
  - intros i c Hi. specialize (H1 (S i) c Hi).
    replace (s + 1 + Z.of_nat i) with (s + Z.of_nat (S i)) by lia. done.
  - replace (s + 1 + Z.of_nat (length bs)) with (s + Z.of_nat (length (b :: bs)))
      by (simpl; lia). done.
Qed.

Lemma cstr_head m s b bs : cstr m s (b :: bs) -> rd8 m s = b /\ b <> 0.
Proof. intros [H _]. specialize (H 0%nat b eq_refl). by rewrite Z.add_0_r in H. Qed.

Lemma cstr_nil m s : cstr m s [] -> rd8 m s = 0.
Proof. intros [_ H]. by rewrite Z.add_0_r in H. Qed.

Lemma cstr_ext m m' s bs :
  (forall i, 0 <= i <= Z.of_nat (length bs) -> rd8 m' (s + i) = rd8 m (s + i)) ->
  cstr m s bs -> cstr m' s bs.
Proof.
  intros H [H1 H2]. split.
  - intros i b Hi. pose proof (lookup_lt_Some _ _ _ Hi). rewrite H by lia. by apply H1.
  - by rewrite H by lia.
Qed.

Lemma strncpy_stored m s t n bs :
  cstr m t bs -> t + Z.of_nat (length bs) < s \/ s + Z.of_nat n <= t ->
  bytes_at (strncpy m s t n) s n = take n bs ++ replicate (n - length bs) 0.
Proof.
  revert m s t bs. induction n as [|n IH]; intros m s t bs Hs Hd; [done|].
  cbn [strncpy bytes_at]. destruct bs as [|b bs].
  - rewrite (cstr_nil _ _ Hs). simpl. f_equal.
    + rewrite rd8_zero_fill, rd8_wr8_eq. case_decide; [lia|done].
    + apply list_eq. intros i. destruct (decide (i < n)%nat).
      * rewrite lookup_bytes_at, lookup_replicate_2, rd8_zero_fill by done.
        case_decide; [done|lia].
      * rewrite !lookup_ge_None_2; [done| |]; rewrite ?length_replicate, ?length_bytes_at; lia.
  - destruct (cstr_head _ _ _ _ Hs) as [Hb Hnz]. rewrite Hb.
    destruct (Z.eqb_spec b 0); [done|]. simpl. f_equal.
    + rewrite rd8_strncpy_out, rd8_wr8_eq by lia.
      rewrite <- Hb. apply u8_small, rd8_range.
    + simpl in Hd. apply IH; [|lia].
      apply (cstr_ext m); [|by apply (cstr_tail m t b)].
      intros i Hi. apply rd8_wr8_ne. lia.
Qed.

(** Comparing is deciding equality of the two prefixes before a NUL. *)
Lemma strncmp_spec m p q n :
  strncmp m p q n = 0 <-> upto_nul (bytes_at m p n) = upto_nul (bytes_at m q n).
Proof.
  revert p q. induction n as [|n IH]; intros p q; cbn [strncmp bytes_at upto_nul]; [done|].
  unfold nz. destruct (Z.eqb_spec (rd8 m p) 0) as [E|E]; simpl.
  - clear IH. rewrite E. destruct (Z.eqb_spec (rd8 m q) 0); split; intros; lia || done.
  - destruct (Z.eqb_spec (rd8 m p) (rd8 m q)) as [E'|E'].
    + rewrite <- E'. destruct (Z.eqb_spec (rd8 m p) 0); [lia|]. rewrite IH.
      split; [by intros ->|by injection 1].
    + clear IH. split; [lia|]. destruct (Z.eqb_spec (rd8 m q) 0); intros; simplify_eq.
Qed.

Lemma upto_nul_pad bs n : Forall (fun b => b <> 0) bs -> upto_nul (bs ++ replicate n 0) = bs.
Proof.
  induction 1 as [|b bs Hb _ IH]; simpl; [by destruct n|].
  destruct (Z.eqb_spec b 0); [done|]. by rewrite IH.
Qed.

Lemma cstr_nonzero m s bs : cstr m s bs -> Forall (fun b => b <> 0) bs.
Proof. intros [H _]. apply Forall_lookup. intros i b Hi. by destruct (H i b Hi). Qed.

Lemma upto_nul_cstr m s bs n : cstr m s bs -> upto_nul (bytes_at m s n) = take n bs.
Proof.
  revert s bs. induction n as [|n IH]; intros s bs H; simpl; [done|].
  destruct bs as [|b bs].
  - by rewrite (cstr_nil _ _ H).
  - destruct (cstr_head _ _ _ _ H) as [-> Hb]. destruct (Z.eqb_spec b 0); [done|].
    rewrite (IH (s + 1) bs); [done|]. by eapply cstr_tail.
Qed.

Lemma strlen_spec m s bs :
  cstr m s bs -> Z.of_nat (length bs) < 2 ^ 63 -> strlen m s = Some (Z.of_nat (length bs)).
Proof.
  intros [H1 H2] Hl. unfold strlen.
  assert (wp (while_ (fun n => ret (if nz (rd8 m (s + n)) then Next (n + 1) else Brk n)) 0)
            (fun r _ => r = Z.of_nat (length bs)) tt) as Hw.
  { eapply (wp_while _ (fun n _ => 0 <= n <= Z.of_nat (length bs))
                       (fun n _ => Z.of_nat (length bs) - n)); [|lia|lia].
    intros n [] Hn. apply wp_ret. unfold nz.
    destruct (Z.eqb_spec (rd8 m (s + n)) 0) as [E|E]; simpl.
    - destruct (decide (n = Z.of_nat (length bs))) as [->|]; [done|exfalso].
      destruct (lookup_lt_is_Some_2 bs (Z.to_nat n)) as [b Hb]; [lia|].
      specialize (H1 _ _ Hb). rewrite Z2Nat.id in H1 by lia. naive_solver.
    - assert (n <> Z.of_nat (length bs)) by (intros ->; done). lia. }
  apply wp_elim in Hw as (r & [] & -> & ->). done.
Qed.

(** Clients reason with the lemmas above; a page-sized copy never unfolds. *)
#[global] Opaque memset memmove.
