(* ===== verification/Riscv.v ===== *)
(** * kernel/riscv.h, kernel/memlayout.h

    Page arithmetic, the Sv39 page-table-entry encoding and the physical and
    virtual memory layout, at 64-bit width. *)

From stdpp Require Import base tactics.
From Stdlib Require Import ZArith Lia.
From S2P Require Import Prelude.

#[local] Open Scope Z_scope.

(** ** riscv.h *)

Definition PGSIZE : Z := 4096.
Definition PGSHIFT : Z := 12.
Definition PGROUNDUP (sz : Z) : Z := Z.land (u64 (sz + PGSIZE - 1)) (Z.lnot (PGSIZE - 1)).
Definition PGROUNDDOWN (a : Z) : Z := Z.land a (Z.lnot (PGSIZE - 1)).

Definition PTE_V : Z := Z.shiftl 1 0.
Definition PTE_R : Z := Z.shiftl 1 1.
Definition PTE_W : Z := Z.shiftl 1 2.
Definition PTE_X : Z := Z.shiftl 1 3.
Definition PTE_U : Z := Z.shiftl 1 4.

Definition PA2PTE (pa : Z) : Z := u64 (Z.shiftl (Z.shiftr pa 12) 10).
Definition PTE2PA (pte : Z) : Z := u64 (Z.shiftl (Z.shiftr pte 10) 12).
Definition PTE_FLAGS (pte : Z) : Z := Z.land pte 0x3FF.

Definition PXMASK : Z := 0x1FF.
Definition PXSHIFT (level : Z) : Z := PGSHIFT + 9 * level.
Definition PX (level va : Z) : Z := Z.land (Z.shiftr va (PXSHIFT level)) PXMASK.

Definition MAXVA : Z := Z.shiftl 1 (9 + 9 + 9 + 12 - 1).

Definition SATP_SV39 : Z := Z.shiftl 8 60.
Definition MAKE_SATP (pagetable : Z) : Z := Z.lor SATP_SV39 (Z.shiftr pagetable 12).

(** ** memlayout.h *)

Definition UART0 : Z := 0x10000000.
Definition VIRTIO0 : Z := 0x10001000.
Definition PLIC : Z := 0x0c000000.
Definition KERNBASE : Z := 0x80000000.
Definition PHYSTOP : Z := KERNBASE + 128 * 1024 * 1024.
Definition TRAMPOLINE : Z := MAXVA - PGSIZE.
Definition KSTACK (p : Z) : Z := TRAMPOLINE - (p + 1) * 2 * PGSIZE.
Definition TRAPFRAME : Z := TRAMPOLINE - PGSIZE.

(** [x & flag] as a condition. *)
Definition has (x flag : Z) : bool := nz (Z.land x flag).

(** ** Lemmas *)

Lemma PGROUNDDOWN_mod a : PGROUNDDOWN a = a - a mod 4096.
Proof. apply (land_lnot_ones a 12). lia. Qed.

Lemma PGROUNDDOWN_spec a : PGROUNDDOWN a mod 4096 = 0 /\ PGROUNDDOWN a <= a < PGROUNDDOWN a + 4096.
Proof.
  rewrite PGROUNDDOWN_mod. pose proof (Z.mod_pos_bound a 4096). split; [|lia].
  rewrite Zminus_mod_idemp_r, Z.sub_diag. done.
Qed.

Lemma PGROUNDDOWN_id a : a mod 4096 = 0 -> PGROUNDDOWN a = a.
Proof. rewrite PGROUNDDOWN_mod. lia. Qed.

Lemma PGROUNDUP_mod a : 0 <= a -> a + 4095 < 2 ^ 64 ->
  PGROUNDUP a = (a + 4095) - (a + 4095) mod 4096.
Proof.
  intros. unfold PGROUNDUP. replace (a + PGSIZE - 1) with (a + 4095) by (unfold PGSIZE; lia).
  rewrite u64_small by lia. apply (land_lnot_ones (a + 4095) 12). lia.
Qed.

Lemma PGROUNDUP_spec a : 0 <= a -> a + 4095 < 2 ^ 64 ->
  PGROUNDUP a mod 4096 = 0 /\ a <= PGROUNDUP a < a + 4096.
Proof.
  intros. rewrite PGROUNDUP_mod by done. pose proof (Z.mod_pos_bound (a + 4095) 4096).
  split; [|lia]. rewrite Zminus_mod_idemp_r, Z.sub_diag. done.
Qed.

Lemma PGROUNDUP_id a : 0 <= a -> a + 4095 < 2 ^ 64 -> a mod 4096 = 0 -> PGROUNDUP a = a.
Proof.
  intros ? ? E. rewrite PGROUNDUP_mod, <- Z.add_mod_idemp_l, E by lia.
  change ((0 + 4095) mod 4096) with 4095. lia.
Qed.

Lemma PX_div l va : 0 <= l -> PX l va = (va / 2 ^ (12 + 9 * l)) mod 512.
Proof.
  intros. unfold PX, PXMASK, PXSHIFT, PGSHIFT.
  rewrite Z.shiftr_div_pow2 by lia. apply (land_ones_mod _ 9). lia.
Qed.

Lemma PX_range l va : 0 <= l -> 0 <= PX l va < 512.
Proof. intros. rewrite PX_div by done. by apply Z.mod_pos_bound. Qed.

(** A virtual address below [2 ^ 39] is its three indices and its offset. *)
Lemma va_split va : 0 <= va < 2 ^ 39 ->
  va = PX 2 va * 2 ^ 30 + PX 1 va * 2 ^ 21 + PX 0 va * 2 ^ 12 + va mod 4096.
Proof.
  intros Hva. rewrite !PX_div by lia.
  change (12 + 9 * 2) with 30. change (12 + 9 * 1) with 21. change (12 + 9 * 0) with 12.
  change 4096 with (2 ^ 12).
  replace (va / 2 ^ 30) with (va / 2 ^ 12 / 512 / 512) by (rewrite !Z.div_div by lia; done).
  replace (va / 2 ^ 21) with (va / 2 ^ 12 / 512) by (rewrite !Z.div_div by lia; done).
  pose proof (Z.div_mod va (2 ^ 12)). pose proof (Z.div_mod (va / 2 ^ 12) 512).
  pose proof (Z.div_mod (va / 2 ^ 12 / 512) 512).
  rewrite (Z.mod_small (va / 2 ^ 12 / 512 / 512)); [lia|].
  rewrite !Z.div_div by lia. change (2 ^ 12 * 512 * 512) with (2 ^ 30).
  split; [apply Z.div_pos; lia|]. apply Z.div_lt_upper_bound; lia.
Qed.

Lemma PX_inj va va' : 0 <= va < 2 ^ 39 -> 0 <= va' < 2 ^ 39 ->
  PX 2 va = PX 2 va' -> PX 1 va = PX 1 va' -> PX 0 va = PX 0 va' ->
  PGROUNDDOWN va = PGROUNDDOWN va'.
Proof.
  intros H H' E2 E1 E0. rewrite !PGROUNDDOWN_mod.
  rewrite (va_split va) at 1 by done. rewrite (va_split va') at 1 by done. lia.
Qed.

Lemma PX_page l va : 0 <= l -> PX l (PGROUNDDOWN va) = PX l va.
Proof.
  intros. rewrite !PX_div, PGROUNDDOWN_mod by done. f_equal.
  rewrite Z.pow_add_r, <- !Z.div_div by (lia || apply Z.pow_pos_nonneg; lia). f_equal.
  change (2 ^ 12) with 4096. rewrite Z.mod_eq by lia.
  replace (va - (va - 4096 * (va / 4096))) with (va / 4096 * 4096) by lia.
  by rewrite Z.div_mul by lia.
Qed.

(** *** Page-table entries *)

Definition aligned (a : Z) : Prop := a mod 4096 = 0.

Lemma aligned_mul a : aligned a -> a = a / 4096 * 4096.
Proof. unfold aligned. intros. pose proof (Z.div_mod a 4096). lia. Qed.

Lemma PA2PTE_div pa : 0 <= pa < 2 ^ 56 -> PA2PTE pa = pa / 4096 * 2 ^ 10.
Proof.
  intros. unfold PA2PTE. rewrite Z.shiftr_div_pow2, Z.shiftl_mul_pow2 by lia.
  change (2 ^ 12) with 4096. rewrite u64_small; [done|].
  assert (0 <= pa / 4096 < 2 ^ 44); [|lia].
  split; [apply Z.div_pos; lia|apply Z.div_lt_upper_bound; lia].
Qed.

Lemma PTE_make pa fl : 0 <= pa < 2 ^ 56 -> 0 <= fl < 1024 ->
  Z.lor (PA2PTE pa) fl = pa / 4096 * 1024 + fl.
Proof. intros. rewrite PA2PTE_div by done. apply (lor_shifted _ _ 10); lia. Qed.

Lemma PTE_make_range pa fl : 0 <= pa < 2 ^ 56 -> 0 <= fl < 1024 ->
  0 <= Z.lor (PA2PTE pa) fl < 2 ^ 64.
Proof.
  intros. rewrite PTE_make by done.
  assert (0 <= pa / 4096 < 2 ^ 44); [|lia].
  split; [apply Z.div_pos; lia|apply Z.div_lt_upper_bound; lia].
Qed.

Lemma PTE2PA_make pa fl : 0 <= pa < 2 ^ 56 -> 0 <= fl < 1024 ->
  PTE2PA (Z.lor (PA2PTE pa) fl) = PGROUNDDOWN pa.
Proof.
  intros. rewrite PTE_make by done. unfold PTE2PA.
  rewrite Z.shiftr_div_pow2, Z.shiftl_mul_pow2 by lia.
  change (2 ^ 10) with 1024. change (2 ^ 12) with 4096.
  rewrite Z.div_add_l, (Z.div_small fl), Z.add_0_r by lia.
  pose proof (Z.mod_pos_bound pa 4096). pose proof (Z.div_mod pa 4096).
  rewrite PGROUNDDOWN_mod, u64_small; lia.
Qed.

Lemma PTE_FLAGS_make pa fl : 0 <= pa < 2 ^ 56 -> 0 <= fl < 1024 ->
  PTE_FLAGS (Z.lor (PA2PTE pa) fl) = fl.
Proof.
  intros. rewrite PTE_make by done. unfold PTE_FLAGS. change 0x3FF with (2 ^ 10 - 1).
  rewrite land_ones_mod by lia. change (2 ^ 10) with 1024.
  rewrite Z.add_comm, Z.mod_add by lia. by apply Z.mod_small.
Qed.

Lemma PTE2PA_range pte : 0 <= PTE2PA pte < 2 ^ 64.
Proof. apply u64_range. Qed.

Lemma land_low_mod a f k : 0 <= k -> 0 <= f < 2 ^ k -> Z.land a f = Z.land (a mod 2 ^ k) f.
Proof.
  intros Hk Hf. rewrite <- Z.land_ones by done. rewrite <- Z.land_assoc.
  f_equal. rewrite Z.land_comm, Z.land_ones by done. symmetry. by apply Z.mod_small.
Qed.

(** The flag bits of an entry are those it was made with. *)
Lemma has_make pa fl f : 0 <= pa < 2 ^ 56 -> 0 <= fl < 1024 -> 0 <= f < 1024 ->
  has (Z.lor (PA2PTE pa) fl) f = has fl f.
Proof.
  intros. rewrite PTE_make by done. unfold has.
  rewrite (land_low_mod (_ + _) f 10) by lia. change (2 ^ 10) with 1024.
  rewrite Z.add_comm, Z.mod_add by lia. by rewrite Z.mod_small.
Qed.

Lemma has_lor a b f : has (Z.lor a b) f = has a f || has b f.
Proof.
  unfold has, nz. rewrite Z.land_lor_distr_l.
  destruct (Z.eqb_spec (Z.land a f) 0) as [E|E]; [rewrite E, Z.lor_0_l; done|].
  destruct (Z.eqb_spec (Z.lor (Z.land a f) (Z.land b f)) 0) as [E'|E']; [|done].
  apply Z.lor_eq_0_iff in E'. naive_solver.
Qed.
