(* ===== verification/Kalloc.v ===== *)
(** * kernel/kalloc.c: the physical page allocator

    The free list is threaded through the free pages themselves, as in the C
    code: [kmem.freelist] is an address and [r->next] is the 64-bit word at the
    start of page [r].  [kend] is the linker symbol [end]. A critical section
    of [kmem.lock] is one atomic step. *)

From stdpp Require Import base list gmap strings.
From Stdlib Require Import ZArith Lia.
From S2P Require Import Prelude Mem Str Riscv.

#[local] Open Scope Z_scope.

(** Physical memory and the allocator's head pointer. *)
Record kst := Kst { kmem : mem; freelist : Z }.

Definition load64 (a : Z) : M kst Z := gets (fun s => rd64 (kmem s) a).
Definition update_mem (f : mem -> mem) : M kst unit :=
  modify (fun s => Kst (f (kmem s)) (freelist s)).
Definition store64 (a v : Z) : M kst unit := update_mem (fun m => wr64 m a v).
Definition set_freelist (r : Z) : M kst unit := modify (fun s => Kst (kmem s) r).

(** Run a straight-line program on a symbolic state. *)
Ltac run_state :=
  unfold wp, bind, ret, gets, modify, load64, store64, update_mem, set_freelist; cbn.

Lemma wp_load64 a Q s : Q (rd64 (kmem s) a) s -> wp (load64 a) Q s.
Proof. done. Qed.
Lemma wp_update_mem f (Q : unit -> kst -> Prop) s :
  Q tt (Kst (f (kmem s)) (freelist s)) -> wp (update_mem f) Q s.
Proof. done. Qed.
Lemma wp_store64 a v (Q : unit -> kst -> Prop) s :
  Q tt (Kst (wr64 (kmem s) a v) (freelist s)) -> wp (store64 a v) Q s.
Proof. done. Qed.

(** Symbolic execution of memory accesses. *)
Ltac mem_step :=
  match goal with
  | |- wp (bind _ _) _ _ => apply wp_bind
  | |- wp (ret _) _ _ => apply wp_ret
  | |- wp (load64 _) _ _ => apply wp_load64
  | |- wp (update_mem _) _ _ => apply wp_update_mem
  | |- wp (store64 _ _) _ _ => apply wp_store64
  end.
Ltac mem_steps := repeat mem_step; cbn [kmem freelist].

Section kalloc.
Context (kend : Z).

Definition kfree (pa : Z) : M kst unit :=
  if nz (pa mod PGSIZE) || (pa <? kend) || (PHYSTOP <=? pa) then panic "kfree"
  else
    update_mem (fun m => memset m pa 1 PGSIZE) ;;;
    r <- gets freelist ;;
    store64 pa r ;;;
    set_freelist pa.

Definition kalloc : M kst Z :=
  r <- gets freelist ;;
  (if nz r then (nxt <- load64 r ;; set_freelist nxt) else ret tt) ;;;
  (if nz r then update_mem (fun m => memset m r 5 PGSIZE) else ret tt) ;;;
  ret r.

Definition freerange (pa_start pa_end : Z) : M kst unit :=
  while_ (fun p =>
    if p + PGSIZE <=? pa_end
    then kfree p ;;; ret (Next (p + PGSIZE))
    else ret (Brk tt)) (PGROUNDUP pa_start).

Definition kinit : M kst unit := freerange kend PHYSTOP.

Definition availmemory : M kst Z :=
  r0 <- gets freelist ;;
  while_ (fun '(r, avail) =>
    if nz r
    then nxt <- load64 r ;; ret (Next (nxt, u64 (avail + PGSIZE)))
    else ret (Brk avail)) (r0, 0).

(** ** Invariant *)

(** A page the allocator may hold: aligned and inside RAM after the kernel. *)
Definition page_ok (p : Z) : Prop := aligned p /\ kend <= p /\ p < PHYSTOP.

(** The list of pages linked from [r]. *)
Fixpoint chain (m : mem) (r : Z) (l : list Z) : Prop :=
  match l with
  | [] => r = 0
  | p :: l' => r = p /\ p <> 0 /\ chain m (rd64 m p) l'
  end.

Definition free_inv (s : kst) (l : list Z) : Prop :=
  chain (kmem s) (freelist s) l /\ NoDup l /\ Forall page_ok l.

(** Address [a] lies in page [p]. *)
Definition in_page (p a : Z) : Prop := p <= a < p + 4096.

(** [kmem] is unchanged outside the pages [ps]. *)
Definition same_outside (ps : list Z) (m m' : mem) : Prop :=
  forall a, (forall p, p ∈ ps -> ~ in_page p a) -> rd8 m' a = rd8 m a.

(** The pages managed by the allocator, from address [p], [n] of them. *)
Fixpoint pages_from (p : Z) (n : nat) : list Z :=
  match n with
  | O => []
  | S n' => p :: pages_from (p + 4096) n'
  end.
Definition all_pages : list Z :=
  pages_from (PGROUNDUP kend) (Z.to_nat ((PHYSTOP - PGROUNDUP kend) / 4096)).

(** Client view: [reach s A] when [s] is reached from boot by allocations,
    frees of allocated pages and stores into allocated pages, [A] being the
    pages currently handed out. *)
Inductive reach : kst -> list Z -> Prop :=
| reach_boot m0 s :
    kinit (Kst m0 0) = Ok tt s -> reach s []
| reach_kalloc s A p s' :
    reach s A -> kalloc s = Ok p s' -> p <> 0 -> reach s' (p :: A)
| reach_kalloc_fail s A s' :
    reach s A -> kalloc s = Ok 0 s' -> reach s' A
| reach_kfree s A1 p A2 s' :
    reach s (A1 ++ p :: A2) -> kfree p s = Ok tt s' -> reach s' (A1 ++ A2)
| reach_write s A p a v :
    reach s A -> p ∈ A -> in_page p a ->
    reach (Kst (wr8 (kmem s) a v) (freelist s)) A.

(** ** Lemmas *)

Hypothesis kend_ram : KERNBASE <= kend.

Lemma page_ok_pos p : page_ok p -> 0 < p < 2 ^ 56.
Proof using kend_ram. unfold page_ok, PHYSTOP, KERNBASE in *. lia. Qed.

Lemma in_page_disj p q a : aligned p -> aligned q -> in_page p a -> in_page q a -> p = q.
Proof.
  unfold aligned, in_page. intros Hp Hq ? ?.
  rewrite (aligned_mul p), (aligned_mul q) in * by done. f_equal. lia.
Qed.

(** Two different aligned pages share no byte. *)
Lemma pages_apart p q : aligned p -> aligned q -> p <> q -> p + 4096 <= q \/ q + 4096 <= p.
Proof.
  unfold aligned. intros Hp Hq Hne.
  rewrite (aligned_mul p), (aligned_mul q) in * by done. lia.
Qed.

Lemma chain_ext m m' r l :
  Forall (fun p => agree m' m p 8) l -> chain m r l -> chain m' r l.
Proof.
  revert r. induction l as [|p l IH]; intros r; simpl; [done|].
  intros [Hp Hl]%Forall_cons (-> & ? & H). split_and!; [done..|].
  apply IH; [done|]. unfold rd64. by rewrite (rd_ext m' m).
Qed.

Lemma chain_same_outside ps m m' r l :
  Forall aligned l -> Forall aligned ps -> (forall p, p ∈ l -> p ∉ ps) ->
  same_outside ps m m' -> chain m r l -> chain m' r l.
Proof.
  intros Hl Hps Hd Hs. apply chain_ext. apply Forall_forall. intros p Hp a Ha.
  apply Hs. intros q Hq Hin. apply (Hd p Hp). rewrite Forall_forall in Hl, Hps.
  rewrite (in_page_disj p q a); eauto. unfold in_page. lia.
Qed.

Lemma page_ok_aligned l : Forall page_ok l -> Forall aligned l.
Proof. intros H. eapply Forall_impl; [exact H|]. by intros p []. Qed.

Lemma chain_other_page p m m' r l :
  Forall page_ok l -> aligned p -> p ∉ l ->
  same_outside [p] m m' -> chain m r l -> chain m' r l.
Proof.
  intros Hl Hp Hpl. apply chain_same_outside; [by apply page_ok_aligned|by constructor|].
  intros q Hq ->%list_elem_of_singleton. done.
Qed.

Lemma kalloc_spec s l : free_inv s l ->
  wp kalloc (fun r s' =>
    match l with
    | [] => r = 0 /\ s' = s
    | p :: l' => r = p /\ free_inv s' l' /\ same_outside [p] (kmem s) (kmem s') /\
                 forall a, in_page p a -> rd8 (kmem s') a = 5
    end) s.
Proof using kend_ram.
  intros (Hc & Hn & Hf). unfold kalloc. apply wp_bind, wp_gets.
  destruct l as [|p l]; simpl in Hc.
  - rewrite Hc. run_state. split; [done|by destruct s].
  - destruct Hc as (-> & Hp & Hc). unfold nz. destruct (Z.eqb_spec p 0); [done|]. run_state.
    apply NoDup_cons in Hn as [Hpl Hn]. apply Forall_cons in Hf as [Hpk Hf].
    assert (same_outside [p] (kmem s) (memset (kmem s) p 5 PGSIZE)) as Hs.
    { intros a Ha. apply rd8_memset_out; [done|]. apply (Ha p). by left. }
    split_and!; [done| |done|].
    + split; [|done]. cbn. by apply (chain_other_page p (kmem s)); [|apply Hpk|..].
    + intros a Ha. cbn. rewrite rd8_memset by done. unfold in_page, PGSIZE in *.
      case_decide; [done|lia].
Qed.

Lemma kfree_spec s l p : free_inv s l -> page_ok p -> p ∉ l ->
  wp (kfree p) (fun _ s' =>
    free_inv s' (p :: l) /\ same_outside [p] (kmem s) (kmem s') /\
    forall a, p + 8 <= a < p + 4096 -> rd8 (kmem s') a = 1) s.
Proof using kend_ram.
  intros (Hc & Hn & Hf) Hp Hpl. pose proof (page_ok_pos p Hp) as Hpos.
  unfold kfree. destruct Hp as (Ha & Hlo & Hhi).
  unfold nz, PGSIZE in *. rewrite Ha. simpl.
  destruct (Z.ltb_spec p kend); [lia|]. destruct (Z.leb_spec PHYSTOP p); [lia|]. simpl.
  set (m1 := memset (kmem s) p 1 4096).
  assert (same_outside [p] (kmem s) m1) as Hs1.
  { intros a Hout. apply rd8_memset_out; [done|]. apply (Hout p). by left. }
  assert (same_outside [p] m1 (wr64 m1 p (freelist s))) as Hs2.
  { intros a Hout. apply rd8_wr64_ne. specialize (Hout p). unfold in_page in Hout.
    intros ?. apply Hout; [by left|lia]. }
  assert (0 <= freelist s < 2 ^ 64) as Hfl.
  { destruct l as [|q l]; simpl in Hc; [lia|]. destruct Hc as [-> _].
    apply Forall_cons in Hf as [Hq _]. apply page_ok_pos in Hq. lia. }
  run_state. split_and!.
  - split; cbn.
    + split_and!; [done|lia|]. rewrite rd64_wr64_eq by done.
      apply (chain_other_page p (kmem s)); [done..| |done].
      intros a Hout. by rewrite Hs2, Hs1.
    + split; constructor; done.
  - intros a Hout. by rewrite Hs2, Hs1.
  - intros a Hr. rewrite rd8_wr64_ne by lia. unfold m1. rewrite rd8_memset by done.
    case_decide; [done|lia].
Qed.

(** *** Boot *)

Lemma pages_from_snoc p k : pages_from p (S k) = pages_from p k ++ [p + 4096 * Z.of_nat k].
Proof.
  revert p. induction k as [|k IH]; intros p.
  - simpl. by rewrite Z.add_0_r.
  - change (pages_from p (S (S k))) with (p :: pages_from (p + 4096) (S k)).
    rewrite IH. simpl. do 3 f_equal. lia.
Qed.

Lemma elem_of_pages_from p k q :
  q ∈ pages_from p k <-> exists i, 0 <= i < Z.of_nat k /\ q = p + 4096 * i.
Proof.
  revert p. induction k as [|k IH]; intros p; simpl.
  - rewrite elem_of_nil. naive_solver lia.
  - rewrite elem_of_cons, IH. split.
    + intros [->|(i & ? & ->)]; [exists 0|exists (i + 1)]; lia.
    + intros (i & ? & ->). destruct (decide (i = 0)) as [->|]; [left; lia|].
      right. exists (i - 1). lia.
Qed.

Lemma NoDup_pages_from p k : NoDup (pages_from p k).
Proof.
  revert p. induction k as [|k IH]; intros p; simpl; constructor; [|done].
  rewrite elem_of_pages_from. intros (i & ? & ?). lia.
Qed.

Hypothesis kend_top : kend <= PHYSTOP.

Lemma kinit_spec m0 :
  wp kinit (fun _ s => free_inv s (reverse all_pages)) (Kst m0 0).
Proof using kend_ram kend_top.
  unfold kinit, freerange, all_pages.
  assert (0 <= kend /\ kend + 4095 < 2 ^ 64) as [Hk0 Hk1].
  { unfold PHYSTOP, KERNBASE in *. lia. }
  destruct (PGROUNDUP_spec kend Hk0 Hk1) as [Ha Hr].
  set (p0 := PGROUNDUP kend) in *. rewrite (aligned_mul p0 Ha) in *.
  assert (PHYSTOP = 557056 * 4096) as HP by done.
  apply (wp_while _
    (fun p s => exists k : nat, p = p0 / 4096 * 4096 + 4096 * Z.of_nat k /\ p <= PHYSTOP /\
       free_inv s (reverse (pages_from (p0 / 4096 * 4096) k)))
    (fun p _ => PHYSTOP - p)).
  2: { exists 0%nat. split_and!; [lia|lia|]. split; [done|]. split; constructor. }
  2: { unfold KERNBASE in *. lia. }
  intros p s (k & -> & Hle & Hinv). unfold PGSIZE.
  set (b := p0 / 4096 * 4096) in *.
  destruct (Z.leb_spec (b + 4096 * Z.of_nat k + 4096) PHYSTOP) as [Hlt|Hge].
  - apply wp_bind. eapply wp_mono; [apply kfree_spec; [exact Hinv|..]|].
    + split; [|lia]. unfold aligned, b. rewrite (Z.mul_comm 4096), <- Z.mul_add_distr_r.
      by apply Z.mod_mul.
    + rewrite elem_of_reverse, elem_of_pages_from. intros (i & ? & ?). lia.
    + intros [] s' (Hinv' & _). apply wp_ret. split; [|lia].
      exists (S k). split_and!; [lia|lia|].
      by rewrite pages_from_snoc, reverse_app, reverse_singleton.
  - apply wp_ret.
    replace (Z.to_nat ((PHYSTOP - b) / 4096)) with k; [done|].
    replace (PHYSTOP - b) with (4096 * Z.of_nat k) by (unfold b in *; lia).
    rewrite Z.mul_comm, Z.div_mul by lia. lia.
Qed.

(** *** The client's view *)

Lemma all_pages_ok : Forall page_ok all_pages.
Proof using kend_ram kend_top.
  assert (0 <= kend /\ kend + 4095 < 2 ^ 64) as [Hk0 Hk1].
  { unfold PHYSTOP, KERNBASE in *. lia. }
  destruct (PGROUNDUP_spec kend Hk0 Hk1) as [Ha Hr].
  apply Forall_forall. intros p (i & Hi & ->)%elem_of_pages_from.
  split_and!; [|lia|].
  - unfold aligned. rewrite Z.mul_comm, Z.mod_add by lia. done.
  - pose proof (Z.mul_div_le (PHYSTOP - PGROUNDUP kend) 4096). lia.
Qed.

(** Handed-out pages and free pages together are exactly all the pages. *)
Lemma reach_inv s A : reach s A -> exists l, free_inv s l /\ A ++ l ≡ₚ all_pages.
Proof using kend_ram kend_top.
  induction 1 as [m0 s Hk|s A p s' _ IH Hk Hp|s A s' _ IH Hk|s A1 p A2 s' _ IH Hk|s A p a v _ IH Hp Ha].
  - destruct (wp_elim _ _ _ (kinit_spec m0)) as ([] & s1 & E & Hinv).
    rewrite Hk in E. simplify_eq. exists (reverse all_pages).
    split; [done|]. by rewrite reverse_Permutation.
  - destruct IH as (l & Hinv & HP).
    destruct (wp_elim _ _ _ (kalloc_spec s l Hinv)) as (r & s1 & E & Hl).
    rewrite Hk in E. simplify_eq. destruct l as [|q l]; [by destruct Hl|].
    destruct Hl as (-> & Hinv' & _). exists l. split; [done|].
    rewrite <- HP. simpl. by rewrite Permutation_middle.
  - destruct IH as (l & Hinv & HP).
    destruct (wp_elim _ _ _ (kalloc_spec s l Hinv)) as (r & s1 & E & Hl).
    rewrite Hk in E. simplify_eq. destruct l as [|q l]; [destruct Hl as [_ ->]; by exists []|].
    destruct Hl as (<- & _). destruct Hinv as (Hc & _). simpl in Hc. naive_solver.
  - destruct IH as (l & Hinv & HP).
    assert (p :: (A1 ++ A2 ++ l) ≡ₚ all_pages) as HP'.
    { rewrite <- HP, <- app_assoc. simpl. by rewrite Permutation_middle. }
    pose proof all_pages_ok as Hok. rewrite <- HP' in Hok. apply Forall_cons in Hok as [Hpok _].
    assert (NoDup (p :: (A1 ++ A2 ++ l))) as Hnd.
    { rewrite HP'. apply NoDup_pages_from. }
    apply NoDup_cons in Hnd as [Hnd _]. rewrite !elem_of_app in Hnd.
    destruct (wp_elim _ _ _ (kfree_spec s l p Hinv Hpok ltac:(tauto))) as ([] & s1 & E & Hinv' & _).
    rewrite Hk in E. simplify_eq. exists (p :: l). split; [done|].
    rewrite <- HP', <- app_assoc. by rewrite <- !Permutation_middle.
  - destruct IH as (l & (Hc & Hn & Hf) & HP). exists l. split; [|done].
    pose proof all_pages_ok as Hok. rewrite <- HP in Hok. apply Forall_app in Hok as [HA _].
    rewrite Forall_forall in HA. split; [|done]. cbn.
    apply (chain_other_page p (kmem s)); [done|by apply HA| | |done].
    + assert (NoDup (A ++ l)) as Hnd by (rewrite HP; apply NoDup_pages_from).
      apply NoDup_app in Hnd as (_ & Hd & _). by apply Hd.
    + intros b Hb. apply rd8_wr8_ne. intros ->. by apply (Hb p); [left|].
Qed.

(** *** availmemory *)

Lemma chain_loop_avail s l r acc :
  chain (kmem s) r l -> 4096 * Z.of_nat (length l) < 2 ^ 64 -> 0 <= acc ->
  acc + 4096 * Z.of_nat (length l) < 2 ^ 64 ->
  wp (while_ (fun '(r, avail) =>
        if nz r then nxt <- load64 r ;; ret (Next (nxt, u64 (avail + PGSIZE)))
        else ret (Brk avail)) (r, acc))
    (fun n s' => n = acc + 4096 * Z.of_nat (length l) /\ s' = s) s.
Proof.
  intros Hc Hl Hacc Hsum. set (total := acc + 4096 * Z.of_nat (length l)).
  apply (wp_while _
    (fun '(r, a) st => st = s /\ exists l', chain (kmem s) r l' /\ 0 <= a /\
       a + 4096 * Z.of_nat (length l') = total)
    (fun '(r, a) _ => total - a)); [|split; [done|]; by exists l|lia].
  intros [r' a] st (-> & l' & Hc' & Ha & Ht). unfold nz.
  destruct l' as [|p l']; simpl in Hc'.
  - subst r'. simpl in *. apply wp_ret. split; [lia|done].
  - destruct Hc' as (-> & Hp & Hc'). destruct (Z.eqb_spec p 0); [done|]. simpl in Ht. simpl.
    apply wp_bind, wp_gets, wp_ret. unfold PGSIZE. rewrite u64_small by lia.
    split; [|lia]. split; [done|]. exists l'. split_and!; [done|lia|lia].
Qed.

Lemma length_pages_from p k : length (pages_from p k) = k.
Proof. revert p. induction k; intros; simpl; auto. Qed.

Lemma free_inv_bound s l : free_inv s l -> 4096 * Z.of_nat (length l) <= PHYSTOP.
Proof using kend_ram.
  intros (_ & Hn & Hf).
  assert (length l <= length (pages_from 0 (Z.to_nat (PHYSTOP / 4096))))%nat as Hle.
  { apply (submseteq_length l), NoDup_submseteq; [done|]. intros p Hp.
    rewrite Forall_forall in Hf. destruct (Hf p Hp) as (Ha & Hlo & Hhi).
    apply elem_of_pages_from. exists (p / 4096). rewrite (aligned_mul p Ha) in Hlo, Hhi.
    change PHYSTOP with (557056 * 4096) in *. rewrite Z.div_mul by lia.
    rewrite (aligned_mul p Ha) at 3. unfold KERNBASE in *. lia. }
  rewrite length_pages_from in Hle. change PHYSTOP with (557056 * 4096) in *.
  rewrite Z.div_mul in Hle by lia. lia.
Qed.

End kalloc.

(** ** Properties *)

Section properties.
Context (kend : Z).
Hypothesis (kend_ram : KERNBASE <= kend) (kend_top : kend <= PHYSTOP).

(** C2: whatever sequence of allocations, frees of allocated pages and stores
    into allocated pages the kernel has made since boot, the pages handed out are
    distinct aligned pages of RAM outside the kernel, and [kalloc] returns a page
    that is not handed out; it returns 0 only when every page is handed out. *)
Theorem kalloc_no_double_allocation s A :
  reach kend s A ->
  NoDup A /\ Forall (page_ok kend) A /\
  wp kalloc (fun p s' =>
    p = 0 /\ s' = s /\ A ≡ₚ all_pages kend \/
    page_ok kend p /\ p ∉ A /\ reach kend s' (p :: A)) s.
Proof using kend_ram kend_top.
  intros Hr. destruct (reach_inv kend kend_ram kend_top s A Hr) as (l & Hinv & HP).
  pose proof (all_pages_ok kend kend_ram kend_top) as Hok. rewrite <- HP in Hok.
  assert (NoDup (A ++ l)) as Hnd by (rewrite HP; apply NoDup_pages_from).
  apply Forall_app in Hok as [HokA Hokl]. apply NoDup_app in Hnd as (HndA & Hd & _).
  split; [done|]. split; [done|].
  destruct (wp_run _ _ _ (kalloc_spec kend kend_ram s l Hinv)) as (p & E & Hp).
  eapply wp_intro; [exact E|]. destruct l as [|q l].
  - left. destruct Hp as [-> ->]. rewrite app_nil_r in HP. done.
  - right. destruct Hp as (-> & _). apply Forall_cons in Hokl as [Hq _].
    assert (q ∉ A) by (intros Hin; apply (Hd q Hin); by left).
    split_and!; [done|done|]. eapply reach_kalloc; [done|exact E|].
    by pose proof (page_ok_pos kend kend_ram q Hq); lia.
Qed.

(** Freeing a page that is handed out never panics and takes it back. *)
Theorem kfree_takes_back s A1 p A2 :
  reach kend s (A1 ++ p :: A2) -> wp (kfree kend p) (fun _ s' => reach kend s' (A1 ++ A2)) s.
Proof using kend_ram kend_top.
  intros Hr. destruct (reach_inv kend kend_ram kend_top s _ Hr) as (l & Hinv & HP).
  pose proof (all_pages_ok kend kend_ram kend_top) as Hok. rewrite <- HP in Hok.
  assert (NoDup ((A1 ++ p :: A2) ++ l)) as Hnd by (rewrite HP; apply NoDup_pages_from).
  apply NoDup_app in Hnd as (_ & Hd & _). apply Forall_app in Hok as [Hok _].
  apply Forall_app in Hok as [_ [Hp _]%Forall_cons].
  destruct (wp_run _ _ _ (kfree_spec kend kend_ram s l p Hinv Hp ltac:(apply Hd; set_solver))) as ([] & E & _).
  eapply wp_intro; [exact E|]. by eapply reach_kfree.
Qed.

(** [availmemory] (the number reported by [sysinfo]) is the number of bytes
    in the pages that are not handed out, and it changes nothing. *)
Theorem availmemory_counts_free s A :
  reach kend s A ->
  wp availmemory (fun n s' =>
    n = 4096 * (Z.of_nat (length (all_pages kend)) - Z.of_nat (length A)) /\ s' = s) s.
Proof using kend_ram kend_top.
  intros Hr. destruct (reach_inv kend kend_ram kend_top s A Hr) as (l & Hinv & HP).
  pose proof (free_inv_bound kend kend_ram s l Hinv) as Hb. apply Permutation_length in HP.
  rewrite length_app in HP. unfold availmemory. apply wp_bind, wp_gets. unfold PHYSTOP, KERNBASE in *.
  eapply wp_mono; [apply (chain_loop_avail s l); [apply Hinv|lia..]|].
  intros n s' [-> ->]. split; [lia|done].
Qed.

(** At boot [kinit] puts every page between the end of the kernel and
    [PHYSTOP] on the free list, without panicking. *)
Theorem kinit_frees_all_pages m0 :
  wp (kinit kend) (fun _ s => reach kend s [] /\
    exists l, free_inv kend s l /\ l ≡ₚ all_pages kend) (Kst m0 0).
Proof using kend_ram kend_top.
  destruct (wp_run _ _ _ (kinit_spec kend kend_ram kend_top m0)) as ([] & E & Hinv).
  eapply wp_intro; [exact E|]. split; [by eapply reach_boot|].
  exists (reverse (all_pages kend)). split; [done|]. apply reverse_Permutation.
Qed.
End properties.

(** A machine whose kernel ends two pages below the top of RAM. *)
Definition ex_kend : Z := PHYSTOP - 8192.
Definition ex_boot : kst := run (kinit ex_kend) (Kst ∅ 0).

Lemma ex_reach : reach ex_kend ex_boot [].
Proof.
  apply (reach_boot _ ∅). destruct (wp_run _ _ _ (kinit_spec ex_kend ltac:(done) ltac:(done) ∅)) as ([] & E & _).
  exact E.
Qed.

Definition ex_one : kst := run kalloc ex_boot.
Lemma ex_reach_one : exists p, reach ex_kend ex_one [p].
Proof.
  destruct (reach_inv ex_kend ltac:(done) ltac:(done) ex_boot [] ex_reach) as (l & Hinv & HP).
  destruct (wp_run _ _ _ (kalloc_spec ex_kend ltac:(done) ex_boot l Hinv)) as (p & E & Hp).
  destruct l as [|q l]; [apply Permutation_length in HP; vm_compute in HP; discriminate HP|].
  exists q. destruct Hp as (-> & _). eapply reach_kalloc; [exact ex_reach|exact E|].
  destruct Hinv as ((_ & Hq & _) & _). exact Hq.
Qed.

Lemma kalloc_no_double_allocation_witness :
  reach ex_kend ex_boot [] /\
  wp kalloc (fun p s' => p = 0 /\ s' = ex_boot /\ [] ≡ₚ all_pages ex_kend \/
    page_ok ex_kend p /\ p ∉ [] /\ reach ex_kend s' [p]) ex_boot.
Proof.
  split; [exact ex_reach|].
  exact (proj2 (proj2 (kalloc_no_double_allocation ex_kend ltac:(done) ltac:(done) ex_boot [] ex_reach))).
Defined.

Lemma kfree_takes_back_witness :
  exists p, reach ex_kend ex_one [p] /\ wp (kfree ex_kend p) (fun _ s' => reach ex_kend s' []) ex_one.
Proof.
  destruct ex_reach_one as [p Hp]. exists p. split; [exact Hp|].
  exact (kfree_takes_back ex_kend ltac:(done) ltac:(done) ex_one [] p [] Hp).
Defined.

Lemma availmemory_counts_free_witness :
  reach ex_kend ex_boot [] /\ wp availmemory (fun n s' => n = 8192 /\ s' = ex_boot) ex_boot.
Proof.
  split; [exact ex_reach|].
  eapply wp_mono; [exact (availmemory_counts_free ex_kend ltac:(done) ltac:(done) ex_boot [] ex_reach)|].
  intros n s' [-> ->]. split; [vm_compute; reflexivity|reflexivity].
Defined.

Lemma kinit_frees_all_pages_witness :
  KERNBASE <= ex_kend /\ wp (kinit ex_kend) (fun _ s => reach ex_kend s [] /\
    exists l, free_inv ex_kend s l /\ l ≡ₚ all_pages ex_kend) (Kst ∅ 0).
Proof. split; [done|]. exact (kinit_frees_all_pages ex_kend ltac:(done) ltac:(done) ∅). Defined.
