(* ===== verification/Vm.v ===== *)
(** * kernel/vm.c: Sv39 page tables and user memory

    Page tables live in physical memory: every routine below loads and stores
    64-bit entries of the byte memory and takes pages from [Kalloc].  A null
    [pte_t *] or [char *] is address 0, the C return codes are kept.  The
    64-bit wrap-around of the address arithmetic is written out. *)

From stdpp Require Import base list gmap strings.
From Stdlib Require Import ZArith Lia.
From S2P Require Import Prelude Mem Str Riscv Kalloc.

#[local] Open Scope Z_scope.

Section vm.
Context (kend : Z).

Abbreviation kfree := (kfree kend).

(** The level loop of [walk], from [level] down to 0. *)
Fixpoint walk_down (level : nat) (pagetable va : Z) (alloc : bool) : M kst Z :=
  match level with
  | O => ret (pagetable + 8 * PX 0 va)
  | S level' =>
      let pte := pagetable + 8 * PX (Z.of_nat level) va in
      v <- load64 pte ;;
      if has v PTE_V then walk_down level' (PTE2PA v) va alloc
      else if negb alloc then ret 0
      else
        p <- kalloc ;;
        if p =? 0 then ret 0
        else
          update_mem (fun m => memset m p 0 PGSIZE) ;;;
          store64 pte (Z.lor (PA2PTE p) PTE_V) ;;;
          walk_down level' p va alloc
  end.

Definition walk (pagetable va : Z) (alloc : bool) : M kst Z :=
  if MAXVA <=? va then panic "walk" else walk_down 2 pagetable va alloc.

Definition walkaddr (pagetable va : Z) : M kst Z :=
  if MAXVA <=? va then ret 0
  else
    pte <- walk pagetable va false ;;
    if pte =? 0 then ret 0
    else
      v <- load64 pte ;;
      if negb (has v PTE_V) then ret 0
      else if negb (has v PTE_U) then ret 0
      else ret (PTE2PA v).

Definition mappages (pagetable va size pa perm : Z) : M kst Z :=
  if size =? 0 then panic "mappages: size"
  else
    let last := PGROUNDDOWN (u64 (va + size - 1)) in
    while_ (fun '(a, pa) =>
      pte <- walk pagetable a true ;;
      if pte =? 0 then ret (Brk (-1))
      else
        v <- load64 pte ;;
        if has v PTE_V then panic "mappages: remap"
        else
          store64 pte (Z.lor (Z.lor (PA2PTE pa) perm) PTE_V) ;;;
          if a =? last then ret (Brk 0)
          else ret (Next (u64 (a + PGSIZE), u64 (pa + PGSIZE))))
      (PGROUNDDOWN va, pa).

Definition kvmmap (kpgtbl va pa sz perm : Z) : M kst unit :=
  r <- mappages kpgtbl va sz pa perm ;;
  if nz r then panic "kvmmap" else ret tt.

Definition uvmunmap (pagetable va npages : Z) (do_free : bool) : M kst unit :=
  if nz (va mod PGSIZE) then panic "uvmunmap: not aligned"
  else
    while_ (fun a =>
      if a <? u64 (va + npages * PGSIZE) then
        pte <- walk pagetable a false ;;
        if pte =? 0 then panic "uvmunmap: walk"
        else
          v <- load64 pte ;;
          if negb (has v PTE_V) then panic "uvmunmap: not mapped"
          else if PTE_FLAGS v =? PTE_V then panic "uvmunmap: not a leaf"
          else
            (if do_free then kfree (PTE2PA v) else ret tt) ;;;
            store64 pte 0 ;;;
            ret (Next (u64 (a + PGSIZE)))
      else ret (Brk tt)) va.

Definition uvmcreate : M kst Z :=
  pagetable <- kalloc ;;
  if pagetable =? 0 then ret 0
  else update_mem (fun m => memset m pagetable 0 PGSIZE) ;;; ret pagetable.

Definition uvmfirst (pagetable src sz : Z) : M kst unit :=
  if PGSIZE <=? sz then panic "uvmfirst: more than a page"
  else
    p <- kalloc ;;
    update_mem (fun m => memset m p 0 PGSIZE) ;;;
    mappages pagetable 0 PGSIZE p (Z.lor (Z.lor (Z.lor PTE_W PTE_R) PTE_X) PTE_U) ;;;
    update_mem (fun m => memmove m p src sz).

Definition uvmdealloc (pagetable oldsz newsz : Z) : M kst Z :=
  if oldsz <=? newsz then ret oldsz
  else
    (if PGROUNDUP newsz <? PGROUNDUP oldsz then
       let npages := s32 ((PGROUNDUP oldsz - PGROUNDUP newsz) / PGSIZE) in
       uvmunmap pagetable (PGROUNDUP newsz) (u64 npages) true
     else ret tt) ;;;
    ret newsz.

Definition uvmalloc (pagetable oldsz newsz xperm : Z) : M kst Z :=
  if newsz <? oldsz then ret oldsz
  else
    let oldsz := PGROUNDUP oldsz in
    while_ (fun a =>
      if a <? newsz then
        p <- kalloc ;;
        if p =? 0 then uvmdealloc pagetable a oldsz ;;; ret (Brk 0)
        else
          update_mem (fun m => memset m p 0 PGSIZE) ;;;
          r <- mappages pagetable a PGSIZE p (Z.lor (Z.lor PTE_R PTE_U) xperm) ;;
          if nz r then kfree p ;;; uvmdealloc pagetable a oldsz ;;; ret (Brk 0)
          else ret (Next (u64 (a + PGSIZE)))
      else ret (Brk newsz)) oldsz.

(** The entry loop of [freewalk]: [i] counts up, [k] entries are left;
    [rec] is the recursive call on a lower-level page. *)
Fixpoint freewalk_entries (rec : Z -> M kst unit) (pagetable i : Z) (k : nat) : M kst unit :=
  match k with
  | O => ret tt
  | S k' =>
      pte <- load64 (pagetable + 8 * i) ;;
      (if has pte PTE_V && negb (has pte (Z.lor (Z.lor PTE_R PTE_W) PTE_X)) then
         rec (PTE2PA pte) ;;; store64 (pagetable + 8 * i) 0
       else if has pte PTE_V then panic "freewalk: leaf"
       else ret tt) ;;;
      freewalk_entries rec pagetable (i + 1) k'
  end.
(** The recursion follows the table's depth, bounded by [d]. *)
Fixpoint freewalk_depth (d : nat) (pagetable : Z) : M kst unit :=
  match d with
  | O => hang
  | S d' =>
      freewalk_entries (freewalk_depth d') pagetable 0 512 ;;;
      kfree pagetable
  end.
Definition freewalk (pagetable : Z) : M kst unit := freewalk_depth 64 pagetable.

Definition uvmfree (pagetable sz : Z) : M kst unit :=
  (if 0 <? sz then uvmunmap pagetable 0 (PGROUNDUP sz / PGSIZE) true else ret tt) ;;;
  freewalk pagetable.

Definition uvmcopy (old new sz : Z) : M kst Z :=
  let err i := uvmunmap new 0 (i / PGSIZE) true ;;; ret (Brk (-1)) in
  while_ (fun i =>
    if i <? sz then
      pte <- walk old i false ;;
      if pte =? 0 then panic "uvmcopy: pte should exist"
      else
        v <- load64 pte ;;
        if negb (has v PTE_V) then panic "uvmcopy: page not present"
        else
          let pa := PTE2PA v in
          let flags := PTE_FLAGS v in
          p <- kalloc ;;
          if p =? 0 then err i
          else
            update_mem (fun m => memmove m p pa PGSIZE) ;;;
            r <- mappages new i PGSIZE p flags ;;
            if nz r then kfree p ;;; err i
            else ret (Next (u64 (i + PGSIZE)))
    else ret (Brk 0)) 0.

Definition uvmclear (pagetable va : Z) : M kst unit :=
  pte <- walk pagetable va false ;;
  if pte =? 0 then panic "uvmclear"
  else v <- load64 pte ;; store64 pte (Z.land v (Z.lnot PTE_U)).

Definition copyout (pagetable dstva src len : Z) : M kst Z :=
  while_ (fun '(dstva, src, len) =>
    if 0 <? len then
      let va0 := PGROUNDDOWN dstva in
      pa0 <- walkaddr pagetable va0 ;;
      if pa0 =? 0 then ret (Brk (-1))
      else
        let n := PGSIZE - (dstva - va0) in
        let n := if len <? n then len else n in
        update_mem (fun m => memmove m (pa0 + (dstva - va0)) src n) ;;;
        ret (Next (u64 (va0 + PGSIZE), src + n, len - n))
    else ret (Brk 0)) (dstva, src, len).

Definition copyin (pagetable dst srcva len : Z) : M kst Z :=
  while_ (fun '(dst, srcva, len) =>
    if 0 <? len then
      let va0 := PGROUNDDOWN srcva in
      pa0 <- walkaddr pagetable va0 ;;
      if pa0 =? 0 then ret (Brk (-1))
      else
        let n := PGSIZE - (srcva - va0) in
        let n := if len <? n then len else n in
        update_mem (fun m => memmove m dst (pa0 + (srcva - va0)) n) ;;;
        ret (Next (dst + n, u64 (va0 + PGSIZE), len - n))
    else ret (Brk 0)) (dst, srcva, len).

(** The inner loop of [copyinstr]: copy from [p] to [dst] until a NUL or [n]
    bytes; returns (got_null, dst, max). *)
Fixpoint copyinstr_page (p dst max : Z) (n : nat) : M kst (bool * Z * Z) :=
  match n with
  | O => ret (false, dst, max)
  | S n' =>
      c <- gets (fun s => rd8 (kmem s) p) ;;
      if c =? 0 then
        update_mem (fun m => wr8 m dst 0) ;;; ret (true, dst, max)
      else
        update_mem (fun m => wr8 m dst c) ;;;
        copyinstr_page (p + 1) (dst + 1) (max - 1) n'
  end.

Definition copyinstr (pagetable dst srcva max : Z) : M kst Z :=
  while_ (fun '(got_null, dst, srcva, max) =>
    if negb got_null && (0 <? max) then
      let va0 := PGROUNDDOWN srcva in
      pa0 <- walkaddr pagetable va0 ;;
      if pa0 =? 0 then ret (Brk (-1))
      else
        let n := PGSIZE - (srcva - va0) in
        let n := if max <? n then max else n in
        x <- copyinstr_page (pa0 + (srcva - va0)) dst max (Z.to_nat n) ;;
        let '(got_null, dst, max) := x in
        ret (Next (got_null, dst, u64 (va0 + PGSIZE), max))
    else ret (Brk (if got_null then 0 else -1))) (false, dst, srcva, max).

(** [proc_mapstacks] (kernel/proc.c): a kernel stack page for each process. *)
Fixpoint proc_mapstacks_from (kpgtbl p : Z) (k : nat) : M kst unit :=
  match k with
  | O => ret tt
  | S k' =>
      pa <- kalloc ;;
      if pa =? 0 then panic "kalloc"
      else
        kvmmap kpgtbl (KSTACK p) pa PGSIZE (Z.lor PTE_R PTE_W) ;;;
        proc_mapstacks_from kpgtbl (p + 1) k'
  end.
Definition NPROC : Z := 64.
Definition proc_mapstacks (kpgtbl : Z) : M kst unit :=
  proc_mapstacks_from kpgtbl 0 (Z.to_nat NPROC).

(** [etext] and [trampoline] are linker symbols. *)
Definition kvmmake (etext trampoline : Z) : M kst Z :=
  kpgtbl <- kalloc ;;
  update_mem (fun m => memset m kpgtbl 0 PGSIZE) ;;;
  kvmmap kpgtbl UART0 UART0 PGSIZE (Z.lor PTE_R PTE_W) ;;;
  kvmmap kpgtbl VIRTIO0 VIRTIO0 PGSIZE (Z.lor PTE_R PTE_W) ;;;
  kvmmap kpgtbl PLIC PLIC 0x400000 (Z.lor PTE_R PTE_W) ;;;
  kvmmap kpgtbl KERNBASE KERNBASE (u64 (etext - KERNBASE)) (Z.lor PTE_R PTE_X) ;;;
  kvmmap kpgtbl etext etext (u64 (PHYSTOP - etext)) (Z.lor PTE_R PTE_W) ;;;
  kvmmap kpgtbl TRAMPOLINE trampoline PGSIZE (Z.lor PTE_R PTE_X) ;;;
  proc_mapstacks kpgtbl ;;;
  ret kpgtbl.
End vm.
