(* ===== verification/VmInv.v ===== *)
(** * Page-table invariant

    The shape of a page table in memory is described by a ghost map from index
    paths ([[]] the root, [[i]] a level-1 page, [[i; j]] a level-0 page) to
    physical pages.  [leaf] is the abstract address space: the level-0 entry of
    every virtual address, 0 where a level is missing.  The lemmas give the
    effect of [walk], [mappages] and [uvmunmap] on the invariant and on [leaf]. *)

From stdpp Require Import base list gmap strings.
From Stdlib Require Import ZArith Lia.
From S2P Require Import Prelude Mem Str Riscv Kalloc Vm.

#[local] Open Scope Z_scope.

Section inv.
Context (kend : Z).
Hypothesis kend_ram : KERNBASE <= kend.

Abbreviation page_ok := (page_ok kend).
Abbreviation free_inv := (free_inv kend).
Abbreviation nodes := (gmap (list Z) Z).

(** The paths of the pages that translate [va]. *)
Definition path1 (va : Z) : list Z := [PX 2 va].
Definition path0 (va : Z) : list Z := [PX 2 va; PX 1 va].

(** The child pointed to by entry [e], if valid. *)
Definition child (e : Z) : option Z := if has e PTE_V then Some (PTE2PA e) else None.

(** [walk] uses the lower half of the root only: virtual addresses have 38 bits. *)
Definition fanout (p : list Z) : Z := match p with [] => 256 | _ => 512 end.
(** The bits that make an entry a leaf. *)
Definition PTE_RWX : Z := Z.lor (Z.lor PTE_R PTE_W) PTE_X.

Record pt_inv (m : mem) (root : Z) (N : nodes) : Prop := {
  pt_root : N !! [] = Some root;
  pt_len : forall p x, N !! p = Some x -> (length p <= 2)%nat;
  pt_page : forall p x, N !! p = Some x -> page_ok x;
  pt_inj : forall p q x, N !! p = Some x -> N !! q = Some x -> p = q;
  pt_idx : forall p i x, N !! (p ++ [i]) = Some x -> 0 <= i < fanout p /\ is_Some (N !! p);
  pt_child : forall p x i, N !! p = Some x -> (length p < 2)%nat -> 0 <= i < 512 ->
    N !! (p ++ [i]) = child (rd64 m (x + 8 * i));
  pt_link : forall p x i, N !! p = Some x -> (length p < 2)%nat -> 0 <= i < 512 ->
    has (rd64 m (x + 8 * i)) PTE_RWX = false;
}.

(** The level-0 entry of [va]. *)
Definition leaf (m : mem) (N : nodes) (va : Z) : Z :=
  match N !! path0 va with
  | Some x => rd64 m (x + 8 * PX 0 va)
  | None => 0
  end.

(** The address of that entry, 0 when a level is missing. *)
Definition slot (N : nodes) (va : Z) : Z :=
  match N !! path0 va with
  | Some x => x + 8 * PX 0 va
  | None => 0
  end.

Definition is_node (N : nodes) (x : Z) : Prop := exists p, N !! p = Some x.

(** No page-table page is on the free list. *)
Definition nodes_used (N : nodes) (l : list Z) : Prop := forall x, is_node N x -> x ∉ l.

(** Memory unchanged outside a set of pages. *)
Definition frame (P : Z -> Prop) (m m' : mem) : Prop :=
  forall a, (forall p, P p -> ~ in_page p a) -> rd8 m' a = rd8 m a.

(** ** Basic facts *)

Lemma frame_refl P m : frame P m m.
Proof. done. Qed.

Lemma frame_trans P m1 m2 m3 : frame P m1 m2 -> frame P m2 m3 -> frame P m1 m3.
Proof. intros H1 H2 a Ha. by rewrite H2, H1. Qed.

Lemma frame_mono (P Q : Z -> Prop) m m' : (forall p, P p -> Q p) -> frame P m m' -> frame Q m m'.
Proof. intros HPQ H a Ha. apply H. auto. Qed.

Lemma frame_then (P Q : Z -> Prop) m1 m2 m3 : frame P m1 m2 -> frame Q m2 m3 -> (forall p, Q p -> P p) -> frame P m1 m3.
Proof. intros H1 H2 HQP. eapply frame_trans; [exact H1|]. by eapply frame_mono. Qed.

Lemma frame_same_outside ps m m' : same_outside ps m m' <-> frame (fun p => p ∈ ps) m m'.
Proof. done. Qed.

(** A word of an aligned page outside [P] is unchanged. *)
Lemma frame_rd64 (P : Z -> Prop) m m' x i :
  frame P m m' -> (forall p, P p -> aligned p) -> aligned x -> ~ P x -> 0 <= i < 512 ->
  rd64 m' (x + 8 * i) = rd64 m (x + 8 * i).
Proof.
  intros H HP Hx Hn Hi. apply rd_ext. intros a Ha. apply H. intros p Hp Hin.
  apply Hn. rewrite <- (in_page_disj p x a); auto. unfold in_page. lia.
Qed.

Lemma frame_rd8 (P : Z -> Prop) m m' x a :
  frame P m m' -> (forall p, P p -> aligned p) -> aligned x -> ~ P x -> in_page x a ->
  rd8 m' a = rd8 m a.
Proof.
  intros H HP Hx Hn Ha. apply H. intros p Hp Hin.
  apply Hn. by rewrite <- (in_page_disj p x a); auto.
Qed.

Lemma frame_wr64 m x i v : 0 <= i < 512 -> frame (fun p => p = x) m (wr64 m (x + 8 * i) v).
Proof.
  intros Hi a Ha. apply rd8_wr64_ne. specialize (Ha x eq_refl). unfold in_page in Ha. lia.
Qed.

Lemma frame_memset m x c : frame (fun p => p = x) m (memset m x c PGSIZE).
Proof. intros a Ha. apply rd8_memset_out; [done|]. by apply (Ha x). Qed.

Lemma PX0_bounds va : 0 <= PX 0 va < 512.
Proof. by apply PX_range. Qed.

Lemma pt_aligned m root N x : pt_inv m root N -> is_node N x -> aligned x.
Proof. intros H [p Hp]. apply (pt_page _ _ _ H p x Hp). Qed.

(** The invariant and the address space only depend on the node pages. *)
Lemma pt_inv_frame (P : Z -> Prop) m m' root N :
  pt_inv m root N -> frame P m m' -> (forall p, P p -> aligned p) ->
  (forall x, is_node N x -> ~ P x) -> pt_inv m' root N.
Proof.
  intros H Hf HP Hd. destruct H as [Hr Hl Hp Hi Hx Hc Hk].
  assert (forall p x i, N !! p = Some x -> 0 <= i < 512 -> rd64 m' (x + 8 * i) = rd64 m (x + 8 * i)) as E.
  { intros p x i HN Hi'. exact (frame_rd64 P m m' x i Hf HP (proj1 (Hp p x HN)) (Hd x (ex_intro _ p HN)) Hi'). }
  split; auto; intros p x i HN Hlen Hi'; rewrite (E p x i HN Hi'); eauto.
Qed.

Lemma leaf_frame (P : Z -> Prop) m m' root N va :
  pt_inv m root N -> frame P m m' -> (forall p, P p -> aligned p) ->
  (forall x, is_node N x -> ~ P x) -> leaf m' N va = leaf m N va.
Proof.
  intros H Hf HP Hd. unfold leaf. destruct (N !! path0 va) as [x|] eqn:E; [|done].
  assert (is_node N x) as Hx by (by exists (path0 va)).
  apply (frame_rd64 P); [done|done|by eapply pt_aligned|by apply Hd|apply PX0_bounds].
Qed.

Lemma path0_snoc va : path0 va = path1 va ++ [PX 1 va].
Proof. done. Qed.

Lemma path_page va : path0 (PGROUNDDOWN va) = path0 va.
Proof. unfold path0. by rewrite !PX_page by lia. Qed.

Lemma leaf_page m N va : leaf m N (PGROUNDDOWN va) = leaf m N va.
Proof. unfold leaf. by rewrite path_page, PX_page by lia. Qed.

(** Storing at the slot of [va] changes the entry of its page only. *)
Lemma slot_store m root N va v x :
  pt_inv m root N -> 0 <= va < MAXVA -> N !! path0 va = Some x -> 0 <= v < 2 ^ 64 ->
  let m' := wr64 m (x + 8 * PX 0 va) v in
  pt_inv m' root N /\ frame (fun p => p = x) m m' /\
  forall va', 0 <= va' < MAXVA ->
    leaf m' N va' = if decide (PGROUNDDOWN va' = PGROUNDDOWN va) then v else leaf m N va'.
Proof.
  intros H Hva Hx Hv m'. pose proof (PX0_bounds va) as Hb.
  assert (frame (fun p => p = x) m m') as Hf by (by apply frame_wr64).
  split_and!; [|done|].
  - destruct H as [Hr Hl Hp Hi Hix Hc Hk].
    assert (forall p y i, N !! p = Some y -> (length p < 2)%nat -> 0 <= i < 512 -> rd64 m' (y + 8 * i) = rd64 m (y + 8 * i)) as E.
    { intros p y i HN Hlen Hi'. unfold m'. apply rd64_wr64_ne.
      assert (y <> x) as Hne by (intros ->; rewrite (Hi p (path0 va) x HN Hx) in Hlen; simpl in Hlen; lia).
      destruct (pages_apart y x); [by apply (Hp p)|by apply (Hp (path0 va))|done|lia|lia]. }
    split; auto; intros p y i HN Hlen Hi'; rewrite (E p y i HN Hlen Hi'); eauto.
  - intros va' Hva'. unfold leaf. case_decide as Heq.
    + rewrite <- (path_page va'), Heq, path_page, Hx.
      replace (PX 0 va') with (PX 0 va); [by apply rd64_wr64_eq|].
      by rewrite <- (PX_page 0 va), <- Heq, PX_page by lia.
    + destruct (N !! path0 va') as [y|] eqn:Hy; [|done].
      unfold m'. rewrite rd64_wr64_ne; [done|]. pose proof (PX0_bounds va') as Hb'.
      destruct (decide (y = x)) as [->|Hne].
      * pose proof (pt_inj _ _ _ H _ _ _ Hx Hy) as Hpath. unfold path0 in Hpath.
        simplify_eq. destruct (decide (PX 0 va = PX 0 va')); [|lia].
        exfalso. apply Heq. change MAXVA with (2 ^ 38) in *. apply PX_inj; lia || congruence.
      * destruct (pages_apart y x); [by apply (pt_page _ _ _ H (path0 va'))|
          by apply (pt_page _ _ _ H (path0 va))|done|lia|lia].
Qed.

(** Linking a fresh zeroed page [y] below [p]: the invariant is kept and no
    address space entry changes. *)
Lemma node_extend m m1 root N p x i y :
  pt_inv m root N -> N !! p = Some x -> (length p < 2)%nat -> 0 <= i < fanout p ->
  N !! (p ++ [i]) = None -> page_ok y -> ~ is_node N y ->
  frame (fun q => q = y) m m1 -> (forall a, in_page y a -> rd8 m1 a = 0) ->
  let m2 := wr64 m1 (x + 8 * i) (Z.lor (PA2PTE y) PTE_V) in
  let N' := <[p ++ [i] := y]> N in
  pt_inv m2 root N' /\ frame (fun q => q = x \/ q = y) m m2 /\
  (forall va, leaf m2 N' va = leaf m N va).
Proof using kend_ram.
  intros H HN Hlen Hif Hnone Hy Hyn Hf Hz m2 N'. assert (0 <= i < 512) as Hi by (unfold fanout in Hif; destruct p; lia).
  assert (aligned x) as Hax by (by apply (pt_page _ _ _ H p)).
  assert (aligned y) as Hay by apply Hy.
  pose proof (page_ok_pos kend kend_ram y Hy) as Hypos.
  assert (x <> y) as Hxy by (intros ->; apply Hyn; by exists p).
  assert (frame (fun q => q = x) m1 m2) as Hf2 by (by apply frame_wr64).
  assert (frame (fun q => q = x \/ q = y) m m2) as Hf12.
  { eapply frame_trans; eapply frame_mono; try done; naive_solver. }
  assert (0 <= Z.lor (PA2PTE y) PTE_V < 2 ^ 64) as Hpte by (apply PTE_make_range; lia || done).
  assert (forall j, 0 <= j < 512 -> rd64 m2 (y + 8 * j) = 0) as Hyz.
  { intros j Hj. rewrite (frame_rd64 (fun q => q = x) m1 m2) by naive_solver.
    apply rd_zero. intros a Ha. apply Hz. unfold in_page. lia. }
  assert (forall q z j, N !! q = Some z -> (z <> x \/ j <> i) -> 0 <= j < 512 ->
            rd64 m2 (z + 8 * j) = rd64 m (z + 8 * j)) as Hold.
  { intros q z j Hq Hne Hj.
    assert (aligned z) as Haz by (by apply (pt_page _ _ _ H q)).
    assert (z <> y) by (intros ->; apply Hyn; by exists q).
    rewrite <- (frame_rd64 (fun q => q = y) m m1) by naive_solver.
    destruct (decide (z = x)) as [->|Hzx].
    - apply rd64_wr64_ne. lia.
    - apply (frame_rd64 (fun q => q = x)); naive_solver. }
  split_and!; [|done|].
  - destruct H as [Hr Hl Hp Hinj Hidx Hc Hk]. split; unfold N'.
    + rewrite lookup_insert_ne; [done|]. by destruct p.
    + intros q z. rewrite lookup_insert. case_decide; [|by apply Hl].
      intros _. subst q. rewrite length_app. simpl. lia.
    + intros q z. rewrite lookup_insert. case_decide; [|by apply Hp]. by intros [= <-].
    + intros q r z. rewrite !lookup_insert. repeat case_decide; [congruence| | |by apply Hinj].
      all: intros ? ?; simplify_eq; exfalso; apply Hyn; by eexists.
    + intros q j z. rewrite !lookup_insert. destruct (decide (p ++ [i] = q ++ [j])) as [E|E].
      * intros _. apply app_inj_tail in E as [<- <-]. split; [done|].
        case_decide; [by eexists|]. by rewrite HN.
      * intros HNq. destruct (Hidx q j z HNq) as [? ?]. split; [done|]. case_decide; [by eexists|done].
    + intros q z j. rewrite !lookup_insert.
      destruct (decide (p ++ [i] = q)) as [<-|Hq].
      * intros [= <-] Hlen' Hj. rewrite Hyz by done. case_decide as E.
        { apply (f_equal length) in E. rewrite !length_app in E. simpl in E. lia. }
        destruct (N !! ((p ++ [i]) ++ [j])) as [w|] eqn:Hw; [|done].
        destruct (Hidx _ _ _ Hw) as [_ [? E']]. by rewrite Hnone in E'.
      * intros HNq Hlen' Hj. case_decide as E.
        { apply app_inj_tail in E as [<- <-]. rewrite HN in HNq. simplify_eq.
          unfold m2. rewrite rd64_wr64_eq by done. unfold child.
          rewrite has_make by (lia || done). simpl.
          rewrite PTE2PA_make by (lia || done). by rewrite PGROUNDDOWN_id. }
        rewrite (Hold q z j HNq); [by apply Hc| |done].
        destruct (decide (z = x)) as [->|]; [|by left]. right. intros ->.
        apply E. by rewrite (Hinj p q x).
    + intros q z j. rewrite lookup_insert. destruct (decide (p ++ [i] = q)) as [<-|Hq].
      * intros [= <-] _ Hj. by rewrite Hyz.
      * intros HNq Hlen' Hj. destruct (decide (z = x /\ j = i)) as [[-> ->]|Hne].
        { unfold m2. rewrite rd64_wr64_eq by done. by rewrite has_make by (lia || done). }
        rewrite (Hold q z j HNq); [by apply (Hk q)| |done].
        destruct (decide (z = x)); [right; naive_solver|by left].
  - intros va. unfold leaf, N'. rewrite lookup_insert. pose proof (PX0_bounds va) as Hb.
    case_decide as E.
    + rewrite <- E, Hnone. by apply Hyz.
    + destruct (N !! path0 va) as [z|] eqn:Hz'; [|done].
      apply (Hold (path0 va)); [done| |done]. left. intros ->.
      rewrite (pt_inj _ _ _ H p (path0 va) x) in Hlen by done. simpl in Hlen. lia.
Qed.

(** ** walk *)

(** The path of the page reached at [level]. *)
Definition path_of (level : nat) (va : Z) : list Z :=
  match level with
  | O => path0 va
  | S O => path1 va
  | _ => []
  end.

Lemma path_of_S level va : (level < 2)%nat ->
  path_of level va = path_of (S level) va ++ [PX (Z.of_nat (S level)) va].
Proof. intros. by destruct level as [|[|]]; [| |lia]. Qed.

Lemma path_of_length level va : (level <= 2)%nat -> length (path_of level va) = (2 - level)%nat.
Proof. intros. by destruct level as [|[|[|]]]; [| | |lia]. Qed.

Lemma path_of_none m root N level va : pt_inv m root N -> (level <= 2)%nat ->
  N !! path_of level va = None -> N !! path0 va = None.
Proof.
  intros H. induction level as [|level IH]; intros Hl HN; [done|].
  apply IH; [lia|]. rewrite path_of_S by lia.
  destruct (N !! (_ ++ _)) eqn:E; [|done].
  destruct (pt_idx _ _ _ H _ _ _ E) as [_ [? E']]. by rewrite HN in E'.
Qed.

Lemma page_pos x : page_ok x -> 0 < x.
Proof using kend_ram. intros H%(page_ok_pos kend kend_ram). lia. Qed.

Lemma walk_down_lookup s root N level va x :
  pt_inv (kmem s) root N -> (level <= 2)%nat -> N !! path_of level va = Some x ->
  walk_down level x va false s = Ok (slot N va) s.
Proof.
  intros H. revert x. induction level as [|level IH]; intros x Hl HN; cbn [walk_down].
  - unfold ret, slot. simpl in HN. by rewrite HN.
  - unfold bind, load64, gets. pose proof (PX_range (Z.of_nat (S level)) va ltac:(lia)) as Hb.
    pose proof (pt_child _ _ _ H _ _ (PX (Z.of_nat (S level)) va) HN) as Hc.
    rewrite path_of_length in Hc by done. specialize (Hc ltac:(lia) Hb).
    rewrite <- path_of_S in Hc by lia. unfold child in Hc.
    destruct (has _ PTE_V); [by apply IH; [lia|]|].
    unfold ret, slot. by rewrite (path_of_none _ _ _ level va H ltac:(lia) Hc).
Qed.

Lemma MAXVA_leb va : va < MAXVA -> (MAXVA <=? va) = false.
Proof. intros. by apply Z.leb_gt. Qed.

(** Looking up never changes memory and finds the entry's address. *)
Lemma walk_lookup s root N va : pt_inv (kmem s) root N -> va < MAXVA ->
  walk root va false s = Ok (slot N va) s.
Proof.
  intros H Hva. unfold walk. rewrite MAXVA_leb by done.
  apply (walk_down_lookup s root N); [done|done|apply (pt_root _ _ _ H)].
Qed.

(** The page-table pages and the free pages of a state. *)
Definition vm_inv (s : kst) (root : Z) (N : nodes) (l : list Z) : Prop :=
  pt_inv (kmem s) root N /\ free_inv s l /\ nodes_used N l.

(** What taking pages may do: they come from the front of the free list, become
    page-table pages or the data pages [new], and only they and the page-table
    pages are written. *)
Definition ext (s : kst) (N : nodes) (l new : list Z) (s' : kst) (N' : nodes) (l' : list Z) : Prop :=
  exists taken, l = taken ++ l' /\ N ⊆ N' /\
    (forall x, is_node N' x \/ x ∈ new <-> is_node N x \/ x ∈ taken) /\
    frame (fun p => is_node N p \/ p ∈ taken) (kmem s) (kmem s').

(** Growing the table without changing the address space. *)
Definition grown (s : kst) (N : nodes) (l : list Z) (s' : kst) (N' : nodes) (l' : list Z) : Prop :=
  ext s N l [] s' N' l' /\ forall va, leaf (kmem s') N' va = leaf (kmem s) N va.

Lemma ext_refl s N l : ext s N l [] s N l.
Proof. exists []. split_and!; done. Qed.

Lemma ext_trans s1 N1 l1 n1 s2 N2 l2 n2 s3 N3 l3 :
  ext s1 N1 l1 n1 s2 N2 l2 -> ext s2 N2 l2 n2 s3 N3 l3 -> ext s1 N1 l1 (n1 ++ n2) s3 N3 l3.
Proof.
  intros (t1 & -> & Hs1 & Hn1 & Hf1) (t2 & -> & Hs2 & Hn2 & Hf2).
  exists (t1 ++ t2). split_and!.
  - by rewrite app_assoc.
  - by transitivity N2.
  - intros x. specialize (Hn1 x). specialize (Hn2 x). rewrite !elem_of_app. tauto.
  - eapply frame_trans; eapply frame_mono; [|exact Hf1| |exact Hf2].
    + intros p [?|?]; rewrite elem_of_app; auto.
    + intros p. specialize (Hn1 p). rewrite elem_of_app. tauto.
Qed.

Lemma grown_refl s N l : grown s N l s N l.
Proof. split; [apply ext_refl|done]. Qed.

Lemma grown_trans s1 N1 l1 s2 N2 l2 s3 N3 l3 :
  grown s1 N1 l1 s2 N2 l2 -> grown s2 N2 l2 s3 N3 l3 -> grown s1 N1 l1 s3 N3 l3.
Proof.
  intros [H1 E1] [H2 E2]. split; [exact (ext_trans _ _ _ [] _ _ _ [] _ _ _ H1 H2)|]. intros va. by rewrite E2, E1.
Qed.

(** One allocation step of [walk]: link page [y], the head of the free list. *)
Lemma vm_inv_extend s s1 root N p x i y l :
  vm_inv s root N (y :: l) -> N !! p = Some x -> (length p < 2)%nat -> 0 <= i < fanout p ->
  N !! (p ++ [i]) = None ->
  free_inv s1 l -> same_outside [y] (kmem s) (kmem s1) ->
  let m1 := memset (kmem s1) y 0 PGSIZE in
  let m2 := wr64 m1 (x + 8 * i) (Z.lor (PA2PTE y) PTE_V) in
  let N' := <[p ++ [i] := y]> N in
  vm_inv (Kst m2 (freelist s1)) root N' l /\
  grown s N (y :: l) (Kst m2 (freelist s1)) N' l.
Proof using kend_ram.
  intros (Hpt & Hfree & Hu) HN Hlen Hif Hnone Hfree1 Hs1 m1 m2 N'. assert (0 <= i < 512) as Hi by (unfold fanout in Hif; destruct p; lia).
  destruct Hfree as (_ & Hnd & Hok). apply NoDup_cons in Hnd as [Hyl Hnd].
  apply Forall_cons in Hok as [Hy Hok].
  assert (~ is_node N y) as Hyn by (intros Hyn; apply (Hu y Hyn); by left).
  assert (frame (fun q => q = y) (kmem s) m1) as Hf1.
  { eapply frame_trans; [|apply frame_memset].
    intros a Ha. apply Hs1. intros q ->%list_elem_of_singleton. by apply Ha. }
  destruct (node_extend (kmem s) m1 root N p x i y Hpt HN Hlen Hif Hnone Hy Hyn Hf1)
    as (Hpt2 & Hf2 & Hleaf).
  { intros a Ha. unfold m1. rewrite rd8_memset by done. by case_decide. }
  fold m2 N' in Hpt2, Hf2, Hleaf.
  assert (is_node N x) as Hx by (by exists p).
  split; [split_and!|].
  - done.
  - destruct Hfree1 as (Hc1 & Hrest). split; [|done]. cbn.
    assert (same_outside [x; y] (kmem s1) m2) as Hs2.
    { intros a Ha. transitivity (rd8 m1 a).
      - apply (frame_wr64 m1 x i); [done|]. intros q ->. apply Ha. set_solver.
      - apply (frame_memset (kmem s1) y 0). intros q ->. apply Ha. set_solver. }
    apply (chain_same_outside [x; y] (kmem s1)); [by eapply page_ok_aligned| | |done|done].
    + constructor; [exact (pt_aligned _ _ _ x Hpt Hx)|]. constructor; [apply Hy|constructor].
    + intros q Hq Hqxy. apply elem_of_cons in Hqxy as [->|Hqy].
      * apply (Hu x Hx). by right.
      * apply list_elem_of_singleton in Hqy as ->. done.
  - intros z [q Hq] Hz. unfold N' in Hq. rewrite lookup_insert in Hq. case_decide.
    + by simplify_eq.
    + apply (Hu z); [by exists q|]. by right.
  - split; [|done]. exists [y]. split_and!; [done| | |cbn].
    + by apply insert_subseteq.
    + intros z. rewrite elem_of_nil, list_elem_of_singleton. split.
      * intros [[q Hq]|[]]. unfold N' in Hq. rewrite lookup_insert in Hq.
        case_decide; simplify_eq; [by right|left; by exists q].
      * intros [[q Hq]| ->]; left; [exists q|exists (p ++ [i])]; unfold N'.
        -- rewrite lookup_insert_ne; [done|]. intros <-. by rewrite Hnone in Hq.
        -- apply lookup_insert_eq.
    + eapply frame_mono; [|exact Hf2]. intros q [-> | ->]; [by left|right; by left].
Qed.

(** [walk] with allocation: it returns the entry's address, or 0 only when the
    free list ran out; either way the address space is unchanged. *)
Lemma PX_fanout level va : (level < 2)%nat -> 0 <= va < MAXVA -> 0 <= PX (Z.of_nat (S level)) va < fanout (path_of (S level) va).
Proof.
  intros Hl Hva. destruct level as [|[|]]; [by apply PX_range| |lia]. cbn [path_of fanout]. rewrite PX_div by lia.
  change (2 ^ (12 + 9 * Z.of_nat 2)) with (2 ^ 30). change MAXVA with (2 ^ 30 * 256) in Hva.
  assert (0 <= va / 2 ^ 30 < 256) by (split; [apply Z.div_pos; lia|apply Z.div_lt_upper_bound; lia]). rewrite Z.mod_small by lia. done.
Qed.

Lemma walk_down_alloc level va : (level <= 2)%nat -> 0 <= va < MAXVA ->
  forall s root N l x, vm_inv s root N l -> N !! path_of level va = Some x ->
  wp (walk_down level x va true) (fun r s' => exists N' l',
    vm_inv s' root N' l' /\ grown s N l s' N' l' /\
    r = slot N' va /\ (N' !! path0 va = None -> l' = [])) s.
Proof using kend_ram.
  intros Hl0 Hva. revert Hl0. induction level as [|level IH]; intros Hl s root N l x Hinv HN; cbn [walk_down].
  - apply wp_ret. exists N, l. split_and!; [done|apply grown_refl| |].
    + unfold slot. simpl in HN. by rewrite HN.
    + simpl in HN. by rewrite HN.
  - pose proof (PX_range (Z.of_nat (S level)) va ltac:(lia)) as Hb.
    set (i := PX (Z.of_nat (S level)) va) in *. apply wp_bind, wp_gets.
    destruct Hinv as (Hpt & Hfree & Hu).
    pose proof (pt_child _ _ _ Hpt _ _ i HN) as Hc.
    rewrite path_of_length in Hc by done. specialize (Hc ltac:(lia) Hb). unfold child in Hc.
    unfold i in Hc at 1. rewrite <- path_of_S in Hc by lia.
    destruct (has _ PTE_V); [by apply IH; [lia|..]|]. simpl negb. cbn match.
    apply wp_bind. eapply wp_mono; [by apply kalloc_spec|]. intros r s1 Hr.
    destruct l as [|y l].
    + destruct Hr as [-> ->]. apply wp_ret. exists N, []. split_and!; [done|apply grown_refl| |done].
      unfold slot. by rewrite (path_of_none _ _ _ level va Hpt ltac:(lia) Hc).
    + destruct Hr as (-> & Hfree1 & Hs1 & _).
      assert (0 < y) as Hypos.
      { apply page_pos. destruct Hfree as (_ & _ & Hok). by apply Forall_cons in Hok as [? _]. }
      destruct (Z.eqb_spec y 0); [lia|]. mem_steps.
      rewrite path_of_S in Hc by lia.
      destruct (vm_inv_extend s s1 root N (path_of (S level) va) x i y l) as [Hinv' Hg]; try done.
      { rewrite path_of_length by done. lia. }
      { apply PX_fanout; [lia|done]. }
      eapply wp_mono; [apply (IH ltac:(lia) _ root _ l y Hinv')|].
      { rewrite path_of_S by lia. apply lookup_insert_eq. }
      intros r s2 (N2 & l2 & Hinv2 & Hg2 & ? & ?). exists N2, l2. split_and!; try done.
      by eapply grown_trans.
Qed.

Lemma walk_alloc s root N l va : vm_inv s root N l -> 0 <= va < MAXVA ->
  wp (walk root va true) (fun r s' => exists N' l',
    vm_inv s' root N' l' /\ grown s N l s' N' l' /\
    r = slot N' va /\ (N' !! path0 va = None -> l' = [])) s.
Proof using kend_ram.
  intros Hinv Hva. unfold walk. rewrite MAXVA_leb by lia.
  apply walk_down_alloc; [done|done|done|]. destruct Hinv as [Hpt _]. apply (pt_root _ _ _ Hpt).
Qed.

(** ** Writing an entry *)

Lemma slot_Some N va x : N !! path0 va = Some x -> slot N va = x + 8 * PX 0 va.
Proof. unfold slot. by intros ->. Qed.

Lemma slot_pos m root N va : pt_inv m root N ->
  match N !! path0 va with Some x => 0 < slot N va | None => slot N va = 0 end.
Proof using kend_ram.
  intros H. unfold slot. destruct (N !! path0 va) as [x|] eqn:E; [|done].
  pose proof (page_pos x (pt_page _ _ _ H _ _ E)). pose proof (PX0_bounds va). lia.
Qed.

(** Entries that cannot be read as a pointer to a lower level need no care:
    only level-0 entries are stored, and they have no children. *)
Lemma vm_inv_store s root N l va v x :
  vm_inv s root N l -> 0 <= va < MAXVA -> N !! path0 va = Some x -> 0 <= v < 2 ^ 64 ->
  let s' := Kst (wr64 (kmem s) (slot N va) v) (freelist s) in
  vm_inv s' root N l /\ ext s N l [] s' N l /\
  forall va', 0 <= va' < MAXVA ->
    leaf (kmem s') N va' = if decide (PGROUNDDOWN va' = PGROUNDDOWN va) then v else leaf (kmem s) N va'.
Proof.
  intros (Hpt & Hfree & Hu) Hva Hx Hv s'.
  destruct (slot_store _ _ _ va v x Hpt Hva Hx Hv) as (Hpt' & Hf & Hl).
  assert (is_node N x) as Hnode by (by exists (path0 va)).
  assert (aligned x) as Hax by exact (pt_aligned _ _ _ x Hpt Hnode).
  unfold s'. rewrite (slot_Some _ _ _ Hx). split_and!; [split_and!|..]; [done| |done| |done].
  - destruct Hfree as (Hc & Hnd & Hok). split; [|done]. cbn.
    apply (chain_other_page kend x (kmem s)); [done|done|by apply Hu| |done].
    intros a Ha. apply Hf. intros q ->. apply Ha. by left.
  - exists []. split_and!; [done|done|done|]. cbn.
    eapply frame_mono; [|exact Hf]. intros q ->. by left.
Qed.

(** ** mappages *)

(** The address space [f] with [k] pages from [a] mapped to [pa] on. *)
Definition mapped (f : Z -> Z) (a pa perm k va : Z) : Z :=
  if decide (a <= PGROUNDDOWN va < a + 4096 * k)
  then Z.lor (Z.lor (PA2PTE (pa + (PGROUNDDOWN va - a))) perm) PTE_V
  else f va.

Lemma mapped_0 f a pa perm va : mapped f a pa perm 0 va = f va.
Proof. unfold mapped. case_decide; [lia|done]. Qed.

Lemma lor_V_range perm : 0 <= perm < 1024 -> 0 <= Z.lor perm PTE_V < 1024.
Proof. intros. by apply (lor_range _ _ 10). Qed.

Lemma entry_range pa perm : 0 <= pa < 2 ^ 56 -> 0 <= perm < 1024 ->
  0 <= Z.lor (Z.lor (PA2PTE pa) perm) PTE_V < 2 ^ 64.
Proof.
  intros. rewrite <- Z.lor_assoc. apply PTE_make_range; [done|]. by apply lor_V_range.
Qed.

(** What an entry made by [mappages] says. *)
Lemma entry_pa pa perm : 0 <= pa < 2 ^ 56 -> 0 <= perm < 1024 -> aligned pa ->
  PTE2PA (Z.lor (Z.lor (PA2PTE pa) perm) PTE_V) = pa.
Proof.
  intros. rewrite <- Z.lor_assoc, PTE2PA_make by (done || by apply lor_V_range).
  by apply PGROUNDDOWN_id.
Qed.

Lemma entry_flags pa perm : 0 <= pa < 2 ^ 56 -> 0 <= perm < 1024 ->
  PTE_FLAGS (Z.lor (Z.lor (PA2PTE pa) perm) PTE_V) = Z.lor perm PTE_V.
Proof. intros. by rewrite <- Z.lor_assoc, PTE_FLAGS_make by (done || by apply lor_V_range). Qed.

Lemma entry_has pa perm f : 0 <= pa < 2 ^ 56 -> 0 <= perm < 1024 -> 0 <= f < 1024 ->
  has (Z.lor (Z.lor (PA2PTE pa) perm) PTE_V) f = has perm f || has PTE_V f.
Proof.
  intros. rewrite <- Z.lor_assoc, has_make by (done || by apply lor_V_range). apply has_lor.
Qed.

Lemma page_of_mul a va : aligned a -> a <= PGROUNDDOWN va < a + 4096 -> PGROUNDDOWN va = a.
Proof.
  intros Ha H. destruct (PGROUNDDOWN_spec va) as [Hm _].
  rewrite (aligned_mul a Ha), (aligned_mul _ Hm) in *. lia.
Qed.

Lemma aligned_add a k : aligned a -> aligned (a + 4096 * k).
Proof. unfold aligned. intros. rewrite Z.mul_comm, Z.mod_add by lia. done. Qed.

Lemma mapped_S f a pa perm k va : aligned a -> 0 <= k ->
  mapped f a pa perm (k + 1) va =
  if decide (PGROUNDDOWN va = a + 4096 * k)
  then Z.lor (Z.lor (PA2PTE (pa + 4096 * k)) perm) PTE_V
  else mapped f a pa perm k va.
Proof.
  intros Ha Hk. unfold mapped. repeat case_decide; try lia; try done.
  - do 3 f_equal. lia.
  - exfalso. apply H0. apply page_of_mul; [by apply aligned_add|lia].
Qed.

Lemma mappages_spec s root N l va size pa perm n :
  vm_inv s root N l -> 0 <= va -> 0 < size -> va + size <= MAXVA ->
  0 <= pa -> pa + size + 4096 < 2 ^ 56 -> 0 <= perm < 1024 ->
  n = (PGROUNDDOWN (va + size - 1) - PGROUNDDOWN va) / 4096 + 1 ->
  (forall va', 0 <= va' < MAXVA -> PGROUNDDOWN va <= va' < PGROUNDDOWN va + 4096 * n ->
     has (leaf (kmem s) N va') PTE_V = false) ->
  wp (mappages root va size pa perm) (fun r s' => exists N' l' k,
    vm_inv s' root N' l' /\ ext s N l [] s' N' l' /\
    (r = 0 /\ k = n \/ r = -1 /\ l' = [] /\ 0 <= k < n) /\
    forall va', 0 <= va' < MAXVA ->
      leaf (kmem s') N' va' = mapped (leaf (kmem s) N) (PGROUNDDOWN va) pa perm k va') s.
Proof using kend_ram.
  intros Hinv Hva Hsz Hmax Hpa Hpa' Hperm Hn Hfresh. unfold mappages.
  destruct (Z.eqb_spec size 0); [lia|]. change MAXVA with (2 ^ 38) in *.
  rewrite u64_small by lia.
  destruct (PGROUNDDOWN_spec va) as [Ha Ha']. destruct (PGROUNDDOWN_spec (va + size - 1)) as [Hz Hz'].
  set (a := PGROUNDDOWN va) in *. set (last := PGROUNDDOWN (va + size - 1)) in *.
  assert (last = a + 4096 * (n - 1) /\ 0 <= a /\ 1 <= n) as (Hlast & Ha0 & Hn1).
  { pose proof (aligned_mul a Ha). pose proof (aligned_mul last Hz).
    replace (last - a) with ((last / 4096 - a / 4096) * 4096) in Hn by lia.
    rewrite Z.div_mul in Hn by lia. lia. }
  apply (wp_while _
    (fun '(a', pa') st => exists k N1 l1, a' = a + 4096 * k /\ pa' = pa + 4096 * k /\ 0 <= k < n /\
       vm_inv st root N1 l1 /\ ext s N l [] st N1 l1 /\
       forall va', 0 <= va' < 2 ^ 38 -> leaf (kmem st) N1 va' = mapped (leaf (kmem s) N) a pa perm k va')
    (fun '(a', _) _ => last - a')).
  2: { exists 0, N, l. split_and!; try done; try lia; [apply ext_refl|].
       intros. by rewrite mapped_0. }
  2: { lia. }
  intros [a' pa'] st (k & N1 & l1 & -> & -> & Hk & Hinv1 & Hext1 & Hl1).
  assert (aligned (a + 4096 * k)) as Hak by (by apply aligned_add).
  apply wp_bind. eapply wp_mono; [apply (walk_alloc _ _ _ _ _ Hinv1); change MAXVA with (2 ^ 38); lia|].
  intros r s2 (N2 & l2 & Hinv2 & [Hext2 Hl2] & -> & Hnone).
  pose proof (slot_pos _ _ _ (a + 4096 * k) (proj1 Hinv2)) as Hslot.
  destruct (N2 !! path0 (a + 4096 * k)) as [x|] eqn:Hx.
  2: { rewrite Hslot. simpl. apply wp_ret. exists N2, l2, k. split_and!; [done|exact (ext_trans _ _ _ [] _ _ _ [] _ _ _ Hext1 Hext2)| |].
       - right. split_and!; auto; lia.
       - intros va' Hva'. rewrite Hl2. by apply Hl1. }
  destruct (Z.eqb_spec (slot N2 (a + 4096 * k)) 0); [lia|]. mem_steps.
  assert (rd64 (kmem s2) (slot N2 (a + 4096 * k)) = leaf (kmem s2) N2 (a + 4096 * k)) as ->.
  { unfold slot, leaf. by rewrite Hx. }
  rewrite Hl2, Hl1 by lia. unfold mapped at 1. rewrite PGROUNDDOWN_id by done.
  case_decide; [lia|]. rewrite Hfresh by lia. mem_steps.
  destruct (vm_inv_store s2 root N2 l2 (a + 4096 * k)
    (Z.lor (Z.lor (PA2PTE (pa + 4096 * k)) perm) PTE_V) x Hinv2) as (Hinv3 & Hext3 & Hl3);
    [change MAXVA with (2 ^ 38); lia|done|apply entry_range; lia|].
  assert (forall va', 0 <= va' < 2 ^ 38 ->
    leaf (wr64 (kmem s2) (slot N2 (a + 4096 * k))
      (Z.lor (Z.lor (PA2PTE (pa + 4096 * k)) perm) PTE_V)) N2 va' =
    mapped (leaf (kmem s) N) a pa perm (k + 1) va') as Hl4.
  { intros va' Hva'. rewrite mapped_S by (done || lia). cbn in Hl3. rewrite Hl3 by done.
    rewrite (PGROUNDDOWN_id (a + 4096 * k)) by done. case_decide; [done|]. by rewrite Hl2, Hl1. }
  pose proof (ext_trans _ _ _ [] _ _ _ [] _ _ _ (ext_trans _ _ _ [] _ _ _ [] _ _ _ Hext1 Hext2) Hext3) as Hext4.
  destruct (Z.eqb_spec (a + 4096 * k) last).
  - apply wp_ret. exists N2, l2, n. replace n with (k + 1) by lia. by split_and!; [..|left|].
  - apply wp_ret. unfold PGSIZE. rewrite !u64_small by lia. split; [|lia].
    exists (k + 1), N2, l2. split_and!; done || lia.
Qed.

(** ** Allocating and freeing pages beside a page table *)

Lemma vm_inv_other s s' root N l l' y :
  vm_inv s root N l -> free_inv s' l' -> (forall x, x ∈ l' -> x ∈ y :: l) ->
  page_ok y -> ~ is_node N y -> frame (fun p => p = y) (kmem s) (kmem s') ->
  vm_inv s' root N l' /\ forall va, leaf (kmem s') N va = leaf (kmem s) N va.
Proof.
  intros (Hpt & Hfree & Hu) Hfree' Hsub Hy Hyn Hf.
  assert (forall p : Z, p = y -> aligned p) as Hal by (intros ? ->; apply Hy).
  assert (forall x, is_node N x -> x <> y) as Hne by (intros x Hx ->; done).
  split; [split_and!|]; [by eapply pt_inv_frame|done| |by intros; eapply leaf_frame].
  intros x Hx Hin. apply Hsub, elem_of_cons in Hin as [->|Hin]; [done|]. by apply (Hu x).
Qed.

Lemma vm_inv_kalloc s root N p l : vm_inv s root N (p :: l) ->
  wp kalloc (fun r s' => r = p /\ vm_inv s' root N l /\ frame (fun q => q = p) (kmem s) (kmem s') /\
    forall va, leaf (kmem s') N va = leaf (kmem s) N va) s.
Proof using kend_ram.
  intros Hinv. pose proof Hinv as (Hpt & Hfree & Hu).
  eapply wp_mono; [by apply kalloc_spec|]. intros r s' (-> & Hfree' & Hs & _).
  assert (frame (fun q => q = p) (kmem s) (kmem s')) as Hf.
  { intros a Ha. apply Hs. intros q ->%list_elem_of_singleton. by apply Ha. }
  destruct (vm_inv_other s s' root N (p :: l) l p) as [? ?]; try done.
  - intros x ?. do 2 right. done.
  - destruct Hfree as (_ & _ & Hok). by apply Forall_cons in Hok as [? _].
  - intros Hp. apply (Hu p Hp). by left.
Qed.

Lemma vm_inv_kfree s root N p l :
  vm_inv s root N l -> page_ok p -> p ∉ l -> ~ is_node N p ->
  wp (kfree kend p) (fun _ s' => vm_inv s' root N (p :: l) /\
    frame (fun q => q = p) (kmem s) (kmem s') /\
    forall va, leaf (kmem s') N va = leaf (kmem s) N va) s.
Proof using kend_ram.
  intros Hinv Hp Hpl Hpn. pose proof Hinv as (Hpt & Hfree & Hu).
  eapply wp_mono; [by apply kfree_spec|]. intros [] s' (Hfree' & Hs & _).
  assert (frame (fun q => q = p) (kmem s) (kmem s')) as Hf.
  { intros a Ha. apply Hs. intros q ->%list_elem_of_singleton. by apply Ha. }
  destruct (vm_inv_other s s' root N l (p :: l) p) as [? ?]; done.
Qed.

(** ** uvmunmap *)

Definition is_leaf (e : Z) : Prop := has e PTE_V = true /\ PTE_FLAGS e <> PTE_V.

(** The address space [f] with [k] pages from [a] unmapped. *)
Definition cleared (f : Z -> Z) (a k va : Z) : Z :=
  if decide (a <= PGROUNDDOWN va < a + 4096 * k) then 0 else f va.

Lemma cleared_S f a k va : aligned a -> 0 <= k ->
  cleared f a (k + 1) va = if decide (PGROUNDDOWN va = a + 4096 * k) then 0 else cleared f a k va.
Proof.
  intros Ha Hk. unfold cleared. repeat case_decide; try lia; try done.
  exfalso. apply H0. apply page_of_mul; [by apply aligned_add|lia].
Qed.

(** Pages [D] belong to nobody else: they are RAM pages, distinct, not free
    and not page-table pages. *)
Definition owned (N : nodes) (l D : list Z) : Prop :=
  NoDup D /\ Forall page_ok D /\ forall p, p ∈ D -> p ∉ l /\ ~ is_node N p.

(** The pages freed after [k] passes. *)
Definition freed (do_free : bool) (D l : list Z) (k : nat) : list Z :=
  if do_free then reverse (take k D) ++ l else l.

(** Freeing the page of one entry (when asked to) and clearing the entry. *)
Lemma unmap_one s root N l va do_free x D k :
  vm_inv s root N (freed do_free D l k) -> 0 <= va < MAXVA -> N !! path0 va = Some x ->
  (do_free = true -> owned N l D /\ D !! k = Some (PTE2PA (leaf (kmem s) N va))) ->
  wp ((if do_free then kfree kend (PTE2PA (leaf (kmem s) N va)) else ret tt) ;;;
      store64 (slot N va) 0)
    (fun _ s' => vm_inv s' root N (freed do_free D l (S k)) /\
      frame (fun p => is_node N p \/ p ∈ D) (kmem s) (kmem s') /\
      forall va', 0 <= va' < MAXVA -> leaf (kmem s') N va' =
        if decide (PGROUNDDOWN va' = PGROUNDDOWN va) then 0 else leaf (kmem s) N va') s.
Proof using kend_ram.
  intros Hinv Hva Hx Hown. apply wp_bind.
  assert (wp (if do_free then kfree kend (PTE2PA (leaf (kmem s) N va)) else ret tt)
    (fun _ s' => vm_inv s' root N (freed do_free D l (S k)) /\
      frame (fun p => p ∈ D) (kmem s) (kmem s') /\
      forall va', leaf (kmem s') N va' = leaf (kmem s) N va') s) as Hfree.
  { destruct do_free; [|by apply wp_ret]. destruct Hown as [(Hnd & Hok & Hd) HD]; [done|].
    set (p := PTE2PA _) in *.
    assert (p ∈ D) as HpD by (by eapply list_elem_of_lookup_2).
    destruct (Hd p HpD) as [Hpl Hpn]. rewrite Forall_forall in Hok.
    eapply wp_mono; [apply (vm_inv_kfree _ _ _ p _ Hinv); [by apply Hok| |done]|].
    - simpl. rewrite elem_of_app, elem_of_reverse. intros [Hin|?]; [|done].
      apply list_elem_of_lookup in Hin as [j Hj]. apply lookup_take_Some in Hj as [Hj Hlt].
      pose proof (NoDup_lookup _ _ _ _ Hnd Hj HD). lia.
    - intros [] s' (Hinv' & Hf & Hl). split_and!; [|by eapply frame_mono; [|exact Hf]; intros ? ->|done].
      simpl. by rewrite (take_S_r _ _ _ HD), reverse_app, reverse_singleton. }
  eapply wp_mono; [exact Hfree|]. intros [] s1 (Hinv1 & Hf1 & Hl1). apply wp_store64.
  destruct (vm_inv_store s1 root N _ va 0 x Hinv1 Hva Hx) as (Hinv2 & (t & Ht & _ & _ & Hf2) & Hl2); [done|].
  split_and!; [done| |].
  - eapply frame_trans; eapply frame_mono; [|exact Hf1| |exact Hf2]; [by right|].
    intros p [?|Hp]; [by left|]. assert (t = []) as -> by (apply (f_equal length) in Ht; rewrite length_app in Ht; destruct t; [done|simpl in Ht; lia]).
    by apply elem_of_nil in Hp.
  - intros va' Hva'. rewrite Hl2 by done. by rewrite Hl1.
Qed.

Lemma uvmunmap_spec s root N l a n do_free D :
  vm_inv s root N l -> aligned a -> 0 <= a -> a + 4096 * Z.of_nat n <= MAXVA ->
  (forall j, (j < n)%nat -> is_leaf (leaf (kmem s) N (a + 4096 * Z.of_nat j))) ->
  (do_free = true -> owned N l D /\ forall j, (j < n)%nat ->
     D !! j = Some (PTE2PA (leaf (kmem s) N (a + 4096 * Z.of_nat j)))) ->
  wp (uvmunmap kend root a (Z.of_nat n) do_free) (fun _ s' =>
    vm_inv s' root N (freed do_free D l n) /\
    frame (fun p => is_node N p \/ p ∈ D) (kmem s) (kmem s') /\
    forall va, 0 <= va < MAXVA -> leaf (kmem s') N va = cleared (leaf (kmem s) N) a (Z.of_nat n) va) s.
Proof using kend_ram.
  intros Hinv Ha Ha0 Hmax Hleaf Hown. unfold uvmunmap. unfold aligned in Ha.
  unfold nz, PGSIZE. rewrite Ha. simpl. change MAXVA with (2 ^ 38) in *.
  rewrite (u64_small (a + _)) by lia.
  apply (wp_while _
    (fun a' st => exists k : nat, a' = a + 4096 * Z.of_nat k /\ (k <= n)%nat /\
       vm_inv st root N (freed do_free D l k) /\
       frame (fun p => is_node N p \/ p ∈ D) (kmem s) (kmem st) /\
       forall va, 0 <= va < 2 ^ 38 -> leaf (kmem st) N va = cleared (leaf (kmem s) N) a (Z.of_nat k) va)
    (fun a' _ => a + 4096 * Z.of_nat n - a')).
  2: { exists 0%nat. split_and!; try done; try lia; [by destruct do_free|].
       intros. unfold cleared. case_decide; [lia|done]. }
  2: { lia. }
  intros a' st (k & -> & Hk & Hinv1 & Hf1 & Hl1).
  destruct (Z.ltb_spec (a + 4096 * Z.of_nat k) (a + Z.of_nat n * 4096)).
  2: { apply wp_ret. assert (k = n) as -> by lia. done. }
  set (va := a + 4096 * Z.of_nat k) in *.
  assert (aligned va) as Hva by (by apply aligned_add).
  assert (leaf (kmem st) N va = leaf (kmem s) N va) as Hlva.
  { rewrite Hl1 by lia. unfold cleared. rewrite PGROUNDDOWN_id by done. case_decide; [lia|done]. }
  destruct (Hleaf k ltac:(lia)) as [HV Hnl]. fold va in HV, Hnl.
  apply wp_bind. eapply wp_intro; [apply walk_lookup; [apply Hinv1|change MAXVA with (2 ^ 38); lia]|].
  destruct (N !! path0 va) as [x|] eqn:Hx.
  2: { exfalso. unfold leaf in HV. rewrite Hx in HV. done. }
  pose proof (slot_pos _ _ _ va (proj1 Hinv1)) as Hslot. rewrite Hx in Hslot.
  destruct (Z.eqb_spec (slot N va) 0); [lia|]. mem_steps.
  replace (rd64 (kmem st) (slot N va)) with (leaf (kmem s) N va).
  2: { rewrite <- Hlva. unfold slot, leaf. by rewrite Hx. }
  rewrite HV. simpl negb. destruct (Z.eqb_spec (PTE_FLAGS (leaf (kmem s) N va)) PTE_V); [done|].
  rewrite <- Hlva.
  apply wp_seq2. eapply wp_mono.
  - apply (unmap_one st root N l va do_free x D k); [done|change MAXVA with (2 ^ 38); lia|done|].
    intros Hdf. destruct (Hown Hdf) as [? HD]. split; [done|]. rewrite Hlva. apply HD. lia.
  - intros [] s' (Hinv2 & Hf2 & Hl2). apply wp_ret. rewrite u64_small by lia. split; [|lia].
    exists (S k). split_and!; [lia|lia|done|by eapply frame_trans|].
    intros va' Hva'. rewrite Nat2Z.inj_succ, <- Z.add_1_r, cleared_S by (done || lia).
    fold va. rewrite Hl2 by done. rewrite (PGROUNDDOWN_id va) by done. case_decide; [done|]. by apply Hl1.
Qed.

End inv.
