(* ===== verification/VmUser.v ===== *)
(** * User address spaces

    [uspace] describes a process image: pages [0 .. n-1] map to the [n] private
    pages [D], nothing else is mapped below the trap frame, and nothing above is
    accessible to user code.  The lemmas give [uvmalloc], [uvmdealloc] and the
    copies between kernel and user memory their meaning on such images. *)

From stdpp Require Import base list gmap strings.
From Stdlib Require Import ZArith Lia.
From S2P Require Import Prelude Mem Str Riscv Kalloc Vm VmInv.

#[local] Open Scope Z_scope.

(** The layout of an address space, for arithmetic. *)
Lemma TRAPFRAME_val : TRAPFRAME = 2 ^ 38 - 8192.
Proof. done. Qed.
Lemma MAXVA_val : MAXVA = 2 ^ 38.
Proof. done. Qed.
Create HintDb layout.
#[export] Hint Rewrite TRAPFRAME_val MAXVA_val : layout.
Ltac layout := autorewrite with layout in *.

Section user.
Context (kend : Z).
Hypothesis kend_ram : KERNBASE <= kend.

Abbreviation page_ok := (page_ok kend).
Abbreviation vm_inv := (vm_inv kend).
Abbreviation owned := (owned kend).
Abbreviation nodes := (gmap (list Z) Z).

Record uspace (s : kst) (root : Z) (N : nodes) (l D : list Z) : Prop := {
  us_vm : vm_inv s root N l;
  us_own : owned N l D;
  us_len : 4096 * Z.of_nat (length D) <= TRAPFRAME;
  us_map : forall j p, D !! j = Some p ->
    is_leaf (leaf (kmem s) N (4096 * Z.of_nat j)) /\
    PTE2PA (leaf (kmem s) N (4096 * Z.of_nat j)) = p;
  us_free : forall va, 4096 * Z.of_nat (length D) <= va < TRAPFRAME ->
    has (leaf (kmem s) N va) PTE_V = false;
  us_top : forall va, TRAPFRAME <= va < MAXVA -> has (leaf (kmem s) N va) PTE_U = false;
}.

(** The byte user code sees at [va], and whether it may access it. *)
Definition ubyte (m : mem) (N : nodes) (va : Z) : Z :=
  rd8 m (PTE2PA (leaf m N va) + va mod 4096).
Definition umapped (m : mem) (N : nodes) (va : Z) : Prop :=
  0 <= va < MAXVA /\ has (leaf m N va) PTE_V = true /\ has (leaf m N va) PTE_U = true.

Lemma owned_app N l D E : owned N l (D ++ E) -> owned N (reverse E ++ l) D /\ owned N l E.
Proof.
  intros (Hnd & Hok & Hd). apply NoDup_app in Hnd as (HD & Hdis & HE).
  apply Forall_app in Hok as [HokD HokE].
  split; split_and!; try done.
  - intros p Hp. destruct (Hd p) as [? ?]; [rewrite elem_of_app; by left|].
    split; [|done]. rewrite elem_of_app, elem_of_reverse. intros [?|?]; [|done]. by apply (Hdis p).
  - intros p Hp. apply Hd. rewrite elem_of_app. by right.
Qed.

Lemma page_4096 j : aligned (4096 * j).
Proof. unfold aligned. rewrite Z.mul_comm. by apply Z.mod_mul. Qed.

(** ** uvmdealloc *)

Lemma uspace_unmap s s' root N l D E :
  uspace s root N l (D ++ E) -> vm_inv s' root N (reverse E ++ l) ->
  (forall va, 0 <= va < MAXVA -> leaf (kmem s') N va =
     cleared (leaf (kmem s) N) (4096 * Z.of_nat (length D)) (Z.of_nat (length E)) va) ->
  uspace s' root N (reverse E ++ l) D.
Proof.
  intros [Hvm Hown Hlen Hmap Hfree Htop] Hvm' Hl. rewrite length_app in *. layout.
  split; layout.
  - done.
  - by apply owned_app.
  - lia.
  - intros j p Hj. pose proof (lookup_lt_Some _ _ _ Hj).
    rewrite Hl by lia. unfold cleared. rewrite PGROUNDDOWN_id by apply page_4096.
    case_decide; [lia|]. apply Hmap. by rewrite lookup_app_l.
  - intros va Hva. rewrite Hl by lia. unfold cleared. case_decide as Hc; [done|].
    apply Hfree. destruct (PGROUNDDOWN_spec va) as [Hm Hb]. pose proof (aligned_mul _ Hm). lia.
  - intros va Hva. rewrite Hl by lia. unfold cleared. case_decide; [done|]. by apply Htop.
Qed.

Lemma PGROUNDUP_mono a b : 0 <= a <= b -> b + 4095 < 2 ^ 64 -> PGROUNDUP a <= PGROUNDUP b.
Proof.
  intros. destruct (PGROUNDUP_spec a) as [Ha ?]; [lia|lia|].
  destruct (PGROUNDUP_spec b) as [Hb ?]; [lia|lia|].
  pose proof (aligned_mul _ Ha). pose proof (aligned_mul _ Hb). lia.
Qed.

Lemma uvmdealloc_spec s root N l D E oldsz newsz :
  uspace s root N l (D ++ E) -> 0 <= oldsz < 2 ^ 63 -> 0 <= newsz < 2 ^ 63 ->
  PGROUNDUP oldsz = 4096 * Z.of_nat (length (D ++ E)) ->
  PGROUNDUP newsz = 4096 * Z.of_nat (length D) ->
  wp (uvmdealloc kend root oldsz newsz) (fun r s' =>
    r = Z.min oldsz newsz /\ uspace s' root N (reverse E ++ l) D /\
    frame (fun p => is_node N p \/ p ∈ E) (kmem s) (kmem s') /\
    (forall va, 0 <= va < MAXVA -> leaf (kmem s') N va =
       cleared (leaf (kmem s) N) (4096 * Z.of_nat (length D)) (Z.of_nat (length E)) va)) s.
Proof using kend_ram.
  intros Hus Ho Hn HPo HPn. pose proof Hus as [Hvm Hown Hlen Hmap Hfree Htop].
  rewrite length_app in *. layout. unfold uvmdealloc.
  assert (E = [] -> uspace s root N (reverse E ++ l) D /\
    frame (fun p => is_node N p \/ p ∈ E) (kmem s) (kmem s) /\
    (forall va, 0 <= va < 2 ^ 38 -> leaf (kmem s) N va =
       cleared (leaf (kmem s) N) (4096 * Z.of_nat (length D)) (Z.of_nat (length E)) va)) as Hnil.
  { intros ->. rewrite app_nil_r in Hus. split_and!; [done|done|].
    intros. unfold cleared. case_decide; [simpl in *; lia|done]. }
  destruct (Z.leb_spec oldsz newsz) as [Hle|Hlt].
  - apply wp_ret. split; [lia|]. apply Hnil. destruct E; [done|].
    pose proof (PGROUNDUP_mono oldsz newsz). simpl in *. lia.
  - destruct (Z.ltb_spec (PGROUNDUP newsz) (PGROUNDUP oldsz)).
    2: { mem_steps. split; [lia|]. apply Hnil. destruct E; [done|]. simpl in *. lia. }
    rewrite HPo, HPn. unfold PGSIZE.
    replace (4096 * Z.of_nat (length D + length E) - 4096 * Z.of_nat (length D))
      with (Z.of_nat (length E) * 4096) by lia.
    rewrite Z.div_mul, s32_small, u64_small by lia. apply wp_bind.
    destruct (owned_app _ _ _ _ Hown) as [_ HownE].
    assert (forall j p, E !! j = Some p ->
      is_leaf (leaf (kmem s) N (4096 * Z.of_nat (length D) + 4096 * Z.of_nat j)) /\
      PTE2PA (leaf (kmem s) N (4096 * Z.of_nat (length D) + 4096 * Z.of_nat j)) = p) as HmapE.
    { intros j p Hj. destruct (Hmap (length D + j)%nat p) as [H1 H2].
      - rewrite lookup_app_r by lia. by replace (length D + j - length D)%nat with j by lia.
      - by replace (4096 * Z.of_nat (length D) + 4096 * Z.of_nat j)
          with (4096 * Z.of_nat (length D + j)) by lia. }
    eapply wp_mono; [apply (uvmunmap_spec kend kend_ram s root N l _ _ true E Hvm)|].
    + apply page_4096.
    + lia.
    + layout. lia.
    + intros j Hj. destruct (lookup_lt_is_Some_2 E j Hj) as [p Hp]. by apply (HmapE j p).
    + intros _. split; [done|]. intros j Hj. destruct (lookup_lt_is_Some_2 E j Hj) as [p Hp].
      rewrite Hp. by destruct (HmapE j p Hp) as [_ ->].
    + intros [] s' (Hvm' & Hf & Hl). unfold freed in Hvm'. rewrite take_ge in Hvm' by lia.
      apply wp_ret. split_and!; [lia| |done|done]. by eapply uspace_unmap.
Qed.

(** ** uvmalloc *)

(** The permissions [uvmalloc] gives a page. *)
Definition uperm (xperm : Z) : Z := Z.lor (Z.lor PTE_R PTE_U) xperm.

Lemma uperm_range xperm : 0 <= xperm < 1024 -> 0 <= uperm xperm < 1024.
Proof. intros. by apply (lor_range _ _ 10). Qed.

Lemma uperm_is_leaf pa xperm : 0 <= pa < 2 ^ 56 -> 0 <= xperm < 1024 ->
  is_leaf (Z.lor (Z.lor (PA2PTE pa) (uperm xperm)) PTE_V).
Proof.
  intros Hpa Hx. pose proof (uperm_range xperm Hx). split.
  - rewrite entry_has by (done || lia). apply orb_true_r.
  - rewrite entry_flags by done. intros E.
    apply (f_equal (fun z => has z PTE_R)) in E. unfold uperm in E.
    rewrite !has_lor in E. done.
Qed.

(** Mapping one fresh page at the end of the image. *)
Lemma map_next_page s root N l D p perm :
  uspace s root N l D -> page_ok p -> p ∉ l -> ~ is_node N p -> p ∉ D ->
  4096 * Z.of_nat (length D) + 4096 <= TRAPFRAME -> 0 <= perm < 1024 ->
  is_leaf (Z.lor (Z.lor (PA2PTE p) perm) PTE_V) ->
  wp (mappages root (4096 * Z.of_nat (length D)) PGSIZE p perm) (fun r s' => exists N' l',
    ext s N l [] s' N' l' /\ page_ok p /\ p ∉ l' /\ ~ is_node N' p /\
    (r = 0 /\ uspace s' root N' l' (D ++ [p]) /\
       (forall va, 0 <= va < MAXVA -> leaf (kmem s') N' va =
          mapped (leaf (kmem s) N) (4096 * Z.of_nat (length D)) p perm 1 va)
     \/ r = -1 /\ uspace s' root N' l' D /\
       (forall va, 0 <= va < MAXVA -> leaf (kmem s') N' va = leaf (kmem s) N va))) s.
Proof using kend_ram.
  intros [Hvm Hown Hlen Hmap Hfree Htop] Hp Hpl Hpn HpD Hroom Hx Hlf. unfold PGSIZE. layout.
  pose proof (page_ok_pos kend kend_ram p Hp) as Hpos.
  assert (p < 2 ^ 40) as Hpsmall by (destruct Hp as (_ & _ & ?); unfold PHYSTOP, KERNBASE in *; lia).
  set (a := 4096 * Z.of_nat (length D)) in *.
  assert (aligned a) as Ha by apply page_4096.
  assert (PGROUNDDOWN a = a) as Ea by (by apply PGROUNDDOWN_id).
  assert (PGROUNDDOWN (a + 4096 - 1) = a) as Ez.
  { apply page_of_mul; [done|]. destruct (PGROUNDDOWN_spec (a + 4096 - 1)) as [Hm ?].
    pose proof (aligned_mul _ Hm). pose proof (aligned_mul _ Ha). lia. }
  eapply wp_mono; [apply (mappages_spec kend kend_ram s root N l a 4096 p perm 1 Hvm);
    layout; rewrite ?Ea, ?Ez; try lia|].
  - rewrite Z.sub_diag. done.
  - intros va _ Hva. apply Hfree. lia.
  - rewrite Ea. intros r s' (N' & l' & k & Hvm' & Hext & Hr & Hl).
    exists N', l'. destruct Hext as (t & -> & HNs & Hnn' & Hf).
    assert (forall x, is_node N' x -> is_node N x \/ x ∈ t) as Hnn by (intros x ?; apply Hnn'; by left).
    assert (~ is_node N' p) as Hpn'.
    { intros [?|?]%Hnn; [done|]. apply Hpl. rewrite elem_of_app. by left. }
    assert (p ∉ l') as Hpl' by (intros ?; apply Hpl; rewrite elem_of_app; by right).
    assert (owned N' l' D) as Hown'.
    { destruct Hown as (HnD & HokD & Hd). split_and!; [done|done|]. intros q Hq.
      destruct (Hd q Hq) as [Hql Hqn]. rewrite elem_of_app in Hql.
      split; [tauto|]. intros [?|?]%Hnn; tauto. }
    split_and!; [by exists t|done|done|done|].
    destruct Hr as [[-> ->]|(-> & -> & Hk)].
    + left. split_and!; [done| |done].
      assert (owned N' l' (D ++ [p])) as Hown2.
      { destruct Hown' as (HnD & HokD & Hd). split_and!.
        - apply NoDup_app. split_and!; [done| |apply NoDup_singleton].
          intros q Hq ->%list_elem_of_singleton. done.
        - apply Forall_app. split; [done|by constructor].
        - intros q [Hq| ->%list_elem_of_singleton]%elem_of_app; [by apply Hd|done]. }
      split; rewrite ?length_app; simpl; layout; [done|done|lia|..].
      * intros j q Hj. apply lookup_snoc_Some in Hj as [[Hlt Hj]|[-> <-]].
        { rewrite Hl by lia. unfold mapped. rewrite PGROUNDDOWN_id by apply page_4096.
          case_decide; [lia|]. by apply Hmap. }
        fold a. rewrite Hl by lia. unfold mapped. rewrite Ea. case_decide; [|lia].
        rewrite Z.sub_diag, Z.add_0_r. split; [exact Hlf|].
        apply entry_pa; [lia|done|apply Hp].
      * intros va Hva. rewrite Hl by lia. unfold mapped. case_decide; [|apply Hfree; lia].
        destruct (PGROUNDDOWN_spec va) as [Hm ?]. pose proof (aligned_mul _ Hm). lia.
      * intros va Hva. rewrite Hl by lia. unfold mapped. case_decide; [|apply Htop; lia].
        destruct (PGROUNDDOWN_spec va) as [Hm ?]. pose proof (aligned_mul _ Hm). lia.
    + right. assert (k = 0) as -> by lia. setoid_rewrite mapped_0 in Hl.
      split_and!; [done| |done]. split; layout; try done.
      * intros j q Hj. pose proof (lookup_lt_Some _ _ _ Hj). rewrite Hl by lia. by apply Hmap.
      * intros va Hva. rewrite Hl by lia. by apply Hfree.
      * intros va Hva. rewrite Hl by lia. by apply Htop.
Qed.

Lemma uvmalloc_page s root N l D p xperm :
  uspace s root N l D -> page_ok p -> p ∉ l -> ~ is_node N p -> p ∉ D ->
  4096 * Z.of_nat (length D) + 4096 <= TRAPFRAME -> 0 <= xperm < 1024 ->
  wp (mappages root (4096 * Z.of_nat (length D)) PGSIZE p (uperm xperm)) (fun r s' => exists N' l',
    ext s N l [] s' N' l' /\ page_ok p /\ p ∉ l' /\ ~ is_node N' p /\
    (r = 0 /\ uspace s' root N' l' (D ++ [p]) /\
       (forall va, 0 <= va < MAXVA -> leaf (kmem s') N' va =
          mapped (leaf (kmem s) N) (4096 * Z.of_nat (length D)) p (uperm xperm) 1 va)
     \/ r = -1 /\ uspace s' root N' l' D /\
       (forall va, 0 <= va < MAXVA -> leaf (kmem s') N' va = leaf (kmem s) N va))) s.
Proof using kend_ram.
  intros Hus Hp Hpl Hpn HpD Hroom Hx. pose proof (page_ok_pos kend kend_ram p Hp).
  apply map_next_page; try done; [by apply uperm_range|]. apply uperm_is_leaf; lia.
Qed.

(** A write to a page that belongs to neither the table nor the image. *)
Lemma uspace_other s s' root N l l' D y :
  uspace s root N l D -> vm_inv s' root N l' -> (forall x, x ∈ l' -> x ∈ y :: l) -> y ∉ D ->
  (forall va, leaf (kmem s') N va = leaf (kmem s) N va) -> uspace s' root N l' D.
Proof.
  intros [Hvm Hown Hlen Hmap Hfree Htop] Hvm' Hsub Hy Hl. split; [done| |done|..].
  - destruct Hown as (Hnd & Hok & Hd). split_and!; [done|done|]. intros p Hp.
    destruct (Hd p Hp) as [? ?]. split; [|done].
    intros Hin%Hsub. apply elem_of_cons in Hin as [->|?]; done.
  - intros. rewrite Hl. by apply Hmap.
  - intros. rewrite Hl. by apply Hfree.
  - intros. rewrite Hl. by apply Htop.
Qed.

(** [kalloc] followed by zeroing the page. *)
Lemma uspace_kalloc_zero s root N p l D :
  uspace s root N (p :: l) D ->
  wp (q <- kalloc ;; update_mem (fun m => memset m q 0 PGSIZE) ;;; ret q) (fun q s' =>
    q = p /\ uspace s' root N l D /\ ext s N (p :: l) [p] s' N l /\
    page_ok p /\ p ∉ l /\ ~ is_node N p /\ p ∉ D /\
    (forall a, in_page p a -> rd8 (kmem s') a = 0) /\
    (forall va, leaf (kmem s') N va = leaf (kmem s) N va)) s.
Proof using kend_ram.
  intros Hus. pose proof Hus as [Hvm Hown _ _ _ _]. pose proof Hvm as (Hpt & (Hc & Hnd & Hok) & Hu).
  apply NoDup_cons in Hnd as [Hpl Hnd]. apply Forall_cons in Hok as [Hp Hok].
  assert (~ is_node N p) as Hpn by (intros Hn; apply (Hu p Hn); by left).
  assert (p ∉ D) as HpD.
  { intros Hin. destruct Hown as (_ & _ & Hd). destruct (Hd p Hin) as [Hx _]. apply Hx. by left. }
  apply wp_bind. eapply wp_mono; [by apply (vm_inv_kalloc kend kend_ram)|].
  intros q s1 (-> & Hvm1 & Hf1 & Hl1). mem_steps.
  set (s2 := Kst _ _).
  assert (frame (fun q => q = p) (kmem s1) (kmem s2)) as Hf2 by apply frame_memset.
  assert (frame (fun q => q = p) (kmem s) (kmem s2)) as Hf12 by (by eapply frame_trans).
  destruct (vm_inv_other kend s1 s2 root N l l p) as [Hvm2 Hl2]; try done.
  { destruct Hvm1 as (_ & (Hc1 & Hrest) & _). split; [|done].
    apply (chain_other_page kend p (kmem s1)); [done|apply Hp|done| |done].
    intros a Ha. apply Hf2. intros q ->. apply Ha. by left. }
  { intros x ?. by right. }
  assert (forall va, leaf (kmem s2) N va = leaf (kmem s) N va) as Hl by (intros; by rewrite Hl2, Hl1).
  split_and!; try done.
  - apply (uspace_other s s2 root N (p :: l) l D p); try done. intros x ?. do 2 right. done.
  - exists [p]. split_and!; [done|done|done|].
    eapply frame_mono; [|exact Hf12]. intros q ->. right. by left.
  - intros a Ha. cbn. rewrite rd8_memset by done. by case_decide.
Qed.

(** The same step inside a longer sequence that tests the result. *)
Lemma wp_kalloc_zero {B} s root N p l D (fail : M kst B) (k : Z -> M kst B) Q :
  uspace s root N (p :: l) D ->
  (forall s', uspace s' root N l D -> ext s N (p :: l) [p] s' N l ->
    page_ok p -> p ∉ l -> ~ is_node N p -> p ∉ D ->
    (forall a, in_page p a -> rd8 (kmem s') a = 0) ->
    (forall va, leaf (kmem s') N va = leaf (kmem s) N va) -> wp (k p) Q s') ->
  wp (q <- kalloc ;; if q =? 0 then fail else update_mem (fun m => memset m q 0 PGSIZE) ;;; k q) Q s.
Proof using kend_ram.
  intros Hus Hk. pose proof (uspace_kalloc_zero _ _ _ _ _ _ Hus) as Hw. revert Hw.
  unfold wp, bind. destruct (kalloc s) as [q s1| |]; [|done|done].
  destruct (update_mem _ s1) as [[] s2| |] eqn:E; [|done|done].
  unfold ret. intros (-> & ? & ? & Hp & ?). destruct (Z.eqb_spec p 0) as [->|_].
  - destruct (page_ok_pos kend kend_ram 0 Hp). lia.
  - rewrite E. apply Hk; tauto.
Qed.

(** Undoing a failed [uvmalloc]: the new pages go back to the free list. *)
Lemma uvmalloc_undo s root N l D new :
  uspace s root N l (D ++ new) ->
  wp (uvmdealloc kend root (4096 * Z.of_nat (length (D ++ new))) (4096 * Z.of_nat (length D)) ;;;
      ret (Brk 0 : ctl Z Z))
    (fun r s' => r = Brk 0 /\ uspace s' root N (reverse new ++ l) D /\
       frame (fun p => is_node N p \/ p ∈ new) (kmem s) (kmem s') /\
       forall va, 0 <= va < MAXVA -> leaf (kmem s') N va =
         cleared (leaf (kmem s) N) (4096 * Z.of_nat (length D)) (Z.of_nat (length new)) va) s.
Proof using kend_ram.
  intros Hus. pose proof (us_len _ _ _ _ _ Hus) as Hlen. pose proof (length_app D new).
  layout. apply wp_bind.
  eapply wp_mono; [apply (uvmdealloc_spec s root N l D new); try done; try lia|].
  - rewrite PGROUNDUP_id; [lia|lia|lia|apply page_4096].
  - rewrite PGROUNDUP_id; [lia|lia|lia|apply page_4096].
  - intros r s' (_ & Hus' & Hf & Hl). by apply wp_ret.
Qed.

(** The loop state of [uvmalloc] after mapping the pages [new]. *)
Definition alloc_state (s : kst) (root : Z) (N : nodes) (l D : list Z) (xperm : Z) (st : kst)
  (new : list Z) (N1 : nodes) (l1 : list Z) : Prop :=
  uspace st root N1 l1 (D ++ new) /\ ext s N l new st N1 l1 /\
  (forall p a, p ∈ new -> in_page p a -> rd8 (kmem st) a = 0) /\
  (forall va, 0 <= va < MAXVA ->
     if decide (4096 * Z.of_nat (length D) <= PGROUNDDOWN va < 4096 * Z.of_nat (length (D ++ new)))
     then PTE_FLAGS (leaf (kmem st) N1 va) = Z.lor (uperm xperm) PTE_V
     else leaf (kmem st) N1 va = leaf (kmem s) N va).

(** The outcome of a failed [uvmalloc]: the image is as before and every page
    that was free is free again or has become a page-table page. *)
Definition alloc_failed (s : kst) (root : Z) (N : nodes) (l D : list Z) (s' : kst) : Prop :=
  exists N' l', uspace s' root N' l' D /\
    (forall p, p ∈ l -> p ∈ l' \/ is_node N' p) /\
    frame (fun p => is_node N p \/ p ∈ l) (kmem s) (kmem s') /\
    (forall va, 0 <= va < 4096 * Z.of_nat (length D) \/ TRAPFRAME <= va < MAXVA ->
       leaf (kmem s') N' va = leaf (kmem s) N va).

Lemma alloc_undo s root N l D new xperm s0 N0 l0 st N1 l1 :
  alloc_state s root N l D xperm s0 new N0 l0 ->
  uspace st root N1 l1 (D ++ new) ->
  (forall x, is_node N1 x -> is_node N x \/ x ∈ l) ->
  (forall p, p ∈ l -> p ∈ l1 \/ p ∈ new \/ is_node N1 p) ->
  frame (fun p => is_node N p \/ p ∈ l) (kmem s) (kmem st) ->
  (forall va, 0 <= va < MAXVA -> leaf (kmem st) N1 va = leaf (kmem s0) N0 va) ->
  wp (uvmdealloc kend root (4096 * Z.of_nat (length (D ++ new))) (4096 * Z.of_nat (length D)) ;;;
      ret (Brk 0 : ctl Z Z))
    (fun r s' => r = Brk 0 /\ alloc_failed s root N l D s') st.
Proof using kend_ram.
  intros (_ & (t & -> & _ & Hnn & _) & _ & Hl0) Hus Hn1 Hkept Hf Hl.
  pose proof (us_len _ _ _ _ _ Hus) as Hlen. rewrite length_app in Hlen.
  eapply wp_mono; [by apply uvmalloc_undo|]. intros r s' (-> & Hus' & Hf' & Hl').
  split; [done|]. exists N1, (reverse new ++ l1). split_and!; [done| | |].
  - intros p [?|[?|?]]%Hkept; rewrite elem_of_app, elem_of_reverse; tauto.
  - apply (frame_then _ _ _ _ _ Hf Hf').
    intros p [?%Hn1|Hp]; [done|]. specialize (Hnn p). rewrite elem_of_app. tauto.
  - intros va Hva. layout. rewrite Hl' by lia. unfold cleared.
    destruct (PGROUNDDOWN_spec va) as [Hm ?]. pose proof (aligned_mul _ Hm).
    case_decide as Hc; [lia|]. rewrite Hl by lia. specialize (Hl0 va ltac:(lia)).
    rewrite length_app in Hl0. case_decide; [lia|done].
Qed.

(** One successful pass extends the loop state by a page. *)
Lemma alloc_state_snoc s root N l D xperm st new N1 p l1 s1 s2 N2 l2 :
  alloc_state s root N l D xperm st new N1 (p :: l1) -> 0 <= xperm < 1024 ->
  page_ok p -> p ∉ D ++ new ->
  ext st N1 (p :: l1) [p] s1 N1 l1 ->
  (forall a, in_page p a -> rd8 (kmem s1) a = 0) ->
  (forall va, leaf (kmem s1) N1 va = leaf (kmem st) N1 va) ->
  ext s1 N1 l1 [] s2 N2 l2 -> ~ is_node N1 p -> p ∉ l1 ->
  uspace s2 root N2 l2 ((D ++ new) ++ [p]) ->
  (forall va, 0 <= va < MAXVA -> leaf (kmem s2) N2 va =
     mapped (leaf (kmem s1) N1) (4096 * Z.of_nat (length (D ++ new))) p (uperm xperm) 1 va) ->
  alloc_state s root N l D xperm s2 (new ++ [p]) N2 l2.
Proof using kend_ram.
  intros (Hus & Hext & Hz & Hl) Hx Hp HpDn Hext1 Hz1 Hl1 Hext2 Hpn Hpl Hus2 Hl2.
  pose proof (page_ok_pos kend kend_ram p Hp) as Hpos.
  rewrite <- app_assoc in Hus2. split_and!; [done| | |].
  - rewrite <- (app_nil_r [p]). eapply ext_trans; [exact Hext|]. by eapply ext_trans.
  - (* zero pages stay zero: the later writes go to other pages *)
    destruct Hext1 as (t1 & Ht1 & _ & _ & Hf1).
    apply (app_inv_tail l1 [p] t1) in Ht1 as <-. destruct Hext2 as (t2 & -> & _ & _ & Hf2).
    pose proof Hus as [(Hpt & (_ & _ & Hok) & _) (Hnd & HokD & Hd) _ _ _ _].
    rewrite Forall_forall in HokD, Hok.
    assert (forall q, is_node N1 q \/ q ∈ t2 -> aligned q) as Hal2.
    { intros q [Hq|Hq]; [exact (pt_aligned kend _ _ _ q Hpt Hq)|].
      apply (Hok q). right. rewrite elem_of_app. by left. }
    intros q a [Hq| ->%list_elem_of_singleton]%elem_of_app Ha.
    + assert (q ∈ D ++ new) as HqD by (rewrite elem_of_app; by right).
      destruct (Hd q HqD) as [Hql Hqn]. rewrite elem_of_cons, elem_of_app in Hql.
      assert (aligned q) as Hqa by (by apply HokD).
      rewrite (frame_rd8 _ _ _ q a Hf2 Hal2 Hqa) by tauto.
      rewrite (frame_rd8 _ _ _ q a Hf1); [by apply Hz with q| |done| |done].
      * intros r [Hr|Hr]; [exact (pt_aligned kend _ _ _ r Hpt Hr)|].
        apply list_elem_of_singleton in Hr as ->. apply Hp.
      * intros [?| ->%list_elem_of_singleton]; [done|]. apply HpDn. done.
    + rewrite elem_of_app in Hpl.
      rewrite (frame_rd8 _ _ _ p a Hf2 Hal2 (proj1 Hp)) by tauto. by apply Hz1.
  - intros va Hva. rewrite app_assoc, (length_app (D ++ new)). simpl length.
    rewrite Hl2 by done. specialize (Hl va Hva). unfold mapped.
    destruct (PGROUNDDOWN_spec va) as [Hm ?]. pose proof (aligned_mul _ Hm).
    pose proof (length_app D new).
    repeat case_decide; try lia.
    + by rewrite Hl1.
    + assert (PGROUNDDOWN va = 4096 * Z.of_nat (length (D ++ new))) as -> by lia.
      rewrite Z.sub_diag, Z.add_0_r. apply entry_flags; [lia|by apply uperm_range].
    + by rewrite Hl1.
Qed.

(** What an extension tells about the pages that were free. *)
Lemma ext_sub s N l new s' N' l' : ext s N l new s' N' l' ->
  (forall x, is_node N' x -> is_node N x \/ x ∈ l) /\
  (forall p, p ∈ l -> p ∈ l' \/ p ∈ new \/ is_node N' p) /\
  frame (fun p => is_node N p \/ p ∈ l) (kmem s) (kmem s').
Proof.
  intros (t & -> & _ & Hnn & Hf). split_and!.
  - intros x. rewrite elem_of_app. specialize (Hnn x). tauto.
  - intros x. rewrite elem_of_app. specialize (Hnn x). tauto.
  - eapply frame_mono; [|exact Hf]. intros p. rewrite elem_of_app. tauto.
Qed.

(** A pass that finds a page but no page-table page gives everything back. *)
Lemma alloc_no_node s root N l D new xperm st N1 p l1 s2 N2 l2 :
  alloc_state s root N l D xperm st new N1 (p :: l1) ->
  ext st N1 (p :: l1) [p] s2 N2 l2 -> uspace s2 root N2 l2 (D ++ new) ->
  page_ok p -> p ∉ l2 -> ~ is_node N2 p -> p ∉ D ++ new ->
  (forall va, 0 <= va < MAXVA -> leaf (kmem s2) N2 va = leaf (kmem st) N1 va) ->
  wp (kfree kend p ;;;
      uvmdealloc kend root (4096 * Z.of_nat (length (D ++ new))) (4096 * Z.of_nat (length D)) ;;;
      ret (Brk 0 : ctl Z Z))
    (fun r s' => r = Brk 0 /\ alloc_failed s root N l D s') s2.
Proof using kend_ram.
  intros Hst Hext Hus2 Hp Hpl Hpn HpD Hl. pose proof Hst as (_ & Hext1 & _).
  destruct (ext_sub _ _ _ _ _ _ _ Hext1) as (Hn1 & Hk1 & Hf1).
  destruct (ext_sub _ _ _ _ _ _ _ Hext) as (Hn2 & Hk2 & Hf2).
  assert (forall x, x ∈ p :: l1 -> x ∈ l) as Hsub.
  { intros x Hx. destruct Hext1 as (t & -> & _). rewrite elem_of_app. by right. }
  apply wp_bind. eapply wp_mono; [apply (vm_inv_kfree kend kend_ram _ root N2 p l2); try done; apply Hus2|].
  intros [] s3 (Hvm3 & Hf3 & Hl3).
  eapply (alloc_undo s root N l D new xperm st N1 (p :: l1) s3 N2 (p :: l2)); try done.
  - by eapply (uspace_other s2 s3 root N2 l2 (p :: l2) _ p).
  - intros x Hx. destruct (Hn2 x Hx); auto.
  - intros x Hx. rewrite elem_of_cons. destruct (Hk1 x Hx) as [Hy|[?|Hy]]; [|tauto|].
    + destruct (Hk2 x Hy) as [?|[?%list_elem_of_singleton|?]]; tauto.
    + destruct Hext as (t & _ & HN & _). right. right. destruct Hy as [k Hy].
      exists k. by eapply lookup_weaken.
  - eapply frame_trans; [exact Hf1|]. eapply frame_trans; [eapply frame_mono, Hf2|eapply frame_mono, Hf3].
    + intros x [?|?]; auto.
    + intros x ->. right. apply Hsub. by left.
  - intros va Hva. rewrite Hl3. by apply Hl.
Qed.

Lemma uvmalloc_spec s root N l D oldsz newsz xperm :
  uspace s root N l D -> 0 <= oldsz <= newsz -> newsz <= TRAPFRAME ->
  PGROUNDUP oldsz = 4096 * Z.of_nat (length D) -> 0 <= xperm < 1024 ->
  wp (uvmalloc kend root oldsz newsz xperm) (fun r s' =>
    r = newsz /\ (exists new N' l', PGROUNDUP newsz = 4096 * Z.of_nat (length (D ++ new)) /\
      alloc_state s root N l D xperm s' new N' l') \/
    r = 0 /\ alloc_failed s root N l D s') s.
Proof using kend_ram.
  intros Hus Hsz Htop Hold Hx. unfold uvmalloc. destruct (Z.ltb_spec newsz oldsz); [lia|].
  layout. assert (PGROUNDUP oldsz <= PGROUNDUP newsz) as Hmono by (apply PGROUNDUP_mono; lia).
  rewrite Hold in *.
  destruct (PGROUNDUP_spec newsz) as [Hnm Hnb]; [lia|lia|]. pose proof (aligned_mul _ Hnm).
  apply (wp_while _
    (fun a st => exists new N1 l1, a = 4096 * Z.of_nat (length (D ++ new)) /\ a <= PGROUNDUP newsz /\
       alloc_state s root N l D xperm st new N1 l1)
    (fun a _ => PGROUNDUP newsz - a)).
  2: { exists [], N, l. rewrite app_nil_r. split_and!; [done|done|].
       split_and!; rewrite ?app_nil_r; [done|apply ext_refl|by intros p a ?%elem_of_nil|].
       intros. case_decide; [lia|done]. }
  2: { lia. }
  intros a st (new & N1 & l1 & -> & Hle & Hst). pose proof Hst as (Hus1 & Hext1 & Hz1 & Hl1).
  pose proof (us_len _ _ _ _ _ Hus1) as Hlen1. layout.
  set (a := 4096 * Z.of_nat (length (D ++ new))) in *.
  destruct (Z.ltb_spec a newsz) as [Hlt|Hge].
  2: { apply wp_ret. left. split; [done|]. exists new, N1, l1. split; [|done]. unfold a in *. lia. }
  destruct (ext_sub _ _ _ _ _ _ _ Hext1) as (Hn1 & Hkept & Hfl).
  destruct l1 as [|p l1].
  - (* no free page *)
    apply wp_bind. eapply wp_mono; [apply (kalloc_spec kend kend_ram st []), (us_vm _ _ _ _ _ Hus1)|].
    intros r s1 [-> ->]. simpl.
    eapply wp_mono; [eapply (alloc_undo s root N l D new xperm st N1 [] st N1 []); try done|].
    intros r s' [-> Hfail]. by right.
  - (* a page is free *)
    eapply (wp_kalloc_zero st root N1 p l1 (D ++ new)); [done|].
    intros s1 Hus2 Hext2 Hp Hpl Hpn HpD Hz2 Hl2. apply wp_bind.
    eapply wp_mono; [apply (uvmalloc_page s1 root N1 l1 (D ++ new) p xperm); try done; layout; lia|].
    intros r s2 (N2 & l2 & Hext3 & _ & Hpl2 & Hpn2 & [(-> & Hus3 & Hl3)|(-> & Hus3 & Hl3)]); simpl.
    + (* mapped: next page *)
      apply wp_ret. unfold PGSIZE. rewrite u64_small by lia. split; [|lia].
      exists (new ++ [p]), N2, l2. split_and!.
      * rewrite !length_app. unfold a. rewrite length_app. simpl. lia.
      * lia.
      * eapply (alloc_state_snoc s root N l D xperm st new N1 p l1 s1 s2 N2 l2); try done.
    + (* no room for a page-table page *)
      assert (ext st N1 (p :: l1) [p] s2 N2 l2) as Hext.
      { rewrite <- (app_nil_r [p]). by eapply ext_trans. }
      eapply wp_mono; [apply (alloc_no_node s root N l D new xperm st N1 p l1 s2 N2 l2); try done|].
      * intros va Hva. by rewrite Hl3, Hl2.
      * intros r s' [-> Hfail]. by right.
Qed.

End user.
