(* ===== verification/VmCopy.v ===== *)
(** * Copies between the kernel and user memory

    [copyout], [copyin] and [copyinstr] (kernel/vm.c) against the bytes a process
    sees at its virtual addresses.  Each lemma says how many bytes were copied,
    which address stopped the copy when it failed, and that nothing else
    changed. *)

From stdpp Require Import base list gmap strings.
From Stdlib Require Import ZArith Lia.
From S2P Require Import Prelude Mem Str Riscv Kalloc Vm VmInv VmUser.

#[local] Open Scope Z_scope.

Section copy.
Context (kend : Z).
Hypothesis kend_ram : KERNBASE <= kend.

Abbreviation page_ok := (page_ok kend).
Abbreviation uspace := (uspace kend).
Abbreviation nodes := (gmap (list Z) Z).

(** The physical address behind [va]. *)
Definition uphys (m : mem) (N : nodes) (va : Z) : Z := PTE2PA (leaf m N va) + va mod 4096.

#[global] Instance umapped_dec m N va : Decision (umapped m N va).
Proof. unfold umapped. apply _. Defined.

(** An accessible address is backed by one of the pages of the image. *)
Lemma umapped_page s root N l D va :
  uspace s root N l D -> umapped (kmem s) N va ->
  exists p, D !! Z.to_nat (va / 4096) = Some p /\ PTE2PA (leaf (kmem s) N va) = p /\ page_ok p.
Proof.
  intros [_ (_ & Hok & _) Hlen Hmap Hfree Htop] (Hva & HV & HU). layout.
  destruct (decide (4096 * Z.of_nat (length D) <= va)).
  { destruct (decide (va < 2 ^ 38 - 8192)); [rewrite Hfree in HV by lia|rewrite Htop in HU by lia]; done. }
  pose proof (Z.div_mod va 4096). pose proof (Z.mod_pos_bound va 4096).
  destruct (lookup_lt_is_Some_2 D (Z.to_nat (va / 4096))) as [p Hp]; [lia|].
  exists p. split; [done|]. split; [|by eapply Forall_lookup_1].
  destruct (Hmap _ _ Hp) as [_ <-]. f_equal.
  rewrite <- (leaf_page _ _ va). f_equal. rewrite PGROUNDDOWN_mod. lia.
Qed.

Lemma walkaddr_spec s root N l D va :
  uspace s root N l D -> 0 <= va ->
  walkaddr root (PGROUNDDOWN va) s =
    Ok (if decide (umapped (kmem s) N va) then PTE2PA (leaf (kmem s) N va) else 0) s.
Proof.
  intros Hus Hva. pose proof (us_vm _ _ _ _ _ _ Hus) as (Hpt & _). unfold walkaddr. layout.
  destruct (PGROUNDDOWN_spec va) as [Hm Hb]. pose proof (aligned_mul _ Hm).
  destruct (Z.leb_spec (2 ^ 38) (PGROUNDDOWN va)).
  { rewrite decide_False; [done|]. intros [? _]. layout. lia. }
  unfold bind. rewrite (walk_lookup kend s root N) by (done || layout; lia).
  assert (0 <= va < MAXVA) as Hr by (layout; lia).
  assert (leaf (kmem s) N va = match N !! path0 (PGROUNDDOWN va) with
    | Some x => rd64 (kmem s) (x + 8 * PX 0 (PGROUNDDOWN va)) | None => 0 end) as El.
  { by rewrite <- leaf_page. }
  unfold slot. destruct (N !! path0 (PGROUNDDOWN va)) as [x|] eqn:Ex.
  2: { rewrite decide_False; [done|]. intros (_ & HV & _). by rewrite El in HV. }
  pose proof (page_ok_pos kend kend_ram x (pt_page _ _ _ _ Hpt _ _ Ex)).
  pose proof (PX0_bounds (PGROUNDDOWN va)).
  destruct (Z.eqb_spec (x + 8 * PX 0 (PGROUNDDOWN va)) 0); [lia|].
  unfold load64, gets. rewrite <- El.
  case_decide as Hu; [destruct Hu as (_ & -> & ->); done|]. unfold umapped in Hu.
  destruct (has _ PTE_V), (has _ PTE_U); simpl; done || (exfalso; tauto).
Qed.

(** Looking up a user page and testing the result. *)
Lemma wp_user_page {B} s root N l D va (fail : M kst B) (k : Z -> M kst B) Q :
  uspace s root N l D -> 0 <= va ->
  (~ umapped (kmem s) N va -> wp fail Q s) ->
  (umapped (kmem s) N va -> wp (k (PTE2PA (leaf (kmem s) N va))) Q s) ->
  wp (pa0 <- walkaddr root (PGROUNDDOWN va) ;; if pa0 =? 0 then fail else k pa0) Q s.
Proof using kend_ram.
  intros Hus Hva Hfail Hk. apply wp_bind. eapply wp_intro; [by eapply walkaddr_spec|].
  case_decide as Hu; [|by apply Hfail].
  destruct (umapped_page _ _ _ _ _ _ Hus Hu) as (p & _ & E & Hp).
  pose proof (page_ok_pos kend kend_ram p Hp).
  destruct (Z.eqb_spec (PTE2PA (leaf (kmem s) N va)) 0); [lia|by apply Hk].
Qed.

(** A write that stays off the page-table pages and the free pages keeps the image. *)
Lemma uspace_write s m' root N l D :
  uspace s root N l D ->
  (forall p a, is_node N p \/ p ∈ l -> in_page p a -> rd8 m' a = rd8 (kmem s) a) ->
  uspace (Kst m' (freelist s)) root N l D /\ forall va, leaf m' N va = leaf (kmem s) N va.
Proof.
  intros Hus Hw. pose proof Hus as [(Hpt & (Hc & Hnd & Hok) & Hu) Hown Hlen Hmap Hfree Htop].
  assert (forall va, leaf m' N va = leaf (kmem s) N va) as Hl.
  { intros va. unfold leaf. destruct (N !! path0 va) as [x|] eqn:Ex; [|done].
    pose proof (PX0_bounds va). apply rd_ext. intros a Ha. apply (Hw x); [left; by eexists|].
    unfold in_page. lia. }
  split; [|done]. split; try done.
  - split_and!; [|split_and!|]; try done.
    + destruct Hpt as [H1 H2 H3 H4 H5 H6 H7].
      assert (forall p x i, N !! p = Some x -> 0 <= i < 512 -> rd64 m' (x + 8 * i) = rd64 (kmem s) (x + 8 * i)) as E.
      { intros p x i Hx Hi. apply rd_ext. intros a Ha. apply (Hw x); [left; by eexists|]. unfold in_page. lia. }
      split; try done; intros p x i Hx Hlt Hi; cbn; rewrite (E p x i Hx Hi); eauto.
    + eapply chain_ext; [|exact Hc]. apply Forall_forall. intros p Hp a Ha.
      apply (Hw p); [by right|]. unfold in_page. lia.
  - intros j p Hj. cbn. rewrite Hl. by apply Hmap.
  - intros va Hva. cbn. rewrite Hl. by apply Hfree.
  - intros va Hva. cbn. rewrite Hl. by apply Htop.
Qed.

(** Addresses of one page are accessible together and contiguous. *)
Lemma same_page m N v va :
  0 <= v -> PGROUNDDOWN v <= va < PGROUNDDOWN v + 4096 ->
  (umapped m N va <-> umapped m N v) /\ uphys m N va = uphys m N v + (va - v).
Proof.
  intros Hv Hva. destruct (PGROUNDDOWN_spec v) as [Hm Hb], (PGROUNDDOWN_spec va) as [Hm' Hb'].
  pose proof (aligned_mul _ Hm). pose proof (aligned_mul _ Hm').
  assert (PGROUNDDOWN va = PGROUNDDOWN v) as E by (apply page_of_mul; [exact Hm|lia]).
  unfold umapped, uphys. rewrite <- (leaf_page m N va), <- (leaf_page m N v), E. split.
  - layout. pose proof (aligned_mul _ Hm). intuition lia.
  - rewrite !PGROUNDDOWN_mod in E. lia.
Qed.

Lemma ubyte_uphys m N va : ubyte m N va = rd8 m (uphys m N va).
Proof. done. Qed.

(** A kernel buffer: no byte of it is in a page-table page, a free page or a page
    of the image. *)
Definition kbuf (N : nodes) (l D : list Z) (dst len : Z) : Prop :=
  forall a p, dst <= a < dst + len -> is_node N p \/ p ∈ l \/ p ∈ D -> ~ in_page p a.

(** The first [k] bytes from [srcva] have been copied to [dst]. *)
Definition copied_in (s : kst) (N : nodes) (dst srcva k : Z) (s' : kst) : Prop :=
  freelist s' = freelist s /\
  (forall i, 0 <= i < k -> umapped (kmem s) N (srcva + i)) /\
  forall a, rd8 (kmem s') a =
    if decide (dst <= a < dst + k) then ubyte (kmem s) N (srcva + (a - dst)) else rd8 (kmem s) a.

Lemma uphys_in_page s root N l D va :
  uspace s root N l D -> umapped (kmem s) N va ->
  exists p, p ∈ D /\ page_ok p /\ PTE2PA (leaf (kmem s) N va) = p /\ in_page p (uphys (kmem s) N va).
Proof.
  intros Hus Hu. destruct (umapped_page _ _ _ _ _ _ Hus Hu) as (p & Hp & E & Hok).
  exists p. split; [by eapply list_elem_of_lookup_2|]. split; [done|]. split; [done|].
  unfold uphys, in_page. rewrite E. pose proof (Z.mod_pos_bound va 4096). lia.
Qed.

(** Different addresses of the image have different bytes. *)
Lemma uphys_inj s root N l D va va' :
  uspace s root N l D -> umapped (kmem s) N va -> umapped (kmem s) N va' ->
  uphys (kmem s) N va = uphys (kmem s) N va' -> va = va'.
Proof.
  intros Hus Hu Hu' E. pose proof Hus as [_ (Hnd & _) _ _ _ _].
  destruct (umapped_page _ _ _ _ _ _ Hus Hu) as (p & Hp & Ep & Hok).
  destruct (umapped_page _ _ _ _ _ _ Hus Hu') as (p' & Hp' & Ep' & Hok').
  unfold uphys in E. rewrite Ep, Ep' in E.
  pose proof (Z.mod_pos_bound va 4096). pose proof (Z.mod_pos_bound va' 4096).
  assert (p = p') as <-.
  { apply (in_page_disj p p' (p + va mod 4096)); [apply Hok|apply Hok'| |]; unfold in_page; lia. }
  pose proof (NoDup_lookup _ _ _ _ Hnd Hp Hp') as Ej.
  destruct Hu as [? _], Hu' as [? _].
  rewrite (Z.div_mod va 4096), (Z.div_mod va' 4096) by lia.
  apply (f_equal Z.of_nat) in Ej. rewrite !Z2Nat.id in Ej by (apply Z.div_pos; lia). lia.
Qed.

Lemma copied_in_uspace s root N l D dst srcva len k s' :
  uspace s root N l D -> kbuf N l D dst len -> k <= len -> copied_in s N dst srcva k s' ->
  uspace s' root N l D /\ (forall va, leaf (kmem s') N va = leaf (kmem s) N va) /\
  forall va, umapped (kmem s) N va -> ubyte (kmem s') N va = ubyte (kmem s) N va.
Proof.
  intros Hus Hb Hk (Hfl & _ & Hm). destruct s' as [m' f']. cbn in *. subst f'.
  assert (forall a p, in_page p a -> is_node N p \/ p ∈ l \/ p ∈ D -> rd8 m' a = rd8 (kmem s) a) as Hsame.
  { intros a p Ha Hp. rewrite Hm. case_decide; [|done]. by destruct (Hb a p ltac:(lia) Hp). }
  destruct (uspace_write s m' root N l D Hus) as [Hus' Hl].
  { intros p a Hp Ha. apply (Hsame a p Ha). tauto. }
  split_and!; [done|done|]. intros va Hva.
  destruct (uphys_in_page _ _ _ _ _ _ Hus Hva) as (p & Hp & _ & _ & Hin).
  unfold ubyte. rewrite Hl. apply (Hsame _ p); [exact Hin|tauto].
Qed.

(** [m'] is [m] with [n] bytes copied from [p] to [d]. *)
Definition moved (m m' : mem) (d p n : Z) : Prop :=
  forall a, rd8 m' a = if decide (d <= a < d + n) then rd8 m (p + (a - d)) else rd8 m a.

Lemma copied_in_step s root N l D dst srcva len k st n m' :
  uspace s root N l D -> kbuf N l D dst len -> copied_in s N dst srcva k st ->
  0 <= srcva -> 0 <= k -> 0 <= n -> k + n <= len ->
  srcva + k + n <= PGROUNDDOWN (srcva + k) + 4096 -> umapped (kmem s) N (srcva + k) ->
  moved (kmem st) m' (dst + k) (uphys (kmem s) N (srcva + k)) n ->
  copied_in s N dst srcva (k + n) (Kst m' (freelist st)).
Proof.
  intros Hus Hb Hst Hsrc Hk Hn Hlen Hpg Hu Hmv. pose proof Hst as (Hfl & Hall & Hm).
  destruct (PGROUNDDOWN_spec (srcva + k)) as [_ Hpb].
  assert (forall i, 0 <= i < n -> umapped (kmem s) N (srcva + k + i) /\
    uphys (kmem s) N (srcva + k + i) = uphys (kmem s) N (srcva + k) + i) as Hpage.
  { intros i Hi. destruct (same_page (kmem s) N (srcva + k) (srcva + k + i)) as [H1 H2]; [lia|lia|].
    rewrite H1, H2. split; [done|lia]. }
  split_and!; [done| |].
  - intros i Hi. destruct (decide (i < k)); [apply Hall; lia|].
    replace (srcva + i) with (srcva + k + (i - k)) by lia. apply Hpage. lia.
  - intros a. cbn. rewrite Hmv. repeat case_decide; try lia.
    + destruct (Hpage (a - (dst + k))) as [Hu' E]; [lia|].
      replace (srcva + (a - dst)) with (srcva + k + (a - (dst + k))) by lia.
      rewrite <- E. destruct (copied_in_uspace s root N l D dst srcva len k st) as (_ & Hl & Hub); [done|done|lia|done|].
      rewrite <- Hub by done. unfold ubyte, uphys. by rewrite Hl.
    + rewrite Hm. case_decide; [done|lia].
    + rewrite Hm. case_decide; [lia|done].
Qed.

(** How a copy of [len] bytes ends after [k] of them. *)
Definition copy_end (m : mem) (N : nodes) (va len k r : Z) : Prop :=
  0 <= k <= len /\ (r = 0 /\ k = len \/ r = -1 /\ k < len /\ ~ umapped m N (va + k)).

(** The part of a copy of [len] bytes from [v] that lies in the page of [v]. *)
Lemma chunk v len n :
  0 < len ->
  n = (if len <? PGSIZE - (v - PGROUNDDOWN v) then len else PGSIZE - (v - PGROUNDDOWN v)) ->
  0 < n <= len /\ v + n <= PGROUNDDOWN v + 4096 /\ (n < len -> v + n = PGROUNDDOWN v + 4096).
Proof.
  intros Hlen ->. destruct (PGROUNDDOWN_spec v) as [_ Hpb]. unfold PGSIZE.
  case_match eqn:E; [apply Z.ltb_lt in E|apply Z.ltb_ge in E]; lia.
Qed.

Lemma copyin_spec s root N l D dst srcva len :
  uspace s root N l D -> kbuf N l D dst len -> 0 <= srcva < 2 ^ 64 -> 0 <= len < 2 ^ 64 ->
  wp (copyin root dst srcva len) (fun r s' => exists k,
    copy_end (kmem s) N srcva len k r /\ copied_in s N dst srcva k s') s.
Proof using kend_ram.
  intros Hus Hb Hsrc Hlen. unfold copyin.
  apply (wp_while _
    (fun '(d, v, n) st => exists k, 0 <= k <= len /\ n = len - k /\ d = dst + k /\
       (0 < n -> v = srcva + k) /\ copied_in s N dst srcva k st)
    (fun '(_, _, n) _ => n)); [|exists 0; rewrite Z.sub_0_r, Z.add_0_r; split_and!; try lia|lia].
  2: { split_and!; [done|lia|]. intros a. case_decide; [lia|done]. }
  intros [[d v] n] st (k & Hk & -> & -> & Hv & Hst).
  destruct (Z.ltb_spec 0 (len - k)) as [Hlt|Hge].
  2: { apply wp_ret. exists k. split; [|done]. unfold copy_end. lia. }
  rewrite Hv by done. clear Hv v.
  destruct (copied_in_uspace s root N l D dst srcva len k st) as (Hus' & Hl & Hub); [done|done|lia|done|].
  assert (forall va, umapped (kmem st) N va <-> umapped (kmem s) N va) as Humap.
  { intros va. unfold umapped. by rewrite Hl. }
  apply (wp_user_page st root N l D); [done|lia| |]; rewrite Humap; intros Hu.
  - apply wp_ret. exists k. split; [|done]. split; [lia|right]. split_and!; [done|lia|done].
  - set (n := if _ <? _ then _ else _).
    destruct (PGROUNDDOWN_spec (srcva + k)) as [_ Hpb].
    destruct (chunk (srcva + k) (len - k) n Hlt eq_refl) as (Hn & Hn2 & Hn3).
    clearbody n. mem_steps. destruct Hu as [Hva Hu]. layout. split; [|lia].
    exists (k + n). split_and!; try lia.
    + intros ?. rewrite u64_small by (unfold PGSIZE; lia). unfold PGSIZE. lia.
    + replace (PTE2PA _ + _) with (uphys (kmem s) N (srcva + k)).
      * apply (copied_in_step s root N l D dst srcva len); try done; try lia.
        intros a. apply rd8_memmove. lia.
      * unfold uphys. rewrite Hl, PGROUNDDOWN_mod. lia.
Qed.

(** The first [k] bytes from [src] have been copied to [dstva]. *)
Definition copied_out (s : kst) (N : nodes) (D : list Z) (dstva src k : Z) (s' : kst) : Prop :=
  freelist s' = freelist s /\ frame (fun p => p ∈ D) (kmem s) (kmem s') /\
  (forall i, 0 <= i < k -> umapped (kmem s) N (dstva + i)) /\
  forall va, umapped (kmem s) N va -> ubyte (kmem s') N va =
    if decide (dstva <= va < dstva + k) then rd8 (kmem s) (src + (va - dstva))
    else ubyte (kmem s) N va.

(** Writes to the pages of the image keep the image. *)
Lemma uspace_frame s m' root N l D :
  uspace s root N l D -> frame (fun p => p ∈ D) (kmem s) m' ->
  uspace (Kst m' (freelist s)) root N l D /\ forall va, leaf m' N va = leaf (kmem s) N va.
Proof.
  intros Hus Hf. pose proof Hus as [(Hpt & (_ & _ & Hok) & _) (_ & HokD & Hd) _ _ _ _].
  rewrite Forall_forall in HokD, Hok.
  apply (uspace_write s m' root N l D Hus). intros p a Hp Ha.
  apply Hf. intros q Hq Hqa. destruct (Hd q Hq) as [Hql Hqn].
  assert (p = q) as ->; [|tauto].
  apply (in_page_disj p q a); [|by apply HokD|done|done].
  destruct Hp as [Hp|Hp]; [by eapply pt_aligned|by apply Hok].
Qed.

Lemma copied_out_uspace s root N l D dstva src k s' :
  uspace s root N l D -> copied_out s N D dstva src k s' ->
  uspace s' root N l D /\ forall va, leaf (kmem s') N va = leaf (kmem s) N va.
Proof.
  intros Hus (Hfl & Hf & _). destruct s' as [m' f']. cbn in *. subst f'. by apply uspace_frame.
Qed.

Lemma copied_out_step s root N l D dstva src k st n :
  uspace s root N l D -> copied_out s N D dstva src k st ->
  (forall a, src + k <= a < src + k + n -> rd8 (kmem st) a = rd8 (kmem s) a) ->
  0 <= dstva -> 0 <= k -> 0 <= n ->
  dstva + k + n <= PGROUNDDOWN (dstva + k) + 4096 -> umapped (kmem s) N (dstva + k) ->
  copied_out s N D dstva src (k + n)
    (Kst (memmove (kmem st) (uphys (kmem s) N (dstva + k)) (src + k) n) (freelist st)).
Proof.
  intros Hus Hst Hsrc Hdst Hk Hn Hpg Hu. pose proof Hst as (Hfl & Hf & Hall & Hm).
  destruct (copied_out_uspace _ _ _ _ _ _ _ _ _ Hus Hst) as [_ Hl].
  destruct (PGROUNDDOWN_spec (dstva + k)) as [_ Hpb].
  assert (forall i, 0 <= i < n -> umapped (kmem s) N (dstva + k + i) /\
    uphys (kmem s) N (dstva + k + i) = uphys (kmem s) N (dstva + k) + i) as Hpage.
  { intros i Hi. destruct (same_page (kmem s) N (dstva + k) (dstva + k + i)) as [H1 H2]; [lia|lia|].
    rewrite H1, H2. split; [done|lia]. }
  set (v := dstva + k) in *. set (m' := memmove _ _ _ _).
  assert (frame (fun p => p ∈ D) (kmem st) m') as Hf'.
  { intros a Ha. apply rd8_memmove_out; [done|]. intros Hin.
    destruct (Hpage (a - uphys (kmem s) N v)) as [Hu' E]; [lia|].
    destruct (uphys_in_page _ _ _ _ _ _ Hus Hu') as (p & Hp & _ & _ & Hin').
    apply (Ha p Hp). rewrite E in Hin'. by replace a with (uphys (kmem s) N v + (a - uphys (kmem s) N v)) by lia. }
  assert (frame (fun p => p ∈ D) (kmem s) m') as Hf'' by (by eapply frame_trans).
  split_and!; [done|done| |].
  - intros i Hi. destruct (decide (i < k)); [apply Hall; lia|].
    replace (dstva + i) with (v + (i - k)) by (unfold v; lia). apply Hpage. lia.
  - intros va Hva. cbn.
    destruct (uspace_frame _ _ _ _ _ _ Hus Hf'') as [_ Hl'].
    rewrite ubyte_uphys. unfold uphys at 1. rewrite Hl'. fold (uphys (kmem s) N va).
    unfold m'. rewrite rd8_memmove by done. case_decide as Hin.
    + destruct (Hpage (uphys (kmem s) N va - uphys (kmem s) N v)) as [Hu' E]; [lia|].
      assert (va = v + (uphys (kmem s) N va - uphys (kmem s) N v)) as Eva.
      { eapply uphys_inj; try done. lia. }
      case_decide; [|lia]. rewrite Hsrc by lia. f_equal. lia.
    + specialize (Hm va Hva). rewrite ubyte_uphys in Hm. unfold uphys in Hm at 1. rewrite Hl in Hm.
      fold (uphys (kmem s) N va) in Hm. rewrite Hm. repeat case_decide; try done; try lia.
      exfalso. apply Hin. destruct (Hpage (va - v)) as [_ E]; [lia|].
      replace (v + (va - v)) with va in E by lia. lia.
Qed.

Lemma copyout_spec s root N l D dstva src len :
  uspace s root N l D -> 0 <= dstva < 2 ^ 64 -> 0 <= len < 2 ^ 64 ->
  (forall a p, src <= a < src + len -> p ∈ D -> ~ in_page p a) ->
  wp (copyout root dstva src len) (fun r s' => exists k,
    copy_end (kmem s) N dstva len k r /\ copied_out s N D dstva src k s') s.
Proof using kend_ram.
  intros Hus Hdst Hlen Hsrc. unfold copyout.
  apply (wp_while _
    (fun '(v, d, n) st => exists k, 0 <= k <= len /\ n = len - k /\ d = src + k /\
       (0 < n -> v = dstva + k) /\ copied_out s N D dstva src k st)
    (fun '(_, _, n) _ => n)); [|exists 0; rewrite Z.sub_0_r, Z.add_0_r; split_and!; try lia|lia].
  2: { split_and!; [done|done|lia|]. intros va Hva. case_decide; [lia|done]. }
  intros [[v d] n] st (k & Hk & -> & -> & Hv & Hst).
  destruct (Z.ltb_spec 0 (len - k)) as [Hlt|Hge].
  2: { apply wp_ret. exists k. split; [|done]. unfold copy_end. lia. }
  rewrite Hv by done. clear Hv v.
  destruct (copied_out_uspace _ _ _ _ _ _ _ _ _ Hus Hst) as (Hus' & Hl).
  assert (forall va, umapped (kmem st) N va <-> umapped (kmem s) N va) as Humap.
  { intros va. unfold umapped. by rewrite Hl. }
  apply (wp_user_page st root N l D); [done|lia| |]; rewrite Humap; intros Hu.
  - apply wp_ret. exists k. split; [|done]. split; [lia|right]. split_and!; [done|lia|done].
  - set (n := if _ <? _ then _ else _).
    destruct (PGROUNDDOWN_spec (dstva + k)) as [_ Hpb].
    destruct (chunk (dstva + k) (len - k) n Hlt eq_refl) as (Hn & Hn2 & Hn3).
    clearbody n. mem_steps. destruct Hu as [Hva Hu]. layout. split; [|lia].
    exists (k + n). split_and!; try lia.
    + intros ?. rewrite u64_small by (unfold PGSIZE; lia). unfold PGSIZE. lia.
    + replace (PTE2PA _ + _) with (uphys (kmem s) N (dstva + k)).
      * apply (copied_out_step s root N l D); try done; try lia.
        intros a Ha. destruct Hst as (_ & Hf & _). apply Hf. intros p Hp. apply Hsrc; [lia|done].
      * unfold uphys. rewrite Hl, PGROUNDDOWN_mod. lia.
Qed.

(** The inner loop of [copyinstr] moves the bytes up to and including the first
    NUL among [n], or all [n] of them. *)
Lemma copyinstr_page_spec p dst max n s :
  (forall a, dst <= a < dst + Z.of_nat n -> ~ p <= a < p + Z.of_nat n) ->
  wp (copyinstr_page p dst max n) (fun r s' => exists k, let '(got, d, mx) := r in
    0 <= k <= Z.of_nat n /\ freelist s' = freelist s /\ moved (kmem s) (kmem s') dst p k /\
    if got : bool then 0 < k /\ rd8 (kmem s) (p + k - 1) = 0 /\
      (forall i, 0 <= i < k - 1 -> rd8 (kmem s) (p + i) <> 0)
    else k = Z.of_nat n /\ d = dst + k /\ mx = max - k /\
      (forall i, 0 <= i < k -> rd8 (kmem s) (p + i) <> 0)) s.
Proof.
  revert p dst max s. induction n as [|n IH]; intros p dst max s Hov; simpl copyinstr_page.
  { apply wp_ret. exists 0. split_and!; try lia. intros a. case_decide; [lia|done]. }
  apply wp_bind, wp_gets. destruct (Z.eqb_spec (rd8 (kmem s) p) 0) as [E0|Hne].
  - mem_steps. exists 1. cbn. split_and!; try lia; [|by replace (p + 1 - 1) with p by lia].
    intros a. cbn. case_decide.
    + assert (a = dst) as -> by lia. rewrite rd8_wr8_eq, Z.sub_diag, Z.add_0_r. done.
    + apply rd8_wr8_ne. lia.
  - mem_step. mem_step. eapply wp_mono; [apply IH; intros a Ha; specialize (Hov a); lia|].
    intros [[got d] mx] s' (k & Hk & Hfl & Hmv & Hgot). exists (k + 1). cbn in *.
    assert (forall i, 0 <= i < Z.of_nat n ->
      rd8 (wr8 (kmem s) dst (rd8 (kmem s) p)) (p + 1 + i) = rd8 (kmem s) (p + (i + 1))) as Hsrc.
    { intros i Hi. rewrite rd8_wr8_ne; [f_equal; lia|]. specialize (Hov dst). lia. }
    split_and!; [lia|lia|done| |].
    + intros a. rewrite Hmv. repeat case_decide; try lia.
      * rewrite Hsrc by lia. f_equal. lia.
      * assert (a = dst) as -> by lia. rewrite rd8_wr8_eq, Z.sub_diag, Z.add_0_r.
        apply u8_small, rd8_range.
      * apply rd8_wr8_ne. lia.
    + assert (forall i, 0 <= i < k -> (rd8 (kmem s) (p + (i + 1)) <> 0 <->
        rd8 (wr8 (kmem s) dst (rd8 (kmem s) p)) (p + 1 + i) <> 0)) as Hiff.
      { intros i Hi. rewrite Hsrc by lia. done. }
      assert (forall j, (forall i, 0 <= i < j ->
        rd8 (wr8 (kmem s) dst (rd8 (kmem s) p)) (p + 1 + i) <> 0) -> j <= k ->
        forall i, 0 <= i < j + 1 -> rd8 (kmem s) (p + i) <> 0) as Hshift.
      { intros j Hj Hjk i Hi. destruct (decide (i = 0)) as [->|]; [by rewrite Z.add_0_r|].
        replace i with (i - 1 + 1) by lia. apply Hiff; [lia|apply Hj; lia]. }
      destruct got.
      * destruct Hgot as (Hk0 & Hz & Hnz). split_and!; [lia| |].
        -- replace (p + (k + 1) - 1) with (p + (k - 1 + 1)) by lia. rewrite <- Hsrc by lia.
           by replace (p + 1 + (k - 1)) with (p + 1 + k - 1) by lia.
        -- intros i Hi. apply (Hshift (k - 1)); [done|lia|lia].
      * destruct Hgot as (-> & -> & -> & Hnz). split_and!; [lia|lia|lia|]. by apply Hshift.
Qed.

(** How [copyinstr] ends after writing [k] bytes: with the NUL, or without one
    because [max] bytes were used up or an address is not accessible. *)
Definition copystr_end (m : mem) (N : nodes) (va max k r : Z) : Prop :=
  0 <= k <= max /\
  (r = 0 /\ 0 < k /\ ubyte m N (va + k - 1) = 0 /\
     (forall i, 0 <= i < k - 1 -> ubyte m N (va + i) <> 0) \/
   r = -1 /\ (k = max \/ ~ umapped m N (va + k)) /\
     (forall i, 0 <= i < k -> ubyte m N (va + i) <> 0)).

(** The pages of an image do not overlap a kernel buffer. *)
Lemma kbuf_phys s root N l D dst len va a n :
  uspace s root N l D -> kbuf N l D dst len -> umapped (kmem s) N va -> 0 <= va ->
  va + n <= PGROUNDDOWN va + 4096 -> dst <= a < dst + len ->
  ~ uphys (kmem s) N va <= a < uphys (kmem s) N va + n.
Proof.
  intros Hus Hb Hu Hva Hpg Ha Hin.
  destruct (uphys_in_page _ _ _ _ _ _ Hus Hu) as (p & Hp & _ & E & Hpin).
  apply (Hb a p); [done|tauto|]. unfold in_page, uphys in *. rewrite PGROUNDDOWN_mod in Hpg. lia.
Qed.

Lemma ubyte_page s root N l D dst len srcva k st i n :
  uspace s root N l D -> kbuf N l D dst len -> k <= len -> copied_in s N dst srcva k st ->
  0 <= srcva -> 0 <= k -> umapped (kmem s) N (srcva + k) -> 0 <= i < n ->
  srcva + k + n <= PGROUNDDOWN (srcva + k) + 4096 ->
  rd8 (kmem st) (uphys (kmem s) N (srcva + k) + i) = ubyte (kmem s) N (srcva + (k + i)).
Proof.
  intros Hus Hb Hk Hst Hsrc Hk0 Hu Hi Hpg.
  destruct (copied_in_uspace s root N l D dst srcva len k st) as (_ & Hl & Hub); [done..|].
  destruct (PGROUNDDOWN_spec (srcva + k)) as [_ Hpb].
  destruct (same_page (kmem s) N (srcva + k) (srcva + k + i)) as [Hu' E]; [lia|lia|].
  replace (srcva + k + i - (srcva + k)) with i in E by lia.
  rewrite <- E, Z.add_assoc, <- Hub by (by apply Hu'). unfold ubyte, uphys. by rewrite Hl.
Qed.

Lemma copyinstr_spec s root N l D dst srcva max :
  uspace s root N l D -> kbuf N l D dst max -> 0 <= srcva < 2 ^ 64 -> 0 <= max < 2 ^ 63 ->
  wp (copyinstr root dst srcva max) (fun r s' => exists k,
    copystr_end (kmem s) N srcva max k r /\ copied_in s N dst srcva k s') s.
Proof using kend_ram.
  intros Hus Hb Hsrc Hmax. unfold copyinstr.
  apply (wp_while _
    (fun '(g, d, v, n) st => exists k, 0 <= k <= max /\ copied_in s N dst srcva k st /\
       if g : bool then copystr_end (kmem s) N srcva max k 0
       else n = max - k /\ d = dst + k /\ (0 < n -> v = srcva + k) /\
         (forall i, 0 <= i < k -> ubyte (kmem s) N (srcva + i) <> 0))
    (fun '(g, _, _, n) _ => if g : bool then 0 else n + 1)); [| |lia].
  2: { exists 0. split_and!; try lia. split_and!; [done|lia|]. intros a. case_decide; [lia|done]. }
  intros [[[g d] v] n] st (k & Hk & Hst & Hg). destruct g; simpl.
  { apply wp_ret. by exists k. }
  destruct Hg as (-> & -> & Hv & Hnz). destruct (Z.ltb_spec 0 (max - k)) as [Hlt|Hge].
  2: { apply wp_ret. exists k. split; [|done]. split; [lia|right]. split_and!; [done|lia|done]. }
  rewrite Hv by done. clear Hv v.
  destruct (copied_in_uspace s root N l D dst srcva max k st) as (Hus' & Hl & _); [done|done|lia|done|].
  assert (forall va, umapped (kmem st) N va <-> umapped (kmem s) N va) as Humap.
  { intros va. unfold umapped. by rewrite Hl. }
  apply (wp_user_page st root N l D); [done|lia| |]; rewrite Humap; intros Hu.
  { apply wp_ret. exists k. split; [|done]. split; [lia|right]. split_and!; [done|by right|done]. }
  set (n := if _ <? _ then _ else _).
  destruct (PGROUNDDOWN_spec (srcva + k)) as [_ Hpb].
  destruct (chunk (srcva + k) (max - k) n Hlt eq_refl) as (Hn & Hn2 & Hn3). clearbody n.
  replace (PTE2PA _ + _) with (uphys (kmem s) N (srcva + k)) by (unfold uphys; rewrite Hl, PGROUNDDOWN_mod; lia).
  apply wp_bind. eapply wp_mono; [apply copyinstr_page_spec; intros a Ha; eapply (kbuf_phys s root N l D dst max); try done; lia|].
  intros [[g d] mx] st' (j & Hj & Hfl & Hmv & Hg). apply wp_ret.
  rewrite Z2Nat.id in * by lia. destruct st' as [m' f']. cbn in Hfl, Hmv. subst f'.
  assert (forall i, 0 <= i < n ->
    rd8 (kmem st) (uphys (kmem s) N (srcva + k) + i) = ubyte (kmem s) N (srcva + (k + i))) as Hrd.
  { intros i Hi. eapply (ubyte_page s root N l D dst max); try done; lia. }
  assert (copied_in s N dst srcva (k + j) (Kst m' (freelist st))) as Hst'.
  { apply (copied_in_step s root N l D dst srcva max k st j); try done; lia. }
  assert (forall b, b <= n ->
    (forall i, 0 <= i < b -> rd8 (kmem st) (uphys (kmem s) N (srcva + k) + i) <> 0) ->
    forall i, 0 <= i < k + b -> ubyte (kmem s) N (srcva + i) <> 0) as Hnz'.
  { intros b Hbn Hb0 i Hi. destruct (decide (i < k)); [apply Hnz; lia|].
    replace i with (k + (i - k)) by lia. rewrite <- Hrd by lia. apply Hb0. lia. }
  destruct g.
  - destruct Hg as (Hj0 & Hz & Hjn). split; [|lia]. exists (k + j). split_and!; [lia|lia|done|].
    split; [lia|]. left. split_and!; [done|lia| |].
    + replace (srcva + (k + j) - 1) with (srcva + (k + (j - 1))) by lia.
      rewrite <- Hrd by lia. by rewrite Z.add_sub_assoc.
    + intros i Hi. apply (Hnz' (j - 1)); [lia|done|lia].
  - destruct Hg as (-> & -> & -> & Hjn). split; [|lia]. exists (k + n).
    destruct Hu as [Hva _]. layout. split_and!; try lia; try done.
    + intros ?. rewrite u64_small by (unfold PGSIZE; lia). unfold PGSIZE. lia.
    + apply Hnz'; [lia|done].
Qed.

End copy.
