(* ===== verification/VmFork.v ===== *)
(** * Creating and copying address spaces (kernel/vm.c)

    [uvmcreate] makes an empty address space; [uvmcopy] gives a second one its own
    copy of every page of the first, or leaves it empty and leaks nothing. *)

From stdpp Require Import base list gmap strings.
From Stdlib Require Import ZArith Lia.
From S2P Require Import Prelude Mem Str Riscv Kalloc Vm VmInv VmUser VmCopy.

#[local] Open Scope Z_scope.

Section fork.
Context (kend : Z).
Hypothesis kend_ram : KERNBASE <= kend.

Abbreviation page_ok := (page_ok kend).
Abbreviation free_inv := (free_inv kend).
Abbreviation vm_inv := (vm_inv kend).
Abbreviation pt_inv := (pt_inv kend).
Abbreviation uspace := (uspace kend).
Abbreviation owned := (owned kend).

(** ** A new table *)

(** A zeroed page is a table without lower levels. *)
Lemma pt_inv_empty m p :
  page_ok p -> (forall a, in_page p a -> rd8 m a = 0) -> pt_inv m p {[ [] := p ]}.
Proof using kend_ram.
  intros Hp Hz. split.
  - by rewrite lookup_singleton_eq.
  - intros q x [<- <-]%lookup_singleton_Some. simpl. lia.
  - intros q x [<- <-]%lookup_singleton_Some. done.
  - intros q r x [<- _]%lookup_singleton_Some [<- _]%lookup_singleton_Some. done.
  - intros q i x [E _]%lookup_singleton_Some. by destruct q.
  - intros q x i [<- <-]%lookup_singleton_Some _ Hi. rewrite lookup_singleton_ne by done.
    unfold rd64. rewrite rd_zero; [done|]. intros a Ha. apply Hz. unfold in_page. lia.
  - intros q x i [<- <-]%lookup_singleton_Some _ Hi.
    unfold rd64. rewrite rd_zero; [done|]. intros a Ha. apply Hz. unfold in_page. lia.
Qed.

Lemma uvmcreate_spec s l : free_inv s l ->
  wp uvmcreate (fun r s' =>
    match l with
    | [] => r = 0 /\ s' = s
    | p :: l' => r = p /\ page_ok p /\ uspace s' p {[ [] := p ]} l' [] /\
        (forall va, leaf (kmem s') {[ [] := p ]} va = 0) /\
        frame (fun q => q = p) (kmem s) (kmem s')
    end) s.
Proof using kend_ram.
  intros Hf. unfold uvmcreate. apply wp_bind. eapply wp_mono; [by apply (kalloc_spec kend kend_ram)|].
  intros r s1. destruct l as [|p l]; [intros [-> ->]; apply wp_ret; by split|].
  intros (-> & Hf1 & Hso & H5). destruct Hf as (_ & Hnd & Hok). apply NoDup_cons in Hnd as [Hpl _].
  apply Forall_cons in Hok as [Hp _]. pose proof (page_ok_pos kend kend_ram p Hp).
  destruct (Z.eqb_spec p 0); [lia|]. mem_steps. set (s2 := Kst _ _).
  assert (forall a, in_page p a -> rd8 (kmem s2) a = 0) as Hz.
  { intros a Ha. cbn. rewrite rd8_memset by done. by case_decide. }
  assert (frame (fun q => q = p) (kmem s1) (kmem s2)) as Hf2 by apply frame_memset.
  assert (forall va, leaf (kmem s2) {[ [] := p ]} va = 0) as Hl by (intros; unfold leaf; by rewrite lookup_singleton_ne).
  assert (free_inv s2 l) as Hf3.
  { destruct Hf1 as (Hc1 & Hrest). split; [|done].
    apply (chain_other_page kend p (kmem s1)); [apply Hrest|apply Hp|done| |done].
    intros a Ha. apply Hf2. intros q ->. apply Ha. by left. }
  assert (vm_inv s2 p {[ [] := p ]} l) as Hvm.
  { split_and!; [|done|].
    - by apply pt_inv_empty.
    - intros x [q Hq]. apply lookup_singleton_Some in Hq as [_ <-]. done. }
  split_and!; [done|done| |done|].
  - split; [done| | | | |].
    + split_and!; [constructor|constructor|]. intros q Hq. by apply elem_of_nil in Hq.
    + layout. simpl. lia.
    + done.
    + intros. by rewrite Hl.
    + intros. by rewrite Hl.
  - eapply frame_trans; [|exact Hf2]. apply frame_same_outside in Hso.
    eapply frame_mono; [|exact Hso]. by intros q ->%list_elem_of_singleton.
Qed.

(** ** Two address spaces side by side *)

(** An address space is unaffected by work on the pages of another one and on free
    pages. *)
Lemma uspace_shrunk s s' old N0 l D0 N l1 :
  uspace s old N0 l D0 -> free_inv s' l1 -> (forall x, x ∈ l1 -> x ∈ l) ->
  (forall x, is_node N x -> aligned x /\ ~ is_node N0 x /\ x ∉ D0) ->
  frame (fun p => is_node N p \/ p ∈ l) (kmem s) (kmem s') ->
  uspace s' old N0 l1 D0 /\ (forall va, leaf (kmem s') N0 va = leaf (kmem s) N0 va) /\
  (forall p a, p ∈ D0 -> in_page p a -> rd8 (kmem s') a = rd8 (kmem s) a).
Proof.
  intros [Hvm Hown Hlen Hmap Hfree Htop] Hf1 Hsub Hdis Hf.
  destruct Hvm as (Hpt & Hfr & Hu). destruct Hown as (Hnd & Hok & Hd).
  assert (forall p, is_node N p \/ p ∈ l -> aligned p) as Hal.
  { intros p [Hp|Hp]; [by apply Hdis|]. destruct Hfr as (_ & _ & Hokl).
    by apply (proj1 (Forall_forall _ _) Hokl p Hp). }
  assert (forall x, is_node N0 x -> ~ (is_node N x \/ x ∈ l)) as Hn0.
  { intros x Hx [Hy|Hy]; [by destruct (Hdis x Hy) as (_ & ? & _)|]. by apply (Hu x Hx). }
  assert (forall va, leaf (kmem s') N0 va = leaf (kmem s) N0 va) as Hl.
  { intros va. by eapply leaf_frame. }
  split_and!; [|done|].
  - split; [split_and!|..]; [by eapply pt_inv_frame|done| | |done| | |].
    + intros x Hx Hin. by apply (Hu x Hx), Hsub.
    + split_and!; [done|done|]. intros p Hp. destruct (Hd p Hp) as [Hpl Hpn]. auto.
    + intros j p Hj. rewrite Hl. by apply Hmap.
    + intros va Hva. rewrite Hl. by apply Hfree.
    + intros va Hva. rewrite Hl. by apply Htop.
  - intros p a Hp Ha. destruct (Hd p Hp) as [Hpl Hpn].
    apply (frame_rd8 (fun p => is_node N p \/ p ∈ l) (kmem s) (kmem s') p); [done|done| | |done].
    + by apply (proj1 (Forall_forall _ _) Hok p Hp).
    + intros [Hx|Hx]; [|tauto]. by destruct (Hdis p Hx) as (_ & _ & ?).
Qed.

Lemma uspace_beside s s' old N0 D0 N l new N1 l1 :
  uspace s old N0 l D0 -> ext s N l new s' N1 l1 -> free_inv s' l1 ->
  (forall x, is_node N x -> aligned x /\ ~ is_node N0 x /\ x ∉ D0) ->
  uspace s' old N0 l1 D0 /\ (forall va, leaf (kmem s') N0 va = leaf (kmem s) N0 va) /\
  (forall p a, p ∈ D0 -> in_page p a -> rd8 (kmem s') a = rd8 (kmem s) a).
Proof.
  intros Hus Hext Hf1 Hdis. apply (uspace_shrunk s s' old N0 l D0 N l1); try done.
  - destruct Hext as (t & -> & _). intros x Hx. rewrite elem_of_app. by right.
  - by apply (ext_sub _ _ _ _ _ _ _ Hext).
Qed.

(** Taking a page off the free list and filling it. *)
Lemma uspace_take s s' root N p l D :
  uspace s root N (p :: l) D -> free_inv s' l -> frame (fun q => q = p) (kmem s) (kmem s') ->
  uspace s' root N l D /\ ext s N (p :: l) [p] s' N l /\ page_ok p /\ p ∉ l /\ ~ is_node N p /\ p ∉ D /\
  (forall va, leaf (kmem s') N va = leaf (kmem s) N va).
Proof.
  intros Hus Hf' Hfr. pose proof Hus as [Hvm Hown _ _ _ _]. pose proof Hvm as (Hpt & (_ & Hnd & Hok) & Hu).
  apply NoDup_cons in Hnd as [Hpl Hnd]. apply Forall_cons in Hok as [Hp Hok].
  assert (~ is_node N p) as Hpn by (intros Hn; apply (Hu p Hn); by left).
  assert (p ∉ D) as HpD.
  { intros Hin. destruct Hown as (_ & _ & Hd). destruct (Hd p Hin) as [Hx _]. apply Hx. by left. }
  destruct (vm_inv_other kend s s' root N (p :: l) l p) as [Hvm2 Hl2]; try done.
  { intros x ?. do 2 right. done. }
  split_and!; try done.
  - apply (uspace_other kend s s' root N (p :: l) l D p); try done. intros x ?. do 2 right. done.
  - exists [p]. split_and!; [done|done|done|]. eapply frame_mono; [|exact Hfr]. intros q ->. right. by left.
Qed.

Lemma uspace_nodes s root N l D x : uspace s root N l D -> is_node N x -> page_ok x.
Proof. intros Hus [q Hq]. by apply (pt_page _ _ _ _ (proj1 (us_vm _ _ _ _ _ _ Hus)) q). Qed.

(** Undoing a partial copy. *)
Lemma uvmcopy_undo s root N l D :
  uspace s root N l D ->
  wp (uvmunmap kend root 0 (4096 * Z.of_nat (length D) / PGSIZE) true ;;; ret (Brk (-1) : ctl Z Z))
    (fun r s' => r = Brk (-1) /\ uspace s' root N (reverse D ++ l) [] /\
       frame (fun p => is_node N p \/ p ∈ D) (kmem s) (kmem s') /\
       forall va, TRAPFRAME <= va < MAXVA -> leaf (kmem s') N va = leaf (kmem s) N va) s.
Proof using kend_ram.
  intros Hus. pose proof Hus as [Hvm Hown Hlen Hmap _ _]. layout. unfold PGSIZE.
  rewrite (Z.mul_comm 4096), Z.div_mul by lia. apply wp_bind.
  eapply wp_mono; [apply (uvmunmap_spec kend kend_ram s root N l 0 (length D) true D Hvm)|].
  - done.
  - lia.
  - layout. lia.
  - intros j Hj. destruct (lookup_lt_is_Some_2 D j Hj) as [p Hp]. by apply (Hmap j p).
  - intros _. split; [done|]. intros j Hj. destruct (lookup_lt_is_Some_2 D j Hj) as [p Hp].
    rewrite Hp. f_equal. symmetry. by apply (Hmap j p).
  - intros [] s1 (Hvm1 & Hf1 & Hl1). unfold freed in Hvm1. rewrite firstn_all in Hvm1. apply wp_ret.
    split_and!; [done| |done|].
    + apply (uspace_unmap kend s s1 root N l [] D Hus Hvm1). intros va Hva. by rewrite Hl1.
    + intros va Hva. rewrite Hl1 by (layout; lia). unfold cleared. case_decide as Hc; [|done].
      destruct (PGROUNDDOWN_spec va) as [Hm ?]. pose proof (aligned_mul _ Hm). layout. lia.
Qed.

(** ** Copying *)

(** The flags of a leaf entry, as permissions of a new one. *)
Lemma flags_leaf e : is_leaf e ->
  0 <= PTE_FLAGS e < 1024 /\ Z.lor (PTE_FLAGS e) PTE_V = PTE_FLAGS e /\ PTE_FLAGS e <> PTE_V.
Proof.
  intros [Hv Hne]. unfold PTE_FLAGS in *. split; [|split; [|done]].
  - change 0x3ff with (2 ^ 10 - 1). rewrite land_ones_mod by lia. change 1024 with (2 ^ 10).
    apply Z.mod_pos_bound. lia.
  - assert (Z.testbit e 0 = true) as Ht.
    { unfold has, PTE_V in Hv. change (Z.shiftl 1 0) with (2 ^ 1 - 1) in Hv.
      rewrite land_ones_mod in Hv by lia. change (2 ^ 1) with 2 in Hv. rewrite <- Z.bit0_mod in Hv.
      by destruct (Z.testbit e 0). }
    apply Z.bits_inj'. intros n Hn. rewrite Z.lor_spec, Z.land_spec. unfold PTE_V.
    destruct (decide (n = 0)) as [->|Hn0]; [by rewrite Ht|].
    rewrite Z.shiftl_1_l, Z.pow2_bits_false by lia. by rewrite orb_false_r.
Qed.

(** Pages of an address space keep their contents while it grows. *)
Lemma kept_page s root N l D new s' N' l' p a :
  uspace s root N l D -> ext s N l new s' N' l' -> p ∈ D -> in_page p a ->
  rd8 (kmem s') a = rd8 (kmem s) a.
Proof.
  intros Hus (t & -> & _ & _ & Hf) Hp Ha. destruct (us_own _ _ _ _ _ _ Hus) as (_ & Hok & Hd).
  destruct (Hd p Hp) as [Hpl Hpn]. rewrite elem_of_app in Hpl.
  apply (frame_rd8 (fun p => is_node N p \/ p ∈ t) (kmem s) (kmem s') p); [done| | |tauto|done].
  - intros x [Hx|Hx]; [by apply (uspace_nodes _ _ _ _ _ _ Hus)|].
    destruct (us_vm _ _ _ _ _ _ Hus) as (_ & (_ & _ & Hokl) & _). apply Forall_app in Hokl as [Hokl _].
    by apply (proj1 (Forall_forall _ _) Hokl x Hx).
  - by apply (proj1 (Forall_forall _ _) Hok p Hp).
Qed.

(** After some iterations: the pages [D] of the copy, each with the contents and the
    flags of the page of [D0] at its index. *)
Definition same_page_as (s : kst) (N0 : gmap (list Z) Z) (D0 : list Z) (s' : kst) (N1 : gmap (list Z) Z)
  (D : list Z) : Prop :=
  forall j p q, D !! j = Some p -> D0 !! j = Some q ->
    PTE_FLAGS (leaf (kmem s') N1 (4096 * Z.of_nat j)) = PTE_FLAGS (leaf (kmem s) N0 (4096 * Z.of_nat j)) /\
    forall o, 0 <= o < 4096 -> rd8 (kmem s') (p + o) = rd8 (kmem s) (q + o).

Definition copy_state (s : kst) (N0 : gmap (list Z) Z) (D0 : list Z) (new : Z) (N : gmap (list Z) Z)
  (l : list Z) (s' : kst) (D : list Z) (N1 : gmap (list Z) Z) (l1 : list Z) : Prop :=
  uspace s' new N1 l1 D /\ ext s N l D s' N1 l1 /\ same_page_as s N0 D0 s' N1 D /\
  (forall va, TRAPFRAME <= va < MAXVA -> leaf (kmem s') N1 va = leaf (kmem s) N va).

(** When the copy fails, what was allocated is free again or part of the table. *)
Definition copy_failed (s : kst) (new : Z) (N : gmap (list Z) Z) (l : list Z) (s' : kst)
  (N1 : gmap (list Z) Z) (l1 : list Z) : Prop :=
  uspace s' new N1 l1 [] /\ (forall p, p ∈ l1 -> p ∈ l) /\ (forall p, p ∈ l -> p ∈ l1 \/ is_node N1 p) /\
  (forall p, is_node N p -> is_node N1 p) /\ (forall p, is_node N1 p -> is_node N p \/ p ∈ l) /\
  frame (fun p => is_node N p \/ p ∈ l) (kmem s) (kmem s') /\
  (forall va, TRAPFRAME <= va < MAXVA -> leaf (kmem s') N1 va = leaf (kmem s) N va).

Section copy.
Context (s : kst) (old : Z) (N0 : gmap (list Z) Z) (D0 : list Z) (new : Z) (N : gmap (list Z) Z) (l : list Z).
Hypothesis old_ok : uspace s old N0 l D0.
Hypothesis new_ok : uspace s new N l [].
Hypothesis apart : forall x, is_node N x -> ~ is_node N0 x /\ x ∉ D0.

Lemma apart_al x : is_node N x -> aligned x /\ ~ is_node N0 x /\ x ∉ D0.
Proof using new_ok apart. intros Hx. split; [|by apply apart]. by apply (uspace_nodes _ _ _ _ _ _ new_ok). Qed.

(** Failing after the pages [D] were copied. *)
Lemma copy_fail st D N1 l1 st2 N2 l2 :
  copy_state s N0 D0 new N l st D N1 l1 -> uspace st2 new N2 l2 D ->
  (forall x, x ∈ l2 -> x ∈ l1) -> (forall x, x ∈ l1 -> x ∈ l2 \/ is_node N2 x) ->
  (forall x, is_node N1 x -> is_node N2 x) -> (forall x, is_node N2 x -> is_node N1 x \/ x ∈ l1) ->
  frame (fun p => is_node N1 p \/ p ∈ l1) (kmem st) (kmem st2) ->
  (forall va, TRAPFRAME <= va < MAXVA -> leaf (kmem st2) N2 va = leaf (kmem st) N1 va) ->
  wp (uvmunmap kend new 0 (4096 * Z.of_nat (length D) / PGSIZE) true ;;; ret (Brk (-1) : ctl Z Z))
    (fun r s' => r = Brk (-1) /\ exists N' l', copy_failed s new N l s' N' l') st2.
Proof using kend_ram.
  intros (Hus & Hext & _ & Htop) Hus2 Hl2 Hl1 Hn1 Hn2 Hf Ht2.
  destruct (ext_sub _ _ _ _ _ _ _ Hext) as (Hn & Hk & Hfr). destruct Hext as (t & El & HNs & Hiff & _).
  assert (forall x, x ∈ l1 -> x ∈ l) as Hl1l by (intros x Hx; rewrite El, elem_of_app; by right).
  assert (forall x, x ∈ D -> x ∈ l) as HDl.
  { intros x Hx. destruct (proj1 (Hiff x) (or_intror Hx)) as [Hy|Hy]; [|rewrite El, elem_of_app; by left].
    exfalso. apply (us_own _ _ _ _ _ _ Hus) in Hx as [_ Hx]. apply Hx. destruct Hy as [q Hq].
    exists q. by eapply lookup_weaken. }
  eapply wp_mono; [by apply uvmcopy_undo|]. intros r s' (-> & Hus' & Hf' & Ht'). split; [done|].
  exists N2, (reverse D ++ l2). split_and!; [done| | | | | |].
  - intros p. rewrite elem_of_app, elem_of_reverse. intros [?|?]; auto.
  - intros p Hp. rewrite elem_of_app, elem_of_reverse. destruct (Hk p Hp) as [Hx|[Hx|Hx]]; auto.
    destruct (Hl1 p Hx); auto.
  - intros p [q Hq]. apply Hn1. exists q. by eapply lookup_weaken.
  - intros p Hp. destruct (Hn2 p Hp) as [Hy|Hy]; [by apply Hn|]. right. by apply Hl1l.
  - eapply frame_trans; [exact Hfr|]. eapply frame_trans; [eapply frame_mono, Hf|eapply frame_mono, Hf'].
    + intros x [Hx|Hx]; [by apply Hn|]. right. by apply Hl1l.
    + intros x [Hx|Hx]; [|right; by apply HDl]. destruct (Hn2 x Hx) as [Hy|Hy]; [by apply Hn|]. right. by apply Hl1l.
  - intros va Hva. by rewrite Ht', Ht2, Htop.
Qed.

(** Mapping the page that was just filled. *)
Lemma copy_map st D N1 p l1 q s2 :
  copy_state s N0 D0 new N l st D N1 (p :: l1) -> D0 !! length D = Some q ->
  free_inv s2 l1 -> frame (fun x => x = p) (kmem st) (kmem s2) ->
  (forall o, 0 <= o < 4096 -> rd8 (kmem s2) (p + o) = rd8 (kmem s) (q + o)) ->
  let i := 4096 * Z.of_nat (length D) in
  wp (r <- mappages new i PGSIZE p (PTE_FLAGS (leaf (kmem s) N0 i)) ;;
      if nz r then kfree kend p ;;; (uvmunmap kend new 0 (i / PGSIZE) true ;;; ret (Brk (-1)))
      else ret (Next (u64 (i + PGSIZE))))
    (fun r s' => match r with
      | Next i' => exists N2 l2, i' = i + 4096 /\ copy_state s N0 D0 new N l s' (D ++ [p]) N2 l2
      | Brk r => r = -1 /\ exists N' l', copy_failed s new N l s' N' l' end) s2.
Proof using kend_ram old_ok new_ok apart.
  intros Hst Hq Hf2 Hfr Hb i. pose proof Hst as (Hus & Hext & Hsame & Htop).
  destruct (uspace_take _ _ _ _ _ _ _ Hus Hf2 Hfr) as (Hus2 & Hext2 & Hp & Hpl & Hpn & HpD & Hl2).
  pose proof (us_len _ _ _ _ _ _ old_ok) as Hlen0. pose proof (lookup_lt_Some _ _ _ Hq) as Hlt.
  pose proof (page_ok_pos kend kend_ram p Hp) as Hpos.
  assert (p < 2 ^ 40) as Hps by (destruct Hp as (_ & _ & ?); unfold PHYSTOP, KERNBASE in *; lia).
  destruct (us_map _ _ _ _ _ _ old_ok _ _ Hq) as [Hlf Hpa]. fold i in Hlf, Hpa.
  set (fl := PTE_FLAGS (leaf (kmem s) N0 i)) in *.
  destruct (flags_leaf _ Hlf) as (Hr & Hlor & Hne). fold fl in Hr, Hlor, Hne.
  apply wp_bind. eapply wp_mono; [apply (map_next_page kend kend_ram s2 new N1 l1 D p fl); try done; layout; try lia|].
  { split; [rewrite entry_has by (lia || done); by rewrite orb_true_r|]. rewrite entry_flags by lia. by rewrite Hlor. }
  intros r s3 (N2 & l2 & Hext3 & _ & Hpl2 & Hpn2 & [(-> & Hus3 & Hl3)|(-> & Hus3 & Hl3)]); cbn [nz].
  - (* mapped *)
    apply wp_ret. exists N2, l2. layout. unfold PGSIZE. split; [by apply u64_small; lia|].
    assert (ext st N1 (p :: l1) [p] s3 N2 l2) as Hext23.
    { rewrite <- (app_nil_r [p]). by eapply ext_trans. }
    split_and!; [done|by eapply ext_trans| |].
    + intros j p' q' Hj Hq'. apply lookup_snoc_Some in Hj as [[Hjl Hj]|[-> <-]].
      * destruct (Hsame j p' q' Hj Hq') as [Hfl Hby]. pose proof (us_len _ _ _ _ _ _ Hus) as Hlen1. layout.
        split.
        { rewrite Hl3 by (layout; lia). unfold mapped. rewrite PGROUNDDOWN_id by apply page_4096.
          case_decide; [lia|]. by rewrite Hl2. }
        intros o Ho. rewrite <- (Hby o Ho).
        assert (p' ∈ D) as HpD' by (by eapply list_elem_of_lookup_2).
        apply (kept_page st new N1 (p :: l1) D [p] s3 N2 l2 p' _ Hus Hext23 HpD'). unfold in_page. lia.
      * rewrite Hq in Hq'. injection Hq' as <-. fold i. split.
        { rewrite Hl3 by (layout; lia). unfold mapped. rewrite PGROUNDDOWN_id by apply page_4096.
          case_decide; [|lia]. rewrite Z.sub_diag, Z.add_0_r, entry_flags by lia. by rewrite Hlor. }
        intros o Ho. rewrite <- (Hb o Ho). destruct Hext3 as (t3 & E3 & _ & _ & Hf3).
        apply (frame_rd8 (fun p => is_node N1 p \/ p ∈ t3) (kmem s2) (kmem s3) p); [done| | | |unfold in_page; lia].
        { intros x [Hx|Hx]; [by apply (uspace_nodes _ _ _ _ _ _ Hus)|].
          destruct Hf2 as (_ & _ & Hok). rewrite E3 in Hok. apply Forall_app in Hok as [Hok _].
          by apply (proj1 (Forall_forall _ _) Hok x Hx). }
        { apply Hp. }
        { intros [?|?]; [done|]. apply Hpl. rewrite E3, elem_of_app. by left. }
    + intros va Hva. rewrite Hl3 by (layout; lia). unfold mapped.
      destruct (PGROUNDDOWN_spec va) as [Hm ?]. pose proof (aligned_mul _ Hm). layout.
      case_decide; [lia|]. rewrite Hl2. by apply Htop.
  - (* no memory for a page-table page *)
    apply wp_bind. eapply wp_mono; [apply (vm_inv_kfree kend kend_ram _ new N2 p l2); try done; apply Hus3|].
    intros [] s4 (Hvm4 & Hf4 & Hl4).
    assert (ext st N1 (p :: l1) [p] s3 N2 l2) as Hext23.
    { rewrite <- (app_nil_r [p]). by eapply ext_trans. }
    destruct (ext_sub _ _ _ _ _ _ _ Hext23) as (Hn2 & Hk2 & Hf23).
    eapply wp_mono; [eapply (copy_fail st D N1 (p :: l1) s4 N2 (p :: l2) Hst)|].
    + by eapply (uspace_other kend s3 s4 new N2 l2 (p :: l2) _ p).
    + destruct Hext3 as (t3 & -> & _). intros x. rewrite !elem_of_cons, elem_of_app. tauto.
    + intros x Hx. rewrite elem_of_cons. destruct (Hk2 x Hx) as [?|[?%list_elem_of_singleton|?]]; tauto.
    + destruct Hext23 as (t & _ & HN & _). intros x [k Hx]. exists k. by eapply lookup_weaken.
    + done.
    + eapply frame_trans; [exact Hf23|]. eapply frame_mono, Hf4. intros x ->. right. by left.
    + intros va Hva. rewrite Hl4, Hl3 by (layout; lia). by rewrite Hl2.
    + intros r s' [-> Hfail]. done.
Qed.

(** The walk of the old table finds the entry of a mapped page. *)
Lemma walk_old st D N1 l1 i q :
  copy_state s N0 D0 new N l st D N1 l1 -> D0 !! i = Some q ->
  walk old (4096 * Z.of_nat i) false st = Ok (slot N0 (4096 * Z.of_nat i)) st /\
  slot N0 (4096 * Z.of_nat i) <> 0 /\
  rd64 (kmem st) (slot N0 (4096 * Z.of_nat i)) = leaf (kmem s) N0 (4096 * Z.of_nat i) /\
  uspace st old N0 l1 D0 /\ (forall p a, p ∈ D0 -> in_page p a -> rd8 (kmem st) a = rd8 (kmem s) a).
Proof using old_ok new_ok apart kend_ram.
  intros (Hus & Hext & _) Hq.
  destruct (uspace_beside s st old N0 D0 N l D N1 l1 old_ok Hext) as (Huo & Hlo & Hbo);
    [apply Hus|apply apart_al|].
  pose proof (us_len _ _ _ _ _ _ old_ok). pose proof (lookup_lt_Some _ _ _ Hq).
  destruct (us_map _ _ _ _ _ _ old_ok _ _ Hq) as [[Hv _] _]. layout.
  assert (exists x, N0 !! path0 (4096 * Z.of_nat i) = Some x) as [x Hx].
  { unfold leaf in Hv. destruct (N0 !! path0 _) as [x|]; [by exists x|done]. }
  pose proof (slot_pos kend kend_ram (kmem st) old N0 (4096 * Z.of_nat i) (proj1 (us_vm _ _ _ _ _ _ Huo))) as Hs.
  rewrite Hx in Hs. split_and!; [|lia| |done|done].
  - apply (walk_lookup kend); [apply Huo|layout; lia].
  - rewrite <- Hlo. unfold leaf, slot. by rewrite Hx.
Qed.

Lemma uvmcopy_spec sz :
  0 <= sz < 2 ^ 63 -> PGROUNDUP sz = 4096 * Z.of_nat (length D0) ->
  wp (uvmcopy kend old new sz) (fun r s' =>
    r = 0 /\ (exists D N1 l1, length D = length D0 /\ copy_state s N0 D0 new N l s' D N1 l1) \/
    r = -1 /\ exists N1 l1, copy_failed s new N l s' N1 l1) s.
Proof using kend_ram old_ok new_ok apart.
  intros Hsz HP. pose proof (us_len _ _ _ _ _ _ old_ok) as Hlen0. layout. unfold uvmcopy.
  assert (sz <= 4096 * Z.of_nat (length D0) /\ forall k, (k < length D0)%nat -> 4096 * Z.of_nat k < sz) as [Hup Hlow].
  { destruct (PGROUNDUP_spec sz) as [Hm Hb]; [lia|lia|]. pose proof (aligned_mul _ Hm). split; [lia|]. intros. lia. }
  apply (wp_while _
    (fun a st => exists D N1 l1, a = 4096 * Z.of_nat (length D) /\ (length D <= length D0)%nat /\
       copy_state s N0 D0 new N l st D N1 l1)
    (fun a _ => 4096 * Z.of_nat (length D0) - a)).
  2: { exists [], N, l. split_and!; [done|simpl; lia|]. split_and!; [done|apply ext_refl|done|done]. }
  2: { lia. }
  intros a st (D & N1 & l1 & -> & Hle & Hst). pose proof Hst as (Hus & Hext & Hsame & Htop).
  destruct (Z.ltb_spec (4096 * Z.of_nat (length D)) sz) as [Hlt|Hge].
  2: { apply wp_ret. left. split; [done|]. exists D, N1, l1. split; [|done].
       destruct (decide (length D < length D0)%nat) as [Hl|]; [|lia]. specialize (Hlow _ Hl). lia. }
  assert (length D < length D0)%nat as HltD by lia.
  destruct (lookup_lt_is_Some_2 D0 (length D) HltD) as [q Hq].
  destruct (walk_old st D N1 l1 _ q Hst Hq) as (Hw & Hs0 & Hrd & Huo & Hbo).
  destruct (us_map _ _ _ _ _ _ old_ok _ _ Hq) as [[Hv Hfl] Hpa].
  apply wp_bind. eapply wp_intro; [exact Hw|]. destruct (Z.eqb_spec (slot N0 (4096 * Z.of_nat (length D))) 0); [done|].
  apply wp_bind, wp_load64. rewrite Hrd, Hv, Hpa. cbn [negb]. apply wp_bind.
  eapply wp_mono; [apply (kalloc_spec kend kend_ram st l1), Hus|]. intros p s1. destruct l1 as [|p' l1].
  - intros [-> ->]. cbn [Z.eqb].
    eapply wp_mono; [eapply (copy_fail st D N1 [] st N1 [] Hst); try done; by intros; left|].
    intros r s' [-> Hf]. by right.
  - intros (-> & Hf1 & Hso & _).
    assert (page_ok p') as Hp.
    { destruct (us_vm _ _ _ _ _ _ Hus) as (_ & (_ & _ & Hok) & _). by apply Forall_cons in Hok as [? _]. }
    pose proof (page_ok_pos kend kend_ram p' Hp). destruct (Z.eqb_spec p' 0); [lia|].
    apply wp_bind, wp_update_mem. cbv beta. set (s2 := Kst _ _).
    assert (q ∈ D0) as HqD by (by eapply list_elem_of_lookup_2).
    assert (frame (fun x => x = p') (kmem st) (kmem s1)) as Hfr1.
    { apply frame_same_outside in Hso. eapply frame_mono; [|exact Hso]. by intros x ->%list_elem_of_singleton. }
    assert (frame (fun x => x = p') (kmem s1) (kmem s2)) as Hfr2.
    { intros a Ha. cbn. apply rd8_memmove_out; [done|]. intros Hin. by apply (Ha p'). }
    eapply wp_mono; [eapply (copy_map st D N1 p' l1 q s2 Hst Hq)|].
    + destruct Hf1 as (Hc1 & Hnd1 & Hok1). split; [|done].
      apply (chain_other_page kend p' (kmem s1)); [done|apply Hp| | |done].
      * destruct (us_vm _ _ _ _ _ _ Hus) as (_ & (_ & Hnd & _) & _). by apply NoDup_cons in Hnd as [? _].
      * intros a Ha. apply Hfr2. intros x ->. apply Ha. by left.
    + by eapply frame_trans.
    + intros o Ho. cbn. rewrite rd8_memmove by done. rewrite decide_True by (unfold PGSIZE; lia).
      destruct (us_own _ _ _ _ _ _ Huo) as (_ & Hok & Hd). destruct (Hd q HqD) as [Hql _].
      replace (q + (p' + o - p')) with (q + o) by lia. rewrite <- (Hbo q (q + o) HqD) by (unfold in_page; lia).
      apply (frame_rd8 (fun x => x = p') (kmem st) (kmem s1) q); [done| | | |unfold in_page; lia].
      * intros x ->. apply Hp.
      * by apply (proj1 (Forall_forall _ _) Hok q HqD).
      * intros ->. apply Hql. by left.
    + intros [a'|r] s' Hr; [|right; destruct Hr as [-> ?]; done].
      destruct Hr as (N2 & l2 & -> & Hst'). split; [|layout; lia].
      exists (D ++ [p']), N2, l2. rewrite length_app. cbn [length]. split_and!; [lia|lia|done].
Qed.
End copy.
End fork.
