(* ===== verification/VmFree.v ===== *)
(** * Tearing an address space down (kernel/vm.c)

    [freewalk] gives every page of a page table back, provided no leaf is left in it;
    [uvmfree] first gives back the pages of the process.  Nothing is leaked and
    nothing is freed twice. *)

From stdpp Require Import base list gmap strings.
From Stdlib Require Import ZArith Lia.
From S2P Require Import Prelude Mem Str Riscv Kalloc Vm VmInv VmUser VmCopy VmFork.

#[local] Open Scope Z_scope.

Section free.
Context (kend : Z).
Hypothesis kend_ram : KERNBASE <= kend.

Abbreviation page_ok := (page_ok kend).
Abbreviation free_inv := (free_inv kend).
Abbreviation vm_inv := (vm_inv kend).
Abbreviation pt_inv := (pt_inv kend).
Abbreviation uspace := (uspace kend).
Abbreviation nodes := (gmap (list Z) Z).

(** ** Trees of pages *)

(** A page [x] with [h] levels below it and no leaf; [L] are the pages in the order in
    which [freewalk] frees them. *)
Fixpoint ptree (m : mem) (h : nat) (x : Z) (L : list Z) : Prop :=
  match h with
  | O => L = [x] /\ forall i, 0 <= i < 512 -> has (rd64 m (x + 8 * i)) PTE_V = false
  | S h' => exists Ls, length Ls = 512%nat /\ L = concat Ls ++ [x] /\
      forall (i : nat) Li, Ls !! i = Some Li ->
        let e := rd64 m (x + 8 * Z.of_nat i) in
        if has e PTE_V then has e PTE_RWX = false /\ ptree m h' (PTE2PA e) Li else Li = []
  end.

Lemma ptree_frame m m' h x L :
  ptree m h x L -> (forall p a, p ∈ L -> in_page p a -> rd8 m' a = rd8 m a) -> ptree m' h x L.
Proof.
  revert x L. induction h as [|h IH]; intros x L; cbn [ptree].
  - intros [-> Hx] Hf. split; [done|]. intros i Hi. rewrite <- (Hx i Hi). f_equal. apply rd_ext. intros a Ha.
    apply (Hf x); [by left|unfold in_page; lia].
  - intros (Ls & Hl & -> & HL) Hf. exists Ls. split_and!; [done|done|]. intros i Li Hi. specialize (HL i Li Hi). cbv zeta in HL |- *.
    pose proof (lookup_lt_Some _ _ _ Hi) as Hlt.
    assert (rd64 m' (x + 8 * Z.of_nat i) = rd64 m (x + 8 * Z.of_nat i)) as ->.
    { apply rd_ext. intros a Ha. apply (Hf x); [apply elem_of_app; right; by left|unfold in_page; lia]. }
    destruct (has _ PTE_V); [|done]. destruct HL as [? HL]. split; [done|]. apply (IH _ _ HL). intros p a Hp Ha.
    apply (Hf p); [|done]. apply elem_of_app. left. apply list_elem_of_In, in_concat. exists Li. split; apply list_elem_of_In; [|done].
    by eapply list_elem_of_lookup_2.
Qed.

(** Storing into a page that is not free. *)
Lemma free_inv_store s l x i v :
  free_inv s l -> page_ok x -> x ∉ l -> 0 <= i < 512 -> free_inv (Kst (wr64 (kmem s) (x + 8 * i) v) (freelist s)) l.
Proof.
  intros (Hc & Hnd & Hok) Hx Hxl Hi. split; [|done]. apply (chain_other_page kend x (kmem s)); [done|apply Hx|done| |done].
  intros a Ha. apply (frame_wr64 (kmem s) x i v Hi). intros p ->. apply Ha. by left.
Qed.

(** What freeing the pages [L] does. *)
Definition gives_back (L : list Z) (c : M kst unit) (s : kst) (l : list Z) : Prop :=
  wp c (fun _ s' => free_inv s' (reverse L ++ l) /\ frame (fun p => p ∈ L) (kmem s) (kmem s')) s.
Lemma gives_back_wp L c s l : gives_back L c s l -> wp c (fun _ s' => free_inv s' (reverse L ++ l) /\ frame (fun p => p ∈ L) (kmem s) (kmem s')) s.
Proof. done. Qed.

Lemma entries_skip rec x i k s (Q : unit -> kst -> Prop) :
  (forall j, i <= j < i + Z.of_nat k -> has (rd64 (kmem s) (x + 8 * j)) PTE_V = false) -> Q tt s -> wp (freewalk_entries rec x i k) Q s.
Proof.
  revert i. induction k as [|k IH]; intros i Hv HQ; cbn [freewalk_entries]; [by apply wp_ret|].
  apply wp_bind, wp_gets. rewrite (Hv i) by lia. cbn [andb]. mem_steps. apply IH; [|done]. intros j Hj. apply Hv. lia.
Qed.

(** The pages of a table that are still to be freed are not touched. *)
Lemma untouched (P : Z -> Prop) m m' p a :
  frame P m m' -> (forall q, P q -> page_ok q) -> page_ok p -> ~ P p -> in_page p a -> rd8 m' a = rd8 m a.
Proof.
  intros Hf HP Hp Hn Ha. apply Hf. intros q Hq Hin. apply Hn. rewrite <- (in_page_disj q p a); auto; [apply HP, Hq|apply Hp].
Qed.

Section entries.
Context (rec : Z -> M kst unit) (h : nat) (x : Z).
Hypothesis rec_ok : forall s y L l,
  ptree (kmem s) h y L -> NoDup (L ++ l) -> Forall page_ok L -> free_inv s l -> gives_back L (rec y) s l.
Hypothesis x_ok : page_ok x.

(** What is below entry [i]. *)
Definition below (m : mem) (i : Z) (L : list Z) : Prop :=
  let e := rd64 m (x + 8 * i) in
  if has e PTE_V then has e PTE_RWX = false /\ ptree m h (PTE2PA e) L else L = [].

Lemma below_keep m m' i L :
  below m i L -> rd64 m' (x + 8 * i) = rd64 m (x + 8 * i) -> (forall p a, p ∈ L -> in_page p a -> rd8 m' a = rd8 m a) -> below m' i L.
Proof.
  unfold below. intros Hb -> Hf. cbv zeta in *. destruct (has _ PTE_V); [|done]. destruct Hb as [? Hb]. split; [done|]. by eapply ptree_frame.
Qed.

(** One entry. *)
Lemma entry_spec i s L l :
  free_inv s l -> NoDup (x :: L ++ l) -> Forall page_ok L -> 0 <= i < 512 -> below (kmem s) i L ->
  wp (if has (rd64 (kmem s) (x + 8 * i)) PTE_V && negb (has (rd64 (kmem s) (x + 8 * i)) (Z.lor (Z.lor PTE_R PTE_W) PTE_X))
      then rec (PTE2PA (rd64 (kmem s) (x + 8 * i))) ;;; store64 (x + 8 * i) 0
      else if has (rd64 (kmem s) (x + 8 * i)) PTE_V then panic "freewalk: leaf" else ret tt)
    (fun _ s' => free_inv s' (reverse L ++ l) /\ frame (fun p => p = x \/ p ∈ L) (kmem s) (kmem s') /\
       forall j, 0 <= j < 512 -> j <> i -> rd64 (kmem s') (x + 8 * j) = rd64 (kmem s) (x + 8 * j)) s.
Proof using rec_ok x_ok.
  intros Hfree Hnd Hok Hi Hb. unfold below in Hb. cbv zeta in Hb. change (Z.lor (Z.lor PTE_R PTE_W) PTE_X) with PTE_RWX.
  destruct (has (rd64 (kmem s) (x + 8 * i)) PTE_V) eqn:EV; cbn [andb].
  2: { subst L. apply wp_ret. split_and!; [done|apply frame_refl|done]. }
  destruct Hb as [-> Ht]. cbn [negb]. apply NoDup_cons in Hnd as [Hx Hnd]. apply not_elem_of_app in Hx as [HxL Hxl].
  apply wp_bind. eapply wp_mono; [exact (rec_ok s _ L l Ht Hnd Hok Hfree)|]. intros [] s1 [Hfree1 Hf1]. apply wp_store64.
  assert (forall j, 0 <= j < 512 -> rd64 (kmem s1) (x + 8 * j) = rd64 (kmem s) (x + 8 * j)) as E1.
  { intros j Hj. apply rd_ext. intros a Ha. apply (untouched (fun p => p ∈ L) _ _ x); [done| |done|done|unfold in_page; lia].
    intros q Hq. exact (proj1 (Forall_forall _ _) Hok q Hq). }
  split_and!.
  - apply free_inv_store; [done|done| |done]. by rewrite elem_of_app, elem_of_reverse; intros [?|?].
  - eapply frame_trans; eapply frame_mono; [|exact Hf1| |apply (frame_wr64 (kmem s1) x i 0 Hi)]; [by right|by left].
  - intros j Hj Hne. cbn. rewrite rd64_wr64_ne by lia. by apply E1.
Qed.

Lemma entries_spec Ls : forall i s l,
  free_inv s l -> NoDup (x :: concat Ls ++ l) -> Forall page_ok (concat Ls) -> 0 <= i -> i + Z.of_nat (length Ls) <= 512 ->
  (forall (j : nat) Lj, Ls !! j = Some Lj -> below (kmem s) (i + Z.of_nat j) Lj) ->
  wp (freewalk_entries rec x i (length Ls)) (fun _ s' => free_inv s' (reverse (concat Ls) ++ l) /\
    frame (fun p => p = x \/ p ∈ concat Ls) (kmem s) (kmem s')) s.
Proof using rec_ok x_ok.
  induction Ls as [|L Ls IH]; intros i s l Hfree Hnd Hok Hi0 Hi HL; cbn [freewalk_entries length concat] in *.
  { apply wp_ret. split; [done|apply frame_refl]. }
  rewrite <- app_assoc in Hnd. apply Forall_app in Hok as [HokL Hok]. apply wp_bind, wp_gets, wp_bind.
  assert (NoDup (x :: L ++ l)) as Hnd1.
  { eapply sublist_NoDup; [exact Hnd|]. apply sublist_skip, sublist_app; [done|by apply sublist_inserts_l]. }
  assert (NoDup (x :: concat Ls ++ reverse L ++ l)) as Hnd2.
  { eapply NoDup_Permutation_proper; [|exact Hnd]. apply perm_skip. rewrite reverse_Permutation, !app_assoc. apply Permutation_app_tail, Permutation_app_comm. }
  pose proof (HL 0%nat L eq_refl) as HL0. rewrite Z.add_0_r in HL0.
  eapply wp_mono; [apply (entry_spec i s L l Hfree Hnd1 HokL ltac:(lia) HL0)|]. intros [] s1 (Hfree1 & Hf1 & E1).
  eapply wp_mono; [apply (IH (i + 1) s1 (reverse L ++ l) Hfree1 Hnd2 Hok); [lia|lia|]|].
  - intros j Lj Hj. replace (i + 1 + Z.of_nat j) with (i + Z.of_nat (S j)) by lia. pose proof (lookup_lt_Some _ _ _ Hj).
    apply (below_keep (kmem s)); [by apply HL|apply E1; lia|]. intros p a Hp Ha.
    assert (p ∈ concat Ls) as HpL by (apply list_elem_of_In, in_concat; exists Lj; split; apply list_elem_of_In; [by eapply list_elem_of_lookup_2|done]).
    apply (untouched (fun q => q = x \/ q ∈ L) _ _ p); [done| |exact (proj1 (Forall_forall _ _) Hok p HpL)| |done].
    + intros q [->|Hq]; [done|exact (proj1 (Forall_forall _ _) HokL q Hq)].
    + apply NoDup_cons in Hnd2 as [Hx2 Hnd2]. apply NoDup_app in Hnd2 as (_ & Hd & _).
      intros [->|Hq]; [apply Hx2, elem_of_app; by left|]. apply (Hd p HpL). apply elem_of_app. left. by apply elem_of_reverse.
  - intros [] s2 [Hfree2 Hf2]. split; [by rewrite reverse_app, <- app_assoc|].
    eapply frame_trans; eapply frame_mono; [|exact Hf1| |exact Hf2]; intros q [->|Hq]; try (by left); right; apply elem_of_app; auto.
Qed.
End entries.

Lemma freewalk_tree h : forall d s x L l,
  (h < d)%nat -> ptree (kmem s) h x L -> NoDup (L ++ l) -> Forall page_ok L -> free_inv s l -> gives_back L (freewalk_depth kend d x) s l.
Proof using kend_ram.
  induction h as [|h IH]; intros d s x L l Hd Ht Hnd Hok Hfree; (destruct d as [|d]; [lia|]); cbn [freewalk_depth ptree] in *; apply wp_bind.
  - destruct Ht as [-> Hv]. apply entries_skip; [intros j Hj; apply Hv; lia|]. apply Forall_cons in Hok as [Hx _]. apply NoDup_cons in Hnd as [Hxl _].
    eapply wp_mono; [by apply (kfree_spec kend kend_ram s l x)|]. intros [] s' (Hf' & Hs & _). by split; [|apply frame_same_outside].
  - destruct Ht as (Ls & Hlen & -> & HL). apply Forall_app in Hok as [HokL [Hx _]%Forall_cons].
    assert (NoDup (x :: concat Ls ++ l)) as Hnd'.
    { eapply NoDup_Permutation_proper; [|exact Hnd]. rewrite <- app_assoc. apply Permutation_middle. }
    rewrite <- Hlen at 1. eapply wp_mono; [apply (entries_spec (freewalk_depth kend d) h x); [|done|exact Hfree|exact Hnd'|exact HokL|lia|lia|]|].
    + intros s0 y L0 l0 Ht0 Hn0 Ho0 Hf0. apply (IH d s0 y L0 l0); [lia|done..].
    + intros j Lj Hj. exact (HL j Lj Hj).
    + intros [] s1 [Hf1 Hfr1]. apply NoDup_cons in Hnd' as [Hxn _].
      eapply wp_mono; [apply (kfree_spec kend kend_ram s1 _ x Hf1 Hx)|]; [rewrite elem_of_app, elem_of_reverse, <- elem_of_app; exact Hxn|].
      intros [] s2 (Hf2 & Hs2 & _). split; [by rewrite reverse_snoc|].
      eapply frame_trans; eapply frame_mono; [|exact Hfr1| |apply frame_same_outside, Hs2]; intros q; rewrite elem_of_app, list_elem_of_singleton; tauto.
Qed.

(** ** The tree of a page table *)

(** The pages below path [p], down [h] levels. *)
Fixpoint pages (N : nodes) (h : nat) (p : list Z) : list Z :=
  match N !! p with
  | None => []
  | Some x => match h with O => [] | S h' => concat ((fun i => pages N h' (p ++ [i])) <$> seqZ 0 512) end ++ [x]
  end.

Section table.
Context (m : mem) (root : Z) (N : nodes).
Hypothesis Hpt : pt_inv m root N.

Lemma prefix_closed p q : is_Some (N !! (p ++ q)) -> is_Some (N !! p).
Proof using Hpt.
  induction q as [|i q IH] using rev_ind; [by rewrite app_nil_r|]. intros [x Hx]. rewrite app_assoc in Hx.
  apply IH. by destruct (pt_idx _ _ _ _ Hpt _ _ _ Hx).
Qed.
Lemma index_range p i q : is_Some (N !! (p ++ i :: q)) -> 0 <= i < 512.
Proof using Hpt.
  intros Hs. rewrite (app_assoc p [i] q : p ++ i :: q = _) in Hs. destruct (prefix_closed _ _ Hs) as [x Hx].
  destruct (pt_idx _ _ _ _ Hpt _ _ _ Hx) as [Hr _]. unfold fanout in Hr. destruct p; lia.
Qed.

Lemma elem_pages h p y : y ∈ pages N h p <-> exists q, N !! (p ++ q) = Some y /\ (length q <= h)%nat.
Proof using Hpt.
  revert p. induction h as [|h IH]; intros p; cbn [pages]; split.
  - destruct (N !! p) as [x|] eqn:E; [|by intros ?%elem_of_nil]. intros ->%list_elem_of_singleton. exists []. by rewrite app_nil_r.
  - intros (q & Hq & Hl). destruct q; [|cbn in Hl; lia]. rewrite app_nil_r in Hq. rewrite Hq. by left.
  - destruct (N !! p) as [x|] eqn:E; [|by intros ?%elem_of_nil]. rewrite elem_of_app, list_elem_of_singleton. intros [Hy| ->].
    + apply list_elem_of_In, in_concat in Hy as (L & HL & Hy%list_elem_of_In). apply list_elem_of_In, list_elem_of_fmap in HL as (i & -> & _).
      apply IH in Hy as (q & Hq & Hl). exists (i :: q). rewrite <- app_assoc in Hq. split; [done|cbn; lia].
    + exists []. rewrite app_nil_r. split; [done|cbn; lia].
  - intros (q & Hq & Hl). destruct (prefix_closed p q ltac:(by eexists)) as [x E]. rewrite E, elem_of_app, list_elem_of_singleton.
    destruct q as [|i q]; [right; rewrite app_nil_r in Hq; congruence|left]. apply list_elem_of_In, in_concat. exists (pages N h (p ++ [i])). split; apply list_elem_of_In.
    + apply list_elem_of_fmap. exists i. split; [done|]. apply elem_of_seqZ. pose proof (index_range p i q ltac:(by eexists)). lia.
    + apply IH. exists q. rewrite <- app_assoc. split; [done|cbn in Hl; lia].
Qed.

Lemma NoDup_concat_map {A} (f : A -> list Z) (l : list A) :
  NoDup l -> (forall i, i ∈ l -> NoDup (f i)) -> (forall i j y, i ∈ l -> j ∈ l -> y ∈ f i -> y ∈ f j -> i = j) -> NoDup (concat (f <$> l)).
Proof.
  induction 1 as [|i l Hi Hnd IH]; intros Hf Hd; cbn; [constructor|]. apply NoDup_app. split_and!.
  - apply Hf. by left.
  - intros y Hy Hc. apply list_elem_of_In, in_concat in Hc as (L & HL & Hc%list_elem_of_In). apply list_elem_of_In, list_elem_of_fmap in HL as (j & -> & Hj).
    apply Hi. rewrite (Hd i j y); [done|by left|by right|done|done].
  - apply IH; [intros j Hj; apply Hf; by right|]. intros j k y Hj Hk. apply Hd; by right.
Qed.

Lemma NoDup_pages h p : NoDup (pages N h p).
Proof using Hpt.
  revert p. induction h as [|h IH]; intros p; cbn [pages]; destruct (N !! p) as [x|] eqn:E; try constructor; [by apply not_elem_of_nil|constructor|].
  apply NoDup_app. split_and!; [|intros y Hy ->%list_elem_of_singleton|apply NoDup_singleton].
  - apply NoDup_concat_map; [apply NoDup_seqZ|intros; apply IH|]. intros i j y _ _ Hi Hj. apply elem_pages in Hi as (q & Hq & _), Hj as (q' & Hq' & _).
    pose proof (pt_inj _ _ _ _ Hpt _ _ _ Hq Hq') as Eq. rewrite <- !app_assoc in Eq. apply app_inv_head in Eq. by injection Eq.
  - apply list_elem_of_In, in_concat in Hy as (L & HL & Hy%list_elem_of_In). apply list_elem_of_In, list_elem_of_fmap in HL as (i & -> & _).
    apply elem_pages in Hy as (q & Hq & _). pose proof (pt_inj _ _ _ _ Hpt _ _ _ E Hq) as Eq. apply (f_equal length) in Eq. rewrite !length_app in Eq. cbn in Eq. lia.
Qed.

Lemma pages_nodes y : y ∈ pages N 2 [] <-> is_node N y.
Proof using Hpt.
  rewrite elem_pages. cbn [app]. split; [intros (q & Hq & _); by exists q|]. intros [q Hq]. exists q. split; [done|]. by eapply (pt_len _ _ _ _ Hpt).
Qed.

(** No entry of a lowest-level page is valid. *)
Hypothesis Hnone : forall p x i, N !! p = Some x -> length p = 2%nat -> 0 <= i < 512 -> has (rd64 m (x + 8 * i)) PTE_V = false.

Lemma pages_tree h p x : (length p + h = 2)%nat -> N !! p = Some x -> ptree m h x (pages N h p).
Proof using Hpt Hnone.
  revert p x. induction h as [|h IH]; intros p x Hl Hx; cbn [pages ptree]; rewrite Hx.
  - split; [done|]. intros i Hi. apply (Hnone p); [done|lia|done].
  - exists ((fun i => pages N h (p ++ [i])) <$> seqZ 0 512). split_and!; [by rewrite length_fmap, length_seqZ|done|].
    intros i Li Hi. rewrite list_lookup_fmap in Hi. apply fmap_Some in Hi as (z & Hz & ->). apply lookup_seqZ in Hz as [-> Hi]. cbv zeta. rewrite Z.add_0_l.
    pose proof (pt_child _ _ _ _ Hpt p x (Z.of_nat i) Hx ltac:(lia) ltac:(lia)) as Hc. unfold child in Hc.
    pose proof (pt_link _ _ _ _ Hpt p x (Z.of_nat i) Hx ltac:(lia) ltac:(lia)) as Hk.
    destruct (has _ PTE_V); [split; [done|]; apply IH; [rewrite length_app; cbn; lia|done]|].
    destruct h; cbn [pages]; by rewrite Hc.
Qed.
End table.

(** The virtual address of an entry. *)
Lemma path_va i j k : 0 <= i < 256 -> 0 <= j < 512 -> 0 <= k < 512 ->
  let va := i * 2 ^ 30 + j * 2 ^ 21 + k * 2 ^ 12 in 0 <= va < MAXVA /\ path0 va = [i; j] /\ PX 0 va = k.
Proof.
  intros Hi Hj Hk va. change MAXVA with (2 ^ 38). split; [unfold va; lia|]. unfold path0. rewrite !PX_div by lia.
  change (2 ^ (12 + 9 * 2)) with (2 ^ 30). change (2 ^ (12 + 9 * 1)) with (2 ^ 21). change (2 ^ (12 + 9 * 0)) with (2 ^ 12).
  assert (va / 2 ^ 30 = i) as -> by (symmetry; apply (Z.div_unique_pos _ _ _ (j * 2 ^ 21 + k * 2 ^ 12)); unfold va; lia).
  assert (va / 2 ^ 21 = i * 512 + j) as -> by (symmetry; apply (Z.div_unique_pos _ _ _ (k * 2 ^ 12)); unfold va; lia).
  assert (va / 2 ^ 12 = (i * 512 + j) * 512 + k) as -> by (symmetry; apply (Z.div_unique_pos _ _ _ 0); unfold va; lia).
  rewrite (Z.mod_small i) by lia. rewrite (Z.add_comm _ j), (Z.add_comm _ k), !Z.mod_add, !Z.mod_small by lia. done.
Qed.

Lemma freewalk_spec s root N l :
  vm_inv s root N l -> (forall va, 0 <= va < MAXVA -> has (leaf (kmem s) N va) PTE_V = false) ->
  gives_back (pages N 2 []) (freewalk kend root) s l.
Proof using kend_ram.
  intros (Hpt & Hfree & Hu) Hleaf. apply (freewalk_tree 2); [lia| | | |done].
  - apply (pages_tree (kmem s) root); [done| |done|apply Hpt]. intros p x k Hx Hl Hk.
    destruct p as [|i [|j [|? ?]]]; [done|done| |done].
    destruct (pt_idx _ _ _ _ Hpt [i] j x Hx) as [Hj [y Hy]]. destruct (pt_idx _ _ _ _ Hpt [] i y Hy) as [Hi _]. cbn [fanout] in Hi, Hj.
    destruct (path_va i j k Hi Hj Hk) as (Hva & Hp & HP). pose proof (Hleaf _ Hva) as HV. unfold leaf in HV. by rewrite Hp, Hx, HP in HV.
  - apply NoDup_app. split_and!; [by eapply NoDup_pages| |apply Hfree]. intros y Hy. apply (Hu y). by eapply pages_nodes.
  - apply Forall_forall. intros y Hy. apply (pages_nodes _ _ _ Hpt) in Hy as [p Hp]. by eapply (pt_page _ _ _ _ Hpt).
Qed.

(** ** uvmfree *)

(** The pages of a process and of its page table. *)
Definition all_of (N : nodes) (D : list Z) : list Z := D ++ pages N 2 [].
Lemma elem_all_of s root N l D x : uspace s root N l D -> x ∈ all_of N D <-> x ∈ D \/ is_node N x.
Proof. intros Hus. unfold all_of. rewrite elem_of_app, (pages_nodes (kmem s) root N); [done|]. apply Hus. Qed.

Lemma uvmfree_spec s root N l D sz :
  uspace s root N l D -> 0 <= sz < 2 ^ 63 -> PGROUNDUP sz = 4096 * Z.of_nat (length D) ->
  (forall va, TRAPFRAME <= va < MAXVA -> has (leaf (kmem s) N va) PTE_V = false) ->
  gives_back (all_of N D) (uvmfree kend root sz) s l.
Proof using kend_ram.
  intros Hus Hsz HP Htop. pose proof Hus as [Hvm Hown Hlen Hmap Hfree _]. unfold uvmfree, gives_back. apply wp_bind.
  assert (wp (if 0 <? sz then uvmunmap kend root 0 (PGROUNDUP sz / PGSIZE) true else ret tt) (fun _ s' => vm_inv s' root N (reverse D ++ l) /\
    frame (fun p => p ∈ all_of N D) (kmem s) (kmem s') /\ forall va, 0 <= va < MAXVA -> has (leaf (kmem s') N va) PTE_V = false) s) as Hun.
  { assert (forall x, is_node N x \/ x ∈ D -> x ∈ all_of N D) as Hin by (intros x Hx; apply (elem_all_of _ _ _ _ _ _ Hus); tauto).
    destruct (Z.ltb_spec 0 sz).
    - rewrite HP. unfold PGSIZE. rewrite (Z.mul_comm 4096), Z.div_mul by lia.
      eapply wp_mono; [apply (uvmunmap_spec kend kend_ram s root N l 0 (length D) true D Hvm)|].
      + done.
      + lia.
      + rewrite TRAPFRAME_val in Hlen. rewrite MAXVA_val. lia.
      + intros j Hj. destruct (lookup_lt_is_Some_2 D j Hj) as [p Hp]. by apply (Hmap j p).
      + intros _. split; [done|]. intros j Hj. destruct (lookup_lt_is_Some_2 D j Hj) as [p Hp]. rewrite Hp. f_equal. symmetry. by apply (Hmap j p).
      + intros [] s1 (Hvm1 & Hf1 & Hl1). unfold freed in Hvm1. rewrite firstn_all in Hvm1. split_and!; [done|eapply frame_mono; [exact Hin|exact Hf1]|].
        intros va Hva. rewrite Hl1 by done. unfold cleared. case_decide as Hc; [done|]. destruct (PGROUNDDOWN_spec va) as [Hm Hb]. pose proof (aligned_mul _ Hm).
        destruct (decide (va < TRAPFRAME)); [apply Hfree; lia|apply Htop; lia].
    - apply wp_ret. assert (sz = 0) as -> by lia. change (PGROUNDUP 0) with 0 in HP. assert (D = []) as -> by (destruct D; [done|cbn in HP; lia]).
      split_and!; [done|apply frame_refl|]. intros va Hva. destruct (decide (va < TRAPFRAME)); [apply Hfree; cbn; lia|apply Htop; lia]. }
  eapply wp_mono; [exact Hun|]. intros [] s1 (Hvm1 & Hf1 & Hl1). eapply wp_mono; [exact (freewalk_spec s1 root N _ Hvm1 Hl1)|].
  intros [] s2 [Hfree2 Hf2]. unfold all_of. rewrite reverse_app, <- app_assoc. split; [done|]. apply (frame_then _ _ _ _ _ Hf1 Hf2). intros x Hx. apply elem_of_app. by right.
Qed.
End free.
