(* ===== verification/VmProps.v ===== *)
(** * What the virtual-memory code guarantees (kernel/vm.c)

    The properties of page tables and user memory, in terms of the translation of
    addresses and of the bytes a process sees, with a small machine on which they
    are exercised. *)

From stdpp Require Import base list gmap strings.
From Stdlib Require Import ZArith Lia.
From S2P Require Import Prelude Mem Str Riscv Kalloc Vm VmInv VmUser VmCopy VmFork.

#[local] Open Scope Z_scope.

Section props.
Context (kend : Z).
Hypothesis kend_ram : KERNBASE <= kend.

(** [walkaddr] reads the leaf entry. *)
Lemma walkaddr_leaf s root N va :
  pt_inv kend (kmem s) root N -> 0 <= va < MAXVA ->
  walkaddr root va s =
    Ok (if has (leaf (kmem s) N va) PTE_V && has (leaf (kmem s) N va) PTE_U
        then PTE2PA (leaf (kmem s) N va) else 0) s.
Proof using kend_ram.
  intros Hpt Hva. unfold walkaddr. rewrite MAXVA_leb by lia. unfold bind.
  rewrite (walk_lookup kend s root N) by (done || lia).
  pose proof (slot_pos kend kend_ram (kmem s) root N va Hpt) as Hs. unfold leaf, slot in *.
  destruct (N !! path0 va) as [x|]; [|done].
  destruct (Z.eqb_spec (x + 8 * PX 0 va) 0); [lia|]. unfold load64, gets.
  by destruct (has _ PTE_V), (has _ PTE_U).
Qed.

(** C11: [mappages] on unmapped user pages either makes exactly the pages of the range
    translate to consecutive physical pages, leaving every other translation of
    [walkaddr] as it was, or fails because no page is left for the table. *)
Theorem mappages_translates s root N l va size pa perm :
  vm_inv kend s root N l -> 0 <= va -> 0 < size -> va + size <= MAXVA ->
  aligned pa -> 0 <= pa -> pa + size + 4096 < 2 ^ 56 -> 0 <= perm < 1024 -> has perm PTE_U = true ->
  (forall va', 0 <= va' < MAXVA -> PGROUNDDOWN va <= PGROUNDDOWN va' <= PGROUNDDOWN (va + size - 1) ->
     has (leaf (kmem s) N va') PTE_V = false) ->
  wp (mappages root va size pa perm) (fun r s' =>
    r = 0 /\ (forall va', 0 <= va' < MAXVA -> exists pa', walkaddr root va' s = Ok pa' s /\
      walkaddr root va' s' =
        Ok (if decide (PGROUNDDOWN va <= PGROUNDDOWN va' <= PGROUNDDOWN (va + size - 1))
            then pa + (PGROUNDDOWN va' - PGROUNDDOWN va) else pa') s') \/
    r = -1 /\ kalloc s' = Ok 0 s') s.
Proof using kend_ram.
  intros Hvm Hva Hsz Htop Ha Hpa Hpt Hperm HU Hun. layout.
  destruct (PGROUNDDOWN_spec va) as [Hm1 Hb1]. destruct (PGROUNDDOWN_spec (va + size - 1)) as [Hm2 Hb2].
  pose proof (aligned_mul _ Hm1) as E1. pose proof (aligned_mul _ Hm2) as E2.
  set (n := (PGROUNDDOWN (va + size - 1) - PGROUNDDOWN va) / 4096 + 1).
  assert (4096 * n = PGROUNDDOWN (va + size - 1) - PGROUNDDOWN va + 4096) as En.
  { unfold n. set (q1 := PGROUNDDOWN va / 4096) in *. set (q2 := PGROUNDDOWN (va + size - 1) / 4096) in *.
    replace (PGROUNDDOWN (va + size - 1) - PGROUNDDOWN va) with ((q2 - q1) * 4096) by lia.
    rewrite Z.div_mul; lia. }
  assert (forall x, PGROUNDDOWN va <= PGROUNDDOWN x < PGROUNDDOWN va + 4096 * n <->
    PGROUNDDOWN va <= PGROUNDDOWN x <= PGROUNDDOWN (va + size - 1)) as Hrange.
  { intros x. destruct (PGROUNDDOWN_spec x) as [Hm ?]. pose proof (aligned_mul _ Hm). lia. }
  eapply wp_mono; [apply (mappages_spec kend kend_ram s root N l va size pa perm n Hvm); layout; try done; try lia|].
  { intros va' Hv' Hr'. apply Hun; [done|]. destruct (PGROUNDDOWN_spec va') as [Hm ?].
    pose proof (aligned_mul _ Hm). lia. }
  intros r s' (N' & l' & k & Hvm' & _ & Hr & Hl). layout.
  destruct Hr as [[-> ->]|(-> & -> & _)]; [left|right].
  - split; [done|]. intros va' Hv'.
    eexists. split; [by apply walkaddr_leaf; [apply Hvm|layout]|].
    rewrite (walkaddr_leaf s' root N') by (apply Hvm' || by layout). rewrite Hl by done. unfold mapped.
    destruct (decide (PGROUNDDOWN va <= PGROUNDDOWN va' < PGROUNDDOWN va + 4096 * n)) as [Hc|Hc].
    + rewrite (decide_True (P := _ <= _ <= _)) by (by apply Hrange).
      destruct (PGROUNDDOWN_spec va') as [Hm ?]. pose proof (aligned_mul _ Hm).
      rewrite !entry_has by (lia || done). rewrite HU, !orb_true_r. cbn [andb orb].
      rewrite entry_pa; [done|lia|done|]. unfold aligned in *.
      rewrite Z.add_mod, Zminus_mod, Ha, Hm1, Hm by lia. done.
    + rewrite (decide_False (P := _ <= _ <= _)); [done|]. intros ?. by apply Hc, Hrange.
  - split; [done|]. destruct (wp_run _ _ _ (kalloc_spec kend kend_ram s' [] (proj1 (proj2 Hvm')))) as (p & E & -> & E').
    by rewrite E' in E.
Qed.

(** Bytes and translations of an address space seen by its process. *)
Definition same_user (s : kst) (N : gmap (list Z) Z) (s' : kst) (N' : gmap (list Z) Z) (top : Z) : Prop :=
  forall va, 0 <= va < top -> leaf (kmem s') N' va = leaf (kmem s) N va /\
    ubyte (kmem s') N' va = ubyte (kmem s) N va.

(** A mapped page's bytes are those of its physical page. *)
Lemma ubyte_at s root N l D va p :
  uspace kend s root N l D -> 0 <= va -> D !! Z.to_nat (va / 4096) = Some p ->
  ubyte (kmem s) N va = rd8 (kmem s) (p + va mod 4096) /\ leaf (kmem s) N va = leaf (kmem s) N (4096 * (va / 4096)).
Proof.
  intros Hus Hva Hp. assert (0 <= va / 4096) by (apply Z.div_pos; lia).
  destruct (us_map _ _ _ _ _ _ Hus _ _ Hp) as [_ Hpa]. rewrite Z2Nat.id in Hpa by done.
  assert (leaf (kmem s) N va = leaf (kmem s) N (4096 * (va / 4096))) as El.
  { rewrite <- (leaf_page (kmem s) N va). f_equal. rewrite PGROUNDDOWN_mod. pose proof (Z.div_mod va 4096). lia. }
  unfold ubyte. by rewrite El, Hpa.
Qed.

Lemma page_index (D : list Z) va : 0 <= va < 4096 * Z.of_nat (length D) -> is_Some (D !! Z.to_nat (va / 4096)).
Proof.
  intros H. apply lookup_lt_is_Some_2.
  assert (va / 4096 < Z.of_nat (length D)) by (apply Z.div_lt_upper_bound; lia).
  assert (0 <= va / 4096) by (apply Z.div_pos; lia). lia.
Qed.

(** Memory that keeps the pages of [D] and their entries keeps what the process sees. *)
Lemma same_user_pages s root N l D s' N' l' D' :
  uspace kend s root N l D -> uspace kend s' root N' l' D' -> D `prefix_of` D' ->
  (forall p a, p ∈ D -> in_page p a -> rd8 (kmem s') a = rd8 (kmem s) a) ->
  (forall va, 0 <= va < 4096 * Z.of_nat (length D) -> leaf (kmem s') N' va = leaf (kmem s) N va) ->
  same_user s N s' N' (4096 * Z.of_nat (length D)).
Proof.
  intros Hus Hus' [E ->] Hb Hl va Hva. destruct (page_index D va Hva) as [p Hp]. split; [by apply Hl|].
  destruct (ubyte_at _ _ _ _ _ _ _ Hus (proj1 Hva) Hp) as [-> _].
  assert ((D ++ E) !! Z.to_nat (va / 4096) = Some p) as Hp' by (by apply lookup_app_l_Some).
  destruct (ubyte_at _ _ _ _ _ _ _ Hus' (proj1 Hva) Hp') as [-> _].
  apply (Hb p); [by eapply list_elem_of_lookup_2|]. unfold in_page. pose proof (Z.mod_pos_bound va 4096). lia.
Qed.

(** C22: growing a process succeeds and then every byte of the new pages is 0 and
    accessible with the requested permissions, while the old memory is unchanged; or
    it returns 0, the process sees exactly what it saw before, and every page that
    was free is free again or part of the page table. *)
Theorem uvmalloc_grows s root N l D oldsz newsz xperm :
  uspace kend s root N l D -> 0 <= oldsz <= newsz -> newsz <= TRAPFRAME ->
  PGROUNDUP oldsz = 4096 * Z.of_nat (length D) -> 0 <= xperm < 1024 ->
  wp (uvmalloc kend root oldsz newsz xperm) (fun r s' => exists N' l' D',
    uspace kend s' root N' l' D' /\ same_user s N s' N' (4096 * Z.of_nat (length D)) /\
    (r = newsz /\ PGROUNDUP newsz = 4096 * Z.of_nat (length D') /\
       (forall va, 4096 * Z.of_nat (length D) <= va < PGROUNDUP newsz ->
          PTE_FLAGS (leaf (kmem s') N' va) = Z.lor (uperm xperm) PTE_V /\ ubyte (kmem s') N' va = 0) \/
     r = 0 /\ D' = D /\ forall p, p ∈ l -> p ∈ l' \/ is_node N' p)) s.
Proof using kend_ram.
  intros Hus Hsz Htop HP Hx. eapply wp_mono; [by apply (uvmalloc_spec kend kend_ram s root N l D)|].
  intros r s' [(-> & new & N' & l' & HP' & Hus' & Hext & Hz & Hl)|(-> & N' & l' & Hus' & Hk & Hf & Hl)].
  - exists N', l', (D ++ new). pose proof (us_len _ _ _ _ _ _ Hus'). pose proof (us_len _ _ _ _ _ _ Hus).
    split_and!; [done| |left; split_and!; [done|done|]].
    + eapply same_user_pages; [done|done|by exists new| |].
      * intros p a Hp Ha. by eapply kept_page.
      * intros va Hva. specialize (Hl va). layout. rewrite decide_False in Hl; [apply Hl; lia|].
        rewrite PGROUNDDOWN_mod. pose proof (Z.mod_pos_bound va 4096 ltac:(lia)). lia.
    + intros va Hva. rewrite HP' in Hva. destruct (page_index (D ++ new) va ltac:(lia)) as [p Hp].
      assert (0 <= va) as Hv0 by lia. destruct (ubyte_at _ _ _ _ _ _ _ Hus' Hv0 Hp) as [-> _]. specialize (Hl va). layout.
      assert (4096 * Z.of_nat (length D) <= PGROUNDDOWN va < 4096 * Z.of_nat (length (D ++ new))) as Hr.
      { destruct (PGROUNDDOWN_spec va) as [Hm ?]. pose proof (aligned_mul _ Hm). lia. }
      rewrite decide_True in Hl by done. split; [apply Hl; lia|].
      apply (Hz p); [|unfold in_page; pose proof (Z.mod_pos_bound va 4096); lia].
      apply lookup_app_Some in Hp as [Hp|[_ Hp]]; [|by eapply list_elem_of_lookup_2].
      apply lookup_lt_Some in Hp. assert (va / 4096 < Z.of_nat (length D)) by lia.
      pose proof (Z.div_mod va 4096 ltac:(lia)). pose proof (Z.mod_pos_bound va 4096). lia.
  - exists N', l', D. split_and!; [done| |by right]. eapply same_user_pages; [done|done|done| |].
    + intros p a Hp Ha. destruct (us_own _ _ _ _ _ _ Hus) as (_ & Hok & Hd). destruct (Hd p Hp).
      apply (frame_rd8 (fun p => is_node N p \/ p ∈ l) (kmem s) (kmem s') p); [done| | |tauto|done].
      * intros x [Hx'|Hx']; [by apply (uspace_nodes kend _ _ _ _ _ _ Hus)|].
        destruct (us_vm _ _ _ _ _ _ Hus) as (_ & (_ & _ & Hokl) & _). by apply (proj1 (Forall_forall _ _) Hokl x).
      * by apply (proj1 (Forall_forall _ _) Hok p Hp).
    + intros va Hva. apply Hl. by left.
Qed.

(** C23: shrinking a process returns the smaller size, gives exactly the pages above
    it back to the allocator and unmaps them, and the rest of the memory is
    unchanged. *)
Theorem uvmdealloc_shrinks s root N l D E oldsz newsz :
  uspace kend s root N l (D ++ E) -> 0 <= newsz <= oldsz -> oldsz < 2 ^ 63 ->
  PGROUNDUP oldsz = 4096 * Z.of_nat (length (D ++ E)) ->
  PGROUNDUP newsz = 4096 * Z.of_nat (length D) ->
  wp (uvmdealloc kend root oldsz newsz) (fun r s' =>
    r = newsz /\ uspace kend s' root N (reverse E ++ l) D /\
    same_user s N s' N (4096 * Z.of_nat (length D)) /\
    forall va, 4096 * Z.of_nat (length D) <= va < TRAPFRAME -> walkaddr root va s' = Ok 0 s') s.
Proof using kend_ram.
  intros Hus Hn Ho HPo HPn. eapply wp_mono; [apply (uvmdealloc_spec kend kend_ram s root N l D E); try done; lia|].
  intros r s' (-> & Hus' & Hf & Hl). rewrite Z.min_r by lia. split_and!; [done|done| |].
  - intros va Hva. destruct (page_index D va Hva) as [p Hp].
    assert ((D ++ E) !! Z.to_nat (va / 4096) = Some p) as Hp' by (by apply lookup_app_l_Some).
    pose proof (us_len _ _ _ _ _ _ Hus'). layout.
    assert (leaf (kmem s') N va = leaf (kmem s) N va) as El.
    { rewrite Hl by lia. unfold cleared. case_decide as Hc; [|done].
      rewrite PGROUNDDOWN_mod in Hc. pose proof (Z.mod_pos_bound va 4096). lia. }
    split; [done|].
    destruct (ubyte_at _ _ _ _ _ _ _ Hus (proj1 Hva) Hp') as [-> _].
    destruct (ubyte_at _ _ _ _ _ _ _ Hus' (proj1 Hva) Hp) as [-> _].
    destruct (us_own _ _ _ _ _ _ Hus) as (Hnd & Hok & Hd). apply NoDup_app in Hnd as (_ & Hdis & _).
    assert (p ∈ D) as HpD by (by eapply list_elem_of_lookup_2).
    destruct (Hd p) as [_ Hpn]; [rewrite elem_of_app; by left|].
    apply (frame_rd8 (fun p => is_node N p \/ p ∈ E) (kmem s) (kmem s') p); [done| | | |].
    + intros x [Hx|Hx]; [by apply (uspace_nodes kend _ _ _ _ _ _ Hus)|].
      apply (proj1 (Forall_forall _ _) Hok x). rewrite elem_of_app. by right.
    + apply (proj1 (Forall_forall _ _) Hok p). rewrite elem_of_app. by left.
    + intros [?|?]; [done|]. by apply (Hdis p).
    + unfold in_page. pose proof (Z.mod_pos_bound va 4096). lia.
  - intros va Hva. layout. rewrite (walkaddr_leaf s' root N) by (apply Hus' || (layout; lia)).
    rewrite (us_free _ _ _ _ _ _ Hus') by (layout; lia). done.
Qed.

(** C4: whatever virtual address and length a process passes to the kernel,
    [copyout] returns and stores only into pages of that process: the free list and
    every byte outside its pages (the kernel's own data, page tables, other
    processes) are unchanged, and it fails exactly at the first address that is not
    mapped for the user. *)
Theorem copyout_confined s root N l D dstva src len :
  uspace kend s root N l D -> 0 <= dstva < 2 ^ 64 -> 0 <= len < 2 ^ 64 ->
  (forall a p, src <= a < src + len -> p ∈ D -> ~ in_page p a) ->
  wp (copyout root dstva src len) (fun r s' =>
    freelist s' = freelist s /\
    (forall a, (forall p, p ∈ D -> ~ in_page p a) -> rd8 (kmem s') a = rd8 (kmem s) a) /\
    (r = 0 /\ (forall i, 0 <= i < len -> umapped (kmem s) N (dstva + i)) \/
     r = -1 /\ exists k, 0 <= k < len /\ ~ umapped (kmem s) N (dstva + k) /\
       forall i, 0 <= i < k -> umapped (kmem s) N (dstva + i))) s.
Proof using kend_ram.
  intros Hus Hva Hlen Hsrc. eapply wp_mono; [by apply (copyout_spec kend kend_ram s root N l D)|].
  intros r s' (k & (Hk & Hr) & Hfl & Hf & Hm & _). split_and!; [done|exact Hf|].
  destruct Hr as [[-> ->]|(-> & Hkl & Hu)]; [by left|]. right. split; [done|]. exists k. split_and!; [lia|lia|done|done].
Qed.

(** C24: what [copyout] stores in user memory [copyin] reads back: copying a kernel
    buffer out to user address [va] and in again to another buffer reproduces it,
    unless the range is not all mapped, when -1 is returned. *)
Theorem copyout_copyin s root N l D va src dst len :
  uspace kend s root N l D -> 0 <= va < 2 ^ 64 -> 0 <= len < 2 ^ 64 ->
  kbuf N l D src len -> kbuf N l D dst len ->
  wp (r <- copyout root va src len ;; if r =? 0 then copyin root dst va len else ret r) (fun r s' =>
    r = 0 /\ (forall i, 0 <= i < len -> rd8 (kmem s') (dst + i) = rd8 (kmem s) (src + i)) \/
    r = -1 /\ exists k, 0 <= k < len /\ ~ umapped (kmem s) N (va + k)) s.
Proof using kend_ram.
  intros Hus Hva Hlen Hsrc Hdst. apply wp_bind.
  eapply wp_mono; [apply (copyout_spec kend kend_ram s root N l D va src len); try done|].
  { intros a p Ha Hp. apply (Hsrc a p Ha). auto. }
  intros r s1 (k & (Hk & Hr) & Hc). destruct Hr as [[-> ->]|(-> & Hkl & Hu)].
  2: { apply wp_ret. right. split; [done|]. exists k. split; [lia|done]. }
  destruct (copied_out_uspace kend s root N l D va src len s1 Hus Hc) as [Hus1 Hl1].
  destruct Hc as (_ & _ & Hm & Hb). cbn [Z.eqb].
  assert (forall x, umapped (kmem s1) N x <-> umapped (kmem s) N x) as Hum by (intros; unfold umapped; by rewrite Hl1).
  eapply wp_mono; [by apply (copyin_spec kend kend_ram s1 root N l D dst va len)|].
  intros r s2 (k & (Hk2 & Hr) & Hfl & Hm2 & Hb2). left.
  destruct Hr as [[-> ->]|(-> & Hkl & Hu)]; [|exfalso; apply Hu, Hum, Hm; lia].
  split; [done|]. intros i Hi. rewrite Hb2, decide_True by lia. rewrite Hb by (apply Hm; lia).
  rewrite decide_True by lia. f_equal. lia.
Qed.

(** C25: [copyinstr] never stores more than [max] bytes and nothing outside the
    destination; it returns 0 exactly when it met a NUL within [max] bytes, and then
    the destination holds the user's string with its NUL. *)
Theorem copyinstr_string s root N l D dst srcva max :
  uspace kend s root N l D -> kbuf N l D dst max -> 0 <= srcva < 2 ^ 64 -> 0 <= max < 2 ^ 63 ->
  wp (copyinstr root dst srcva max) (fun r s' =>
    freelist s' = freelist s /\
    (forall a, ~ dst <= a < dst + max -> rd8 (kmem s') a = rd8 (kmem s) a) /\
    (r = 0 /\ (exists n, 0 <= n < max /\ rd8 (kmem s') (dst + n) = 0 /\
       (forall i, 0 <= i <= n -> umapped (kmem s) N (srcva + i)) /\
       (forall i, 0 <= i <= n -> rd8 (kmem s') (dst + i) = ubyte (kmem s) N (srcva + i)) /\
       (forall i, 0 <= i < n -> rd8 (kmem s') (dst + i) <> 0)) \/
     r = -1 /\ forall n, 0 <= n < max -> (forall i, 0 <= i <= n -> umapped (kmem s) N (srcva + i)) ->
       ubyte (kmem s) N (srcva + n) <> 0)) s.
Proof using kend_ram.
  intros Hus Hb Hs Hm. eapply wp_mono; [by apply (copyinstr_spec kend kend_ram s root N l D)|].
  intros r s' (k & (Hk & Hr) & Hfl & Hu & Hc). split_and!; [done| |].
  { intros a Ha. rewrite Hc, decide_False by lia. done. }
  destruct Hr as [(-> & Hk0 & Hz & Hnz)|(-> & Hend & Hnz)]; [left|right]; (split; [done|]).
  - exists (k - 1). split_and!; [lia|lia| | | |].
    + rewrite Hc, decide_True by lia. rewrite <- Hz. f_equal. lia.
    + intros i Hi. apply Hu. lia.
    + intros i Hi. rewrite Hc, decide_True by lia. f_equal. lia.
    + intros i Hi. rewrite Hc, decide_True by lia. replace (srcva + (dst + i - dst)) with (srcva + i) by lia. apply Hnz. lia.
  - intros n Hn Hall. destruct (decide (n < k)) as [Hlt|Hge]; [by apply Hnz; lia|].
    destruct Hend as [->|Hun]; [lia|]. exfalso. apply Hun, Hall. lia.
Qed.

(** C10: [uvmcopy] into an empty address space gives it a copy of every page of the
    parent with the same permissions on pages of its own, or it fails, leaving the
    new space empty and every page that was free either free or part of the new
    page table; the parent's memory is untouched in both cases. *)
Theorem uvmcopy_copies s old N0 D0 new N l sz :
  uspace kend s old N0 l D0 -> uspace kend s new N l [] ->
  (forall x, is_node N x -> ~ is_node N0 x /\ x ∉ D0) ->
  0 <= sz < 2 ^ 63 -> PGROUNDUP sz = 4096 * Z.of_nat (length D0) ->
  wp (uvmcopy kend old new sz) (fun r s' => exists N' l' D,
    uspace kend s' new N' l' D /\ uspace kend s' old N0 l' D0 /\
    same_user s N0 s' N0 (4096 * Z.of_nat (length D0)) /\
    (r = 0 /\ length D = length D0 /\ (forall p, p ∈ D -> p ∉ D0) /\
       (forall va, 0 <= va < 4096 * Z.of_nat (length D0) ->
          PTE_FLAGS (leaf (kmem s') N' va) = PTE_FLAGS (leaf (kmem s) N0 va) /\
          ubyte (kmem s') N' va = ubyte (kmem s) N0 va) \/
     r = -1 /\ D = [] /\ forall p, p ∈ l -> p ∈ l' \/ is_node N' p)) s.
Proof using kend_ram.
  intros Hold Hnew Hap Hsz HP.
  eapply wp_mono; [by apply (uvmcopy_spec kend kend_ram s old N0 D0 new N l Hold Hnew Hap sz)|].
  pose proof (apart_al kend s N0 D0 new N l Hnew Hap) as Hal.
  intros r s' [(-> & D & N' & l' & Hlen & Hus & Hext & Hsame & _)|(-> & N' & l' & Hus & Hsub & Hk & _ & _ & Hf & _)].
  - destruct (uspace_beside kend s s' old N0 D0 N l D N' l' Hold Hext) as (Huo & Hlo & Hbo); [apply Hus|done|].
    exists N', l', D. split_and!; [done|done| |left; split_and!; [done|done| |]].
    + eapply same_user_pages; [done|done|done|done|]. intros va _. apply Hlo.
    + intros p Hp Hp0. destruct (us_own _ _ _ _ _ _ Hold) as (_ & _ & Hd). destruct (Hd p Hp0) as [Hpl _].
      destruct (us_own _ _ _ _ _ _ Hus) as (_ & _ & Hd'). destruct (Hd' p Hp) as [_ Hpn].
      destruct Hext as (t & -> & HNs & Hiff & _).
      destruct (proj1 (Hiff p) (or_intror Hp)) as [[q Hq]|Ht]; [|apply Hpl; rewrite elem_of_app; by left].
      apply Hpn. exists q. by eapply lookup_weaken.
    + intros va Hva. destruct (page_index D0 va Hva) as [q Hq]. rewrite <- Hlen in Hva.
      destruct (page_index D va Hva) as [p Hp].
      destruct (ubyte_at _ _ _ _ _ _ _ Hold (proj1 Hva) Hq) as [-> ->].
      destruct (ubyte_at _ _ _ _ _ _ _ Hus (proj1 Hva) Hp) as [-> ->].
      destruct (Hsame _ _ _ Hp Hq) as [Hfl Hb]. assert (0 <= va / 4096) by (apply Z.div_pos; lia).
      rewrite Z2Nat.id in Hfl by done. split; [done|]. apply Hb, Z.mod_pos_bound. lia.
  - destruct (uspace_shrunk kend s s' old N0 l D0 N l' Hold) as (Huo & Hlo & Hbo); try done; [apply Hus|].
    exists N', l', []. split_and!; [done|done| |right; done].
    eapply same_user_pages; [done|done|done|done|]. intros va _. apply Hlo.
Qed.
End props.

(** ** A machine with sixteen free pages *)

Lemma kbuf_kernel kend s root N l D a n :
  uspace kend s root N l D -> a + n <= kend -> kbuf N l D a n.
Proof.
  intros Hus Ha x p Hx Hp Hin. assert (page_ok kend p) as (_ & ? & _); [|unfold in_page in Hin; lia].
  destruct Hp as [Hp|[Hp|Hp]].
  - by eapply uspace_nodes.
  - destruct (us_vm _ _ _ _ _ _ Hus) as (_ & (_ & _ & Hok) & _). by apply (proj1 (Forall_forall _ _) Hok p).
  - destruct (us_own _ _ _ _ _ _ Hus) as (_ & Hok & _). by apply (proj1 (Forall_forall _ _) Hok p).
Qed.

Definition ex_end : Z := PHYSTOP - 65536.
Definition ex_s0 : kst := run (kinit ex_end) (Kst ∅ 0).
Definition ex_pages : list Z := reverse (all_pages ex_end).
Definition ex_root : Z := PHYSTOP - 4096.
Definition ex_s1 : kst := run uvmcreate ex_s0.
Definition ex_s2 : kst := run (uvmalloc ex_end ex_root 0 5000 PTE_W) ex_s1.

Lemma ex_ram : KERNBASE <= ex_end.
Proof. vm_compute. discriminate. Qed.
Lemma ex_top : ex_end <= PHYSTOP.
Proof. vm_compute. discriminate. Qed.

Lemma ex_free : free_inv ex_end ex_s0 ex_pages.
Proof.
  destruct (wp_run _ _ _ (kinit_spec ex_end ex_ram ex_top ∅)) as ([] & _ & Hinv). exact Hinv.
Qed.

Lemma ex_pages_eq : exists l, ex_pages = ex_root :: l.
Proof. eexists. vm_compute. reflexivity. Qed.

Lemma ex_space1 : exists l, uspace ex_end ex_s1 ex_root {[ [] := ex_root ]} l [].
Proof.
  destruct ex_pages_eq as [l El]. pose proof (uvmcreate_spec ex_end ex_ram ex_s0 ex_pages ex_free) as Hw.
  rewrite El in Hw. apply wp_run in Hw as (r & _ & _ & _ & Hus & _). by exists l.
Qed.

Lemma ex_grow : match uvmalloc ex_end ex_root 0 5000 PTE_W ex_s1 with Ok r _ => r = 5000 | _ => False end.
Proof. vm_compute. reflexivity. Qed.

Lemma ex_space2 : exists N l D, uspace ex_end ex_s2 ex_root N l D /\ length D = 2%nat.
Proof.
  destruct ex_space1 as [l Hus]. pose proof ex_grow as Hg.
  destruct (wp_run _ _ _ (uvmalloc_spec ex_end ex_ram ex_s1 ex_root _ l [] 0 5000 PTE_W Hus
    ltac:(lia) ltac:(rewrite TRAPFRAME_val; lia) ltac:(vm_compute; reflexivity) ltac:(vm_compute; split; [discriminate|reflexivity])))
    as (r & E & [(_ & new & N' & l' & HP & Hus' & _)|(-> & _)]).
  - exists N', l', ([] ++ new). split; [exact Hus'|]. vm_compute (PGROUNDUP 5000) in HP. lia.
  - rewrite E in Hg. discriminate Hg.
Qed.

Lemma mappages_translates_witness :
  exists N l, vm_inv ex_end ex_s1 ex_root N l /\
  wp (mappages ex_root 8192 4096 ex_end PTE_U) (fun r s' =>
    r = 0 /\ (forall va', 0 <= va' < MAXVA -> exists pa', walkaddr ex_root va' ex_s1 = Ok pa' ex_s1 /\
      walkaddr ex_root va' s' =
        Ok (if decide (PGROUNDDOWN 8192 <= PGROUNDDOWN va' <= PGROUNDDOWN (8192 + 4096 - 1))
            then ex_end + (PGROUNDDOWN va' - PGROUNDDOWN 8192) else pa') s') \/
    r = -1 /\ kalloc s' = Ok 0 s') ex_s1.
Proof.
  destruct ex_space1 as [l Hus]. eexists _, l. split; [apply Hus|].
  apply (mappages_translates ex_end ex_ram ex_s1 ex_root {[ [] := ex_root ]} l 8192 4096 ex_end PTE_U).
  - apply Hus.
  - lia.
  - lia.
  - rewrite MAXVA_val. lia.
  - vm_compute. reflexivity.
  - vm_compute. discriminate.
  - vm_compute. reflexivity.
  - vm_compute. split; [discriminate|reflexivity].
  - vm_compute. reflexivity.
  - intros va' Hva Hr. apply (us_free _ _ _ _ _ _ Hus). rewrite TRAPFRAME_val.
    destruct (PGROUNDDOWN_spec va') as [_ Hb]. change (PGROUNDDOWN 8192) with 8192 in Hr.
    change (PGROUNDDOWN (8192 + 4096 - 1)) with 8192 in Hr. simpl. lia.
Defined.

Lemma uvmalloc_grows_witness :
  exists N l, uspace ex_end ex_s1 ex_root N l [] /\
  wp (uvmalloc ex_end ex_root 0 5000 PTE_W) (fun r s' => exists N' l' D',
    uspace ex_end s' ex_root N' l' D' /\ same_user ex_s1 N s' N' 0 /\
    (r = 5000 /\ PGROUNDUP 5000 = 4096 * Z.of_nat (length D') /\
       (forall va, 0 <= va < PGROUNDUP 5000 ->
          PTE_FLAGS (leaf (kmem s') N' va) = Z.lor (uperm PTE_W) PTE_V /\ ubyte (kmem s') N' va = 0) \/
     r = 0 /\ D' = [] /\ forall p, p ∈ l -> p ∈ l' \/ is_node N' p)) ex_s1.
Proof.
  destruct ex_space1 as [l Hus]. eexists _, l. split; [exact Hus|].
  apply (uvmalloc_grows ex_end ex_ram ex_s1 ex_root _ l [] 0 5000 PTE_W Hus).
  - lia.
  - rewrite TRAPFRAME_val. lia.
  - vm_compute. reflexivity.
  - vm_compute. split; [discriminate|reflexivity].
Defined.

Lemma uvmdealloc_shrinks_witness :
  exists N l p q, uspace ex_end ex_s2 ex_root N l [p; q] /\
  wp (uvmdealloc ex_end ex_root 5000 100) (fun r s' =>
    r = 100 /\ uspace ex_end s' ex_root N (q :: l) [p] /\ same_user ex_s2 N s' N 4096 /\
    forall va, 4096 <= va < TRAPFRAME -> walkaddr ex_root va s' = Ok 0 s') ex_s2.
Proof.
  destruct ex_space2 as (N & l & [|p [|q [|]]] & Hus & Hlen); try discriminate Hlen.
  exists N, l, p, q. split; [exact Hus|].
  apply (uvmdealloc_shrinks ex_end ex_ram ex_s2 ex_root N l [p] [q] 5000 100 Hus).
  - lia.
  - lia.
  - vm_compute. reflexivity.
  - vm_compute. reflexivity.
Defined.

Lemma copyout_confined_witness :
  exists N l D, uspace ex_end ex_s2 ex_root N l D /\
  wp (copyout ex_root (2 ^ 64 - 3) KERNBASE 8) (fun r s' =>
    freelist s' = freelist ex_s2 /\
    (forall a, (forall p, p ∈ D -> ~ in_page p a) -> rd8 (kmem s') a = rd8 (kmem ex_s2) a) /\
    (r = 0 /\ (forall i, 0 <= i < 8 -> umapped (kmem ex_s2) N (2 ^ 64 - 3 + i)) \/
     r = -1 /\ exists k, 0 <= k < 8 /\ ~ umapped (kmem ex_s2) N (2 ^ 64 - 3 + k) /\
       forall i, 0 <= i < k -> umapped (kmem ex_s2) N (2 ^ 64 - 3 + i))) ex_s2.
Proof.
  destruct ex_space2 as (N & l & D & Hus & _). exists N, l, D. split; [exact Hus|].
  apply (copyout_confined ex_end ex_ram ex_s2 ex_root N l D (2 ^ 64 - 3) KERNBASE 8 Hus).
  - lia.
  - lia.
  - intros a p Ha Hp. apply (kbuf_kernel ex_end ex_s2 ex_root N l D KERNBASE 8 Hus); [vm_compute; discriminate|exact Ha|].
    right. right. exact Hp.
Defined.

Lemma copyout_copyin_witness :
  exists N l D, uspace ex_end ex_s2 ex_root N l D /\
  wp (r <- copyout ex_root 4090 KERNBASE 16 ;; if r =? 0 then copyin ex_root (KERNBASE + 16) 4090 16 else ret r)
    (fun r s' => r = 0 /\ (forall i, 0 <= i < 16 -> rd8 (kmem s') (KERNBASE + 16 + i) = rd8 (kmem ex_s2) (KERNBASE + i)) \/
       r = -1 /\ exists k, 0 <= k < 16 /\ ~ umapped (kmem ex_s2) N (4090 + k)) ex_s2.
Proof.
  destruct ex_space2 as (N & l & D & Hus & _). exists N, l, D. split; [exact Hus|].
  apply (copyout_copyin ex_end ex_ram ex_s2 ex_root N l D 4090 KERNBASE (KERNBASE + 16) 16 Hus).
  - lia.
  - lia.
  - apply (kbuf_kernel ex_end ex_s2 ex_root N l D KERNBASE 16 Hus). vm_compute. discriminate.
  - apply (kbuf_kernel ex_end ex_s2 ex_root N l D (KERNBASE + 16) 16 Hus). vm_compute. discriminate.
Defined.

Lemma copyinstr_string_witness :
  exists N l D, uspace ex_end ex_s2 ex_root N l D /\
  wp (copyinstr ex_root KERNBASE 8 128) (fun r s' =>
    freelist s' = freelist ex_s2 /\
    (forall a, ~ KERNBASE <= a < KERNBASE + 128 -> rd8 (kmem s') a = rd8 (kmem ex_s2) a) /\
    (r = 0 /\ (exists n, 0 <= n < 128 /\ rd8 (kmem s') (KERNBASE + n) = 0 /\
       (forall i, 0 <= i <= n -> umapped (kmem ex_s2) N (8 + i)) /\
       (forall i, 0 <= i <= n -> rd8 (kmem s') (KERNBASE + i) = ubyte (kmem ex_s2) N (8 + i)) /\
       (forall i, 0 <= i < n -> rd8 (kmem s') (KERNBASE + i) <> 0)) \/
     r = -1 /\ forall n, 0 <= n < 128 -> (forall i, 0 <= i <= n -> umapped (kmem ex_s2) N (8 + i)) ->
       ubyte (kmem ex_s2) N (8 + n) <> 0)) ex_s2.
Proof.
  destruct ex_space2 as (N & l & D & Hus & _). exists N, l, D. split; [exact Hus|].
  apply (copyinstr_string ex_end ex_ram ex_s2 ex_root N l D KERNBASE 8 128 Hus).
  - apply (kbuf_kernel ex_end ex_s2 ex_root N l D KERNBASE 128 Hus). vm_compute. discriminate.
  - lia.
  - lia.
Defined.

(** A second, empty address space beside the first. *)
Lemma ex_two : exists s new N0 D0 N l, uspace ex_end s ex_root N0 l D0 /\ uspace ex_end s new N l [] /\
  (forall x, is_node N x -> ~ is_node N0 x /\ x ∉ D0) /\ length D0 = 2%nat.
Proof.
  destruct ex_space2 as (N & l & D & Hus & Hlen).
  pose proof (proj1 (proj2 (us_vm _ _ _ _ _ _ Hus))) as Hf.
  pose proof (uvmcreate_spec ex_end ex_ram ex_s2 l Hf) as Hw. apply wp_run in Hw as (r & E & Hw).
  destruct l as [|p l].
  { assert (match uvmcreate ex_s2 with Ok r _ => r <> 0 | _ => False end) as Hne by (vm_compute; discriminate).
    rewrite E in Hne. destruct Hw as [Hr _]. exfalso. exact (Hne Hr). }
  destruct Hw as (-> & Hp & Hus1 & _ & Hfr).
  destruct (uspace_take ex_end _ _ _ _ _ _ _ Hus (proj1 (proj2 (us_vm _ _ _ _ _ _ Hus1))) Hfr)
    as (Hus2 & _ & _ & _ & Hpn & HpD & _).
  exists (run uvmcreate ex_s2), p, N, D, {[ [] := p ]}, l. split_and!; [exact Hus2|exact Hus1| |exact Hlen].
  intros x [q Hq]. apply lookup_singleton_Some in Hq as [_ <-]. by split.
Qed.

Lemma uvmcopy_copies_witness :
  exists s new N0 D0 N l, uspace ex_end s ex_root N0 l D0 /\ uspace ex_end s new N l [] /\
  wp (uvmcopy ex_end ex_root new 5000) (fun r s' => exists N' l' D,
    uspace ex_end s' new N' l' D /\ uspace ex_end s' ex_root N0 l' D0 /\
    same_user s N0 s' N0 (4096 * Z.of_nat (length D0)) /\
    (r = 0 /\ length D = length D0 /\ (forall p, p ∈ D -> p ∉ D0) /\
       (forall va, 0 <= va < 4096 * Z.of_nat (length D0) ->
          PTE_FLAGS (leaf (kmem s') N' va) = PTE_FLAGS (leaf (kmem s) N0 va) /\
          ubyte (kmem s') N' va = ubyte (kmem s) N0 va) \/
     r = -1 /\ D = [] /\ forall p, p ∈ l -> p ∈ l' \/ is_node N' p)) s.
Proof.
  destruct ex_two as (s & new & N0 & D0 & N & l & H1 & H2 & H3 & H4).
  exists s, new, N0, D0, N, l. split; [exact H1|]. split; [exact H2|].
  apply (uvmcopy_copies ex_end ex_ram s ex_root N0 D0 new N l 5000 H1 H2 H3).
  - lia.
  - rewrite H4. vm_compute. reflexivity.
Defined.
