(* ===== verification/Sleeplock.v ===== *)
(** * Sleep locks (kernel/sleeplock.c)

    The lock word and the owner's pid.  The spin lock inside a sleep lock makes
    each routine one atomic step; [acquiresleep] of a lock that is taken puts the
    caller to sleep, which is the result [None] here. *)

From stdpp Require Import base list strings.
From Stdlib Require Import ZArith Lia.
From S2P Require Import Prelude.

#[local] Open Scope Z_scope.

Record sleeplock : Type := Sleeplock { locked : Z; lkpid : Z }.

#[global] Instance sleeplock_inhabited : Inhabited sleeplock := populate (Sleeplock 0 0).

Definition initsleeplock : sleeplock := Sleeplock 0 0.

Definition acquiresleep (pid : Z) (lk : sleeplock) : option sleeplock :=
  if nz (locked lk) then None else Some (Sleeplock 1 pid).

Definition releasesleep (lk : sleeplock) : sleeplock := Sleeplock 0 0.

Definition holdingsleep (pid : Z) (lk : sleeplock) : bool := nz (locked lk) && (lkpid lk =? pid).
