(* ===== verification/Bio.v ===== *)
(** * The buffer cache (kernel/bio.c)

    The cache is an array of [NBUF] buffers linked through [prev] and [next] into
    a circular list in order of last use; entry [NBUF] of the array is the list
    head.  The disk is a map from block numbers to contents, and [hist] records
    the writes in the order they reach it. *)

From stdpp Require Import base list gmap strings.
From Stdlib Require Import ZArith Lia.
From S2P Require Import Prelude Mem Sleeplock.

#[local] Open Scope Z_scope.

Definition BSIZE : Z := 1024.
Definition MAXOPBLOCKS : Z := 10.
Definition LOGSIZE : Z := MAXOPBLOCKS * 3.
Definition NBUF : nat := 30.

(** The contents of a block, by byte offset. *)
Abbreviation block := mem.

Record buf : Type := Buf {
  b_valid : Z;
  b_disk : Z;
  b_dev : Z;
  b_blockno : Z;
  b_lock : sleeplock;
  b_refcnt : Z;
  b_prev : nat;
  b_next : nat;
  b_data : block;
}.

#[global] Instance buf_inhabited : Inhabited buf := populate (Buf 0 0 0 0 initsleeplock 0 0 0 ∅).

Record bst : Type := Bst {
  bufs : list buf;
  disk : gmap Z block;
  hist : list (Z * block);
  curpid : Z;  (* myproc()->pid *)
}.

Definition head : nat := NBUF.

Definition dblk (d : gmap Z block) (b : Z) : block := default ∅ (d !! b).

(** ** Field updates *)

Definition set_valid (v : Z) (b : buf) : buf :=
  Buf v (b_disk b) (b_dev b) (b_blockno b) (b_lock b) (b_refcnt b) (b_prev b) (b_next b) (b_data b).
Definition set_id (dev blockno : Z) (b : buf) : buf :=
  Buf (b_valid b) (b_disk b) dev blockno (b_lock b) (b_refcnt b) (b_prev b) (b_next b) (b_data b).
Definition set_lock (lk : sleeplock) (b : buf) : buf :=
  Buf (b_valid b) (b_disk b) (b_dev b) (b_blockno b) lk (b_refcnt b) (b_prev b) (b_next b) (b_data b).
Definition set_refcnt (n : Z) (b : buf) : buf :=
  Buf (b_valid b) (b_disk b) (b_dev b) (b_blockno b) (b_lock b) n (b_prev b) (b_next b) (b_data b).
Definition set_prev (p : nat) (b : buf) : buf :=
  Buf (b_valid b) (b_disk b) (b_dev b) (b_blockno b) (b_lock b) (b_refcnt b) p (b_next b) (b_data b).
Definition set_next (p : nat) (b : buf) : buf :=
  Buf (b_valid b) (b_disk b) (b_dev b) (b_blockno b) (b_lock b) (b_refcnt b) (b_prev b) p (b_data b).
Definition set_data (d : block) (b : buf) : buf :=
  Buf (b_valid b) (b_disk b) (b_dev b) (b_blockno b) (b_lock b) (b_refcnt b) (b_prev b) (b_next b) d.

(** [b->refcnt++] and [b->refcnt--] on an unsigned counter. *)
Definition incr_ref (b : buf) : buf := set_refcnt (u32 (b_refcnt b + 1)) b.
Definition decr_ref (b : buf) : buf := set_refcnt (u32 (b_refcnt b - 1)) b.

Definition getb (i : nat) : M bst buf := gets (fun s => bufs s !!! i).
Definition upd (i : nat) (f : buf -> buf) (s : bst) : bst :=
  Bst (alter f i (bufs s)) (disk s) (hist s) (curpid s).
Definition updb (i : nat) (f : buf -> buf) : M bst unit := modify (upd i f).

(** ** The driver's contract *)

(** [virtio_disk_rw] waits for the transfer: a write has reached the disk when it
    returns. *)
Definition write_disk (b : Z) (d : block) (s : bst) : bst :=
  Bst (bufs s) (<[b := d]> (disk s)) (hist s ++ [(b, d)]) (curpid s).
Definition virtio_disk_rw (b : nat) (write : bool) : M bst unit :=
  x <- getb b ;;
  if write then modify (write_disk (b_blockno x) (b_data x))
  else d <- gets disk ;; updb b (set_data (dblk d (b_blockno x))).

(** ** bio.c *)

Definition acquire_buf (b : nat) : M bst unit :=
  x <- getb b ;;
  pid <- gets curpid ;;
  match acquiresleep pid (b_lock x) with
  | Some lk => updb b (set_lock lk)
  | None => hang
  end.

(** Insert a buffer after the list head. *)
Definition push_front (b : nat) : M bst unit :=
  h <- getb head ;;
  updb b (set_next (b_next h)) ;;;
  updb b (set_prev head) ;;;
  updb (b_next h) (set_prev b) ;;;
  updb head (set_next b).

Definition binit : M bst unit :=
  updb head (set_prev head) ;;;
  updb head (set_next head) ;;;
  for_ 0 NBUF (fun i =>
    let b := Z.to_nat i in
    updb b (set_lock initsleeplock) ;;;
    push_front b).

(** The two searches of [bget]: from the most recently used buffer for a block,
    and from the least recently used one for a free buffer. *)
Definition bfind (dev blockno : Z) : M bst (option nat) :=
  h <- getb head ;;
  while_ (fun b =>
    if decide (b = head) then ret (Brk None)
    else
      x <- getb b ;;
      if (b_dev x =? dev) && (b_blockno x =? blockno) then ret (Brk (Some b))
      else ret (Next (b_next x))) (b_next h).

Definition bvictim : M bst (option nat) :=
  h <- getb head ;;
  while_ (fun b =>
    if decide (b = head) then ret (Brk None)
    else
      x <- getb b ;;
      if b_refcnt x =? 0 then ret (Brk (Some b))
      else ret (Next (b_prev x))) (b_prev h).

Definition bget (dev blockno : Z) : M bst nat :=
  r <- bfind dev blockno ;;
  match r with
  | Some b =>
      updb b incr_ref ;;;
      acquire_buf b ;;; ret b
  | None =>
      r <- bvictim ;;
      match r with
      | Some b =>
          updb b (set_id dev blockno) ;;;
          updb b (set_valid 0) ;;;
          updb b (set_refcnt 1) ;;;
          acquire_buf b ;;; ret b
      | None => panic "bget: no buffers"
      end
  end.

Definition bread (dev blockno : Z) : M bst nat :=
  b <- bget dev blockno ;;
  x <- getb b ;;
  (if nz (b_valid x) then ret tt
   else virtio_disk_rw b false ;;; updb b (set_valid 1)) ;;;
  ret b.

Definition bwrite (b : nat) : M bst unit :=
  x <- getb b ;;
  pid <- gets curpid ;;
  if negb (holdingsleep pid (b_lock x)) then panic "bwrite"
  else virtio_disk_rw b true.

Definition brelse (b : nat) : M bst unit :=
  x <- getb b ;;
  pid <- gets curpid ;;
  if negb (holdingsleep pid (b_lock x)) then panic "brelse"
  else
    updb b (set_lock (releasesleep (b_lock x))) ;;;
    updb b decr_ref ;;;
    x <- getb b ;;
    when (b_refcnt x =? 0)
      (updb (b_next x) (set_prev (b_prev x)) ;;;
       x <- getb b ;;
       updb (b_prev x) (set_next (b_next x)) ;;;
       push_front b).

Definition bpin (b : nat) : M bst unit := updb b incr_ref.

Definition bunpin (b : nat) : M bst unit := updb b decr_ref.

(** A client changing [b->data]. *)
Definition write_data (b : nat) (f : block -> block) : M bst unit :=
  updb b (fun x => set_data (f (b_data x)) x).
