(* ===== verification/BioInv.v ===== *)
(** * Correctness of the buffer cache

    The invariant of the cache: the links form a circular list of all buffers, a
    block of the root device is in at most one buffer, and a buffer nobody refers
    to agrees with the disk.  On such states a block has contents ([view]), a
    reference count ([refs]) and a lock ([lockd]) of its own, and the routines of
    bio.c are described by what they do to these. *)

From stdpp Require Import base list gmap strings.
From Stdlib Require Import ZArith Lia.
From S2P Require Import Prelude Mem Sleeplock Bio.

#[local] Open Scope Z_scope.

Definition ROOTDEV : Z := 1.

(** ** Circular lists *)

(** [seg nx pv x ys]: following [nx] from [x] visits [ys], and [pv] leads back. *)
Fixpoint seg (nx pv : nat -> nat) (x : nat) (ys : list nat) : Prop :=
  match ys with
  | [] => True
  | y :: ys' => nx x = y /\ pv y = x /\ seg nx pv y ys'
  end.

Definition ring (nx pv : nat -> nat) (h : nat) (l : list nat) : Prop := seg nx pv h (l ++ [h]).

Definition put (f : nat -> nat) (i v : nat) : nat -> nat := fun j => if decide (i = j) then v else f j.

Lemma put_eq f i v : put f i v i = v.
Proof. unfold put. by case_decide. Qed.
Lemma put_ne f i v j : i <> j -> put f i v j = f j.
Proof. intros. unfold put. by case_decide. Qed.

Lemma seg_app nx pv x l y l' : seg nx pv x (l ++ y :: l') <-> seg nx pv x (l ++ [y]) /\ seg nx pv y l'.
Proof. revert x. induction l as [|z l IH]; intros x; simpl; [tauto|]. rewrite IH. tauto. Qed.

(** A segment survives changes of links it does not use. *)
Lemma seg_ext nx pv nx' pv' x l y :
  (forall i, i ∈ x :: l -> nx' i = nx i) -> (forall i, i ∈ l ++ [y] -> pv' i = pv i) ->
  seg nx pv x (l ++ [y]) -> seg nx' pv' x (l ++ [y]).
Proof.
  revert x. induction l as [|z l IH]; simpl; intros x Hn Hp.
  - intros (<- & Hx & _). split_and!; [apply Hn; by left| |done]. rewrite Hp; [done|by left].
  - intros (<- & Hx & Hs). split_and!; [apply Hn; by left| |].
    + rewrite Hp; [done|by left].
    + apply IH; [intros; apply Hn; by right|intros; apply Hp; by right|done].
Qed.

(** The element before what follows [l] after [x]. *)
Fixpoint lst (x : nat) (l : list nat) : nat :=
  match l with [] => x | y :: l' => lst y l' end.

Lemma lst_in x l : lst x l ∈ x :: l.
Proof. revert x. induction l as [|y l IH]; intros x; simpl; [by left|]. right. apply IH. Qed.

Lemma lst_app x l y : lst x (l ++ [y]) = y.
Proof. revert x. induction l as [|z l IH]; intros x; simpl; [done|apply IH]. Qed.

Lemma seg_last nx pv x l y : seg nx pv x (l ++ [y]) -> nx (lst x l) = y /\ pv y = lst x l.
Proof. revert x. induction l as [|z l IH]; intros x; simpl; [tauto|]. intros (_ & _ & H). by apply IH. Qed.

(** Redirecting the end of a segment. *)
Lemma seg_redirect nx pv x l i y :
  seg nx pv x (l ++ [i]) -> NoDup (x :: l) -> y ∉ l ->
  seg (put nx (lst x l) y) (put pv y (lst x l)) x (l ++ [y]).
Proof.
  revert x. induction l as [|z l IH]; simpl; intros x.
  - intros _ _ _. by rewrite !put_eq.
  - intros (Hz & Hx & Hs) [Hnx Hnd]%NoDup_cons Hy.
    pose proof (lst_in z l) as Hl. rewrite elem_of_cons in Hy.
    rewrite !put_ne; [|naive_solver|congruence].
    split_and!; [done|done|]. apply IH; [done|done|tauto].
Qed.

Lemma ring_unlink nx pv h l1 i l2 :
  NoDup (h :: l1 ++ i :: l2) -> ring nx pv h (l1 ++ i :: l2) ->
  ring (put nx (pv i) (nx i)) (put pv (nx i) (pv i)) h (l1 ++ l2).
Proof.
  intros Hnd Hr. unfold ring in *. rewrite <- app_assoc in Hr. simpl in Hr.
  apply seg_app in Hr as [H1 H2]. destruct (seg_last _ _ _ _ _ H1) as [Hl ->].
  rewrite <- app_assoc. pose proof (lst_in h l1) as Hp.   apply NoDup_cons in Hnd as [Hh Hnd]. apply NoDup_app in Hnd as (Hnd1 & Hd & [Hi Hnd2]%NoDup_cons).
  assert (forall x, x ∈ l1 -> x ∉ l2) as Hd' by (intros x Hx Hx2; apply (Hd x Hx); by right).
  assert (lst h l1 ∉ l2) as Hp2.
  { apply elem_of_cons in Hp as [->|?]; set_solver. }
  assert (NoDup (h :: l1)) as Hhl1 by (constructor; [set_solver|done]).
  destruct l2 as [|n l2]; simpl in *.
  - destruct H2 as (-> & Hh' & _). eapply seg_redirect; [done|done|set_solver].
  - destruct H2 as (-> & Hn & H2). apply seg_app. split.
    + eapply seg_redirect; [done|done|set_solver].
    + apply NoDup_cons in Hnd2 as [Hn2 Hnd2].
      apply (seg_ext nx pv); [| |done]; intros j Hj; apply put_ne; set_solver.
Qed.

Lemma ring_push nx pv h i l :
  NoDup (h :: i :: l) -> ring nx pv h l ->
  ring (put (put nx i (nx h)) h i) (put (put pv i h) (nx h) i) h (i :: l).
Proof.
  intros Hnd Hr. unfold ring in *. simpl.
  apply NoDup_cons in Hnd as [Hh [Hi Hnd]%NoDup_cons].
  assert (h <> i) by set_solver. rewrite put_eq. split; [done|].
  destruct l as [|n l]; simpl in *; destruct Hr as (Hn & Hp & Hs); rewrite Hn.
  - split; [by rewrite put_ne, put_eq by done|].
    rewrite (put_ne _ h), !put_eq by done. done.
  - assert (n <> i /\ n <> h) as [? ?] by set_solver.
    rewrite (put_ne (put pv i h)), put_eq by set_solver. split; [done|].
    rewrite (put_ne _ h), !put_eq by done. split_and!; [done|done|].
    apply NoDup_cons in Hnd as [Hnl Hnd].
    apply (seg_ext nx pv); [| |done]; intros j Hj; rewrite !put_ne; set_solver.
Qed.

Lemma seg_rev nx pv x l y : seg nx pv x (l ++ [y]) -> seg pv nx y (reverse l ++ [x]).
Proof.
  revert x. induction l as [|z l IH]; simpl; intros x.
  - intros (? & ? & _). done.
  - intros (Hz & Hx & Hs). rewrite reverse_cons, <- app_assoc. simpl.
    apply seg_app. split; [by apply IH|done].
Qed.

(** ** The searches *)

Definition nx (s : bst) (i : nat) : nat := b_next (bufs s !!! i).
Definition pv (s : bst) (i : nat) : nat := b_prev (bufs s !!! i).

Section scan.
Context (s : bst) (step : buf -> nat) (test : buf -> bool) (back : nat -> nat).

Lemma wp_scan x l :
  seg (fun i => step (bufs s !!! i)) back x (l ++ [head]) -> head ∉ l ->
  Z.of_nat (length l) < 2 ^ 63 ->
  wp (while_ (fun b =>
        if decide (b = head) then ret (Brk None)
        else y <- getb b ;; if test y then ret (Brk (Some b)) else ret (Next (step y)))
        (step (bufs s !!! x)))
    (fun r s' => s' = s /\ match r with
       | Some i => i ∈ l /\ test (bufs s !!! i) = true
       | None => forall i, i ∈ l -> test (bufs s !!! i) = false end) s.
Proof.
  intros Hs Hh Hlen.
  apply (wp_while_idx _ (fun n b st => st = s /\ exists l1 x' l2, l = l1 ++ l2 /\
      n = Z.of_nat (length l2) /\ step (bufs s !!! x') = b /\
      seg (fun i => step (bufs s !!! i)) back x' (l2 ++ [head]) /\
      forall i, i ∈ l1 -> test (bufs s !!! i) = false) _) with (Z.of_nat (length l)).
  2: { split; [done|]. exists [], x, l. split_and!; try done. by intros i ?%elem_of_nil. }
  2: { lia. }
  intros n b st (-> & l1 & x' & l2 & -> & -> & <- & Hs2 & Hl1).
  destruct l2 as [|y l2]; simpl in Hs2; destruct Hs2 as (Hy & _ & Hs2); rewrite Hy.
  - rewrite decide_True by done. apply wp_ret. split; [done|]. by rewrite app_nil_r.
  - rewrite decide_False by set_solver. apply wp_bind, wp_gets.
    destruct (test (bufs s !!! y)) eqn:Et; apply wp_ret; [split; [done|split; [set_solver|done]]|].
    exists (Z.of_nat (length l2)). split; [|simpl; lia]. split; [done|].
    exists (l1 ++ [y]), y, l2. rewrite <- app_assoc. split_and!; try done.
    intros i [?| ->%list_elem_of_singleton]%elem_of_app; [by apply Hl1|done].
Qed.
End scan.

Lemma bfind_spec s l dev blockno :
  ring (nx s) (pv s) head l -> head ∉ l -> Z.of_nat (length l) < 2 ^ 63 ->
  wp (bfind dev blockno) (fun r s' => s' = s /\ match r with
    | Some i => i ∈ l /\ b_dev (bufs s !!! i) = dev /\ b_blockno (bufs s !!! i) = blockno
    | None => forall i, i ∈ l -> b_dev (bufs s !!! i) = dev -> b_blockno (bufs s !!! i) <> blockno
    end) s.
Proof.
  intros Hr Hh Hl. unfold bfind. apply wp_bind, wp_gets.
  eapply wp_mono; [apply (wp_scan s b_next
    (fun x => (b_dev x =? dev) && (b_blockno x =? blockno)) (pv s) head l Hr Hh Hl)|].
  intros [i|] s' [-> H]; split; try done.
  - destruct H as [? [?%Z.eqb_eq ?%Z.eqb_eq]%andb_true_iff]. done.
  - intros i Hi Hd Hb. specialize (H i Hi). rewrite Hd, Hb, !Z.eqb_refl in H. done.
Qed.

Lemma bvictim_spec s l :
  ring (nx s) (pv s) head l -> head ∉ l -> Z.of_nat (length l) < 2 ^ 63 ->
  wp bvictim (fun r s' => s' = s /\ match r with
    | Some i => i ∈ l /\ b_refcnt (bufs s !!! i) = 0
    | None => forall i, i ∈ l -> b_refcnt (bufs s !!! i) <> 0
    end) s.
Proof.
  intros Hr%seg_rev Hh Hl. unfold bvictim. apply wp_bind, wp_gets.
  eapply wp_mono; [apply (wp_scan s b_prev (fun x => b_refcnt x =? 0) (nx s) head (reverse l) Hr)|].
  - by rewrite elem_of_reverse.
  - by rewrite length_reverse.
  - intros [i|] s' [-> H]; split; try done.
    + rewrite elem_of_reverse in H. destruct H as [? ?%Z.eqb_eq]. done.
    + intros i Hi Hz. specialize (H i). rewrite elem_of_reverse, Hz in H. by specialize (H Hi).
Qed.

(** ** Blocks of the root device *)

Definition holds (s : bst) (i : nat) (b : Z) : Prop :=
  (i < NBUF)%nat /\ b_dev (bufs s !!! i) = ROOTDEV /\ b_blockno (bufs s !!! i) = b.

#[global] Instance holds_dec s i b : Decision (holds s i b).
Proof. unfold holds. apply _. Defined.

(** The buffer of a block, if it has one. *)
Definition cached (s : bst) (b : Z) : option nat := hd_error (filter (fun i => holds s i b) (seq 0 NBUF)).

Definition view (s : bst) (b : Z) : block :=
  match cached s b with Some i => b_data (bufs s !!! i) | None => dblk (disk s) b end.
Definition refs (s : bst) (b : Z) : Z :=
  match cached s b with Some i => b_refcnt (bufs s !!! i) | None => 0 end.
Definition lockd (s : bst) (b : Z) : bool :=
  match cached s b with Some i => nz (locked (b_lock (bufs s !!! i))) | None => false end.

(** What a buffer owes: it is only referenced when it holds a block of the root
    device, such a buffer has been filled, and one without references is not
    locked and agrees with the disk. *)
Definition bwf (d : gmap Z block) (x : buf) : Prop :=
  0 <= b_refcnt x /\
  (b_dev x = ROOTDEV -> b_valid x <> 0) /\
  (b_refcnt x <> 0 -> b_dev x = ROOTDEV) /\
  (b_refcnt x = 0 -> locked (b_lock x) = 0 /\
     (b_dev x = ROOTDEV -> b_data x = dblk d (b_blockno x))).

Record binv (s : bst) : Prop := {
  bi_len : length (bufs s) = S NBUF;
  bi_ring : exists l, ring (nx s) (pv s) head l /\ l ≡ₚ seq 0 NBUF;
  bi_uniq : forall i j b, holds s i b -> holds s j b -> i = j;
  bi_wf : forall i, (i < NBUF)%nat -> bwf (disk s) (bufs s !!! i);
}.

(** The current process holds the lock of buffer [i], which contains block [b]. *)
Definition held (s : bst) (i : nat) (b : Z) : Prop :=
  holds s i b /\ b_lock (bufs s !!! i) = Sleeplock 1 (curpid s) /\ b_refcnt (bufs s !!! i) <> 0.

Lemma cached_Some s b i : cached s b = Some i -> holds s i b.
Proof.
  unfold cached. intros H. assert (i ∈ filter (fun i => holds s i b) (seq 0 NBUF)) as Hin.
  { destruct (filter _ _); [done|]. injection H as ->. by left. }
  by apply list_elem_of_filter in Hin as [? _].
Qed.

Lemma cached_None s b i : cached s b = None -> ~ holds s i b.
Proof.
  unfold cached. intros H Hi. assert (i ∈ filter (fun i => holds s i b) (seq 0 NBUF)) as Hin.
  { apply list_elem_of_filter. split; [done|]. apply elem_of_seq. destruct Hi as [? _]. lia. }
  destruct (filter _ _); [by apply elem_of_nil in Hin|done].
Qed.

Definition uniq (s : bst) : Prop := forall i j b, holds s i b -> holds s j b -> i = j.

Lemma holds_cached s b i : uniq s -> holds s i b -> cached s b = Some i.
Proof.
  intros Hu Hi. destruct (cached s b) as [j|] eqn:E.
  - f_equal. eapply Hu; [by apply cached_Some|done].
  - by destruct (cached_None s b i E).
Qed.

Lemma cached_ext s s' b : (forall i, holds s' i b <-> holds s i b) -> cached s' b = cached s b.
Proof. intros H. unfold cached. f_equal. by apply list_filter_iff. Qed.

(** The abstract state of a block in one tuple. *)
Definition babs (s : bst) (b : Z) : Z * bool * block := (refs s b, lockd s b, view s b).
Definition binfo (x : buf) : Z * bool * block :=
  (b_refcnt x, nz (locked (b_lock x)), b_data x).

Lemma babs_holds s i b : uniq s -> holds s i b -> babs s b = binfo (bufs s !!! i).
Proof. intros Hu Hi. unfold babs, refs, lockd, view. by rewrite (holds_cached s b i). Qed.

Lemma babs_none s b : (forall i, ~ holds s i b) -> babs s b = (0, false, dblk (disk s) b).
Proof.
  intros H. unfold babs, refs, lockd, view. destruct (cached s b) as [i|] eqn:E; [|done].
  by destruct (H i (cached_Some _ _ _ E)).
Qed.

Lemma babs_ext s s' b :
  disk s' = disk s -> (forall i, holds s' i b <-> holds s i b) ->
  (forall i, holds s i b -> binfo (bufs s' !!! i) = binfo (bufs s !!! i)) ->
  babs s' b = babs s b.
Proof.
  intros Hd Hh Hi. unfold babs, refs, lockd, view. rewrite (cached_ext s s' b Hh), Hd.
  destruct (cached s b) as [i|] eqn:E; [|done]. specialize (Hi i (cached_Some _ _ _ E)).
  by injection Hi as -> -> ->.
Qed.

(** ** Updates of one buffer *)

Lemma bufs_upd s i f j : (i < length (bufs s))%nat ->
  bufs (upd i f s) !!! j = if decide (i = j) then f (bufs s !!! i) else bufs s !!! j.
Proof.
  intros Hi. unfold upd. cbn. rewrite !list_lookup_total_alt. case_decide as E.
  - subst j. rewrite list_lookup_alter_eq. by destruct (lookup_lt_is_Some_2 _ _ Hi) as [x ->].
  - by rewrite list_lookup_alter_ne.
Qed.

Lemma length_upd s i f : length (bufs (upd i f s)) = length (bufs s).
Proof. apply length_alter. Qed.

Lemma ring_ext f g f' g' h l :
  (forall i, f' i = f i) -> (forall i, g' i = g i) -> ring f g h l -> ring f' g' h l.
Proof. intros Hf Hg. apply seg_ext; auto. Qed.

Lemma wp_updb i f Q s : Q tt (upd i f s) -> wp (updb i f) Q s.
Proof. done. Qed.
Lemma wp_getb i Q s : Q (bufs s !!! i) s -> wp (getb i) Q s.
Proof. done. Qed.

Ltac bio_step :=
  match goal with
  | |- wp (bind _ _) _ _ => apply wp_bind
  | |- wp (ret _) _ _ => apply wp_ret
  | |- wp (gets _) _ _ => apply wp_gets
  | |- wp (modify _) _ _ => apply wp_modify
  | |- wp (getb _) _ _ => apply wp_getb
  | |- wp (updb _ _) _ _ => apply wp_updb
  end.
Ltac bio_steps := repeat bio_step.

(** Changing a buffer without moving it in the list. *)
Lemma binv_replace s i f :
  let y := f (bufs s !!! i) in
  binv s -> (i < NBUF)%nat ->
  b_prev y = b_prev (bufs s !!! i) -> b_next y = b_next (bufs s !!! i) -> bwf (disk s) y ->
  (forall j, b_dev y = ROOTDEV -> holds s j (b_blockno y) -> j = i) ->
  binv (upd i f s) /\
  (forall j b, holds (upd i f s) j b <->
     if decide (i = j) then b_dev y = ROOTDEV /\ b_blockno y = b else holds s j b) /\
  forall b, babs (upd i f s) b =
    if decide (b_dev y = ROOTDEV /\ b_blockno y = b) then binfo y
    else if decide (holds s i b) then (0, false, dblk (disk s) b) else babs s b.
Proof.
  intros y [Hlen (l & Hr & Hl) Hu Hwf] Hi Hp Hn Hw Hy.
  assert (forall j, bufs (upd i f s) !!! j = if decide (i = j) then y else bufs s !!! j) as Hupd.
  { intros j. apply bufs_upd. rewrite Hlen. lia. }
  assert (forall j b, holds (upd i f s) j b <->
     if decide (i = j) then b_dev y = ROOTDEV /\ b_blockno y = b else holds s j b) as Hh.
  { intros j b. unfold holds. rewrite Hupd. case_decide; [subst j; tauto|done]. }
  assert (uniq (upd i f s)) as Hu'.
  { intros j k b. rewrite !Hh. repeat case_decide; subst; try done.
    - intros [? <-] ?. symmetry. by apply Hy.
    - intros ? [? <-]. by apply Hy.
    - apply Hu. }
  split; [|split; [done|]].
  - split; [by rewrite length_upd| |done|].
    + exists l. split; [|done]. apply (ring_ext (nx s) (pv s)); [| |done];
        intros j; unfold nx, pv; rewrite Hupd; case_decide; by subst.
    + intros j Hj. rewrite Hupd. case_decide; [done|]. by apply Hwf.
  - intros b. case_decide as Hyb; [|case_decide as Hib].
    + rewrite (babs_holds _ i); [by rewrite Hupd, decide_True|done|]. by rewrite Hh, decide_True.
    + apply (babs_none (upd i f s)). intros j. rewrite Hh. case_decide; [done|].
      intros Hj. by pose proof (Hu _ _ _ Hib Hj).
    + apply babs_ext; [done| |].
      * intros j. rewrite Hh. case_decide; [subst; tauto|done].
      * intros j Hj. rewrite Hupd. case_decide; [by subst|done].
Qed.

(** The case where it keeps its block. *)
Lemma binv_upd s i f b :
  binv s -> holds s i b ->
  (forall x, b_dev (f x) = b_dev x /\ b_blockno (f x) = b_blockno x /\
     b_prev (f x) = b_prev x /\ b_next (f x) = b_next x) ->
  bwf (disk s) (f (bufs s !!! i)) ->
  binv (upd i f s) /\ (forall j b', holds (upd i f s) j b' <-> holds s j b') /\
  forall b', babs (upd i f s) b' = if decide (b' = b) then binfo (f (bufs s !!! i)) else babs s b'.
Proof.
  intros Hb (Hi & Hd & Hbn) Hf Hw. destruct (Hf (bufs s !!! i)) as (Fd & Fb & Fp & Fn).
  destruct (binv_replace s i f) as (H1 & H2 & H3); try done.
  { intros j _. rewrite Fb. intros Hj. eapply (bi_uniq s Hb); [exact Hj|done]. }
  split; [done|]. split.
  - intros j b'. rewrite H2. destruct (decide (i = j)) as [E|]; [|done]. rewrite <- E, Fd, Fb. unfold holds. tauto.
  - intros b'. rewrite H3, Fd, Fb, Hd, Hbn. clear H2 H3. unfold holds in *.
    repeat case_decide; naive_solver.
Qed.

(** Same buffers up to their links. *)
Definition core (x : buf) : buf := set_prev 0 (set_next 0 x).
Definition same_cores (s s' : bst) : Prop :=
  disk s' = disk s /\ hist s' = hist s /\ curpid s' = curpid s /\
  length (bufs s') = length (bufs s) /\ forall j, core (bufs s' !!! j) = core (bufs s !!! j).

Lemma same_cores_refl s : same_cores s s.
Proof. done. Qed.
Lemma same_cores_trans s1 s2 s3 : same_cores s1 s2 -> same_cores s2 s3 -> same_cores s1 s3.
Proof.
  intros (? & ? & ? & ? & Hc) (? & ? & ? & ? & Hc'). split_and!; try congruence.
Qed.

Lemma core_fields x y : core x = core y ->
  b_valid x = b_valid y /\ b_dev x = b_dev y /\ b_blockno x = b_blockno y /\
  b_lock x = b_lock y /\ b_refcnt x = b_refcnt y /\ b_data x = b_data y.
Proof. destruct x, y. unfold core, set_prev, set_next. cbn. intros E. by injection E. Qed.

(** Re-linking the buffers keeps the invariant if the links are still a list. *)
Lemma binv_cores s s' l :
  binv s -> same_cores s s' -> ring (nx s') (pv s') head l -> l ≡ₚ seq 0 NBUF ->
  binv s' /\ (forall j b, holds s' j b <-> holds s j b) /\ forall b, babs s' b = babs s b.
Proof.
  intros [Hlen _ Hu Hwf] (Hd & _ & _ & Hl & Hc) Hr Hp.
  assert (forall j b, holds s' j b <-> holds s j b) as Hh.
  { intros j b. unfold holds. by destruct (core_fields _ _ (Hc j)) as (_ & -> & -> & _). }
  split; [|split; [done|]].
  - split; [congruence|by exists l| |].
    + intros i j b. rewrite !Hh. apply Hu.
    + intros i Hi. specialize (Hwf i Hi). rewrite Hd. unfold bwf in *.
      by destruct (core_fields _ _ (Hc i)) as (-> & -> & -> & -> & -> & ->).
  - intros b. apply babs_ext; [done|done|]. intros i _. unfold binfo.
    by destruct (core_fields _ _ (Hc i)) as (_ & _ & _ & -> & -> & ->).
Qed.

(** The link functions after an update of a link. *)
Lemma upd_next s i v : (i < length (bufs s))%nat ->
  (forall j, nx (upd i (set_next v) s) j = put (nx s) i v j) /\
  (forall j, pv (upd i (set_next v) s) j = pv s j) /\ same_cores s (upd i (set_next v) s).
Proof.
  intros Hi. split; [|split; [|split_and!; [done|done|done|apply length_upd|]]].
  all: intros j; unfold nx, pv, put; rewrite bufs_upd by done; case_decide; subst; done.
Qed.
Lemma upd_prev s i v : (i < length (bufs s))%nat ->
  (forall j, nx (upd i (set_prev v) s) j = nx s j) /\
  (forall j, pv (upd i (set_prev v) s) j = put (pv s) i v j) /\ same_cores s (upd i (set_prev v) s).
Proof.
  intros Hi. split; [|split; [|split_and!; [done|done|done|apply length_upd|]]].
  all: intros j; unfold nx, pv, put; rewrite bufs_upd by done; case_decide; subst; done.
Qed.

(** The links of a ring stay among the buffers and the head. *)
Lemma ring_in nx pv h l i : ring nx pv h l -> i ∈ h :: l -> nx i ∈ h :: l /\ pv i ∈ h :: l.
Proof.
  unfold ring. intros Hr Hi. assert (forall x r, seg nx pv x (r ++ [h]) -> forall i,
    (i ∈ x :: r -> nx i ∈ r ++ [h]) /\ (i ∈ r ++ [h] -> pv i ∈ x :: r)) as Hg.
  { clear. intros x r. revert x. induction r as [|y r IH]; simpl; intros x.
    - intros (<- & Hp & _) i. split; intros ->%list_elem_of_singleton; rewrite ?Hp; by left.
    - intros (<- & Hp & Hs) i. specialize (IH _ Hs i). rewrite !elem_of_cons in *.
      split; (intros [->|?]; [by left|tauto]). }
  destruct (Hg h l Hr i) as [H1 H2]. rewrite elem_of_app, list_elem_of_singleton in *.
  rewrite !elem_of_cons in *. split; tauto.
Qed.

Lemma ring_irrefl nx pv h l i : NoDup (h :: l) -> ring nx pv h l -> i ∈ l -> nx i <> i /\ pv i <> i.
Proof.
  unfold ring. intros [Hh Hnd]%NoDup_cons Hr Hi.
  destruct (list_elem_of_split _ _ Hi) as (l1 & l2 & ->).
  rewrite <- app_assoc in Hr. simpl in Hr. apply seg_app in Hr as [H1 H2].
  destruct (seg_last _ _ _ _ _ H1) as [_ ->]. pose proof (lst_in h l1) as Hl.
  apply NoDup_app in Hnd as (_ & Hd & [Hi2 _]%NoDup_cons). split.
  - destruct l2; simpl in H2; destruct H2 as [-> _]; set_solver.
  - intros E. rewrite E in Hl. set_solver.
Qed.

Lemma perm_NoDup l : l ≡ₚ seq 0 NBUF -> NoDup (head :: l).
Proof.
  intros Hp. constructor.
  - rewrite Hp, elem_of_seq. unfold head. lia.
  - rewrite Hp. apply NoDup_seq.
Qed.

Lemma wp_push_front s i l :
  length (bufs s) = S NBUF -> ring (nx s) (pv s) head l -> NoDup (head :: i :: l) ->
  (forall j, j ∈ i :: l -> (j < NBUF)%nat) ->
  wp (push_front i) (fun _ s' => same_cores s s' /\ ring (nx s') (pv s') head (i :: l)) s.
Proof.
  intros Hlen Hr Hnd Hlt. unfold push_front.
  assert (forall j, j ∈ head :: i :: l -> (j < length (bufs s))%nat) as Hb.
  { intros j Hj. rewrite Hlen. apply elem_of_cons in Hj as [->|Hj]; [unfold head; lia|].
    specialize (Hlt j Hj). lia. }
  assert (nx s head ∈ head :: l) as Hn by (apply (ring_in _ _ _ _ _ Hr); by left).
  bio_steps. fold (nx s head).
  destruct (upd_next s i (nx s head)) as (A1 & A2 & A3); [apply Hb; set_solver|].
  set (s1 := upd i _ s) in *.
  destruct (upd_prev s1 i head) as (B1 & B2 & B3); [unfold s1; rewrite length_upd; apply Hb; set_solver|].
  set (s2 := upd i _ s1) in *.
  destruct (upd_prev s2 (nx s head) i) as (C1 & C2 & C3);
    [unfold s2, s1; rewrite !length_upd; apply Hb; set_solver|].
  set (s3 := upd (nx s head) _ s2) in *.
  destruct (upd_next s3 head i) as (D1 & D2 & D3);
    [unfold s3, s2, s1; rewrite !length_upd; apply Hb; set_solver|].
  split.
  - eapply same_cores_trans; [|exact D3]. eapply same_cores_trans; [|exact C3].
    by eapply same_cores_trans.
  - eapply ring_ext; [| |by apply (ring_push (nx s) (pv s))].
    + intros j. rewrite D1. unfold put. case_decide; [done|]. by rewrite C1, B1, A1.
    + intros j. rewrite D2, C2. unfold put. case_decide; [done|]. rewrite B2. unfold put.
      case_decide; [done|]. apply A2.
Qed.

(** Moving a buffer to the front of the list. *)
Lemma wp_relink s i :
  binv s -> (i < NBUF)%nat ->
  wp (updb (b_next (bufs s !!! i)) (set_prev (b_prev (bufs s !!! i))) ;;;
      x <- getb i ;;
      updb (b_prev x) (set_next (b_next x)) ;;;
      push_front i)
    (fun _ s' => same_cores s s' /\ exists l, ring (nx s') (pv s') head l /\ l ≡ₚ seq 0 NBUF) s.
Proof.
  intros [Hlen (l & Hr & Hp) _ _] Hi. pose proof (perm_NoDup l Hp) as Hnd.
  assert (i ∈ l) as Hil by (rewrite Hp, elem_of_seq; lia).
  destruct (ring_in _ _ _ _ i Hr) as [Hn Hpv]; [by right|].
  assert (forall j, j ∈ head :: l -> (j < length (bufs s))%nat) as Hb.
  { intros j. rewrite Hp, elem_of_cons, elem_of_seq, Hlen. unfold head. lia. }
  destruct (list_elem_of_split _ _ Hil) as (l1 & l2 & ->).
  bio_steps. fold (nx s i) (pv s i).
  destruct (upd_prev s (nx s i) (pv s i)) as (A1 & A2 & A3); [by apply Hb|].
  set (s1 := upd (nx s i) _ s) in *.
  assert (i <> head) as Hih by (unfold head; lia).
  assert (nx s i <> i /\ pv s i <> i) as [Hni Hpi] by (by eapply ring_irrefl).
  assert (bufs s1 !!! i = bufs s !!! i) as Ei.
  { unfold s1. rewrite bufs_upd by (by apply Hb). by rewrite decide_False. }
  rewrite Ei. fold (nx s i) (pv s i).
  assert (length (bufs s1) = S NBUF) as Hlen1 by (unfold s1; by rewrite length_upd).
  destruct (upd_next s1 (pv s i) (nx s i)) as (B1 & B2 & B3); [rewrite Hlen1, <- Hlen; by apply Hb|].
  set (s2 := upd (pv s i) _ s1) in *.
  assert (ring (nx s2) (pv s2) head (l1 ++ l2)) as Hr2.
  { eapply ring_ext; [| |by apply (ring_unlink (nx s) (pv s))]; intros j.
    - rewrite B1. unfold put. case_decide; [done|apply A1].
    - rewrite B2. apply A2. }
  assert (i :: l1 ++ l2 ≡ₚ l1 ++ i :: l2) as Hperm by apply Permutation_middle.
  eapply wp_mono; [apply (wp_push_front s2 i (l1 ++ l2))|].
  - unfold s2. by rewrite length_upd.
  - done.
  - by rewrite Hperm.
  - intros j. rewrite Hperm, Hp, elem_of_seq. lia.
  - intros [] s' [Hs Hr']. split.
    + eapply same_cores_trans; [|exact Hs]. by eapply same_cores_trans.
    + exists (i :: l1 ++ l2). split; [done|]. by rewrite Hperm.
Qed.

(** ** The operations *)

Definition same_dev (s s' : bst) : Prop :=
  disk s' = disk s /\ hist s' = hist s /\ curpid s' = curpid s.

Lemma upd_upd s i f g : upd i f (upd i g s) = upd i (f ∘ g) s.
Proof.
  unfold upd. cbn. f_equal. apply list_eq. intros j.
  destruct (decide (i = j)) as [->|]; [|by rewrite !list_lookup_alter_ne].
  rewrite !list_lookup_alter_eq. by destruct (bufs s !! j).
Qed.

Lemma upd_at s i f : (i < length (bufs s))%nat -> bufs (upd i f s) !!! i = f (bufs s !!! i).
Proof. intros. by rewrite bufs_upd, decide_True. Qed.

Lemma held_ref s i b : binv s -> held s i b ->
  babs s b = (b_refcnt (bufs s !!! i), true, b_data (bufs s !!! i)) /\ 0 < refs s b.
Proof.
  intros Hb (Hi & Hl & Hr). pose proof (babs_holds s i b (bi_uniq _ Hb) Hi) as E.
  destruct (bi_wf _ Hb i (proj1 Hi)) as [? _].
  split; [rewrite E; unfold binfo; by rewrite Hl|]. injection E as -> _ _. lia.
Qed.

(** A locked block has no other buffer, so its holder differs from others. *)
Lemma held_other s i j b b' : binv s -> held s j b' -> holds s i b -> lockd s b = false -> i <> j.
Proof.
  intros Hb Hj Hi Hl ->. destruct (held_ref _ _ _ Hb Hj) as [E _].
  assert (b = b') as -> by (destruct Hi as (_ & _ & <-), Hj as ((_ & _ & <-) & _); done).
  injection E as _ El _. congruence.
Qed.

Lemma held_upd s i f j b :
  binv s -> (i < NBUF)%nat -> i <> j -> held s j b -> held (upd i f s) j b.
Proof.
  intros Hb Hi Hne ((? & ? & ?) & ? & ?). unfold held, holds.
  rewrite bufs_upd by (rewrite (bi_len _ Hb); lia). by rewrite decide_False.
Qed.

(** A buffer that is free to be recycled. *)
Definition has_free (s : bst) : Prop := exists i, (i < NBUF)%nat /\ b_refcnt (bufs s !!! i) = 0.

(** What [bread] promises about the block it returns and the others. *)
Definition bread_post (s : bst) (b : Z) (i : nat) (s' : bst) : Prop :=
  binv s' /\ held s' i b /\ same_dev s s' /\
  (forall b', babs s' b' = if decide (b' = b) then (refs s b + 1, true, view s b) else babs s b') /\
  (forall j b', held s j b' -> held s' j b').

Lemma acquire_buf_spec s i :
  locked (b_lock (bufs s !!! i)) = 0 ->
  wp (acquire_buf i) (fun _ s' => s' = upd i (set_lock (Sleeplock 1 (curpid s))) s) s.
Proof.
  intros Hl. unfold acquire_buf. bio_steps. unfold acquiresleep. rewrite Hl. simpl. by bio_steps.
Qed.

Lemma bread_hit s i b :
  binv s -> holds s i b -> lockd s b = false -> refs s b < 2 ^ 32 - 1 ->
  bread_post s b i (upd i (set_lock (Sleeplock 1 (curpid s)) ∘ incr_ref) s).
Proof.
  intros Hb Hi Hlk Hmax. pose proof (babs_holds s i b (bi_uniq _ Hb) Hi) as E.
  pose proof Hi as (Hlt & Hd & Hbn). destruct (bi_wf _ Hb i Hlt) as (W1 & W2 & W3 & W4).
  injection E as Er El Ev.
  destruct (binv_upd s i (set_lock (Sleeplock 1 (curpid s)) ∘ incr_ref) b) as (H1 & H2 & H3);
    [done|done|done| |].
  { unfold bwf, incr_ref, set_lock, set_refcnt. cbn. rewrite u32_small by lia.
    split_and!; [lia|done|done|lia]. }
  split_and!; try done.
  - unfold held. rewrite upd_at by (rewrite (bi_len _ Hb); lia). rewrite H2.
    unfold incr_ref. cbn. rewrite u32_small by lia. split_and!; [done|done|lia].
  - intros b'. rewrite H3. destruct (decide (b' = b)); [|done].
    unfold binfo, incr_ref. cbn. rewrite u32_small, Er, Ev by lia. done.
  - intros j b' Hj. apply held_upd; try done. by apply (held_other s i j b b').
Qed.

Lemma bread_miss s i b :
  binv s -> (i < NBUF)%nat -> b_refcnt (bufs s !!! i) = 0 -> (forall j, ~ holds s j b) ->
  bread_post s b i (upd i (set_valid 1 ∘ set_data (dblk (disk s) b) ∘ set_lock (Sleeplock 1 (curpid s)) ∘
    set_refcnt 1 ∘ set_valid 0 ∘ set_id ROOTDEV b) s).
Proof.
  intros Hb Hlt Hr Hno. set (f := _ ∘ _). pose proof (babs_none s b Hno) as E.
  destruct (bi_wf _ Hb i Hlt) as (W1 & W2 & W3 & W4). destruct (W4 Hr) as [Wl Wd].
  destruct (binv_replace s i f) as (H1 & H2 & H3); try done.
  { intros j _ Hj. by destruct (Hno j). }
  injection E as Er El Ev. split_and!; try done.
  - unfold held. rewrite upd_at by (rewrite (bi_len _ Hb); lia). rewrite H2. by rewrite decide_True.
  - intros b'. rewrite H3. cbn. clear H3. destruct (decide (b' = b)) as [->|Hne].
    + rewrite decide_True by done. unfold binfo. cbn. by rewrite Er, Ev.
    + rewrite decide_False by naive_solver. destruct (decide (holds s i b')) as [Hi|]; [|done].
      rewrite (babs_holds s i b' (bi_uniq _ Hb) Hi). unfold binfo. rewrite Hr, Wl.
      destruct Hi as (_ & Hd & Hbn). by rewrite Wd, Hbn.
  - intros j b' Hj. apply held_upd; try done. intros ->. by destruct Hj as (_ & _ & ?).
Qed.

Lemma bread_spec s b :
  binv s -> lockd s b = false -> refs s b < 2 ^ 32 - 1 -> (refs s b <> 0 \/ has_free s) ->
  wp (bread ROOTDEV b) (fun i s' => bread_post s b i s') s.
Proof.
  intros Hb Hlk Hmax Hroom. pose proof Hb as [Hlen (l & Hr & Hp) Hu Hwf].
  pose proof (perm_NoDup l Hp) as [Hh _]%NoDup_cons.
  assert (forall i, i ∈ l <-> (i < NBUF)%nat) as Hin.
  { intros i. rewrite Hp, elem_of_seq. lia. }
  assert (Z.of_nat (length l) < 2 ^ 63) as Hll.
  { rewrite (Permutation_length Hp), length_seq. unfold NBUF. lia. }
  unfold bread, bget. apply wp_bind, wp_bind. eapply wp_mono; [by apply (bfind_spec s l)|].
  intros [i|] s1 [-> Hf]; cbv beta iota.
  - destruct Hf as (Hi & Hd & Hbn). apply Hin in Hi. assert (holds s i b) as Hhold by done.
    pose proof (babs_holds s i b Hu Hhold) as E. injection E as Er El Ev.
    bio_steps. eapply wp_mono; [apply acquire_buf_spec|].
    { rewrite upd_at by lia. cbn. rewrite El in Hlk. unfold nz in Hlk.
      by destruct (Z.eqb_spec (locked (b_lock (bufs s !!! i))) 0). }
    intros [] s2 ->. rewrite upd_upd. bio_steps. cbn [curpid upd].
    rewrite upd_at by lia. cbn [Basics.compose].
    replace (nz _) with true; [bio_steps; by apply bread_hit|].
    destruct (Hwf i Hi) as (_ & Hv & _). specialize (Hv Hd). cbn.
    unfold nz. by destruct (Z.eqb_spec (b_valid (bufs s !!! i)) 0).
  - assert (forall j, ~ holds s j b) as Hno by (intros j (Hj%Hin & Hd & Hbn); by apply (Hf j)).
    pose proof (babs_none s b Hno) as E. injection E as Er El Ev.
    apply wp_bind. eapply wp_mono; [by apply (bvictim_spec s l)|].
    intros [i|] s1 [-> Hv]; cbv beta iota.
    2: { exfalso. destruct Hroom as [?|(i & Hi & Hz)]; [congruence|]. by apply (Hv i); [apply Hin|]. }
    destruct Hv as [Hi%Hin Hz]. bio_steps. rewrite !upd_upd.
    eapply wp_mono; [apply acquire_buf_spec|].
    { rewrite upd_at by lia. cbn. by destruct (Hwf i Hi) as (_ & _ & _ & [? _]). }
    intros [] s2 ->. rewrite upd_upd. bio_steps. cbn [curpid upd].
    rewrite upd_at by lia. cbn [Basics.compose set_lock set_refcnt set_valid b_valid nz Z.eqb negb].
    unfold virtio_disk_rw. bio_steps. rewrite upd_at by lia. cbn [b_blockno Basics.compose set_lock set_refcnt set_valid set_id disk upd].
    rewrite !upd_upd. by apply bread_miss.
Qed.

(** Handles of other buffers survive an update that keeps the block's identity. *)
Lemma held_keep s i f j b :
  binv s -> (i < NBUF)%nat ->
  (forall x, b_dev (f x) = b_dev x /\ b_blockno (f x) = b_blockno x /\ b_lock (f x) = b_lock x) ->
  (b_refcnt (f (bufs s !!! i)) <> 0) -> held s j b -> held (upd i f s) j b.
Proof.
  intros Hb Hi Hf Hr Hj. destruct (decide (i = j)) as [<-|Hne]; [|by apply held_upd].
  destruct Hj as ((? & ? & ?) & ? & ?). unfold held, holds.
  rewrite upd_at by (rewrite (bi_len _ Hb); lia).
  destruct (Hf (bufs s !!! i)) as (-> & -> & ->). done.
Qed.

Lemma write_data_spec s i b f :
  binv s -> held s i b ->
  wp (write_data i f) (fun _ s' => binv s' /\ same_dev s s' /\
    (forall b', babs s' b' = if decide (b' = b) then (refs s b, true, f (view s b)) else babs s b') /\
    (forall j b', held s j b' -> held s' j b')) s.
Proof.
  intros Hb Hh. destruct (held_ref _ _ _ Hb Hh) as [E Hpos]. injection E as Er El Ev.
  pose proof Hh as (Hi & Hl & Hr). unfold write_data. bio_steps.
  destruct (bi_wf _ Hb i (proj1 Hi)) as (W1 & W2 & W3 & W4).
  destruct (binv_upd s i (fun x => set_data (f (b_data x)) x) b) as (H1 & H2 & H3); try done.
  split_and!; try done.
  - intros b'. rewrite H3. destruct (decide (b' = b)); [|done].
    unfold binfo. cbn. rewrite Hl. cbn. by rewrite Er, Ev.
  - intros j b' Hj. apply held_keep; try done. apply Hi.
Qed.

Lemma holding_held s i b : held s i b -> holdingsleep (curpid s) (b_lock (bufs s !!! i)) = true.
Proof. intros (_ & -> & _). unfold holdingsleep. cbn. apply Z.eqb_refl. Qed.

Lemma dblk_insert d b x b' : dblk (<[b := x]> d) b' = if decide (b' = b) then x else dblk d b'.
Proof. unfold dblk. rewrite lookup_insert. repeat case_decide; naive_solver. Qed.

Lemma bwrite_spec s i b :
  binv s -> held s i b ->
  wp (bwrite i) (fun _ s' => binv s' /\
    disk s' = <[b := view s b]> (disk s) /\ hist s' = hist s ++ [(b, view s b)] /\
    curpid s' = curpid s /\ (forall b', babs s' b' = babs s b') /\
    (forall j b', held s j b' -> held s' j b')) s.
Proof.
  intros Hb Hh. destruct (held_ref _ _ _ Hb Hh) as [E Hpos]. injection E as Er El Ev.
  unfold bwrite. bio_steps. rewrite (holding_held s i b Hh). simpl negb. cbv iota.
  unfold virtio_disk_rw. bio_steps. pose proof Hh as ((Hi & Hd & Hbn) & Hl & Hr).
  rewrite Hbn, <- Ev. pose proof Hb as [Hlen Hring Hu Hwf].
  split_and!; try done.
  - split; try done. intros j Hj. destruct (Hwf j Hj) as (W1 & W2 & W3 & W4).
    split_and!; try done. cbn. intros Hz. destruct (W4 Hz) as [? Hdata]. split; [done|].
    intros Hdj. rewrite dblk_insert. case_decide as Hbj; [|by apply Hdata].
    assert (i = j) as <- by (by apply (Hu i j b)). done.
  - intros b'. unfold babs, refs, lockd, view. change (cached (write_disk _ _ s) b') with (cached s b').
    destruct (cached s b') as [j|] eqn:Ec; [done|]. cbn. rewrite dblk_insert.
    case_decide as Eb; [|done]. rewrite Eb in Ec. by destruct (cached_None s b i Ec).
Qed.

Lemma brelse_spec s i b :
  binv s -> held s i b -> refs s b < 2 ^ 32 -> (refs s b = 1 -> view s b = dblk (disk s) b) ->
  wp (brelse i) (fun _ s' => binv s' /\ same_dev s s' /\
    (forall b', babs s' b' = if decide (b' = b) then (refs s b - 1, false, view s b) else babs s b') /\
    (forall j b', j <> i -> held s j b' -> held s' j b')) s.
Proof.
  intros Hb Hh Hmax Hclean. destruct (held_ref _ _ _ Hb Hh) as [E Hpos]. injection E as Er El Ev.
  pose proof Hh as (Hi & Hl & Hr). pose proof (bi_len _ Hb) as Hlen.
  destruct (bi_wf _ Hb i (proj1 Hi)) as (W1 & W2 & W3 & W4).
  unfold brelse. bio_steps. rewrite (holding_held s i b Hh). simpl negb. cbv iota.
  bio_steps. rewrite upd_upd. set (f := decr_ref ∘ _). destruct Hi as (Hi & Hd & Hbn).
  rewrite upd_at by lia.
  assert (b_refcnt (f (bufs s !!! i)) = refs s b - 1) as Ef.
  { unfold f, decr_ref. cbn. rewrite u32_small; lia. }
  destruct (binv_upd s i f b) as (H1 & H2 & H3); try done.
  { split_and!; [lia|done|done|]. intros Hz. split; [done|]. intros _. cbn.
    rewrite <- Ev, Hbn. apply Hclean. lia. }
  assert (forall b', babs (upd i f s) b' =
    if decide (b' = b) then (refs s b - 1, false, view s b) else babs s b') as H3'.
  { intros b'. rewrite H3. destruct (decide (b' = b)); [|done]. unfold binfo. rewrite Ef, Ev. done. }
  assert (forall j b', j <> i -> held s j b' -> held (upd i f s) j b') as H4.
  { intros j b' Hne Hj. by apply held_upd. }
  rewrite Ef. destruct (Z.eqb_spec (refs s b - 1) 0) as [Hz|Hnz]; unfold when; [|by bio_steps].
  eapply wp_mono; [rewrite <- (upd_at s i f) by lia; by apply wp_relink|].
  intros [] s' [Hsc (l & Hring & Hperm)]. destruct (binv_cores _ _ _ H1 Hsc Hring Hperm) as (B1 & B2 & B3).
  pose proof Hsc as (C1 & C2 & C3 & _ & Hc). split_and!; try done.
  - intros b'. by rewrite B3, H3'.
  - intros j b' Hne Hj. destruct (H4 j b' Hne Hj) as (? & ? & ?). unfold held.
    rewrite B2, C3. destruct (core_fields _ _ (Hc j)) as (_ & _ & _ & -> & -> & _). done.
Qed.

Lemma bpin_spec s i b :
  binv s -> held s i b -> refs s b < 2 ^ 32 - 1 ->
  wp (bpin i) (fun _ s' => binv s' /\ same_dev s s' /\
    (forall b', babs s' b' = if decide (b' = b) then (refs s b + 1, true, view s b) else babs s b') /\
    (forall j b', held s j b' -> held s' j b')) s.
Proof.
  intros Hb Hh Hmax. destruct (held_ref _ _ _ Hb Hh) as [E Hpos]. injection E as Er El Ev.
  pose proof Hh as (Hi & Hl & Hr). destruct (bi_wf _ Hb i (proj1 Hi)) as (W1 & W2 & W3 & W4).
  assert (b_refcnt (incr_ref (bufs s !!! i)) = refs s b + 1) as Ef.
  { unfold incr_ref. cbn. rewrite u32_small; lia. }
  unfold bpin. bio_steps. destruct (binv_upd s i incr_ref b) as (H1 & H2 & H3); try done.
  { split_and!; [lia|done|intros _; apply Hi|lia]. }
  split_and!; try done.
  - intros b'. rewrite H3. destruct (decide (b' = b)); [|done].
    unfold binfo. rewrite Ef. cbn. rewrite Hl, Ev. done.
  - intros j b' Hj. apply held_keep; try done; [apply Hi|lia].
Qed.

Lemma bunpin_spec s i b :
  binv s -> held s i b -> 1 < refs s b < 2 ^ 32 ->
  wp (bunpin i) (fun _ s' => binv s' /\ same_dev s s' /\
    (forall b', babs s' b' = if decide (b' = b) then (refs s b - 1, true, view s b) else babs s b') /\
    (forall j b', held s j b' -> held s' j b')) s.
Proof.
  intros Hb Hh Hmax. destruct (held_ref _ _ _ Hb Hh) as [E Hpos]. injection E as Er El Ev.
  pose proof Hh as (Hi & Hl & Hr). destruct (bi_wf _ Hb i (proj1 Hi)) as (W1 & W2 & W3 & W4).
  assert (b_refcnt (decr_ref (bufs s !!! i)) = refs s b - 1) as Ef.
  { unfold decr_ref. cbn. rewrite u32_small; lia. }
  unfold bunpin. bio_steps. destruct (binv_upd s i decr_ref b) as (H1 & H2 & H3); try done.
  { split_and!; [lia|done|intros _; apply Hi|lia]. }
  split_and!; try done.
  - intros b'. rewrite H3. destruct (decide (b' = b)); [|done].
    unfold binfo. rewrite Ef. cbn. rewrite Hl, Ev. done.
  - intros j b' Hj. apply held_keep; try done; [apply Hi|lia].
Qed.

(** With fewer than [NBUF] blocks in use a buffer is free. *)
Lemma room_free s (R : list Z) :
  binv s -> (forall b, refs s b <> 0 -> b ∈ R) -> (length R < NBUF)%nat -> has_free s.
Proof.
  intros Hb HR Hlen.
  destruct (decide (Exists (fun i => b_refcnt (bufs s !!! i) = 0) (seq 0 NBUF))) as [He|Hn].
  { apply Exists_exists in He as (i & Hi%elem_of_seq & ?). exists i. split; [lia|done]. }
  exfalso. rewrite Exists_exists in Hn.
  assert (forall i, (i < NBUF)%nat -> holds s i (b_blockno (bufs s !!! i)) /\ b_refcnt (bufs s !!! i) <> 0) as Hall.
  { intros i Hi. destruct (bi_wf _ Hb i Hi) as (_ & _ & W3 & _).
    assert (b_refcnt (bufs s !!! i) <> 0) as Hr.
    { intros Hz. apply Hn. exists i. split; [apply elem_of_seq; lia|done]. }
    split; [|done]. split_and!; auto. }
  set (B := (fun i => b_blockno (bufs s !!! i)) <$> seq 0 NBUF).
  assert (NoDup B) as HndB.
  { apply NoDup_fmap_2_strong; [|apply NoDup_seq].
    intros i j Hi%elem_of_seq Hj%elem_of_seq E. apply (bi_uniq _ Hb i j (b_blockno (bufs s !!! i))).
    - apply Hall. lia.
    - rewrite E. apply Hall. lia. }
  assert (B ⊆+ R) as Hsub.
  { apply NoDup_submseteq; [done|]. intros b (i & -> & Hi%elem_of_seq)%list_elem_of_fmap.
    destruct (Hall i) as [Hh Hr]; [lia|]. apply HR.
    pose proof (babs_holds s i _ (bi_uniq _ Hb) Hh) as E. injection E as -> _ _. done. }
  apply submseteq_length in Hsub. unfold B in Hsub. rewrite length_fmap, length_seq in Hsub. lia.
Qed.

(** ** Initialisation *)

(** The memory of the cache when the kernel starts: all zero. *)
Definition zero_bufs (d : gmap Z block) (pid : Z) : bst :=
  Bst (replicate (S NBUF) inhabitant) d [] pid.

Lemma binit_run d pid : exists s, binit (zero_bufs d pid) = Ok tt s /\
  disk s = d /\ hist s = [] /\ curpid s = pid /\ length (bufs s) = S NBUF /\
  ring (nx s) (pv s) head (reverse (seq 0 NBUF)) /\ Forall (fun x => core x = inhabitant) (bufs s).
Proof.
  eexists. split; [vm_compute; reflexivity|]. split_and!; try done. repeat constructor.
Qed.

Lemma binit_spec d pid :
  wp binit (fun _ s => binv s /\ disk s = d /\ hist s = [] /\ curpid s = pid /\
    forall b, babs s b = (0, false, dblk d b)) (zero_bufs d pid).
Proof.
  destruct (binit_run d pid) as (s & Hrun & <- & Hh & Hpid & Hlen & Hr & Hc).
  eapply wp_intro; [exact Hrun|]. rewrite Forall_forall in Hc.
  assert (forall i, (i < NBUF)%nat -> core (bufs s !!! i) = core inhabitant) as Hc'.
  { intros i Hi. apply Hc, list_elem_of_lookup_total_2. lia. }
  assert (forall i b, ~ holds s i b) as Hno.
  { intros i b (Hi & Hd & _). by rewrite (proj1 (proj2 (core_fields _ _ (Hc' i Hi)))) in Hd. }
  split; [|split_and!; [done|done|done|]].
  - split; [done| | |].
    + exists (reverse (seq 0 NBUF)). split; [done|]. apply reverse_Permutation.
    + intros i j b Hi. by destruct (Hno i b).
    + intros i Hi. unfold bwf. destruct (core_fields _ _ (Hc' i Hi)) as (-> & -> & -> & -> & -> & ->).
      split_and!; [done|intros E; discriminate E|intros E; exfalso; exact (E eq_refl)|].
      intros _. split; [done|]. intros E. discriminate E.
  - intros b. apply babs_none. intros i. apply Hno.
Qed.

(** A block nobody refers to is as on disk. *)
Lemma refs0_clean s b : binv s -> refs s b = 0 -> view s b = dblk (disk s) b.
Proof.
  intros Hb. unfold refs, view. destruct (cached s b) as [i|] eqn:E; [|done].
  intros Hr. pose proof (cached_Some _ _ _ E) as (Hi & Hd & <-).
  destruct (bi_wf _ Hb i Hi) as (_ & _ & _ & W4). by apply W4.
Qed.
