(* ===== verification/Log.v ===== *)
(** * The write-ahead log (kernel/log.c)

    The in-memory log header, the counters of running operations and the routines
    that commit, install and recover transactions, on top of the buffer cache. *)

From stdpp Require Import base list gmap strings.
From Stdlib Require Import ZArith Lia.
From S2P Require Import Prelude Mem Sleeplock Bio.

#[local] Open Scope Z_scope.

(** [struct log] and the embedded [struct logheader]. *)
Record log : Type := Log {
  l_start : Z;
  l_size : Z;
  l_outstanding : Z;
  l_committing : Z;
  l_dev : Z;
  lh_n : Z;
  lh_block : list Z;  (* LOGSIZE entries *)
}.

Record lst : Type := Lst { lbio : bst; llog : log }.

Definition set_lbio (b : bst) (s : lst) : lst := Lst b (llog s).
Definition set_llog (f : log -> log) (s : lst) : lst := Lst (lbio s) (f (llog s)).

Definition set_geometry (start size dev : Z) (l : log) : log :=
  Log start size (l_outstanding l) (l_committing l) dev (lh_n l) (lh_block l).
Definition set_outstanding (n : Z) (l : log) : log :=
  Log (l_start l) (l_size l) n (l_committing l) (l_dev l) (lh_n l) (lh_block l).
Definition set_committing (n : Z) (l : log) : log :=
  Log (l_start l) (l_size l) (l_outstanding l) n (l_dev l) (lh_n l) (lh_block l).
Definition set_lh_n (n : Z) (l : log) : log :=
  Log (l_start l) (l_size l) (l_outstanding l) (l_committing l) (l_dev l) n (lh_block l).
Definition set_lh_block (i v : Z) (l : log) : log :=
  Log (l_start l) (l_size l) (l_outstanding l) (l_committing l) (l_dev l) (lh_n l)
    (<[Z.to_nat i := v]> (lh_block l)).

Definition bio {A} (c : M bst A) : M lst A := zoom lbio set_lbio c.
Definition getl {A} (f : log -> A) : M lst A := gets (fun s => f (llog s)).
Definition updl (f : log -> log) : M lst unit := modify (set_llog f).

(** [log.lh.block[i]]. *)
Definition lh_blk (i : Z) (l : log) : Z := lh_block l !!! Z.to_nat i.

(** The header as stored in a block: [n], then the block numbers. *)
Definition hdr_n (d : block) : Z := s32 (rd32 d 0).
Definition hdr_block (d : block) (i : Z) : Z := s32 (rd32 d (4 + 4 * i)).

(** ** Installing and recovering *)

Definition install_trans (recovering : bool) : M lst unit :=
  n <- getl lh_n ;;
  for_ 0 (Z.to_nat n) (fun tail =>
    dev <- getl l_dev ;;
    start <- getl l_start ;;
    lbuf <- bio (bread dev (u32 (start + tail + 1))) ;;
    blk <- getl (lh_blk tail) ;;
    dbuf <- bio (bread dev (u32 blk)) ;;
    x <- bio (getb lbuf) ;;
    bio (write_data dbuf (fun _ => b_data x)) ;;;
    bio (bwrite dbuf) ;;;
    when (negb recovering) (bio (bunpin dbuf)) ;;;
    bio (brelse lbuf) ;;;
    bio (brelse dbuf)).

Definition read_head : M lst unit :=
  dev <- getl l_dev ;;
  start <- getl l_start ;;
  buf <- bio (bread dev (u32 start)) ;;
  x <- bio (getb buf) ;;
  updl (set_lh_n (hdr_n (b_data x))) ;;;
  n <- getl lh_n ;;
  for_ 0 (Z.to_nat n) (fun i => updl (set_lh_block i (hdr_block (b_data x) i))) ;;;
  bio (brelse buf).

Definition write_head : M lst unit :=
  dev <- getl l_dev ;;
  start <- getl l_start ;;
  buf <- bio (bread dev (u32 start)) ;;
  n <- getl lh_n ;;
  bio (write_data buf (fun d => wr32 d 0 (u32 n))) ;;;
  for_ 0 (Z.to_nat n) (fun i =>
    v <- getl (lh_blk i) ;;
    bio (write_data buf (fun d => wr32 d (4 + 4 * i) (u32 v)))) ;;;
  bio (bwrite buf) ;;;
  bio (brelse buf).

Definition recover_from_log : M lst unit :=
  read_head ;;;
  install_trans true ;;;
  updl (set_lh_n 0) ;;;
  write_head.

(** [sb->logstart] and [sb->nlog] are the arguments; the test on the size of the
    header is decided at compile time. *)
Definition sizeof_logheader : Z := 4 + 4 * LOGSIZE.
Definition initlog (dev logstart nlog : Z) : M lst unit :=
  if BSIZE <=? sizeof_logheader then panic "initlog: too big logheader"
  else
    updl (set_geometry (s32 logstart) (s32 nlog) dev) ;;;
    recover_from_log.

(** ** Operations *)

(** One pass of the loop of [begin_op]: [false] when the caller must sleep. *)
Definition begin_pass : M lst bool :=
  committing <- getl l_committing ;;
  if nz committing then ret false
  else
    n <- getl lh_n ;;
    outstanding <- getl l_outstanding ;;
    if LOGSIZE <? n + (outstanding + 1) * MAXOPBLOCKS then ret false
    else updl (set_outstanding (outstanding + 1)) ;;; ret true.

(** [begin_op] for a caller that is alone: it sleeps forever if it has to wait. *)
Definition begin_op : M lst unit :=
  ok <- begin_pass ;;
  if ok : bool then ret tt else hang.

Definition write_log : M lst unit :=
  n <- getl lh_n ;;
  for_ 0 (Z.to_nat n) (fun tail =>
    dev <- getl l_dev ;;
    start <- getl l_start ;;
    to <- bio (bread dev (u32 (start + tail + 1))) ;;
    blk <- getl (lh_blk tail) ;;
    from <- bio (bread dev (u32 blk)) ;;
    x <- bio (getb from) ;;
    bio (write_data to (fun _ => b_data x)) ;;;
    bio (bwrite to) ;;;
    bio (brelse from) ;;;
    bio (brelse to)).

Definition commit : M lst unit :=
  n <- getl lh_n ;;
  when (0 <? n)
    (write_log ;;;
     write_head ;;;
     install_trans false ;;;
     updl (set_lh_n 0) ;;;
     write_head).

Definition end_op : M lst unit :=
  outstanding <- getl l_outstanding ;;
  updl (set_outstanding (outstanding - 1)) ;;;
  committing <- getl l_committing ;;
  if nz committing then panic "log.committing"
  else
    outstanding <- getl l_outstanding ;;
    when (outstanding =? 0)
      (updl (set_committing 1) ;;;
       commit ;;;
       updl (set_committing 0)).

(** The first index of [lh.block] below [n] that contains [b], or [n]. *)
Fixpoint absorb (bs : list Z) (b : Z) (n : nat) : nat :=
  match n, bs with
  | S n', x :: bs' => if u32 x =? b then O else S (absorb bs' b n')
  | _, _ => O
  end.

Definition log_write (b : nat) : M lst unit :=
  n <- getl lh_n ;;
  size <- getl l_size ;;
  if (LOGSIZE <=? n) || (size - 1 <=? n) then panic "too big a transaction"
  else
    outstanding <- getl l_outstanding ;;
    if outstanding <? 1 then panic "log_write outside of trans"
    else
      x <- bio (getb b) ;;
      bs <- getl lh_block ;;
      let i := Z.of_nat (absorb bs (b_blockno x) (Z.to_nat n)) in
      updl (set_lh_block i (s32 (b_blockno x))) ;;;
      when (i =? n)
        (bio (bpin b) ;;;
         updl (set_lh_n (n + 1))).
