(* ===== verification/LogInv.v ===== *)
(** * Correctness of the log

    The invariant of the log between file-system operations, the writes a commit
    sends to the disk, and crash safety: after a crash at any point of a commit,
    recovery leaves the disk with all of the transaction or none of it. *)

From stdpp Require Import base list gmap strings.
From Stdlib Require Import ZArith Lia.
From S2P Require Import Prelude Mem Sleeplock Bio BioInv Log.

#[local] Open Scope Z_scope.

Lemma wp_bio {A} (c : M bst A) Q s :
  wp c (fun a b => Q a (Lst b (llog s))) (lbio s) -> wp (bio c) Q s.
Proof. apply (wp_zoom lbio set_lbio). Qed.
Lemma wp_getl {A} (f : log -> A) Q s : Q (f (llog s)) s -> wp (getl f) Q s.
Proof. done. Qed.
Lemma wp_updl f Q s : Q tt (Lst (lbio s) (f (llog s))) -> wp (updl f) Q s.
Proof. done. Qed.

Ltac log_step :=
  match goal with
  | |- wp (bind _ _) _ _ => apply wp_bind
  | |- wp (ret _) _ _ => apply wp_ret
  | |- wp (getl _) _ _ => apply wp_getl
  | |- wp (updl _) _ _ => apply wp_updl
  | |- wp (bio _) _ _ => apply wp_bio
  end.
Ltac log_steps := repeat log_step; cbn [llog lbio].

Lemma babs_eq s b r l v : babs s b = (r, l, v) <-> refs s b = r /\ lockd s b = l /\ view s b = v.
Proof. unfold babs. split; [intros E; by injection E|by intros (-> & -> & ->)]. Qed.

(** ** Copying one block to another through the cache *)

(** Only the blocks in [R] are in use. *)
Definition in_use (s : bst) (R : list Z) : Prop := forall b, refs s b <> 0 -> b ∈ R.

Section copy.
Context (s : bst) (x y : Z).
Hypothesis (Hb : binv s) (Hxy : x <> y).
Hypothesis (Hlx : lockd s x = false) (Hly : lockd s y = false).
Hypothesis (Hrx : refs s x < 2 ^ 31) (Hry : refs s y < 2 ^ 31).

(** Both blocks have been read and are locked. *)
Definition both (i j : nat) (s2 : bst) : Prop :=
  binv s2 /\ held s2 i x /\ held s2 j y /\ i <> j /\ same_dev s s2 /\
  forall b, babs s2 b = if decide (b = x) then (refs s x + 1, true, view s x)
    else if decide (b = y) then (refs s y + 1, true, view s y) else babs s b.

Lemma bread_first R :
  in_use s R -> (length R < NBUF)%nat -> wp (bread ROOTDEV x) (fun i s1 => bread_post s x i s1) s.
Proof.
  intros HR Hlen. apply bread_spec; [done|done|lia|]. right. by eapply room_free.
Qed.

Lemma bread_second R i s1 :
  bread_post s x i s1 -> in_use s R -> refs s y <> 0 \/ (length R < NBUF - 1)%nat ->
  wp (bread ROOTDEV y) (fun j s2 => both i j s2) s1.
Proof.
  intros (Hb1 & Hi & Hd1 & Ha1 & _) HR Hroom.
  assert (babs s1 y = babs s y) as Ey by (by rewrite Ha1, decide_False).
  apply babs_eq in Ey as (Ery & Ely & Evy).
  eapply wp_mono; [apply bread_spec; [done|congruence|rewrite Ery; lia|]|].
  - rewrite Ery. destruct Hroom as [?|Hroom]; [by left|right].
    apply (room_free s1 (x :: R)); [done| |simpl; lia].
    intros b Hr. specialize (Ha1 b). destruct (decide (b = x)) as [->|]; [by left|].
    right. apply HR. apply babs_eq in Ha1 as [<- _]. done.
  - intros j s2 (Hb2 & Hj & Hd2 & Ha2 & Hk2). split_and!; try done.
    + by apply Hk2.
    + intros <-. destruct Hj as ((_ & _ & Hjy) & _). destruct (Hk2 i x Hi) as ((_ & _ & Hix) & _). congruence.
    + destruct Hd1 as (? & ? & ?), Hd2 as (? & ? & ?). split_and!; congruence.
    + intros b. rewrite Ha2, Ery, Evy. destruct (decide (b = y)) as [->|].
      * by rewrite decide_False by done.
      * rewrite Ha1. done.
Qed.

End copy.

(** Overwriting the locked block [dst] with the locked block [src], on disk too,
    and releasing both; [unpin] drops one reference of [dst] on the way. *)
Lemma wp_overwrite s i j dst src unpin :
  binv s -> held s i dst -> held s j src -> i <> j -> dst <> src ->
  refs s dst < 2 ^ 32 -> refs s src < 2 ^ 32 -> (refs s src = 1 -> view s src = dblk (disk s) src) ->
  (if unpin : bool then 1 < refs s dst else True) ->
  wp (z <- getb j ;;
      write_data i (fun _ => b_data z) ;;;
      bwrite i ;;;
      when unpin (bunpin i) ;;;
      brelse j ;;;
      brelse i)
    (fun _ s' => binv s' /\ disk s' = <[dst := view s src]> (disk s) /\
       hist s' = hist s ++ [(dst, view s src)] /\ curpid s' = curpid s /\
       forall b, babs s' b = if decide (b = dst)
         then (refs s dst - 1 - (if unpin then 1 else 0), false, view s src)
         else if decide (b = src) then (refs s src - 1, false, view s src) else babs s b) s.
Proof.
  intros Hb Hi Hj Hij Hds Hmd Hms Hsrc Hun.
  apply wp_bind, wp_getb. destruct (held_ref _ _ _ Hb Hj) as [E Hposs].
  apply babs_eq in E as (_ & _ & Evj). rewrite <- Evj.
  apply wp_bind. eapply wp_mono; [by apply (write_data_spec s i dst)|].
  intros [] s1 (Hb1 & Hd1 & Ha1 & Hk1).
  apply wp_bind. eapply wp_mono; [by apply (bwrite_spec s1 i dst); [|apply Hk1]|].
  intros [] s2 (Hb2 & Hdisk2 & Hh2 & Hp2 & Ha2 & Hk2).
  pose proof (Ha1 dst) as Ed. rewrite decide_True in Ed by done.
  apply babs_eq in Ed as (Erd & _ & Evd). rewrite Evd in Hdisk2, Hh2.
  destruct Hd1 as (D1 & D2 & D3). rewrite D1 in Hdisk2. rewrite D2 in Hh2.
  assert (forall b, babs s2 b = if decide (b = dst) then (refs s dst, true, view s src) else babs s b) as A2.
  { intros b. by rewrite Ha2, Ha1. }
  assert (held s2 i dst /\ held s2 j src) as [Hi2 Hj2] by auto. clear Ha1 Ha2 Hk1 Hk2.
  (* the optional unpin *)
  apply wp_bind. set (u := if unpin then 1 else 0).
  apply (wp_mono _ (fun _ s3 => binv s3 /\ same_dev s2 s3 /\ held s3 i dst /\ held s3 j src /\
    forall b, babs s3 b = if decide (b = dst) then (refs s dst - u, true, view s src) else babs s b)).
  { pose proof (A2 dst) as E. rewrite decide_True in E by done. apply babs_eq in E as (E1 & _ & E3).
    destruct unpin; unfold when.
    - eapply wp_mono; [apply (bunpin_spec s2 i dst); [done|done|lia]|].
      intros [] s3 (Hb3 & Hd3 & Ha3 & Hk3). split_and!; auto.
      intros b. rewrite Ha3, E1, E3. destruct (decide (b = dst)); [done|]. by rewrite A2, decide_False.
    - apply wp_ret. split_and!; try done. intros b. rewrite A2. unfold u.
      by rewrite Z.sub_0_r. }
  intros [] s3 (Hb3 & (T1 & T2 & T3) & Hi3 & Hj3 & A3). clear A2.
  pose proof (A3 src) as Es. rewrite decide_False in Es by done. apply babs_eq in Es as (Ers & _ & Evs).
  apply wp_bind. eapply wp_mono; [apply (brelse_spec s3 j src); [done|done|lia|]|].
  { intros Hone. rewrite Evs, T1, Hdisk2, dblk_insert, decide_False by done. apply Hsrc. congruence. }
  intros [] s4 (Hb4 & (S1 & S2 & S3) & Ha4 & Hk4).
  pose proof (Ha4 dst) as Ed4. rewrite decide_False, A3, decide_True in Ed4 by done.
  apply babs_eq in Ed4 as (Erd4 & _ & Evd4).
  eapply wp_mono; [apply (brelse_spec s4 i dst); [done|by apply Hk4|destruct unpin; lia|]|].
  { intros _. by rewrite Evd4, S1, T1, Hdisk2, dblk_insert, decide_True. }
  intros [] s5 (Hb5 & (R1 & R2 & R3) & Ha5 & _). split_and!; try congruence.
  intros b. rewrite Ha5, Erd4, Evd4. destruct (decide (b = dst)) as [->|Hne].
  - f_equal. f_equal. unfold u. destruct unpin; lia.
  - rewrite Ha4, Ers, Evs. destruct (decide (b = src)); [done|]. by rewrite A3, decide_False.
Qed.

(** The same sequence as the log issues it. *)
Lemma wp_overwrite_log s i j unpin Q :
  wp (z <- getb j ;; write_data i (fun _ => b_data z) ;;; bwrite i ;;;
      when unpin (bunpin i) ;;; brelse j ;;; brelse i) (fun a b => Q a (Lst b (llog s))) (lbio s) ->
  wp (z <- bio (getb j) ;; bio (write_data i (fun _ => b_data z)) ;;; bio (bwrite i) ;;;
      when unpin (bio (bunpin i)) ;;; bio (brelse j) ;;; bio (brelse i)) Q s.
Proof.
  intros H. do 3 (log_steps; apply wp_bind_inv in H; eapply wp_mono; [exact H|clear H; cbv beta; intros ?? H]).
  apply wp_bind_inv in H. apply wp_bind. destruct unpin; unfold when in *.
  1: log_steps; eapply wp_mono; [exact H|clear H; cbv beta; intros ?? H].
  2: apply wp_ret; change (wp (brelse j ;;; brelse i) (fun a b => Q a (Lst b (llog s))) s'1) in H.
  all: log_steps; apply wp_bind_inv in H; eapply wp_mono; [exact H|clear H; cbv beta; intros ?? H].
  all: log_steps; exact H.
Qed.

(** ... and without the step that unpins. *)
Lemma wp_overwrite_log' s i j Q :
  wp (z <- getb j ;; write_data i (fun _ => b_data z) ;;; bwrite i ;;;
      when false (bunpin i) ;;; brelse j ;;; brelse i) (fun a b => Q a (Lst b (llog s))) (lbio s) ->
  wp (z <- bio (getb j) ;; bio (write_data i (fun _ => b_data z)) ;;; bio (bwrite i) ;;;
      bio (brelse j) ;;; bio (brelse i)) Q s.
Proof.
  intros H. do 3 (log_steps; apply wp_bind_inv in H; eapply wp_mono; [exact H|clear H; cbv beta; intros ?? H]).
  apply wp_bind_inv in H. unfold when in H.
  change (wp (brelse j ;;; brelse i) (fun a b => Q a (Lst b (llog s))) s'1) in H.
  log_steps; apply wp_bind_inv in H; eapply wp_mono; [exact H|clear H; cbv beta; intros ?? H].
  log_steps; exact H.
Qed.

(** ** The invariant of the log *)

(** The blocks of the current transaction. *)
Definition txn (l : log) : list Z := take (Z.to_nat (lh_n l)) (lh_block l).

Definition in_log (l : log) (b : Z) : Prop := l_start l <= b < l_start l + l_size l.

(** The geometry [initlog] reads from the super block. *)
Definition geometry (l : log) : Prop :=
  l_dev l = ROOTDEV /\ 0 <= l_start l /\ 1 <= l_size l /\ l_start l + l_size l + LOGSIZE < 2 ^ 31 /\
  length (lh_block l) = Z.to_nat LOGSIZE.

(** A block that may be logged. *)
Definition home (l : log) (b : Z) : Prop := 0 <= b < 2 ^ 31 /\ ~ in_log l b.

#[global] Instance in_log_dec l b : Decision (in_log l b).
Proof. unfold in_log. apply _. Defined.

Definition count (b : Z) (l : list Z) : Z := if decide (b ∈ l) then 1 else 0.

(** [H] are the blocks whose buffers the running operation holds. *)
Record linv (s : lst) (H : list Z) : Prop := {
  li_bio : binv (lbio s);
  li_geo : geometry (llog s);
  li_n : 0 <= lh_n (llog s) <= l_size (llog s) - 1 /\ lh_n (llog s) < LOGSIZE;
  li_txn : NoDup (txn (llog s)) /\ Forall (home (llog s)) (txn (llog s));
  li_refs : forall b, refs (lbio s) b = count b (txn (llog s)) + count b H;
  li_lock : forall b, lockd (lbio s) b = bool_decide (b ∈ H);
  li_hdr : hdr_n (dblk (disk (lbio s)) (l_start (llog s))) = 0;
}.

Lemma u32_s32 b : 0 <= b < 2 ^ 31 -> s32 b = b /\ u32 b = b.
Proof. intros. split; [apply s32_small|apply u32_small]; lia. Qed.

(** ** Writes *)

(** The effect of a sequence of block writes on the disk. *)
Definition apply_writes (ws : list (Z * block)) (d : gmap Z block) : gmap Z block :=
  fold_left (fun d w => <[w.1 := w.2]> d) ws d.

Lemma apply_writes_app ws1 ws2 d : apply_writes (ws1 ++ ws2) d = apply_writes ws2 (apply_writes ws1 d).
Proof. apply fold_left_app. Qed.

(** What [write_log] and [install_trans] write when block [b] has contents [V b]. *)
Definition log_writes (l : log) (V : Z -> block) : list (Z * block) :=
  imap (fun i b => (l_start l + Z.of_nat i + 1, V b)) (txn l).
Definition inst_writes (l : log) (V : Z -> block) : list (Z * block) :=
  (fun b => (b, V b)) <$> txn l.

(** The header block written over [d]. *)
Fixpoint enc_head (l : log) (k : nat) (d : block) : block :=
  match k with
  | O => wr32 d 0 (u32 (lh_n l))
  | S k' => wr32 (enc_head l k' d) (4 + 4 * Z.of_nat k') (u32 (lh_blk (Z.of_nat k') l))
  end.
Definition new_head (l : log) (d : block) : block := enc_head l (Z.to_nat (lh_n l)) d.

Lemma txn_lookup l i : geometry l -> 0 <= lh_n l <= LOGSIZE -> 0 <= i < lh_n l ->
  txn l !! Z.to_nat i = Some (lh_blk i l).
Proof.
  intros (_ & _ & _ & _ & Hlen) Hn Hi. unfold txn, lh_blk.
  rewrite lookup_take_lt by lia. apply list_lookup_lookup_total_lt. lia.
Qed.

Lemma length_txn l : geometry l -> 0 <= lh_n l <= LOGSIZE -> length (txn l) = Z.to_nat (lh_n l).
Proof. intros (_ & _ & _ & _ & Hlen) Hn. unfold txn. rewrite length_take. lia. Qed.

Lemma log_writes_lookup l V i b : txn l !! i = Some b ->
  log_writes l V !! i = Some (l_start l + Z.of_nat i + 1, V b).
Proof. intros H. unfold log_writes. by rewrite list_lookup_imap, H. Qed.

Lemma inst_writes_lookup l V i b : txn l !! i = Some b -> inst_writes l V !! i = Some (b, V b).
Proof. intros H. unfold inst_writes. by rewrite list_lookup_fmap, H. Qed.

(** One more write of a list. *)
Lemma apply_writes_S ws k w d : ws !! k = Some w ->
  apply_writes (take (S k) ws) d = <[w.1 := w.2]> (apply_writes (take k ws) d).
Proof. intros H. by rewrite (take_S_r _ _ _ H), apply_writes_app. Qed.

(** ** write_log *)

Section write_log.
Context (s : lst).
Hypothesis Hinv : linv s [].

Abbreviation l := (llog s).

(** After [k] passes the first [k] log blocks hold the blocks of the transaction. *)
Definition logged (k : Z) (s' : lst) : Prop :=
  llog s' = l /\ binv (lbio s') /\ curpid (lbio s') = curpid (lbio s) /\
  hist (lbio s') = hist (lbio s) ++ take (Z.to_nat k) (log_writes l (view (lbio s))) /\
  disk (lbio s') = apply_writes (take (Z.to_nat k) (log_writes l (view (lbio s)))) (disk (lbio s)) /\
  forall b, babs (lbio s') b = if decide (l_start l < b <= l_start l + k)
    then (0, false, view (lbio s) (lh_blk (b - l_start l - 1) l)) else babs (lbio s) b.

Lemma write_log_spec : wp write_log (fun _ s' => logged (lh_n l) s') s.
Proof using Hinv.
  destruct Hinv as [Hb Hgeo Hn [Hnd Hhome] Hrefs Hlock Hhdr].
  pose proof Hgeo as (Hdev & Hst & Hsz & Hmax & Hlen). unfold LOGSIZE, MAXOPBLOCKS in *.
  unfold write_log. apply wp_bind, wp_getl.
  eapply wp_mono; [apply (wp_for logged)|].
  - split_and!; rewrite ?app_nil_r; try done. intros b. case_decide; [lia|done].
  - intros k st Hk (El & Hbst & Hpid & Hhist & Hdisk & Ha).
    rewrite Z2Nat.id in Hk by lia. log_steps. rewrite El, Hdev.
    pose proof (txn_lookup l k Hgeo ltac:(unfold LOGSIZE, MAXOPBLOCKS; lia) ltac:(lia)) as Htx.
    set (y := lh_blk k l) in *. set (x := l_start l + k + 1).
    assert (home l y) as [Hy1 Hy2] by (by eapply Forall_lookup_1).
    assert (x ∉ txn l) as Hxt.
    { intros Hx. rewrite Forall_forall in Hhome. destruct (Hhome x Hx) as [_ []]. unfold in_log, x. lia. }
    assert (y ∈ txn l) as Hyt by (by eapply list_elem_of_lookup_2).
    assert (x <> y) as Hxy by congruence.
    pose proof (Ha x) as Ex. rewrite decide_False in Ex by (unfold x; lia).
    pose proof (Ha y) as Ey. rewrite decide_False in Ey by (unfold in_log in Hy2; lia).
    apply babs_eq in Ex as (Erx & Elx & Evx), Ey as (Ery & Ely & Evy).
    rewrite Hrefs in Erx, Ery. rewrite Hlock in Elx, Ely. unfold count in Erx, Ery.
    rewrite !decide_False in Erx by (done || apply not_elem_of_nil).
    rewrite decide_True, decide_False in Ery by (done || apply not_elem_of_nil).
    rewrite bool_decide_eq_false_2 in Elx, Ely by apply not_elem_of_nil.
    assert (in_use (lbio st) (txn l)) as Huse.
    { intros b Hr. specialize (Ha b). case_decide.
      - by apply babs_eq in Ha as [? _].
      - apply babs_eq in Ha as [E _]. rewrite E, Hrefs in Hr. unfold count in Hr.
        rewrite (decide_False (P := b ∈ [])) in Hr by apply not_elem_of_nil.
        destruct (decide (b ∈ txn l)); [done|lia]. }
    assert (length (txn l) < NBUF)%nat as Hroom by (rewrite length_txn; unfold LOGSIZE, MAXOPBLOCKS, NBUF; [lia|done|lia]).
    rewrite (u32_small x) by (unfold x; lia).
    eapply wp_mono; [eapply (bread_first (lbio st) x); try done; lia|].
    intros i s1 Hpost. log_steps. fold y. rewrite (u32_small y) by lia.
    eapply wp_mono; [eapply (bread_second (lbio st) x y); try done; [lia|left; lia]|].
    intros j s2 (Hb2 & Hi2 & Hj2 & Hij & (D1 & D2 & D3) & Ha2).
    pose proof (Ha2 x) as Ex2. rewrite decide_True in Ex2 by done.
    pose proof (Ha2 y) as Ey2. rewrite decide_False, decide_True in Ey2 by done.
    apply babs_eq in Ex2 as (Erx2 & _ & _), Ey2 as (Ery2 & _ & Evy2).
    apply wp_overwrite_log'. eapply wp_mono; [apply (wp_overwrite s2 i j x y false); try done; lia|].
    intros [] s3 (Hb3 & Hd3 & Hh3 & Hp3 & Ha3).
    rewrite Evy2, Evy in Hd3, Hh3, Ha3. rewrite Erx2, Ery2 in Ha3.
    pose proof (log_writes_lookup l (view (lbio s)) _ _ Htx) as Hw. rewrite Z2Nat.id in Hw by lia. fold x in Hw.
    assert (Z.to_nat (k + 1) = S (Z.to_nat k)) as Ek by lia.
    split_and!; cbn [lbio llog]; rewrite ?Ek.
    + done.
    + done.
    + congruence.
    + rewrite Hh3, D2, Hhist, (take_S_r _ _ _ Hw), <- app_assoc. done.
    + rewrite Hd3, D1, Hdisk, (apply_writes_S _ _ _ _ Hw). done.
    + intros b. rewrite Ha3. destruct (decide (b = x)) as [->|Hbx].
      * rewrite decide_True by (unfold x; lia). f_equal; [f_equal; lia|].
        f_equal. unfold x, y. f_equal. lia.
      * destruct (decide (b = y)) as [->|Hby].
        -- rewrite decide_False by (unfold in_log in Hy2; lia). symmetry. apply babs_eq.
           rewrite Hrefs, Hlock. unfold count. rewrite decide_True by done.
           rewrite decide_False, bool_decide_eq_false_2 by apply not_elem_of_nil. split_and!; [lia|done|done].
        -- rewrite Ha2, !decide_False by done. rewrite Ha. repeat case_decide; try done; unfold x in *; lia.
  - intros [] s'. by rewrite Z2Nat.id by lia.
Qed.
End write_log.

(** ** write_head *)

Lemma write_head_spec s R :
  binv (lbio s) -> geometry (llog s) -> refs (lbio s) (l_start (llog s)) = 0 ->
  lockd (lbio s) (l_start (llog s)) = false -> in_use (lbio s) R -> (length R < NBUF)%nat ->
  wp write_head (fun _ s' =>
    let h := new_head (llog s) (view (lbio s) (l_start (llog s))) in
    llog s' = llog s /\ binv (lbio s') /\ curpid (lbio s') = curpid (lbio s) /\
    hist (lbio s') = hist (lbio s) ++ [(l_start (llog s), h)] /\
    disk (lbio s') = <[l_start (llog s) := h]> (disk (lbio s)) /\
    forall b, babs (lbio s') b = if decide (b = l_start (llog s)) then (0, false, h) else babs (lbio s) b) s.
Proof.
  intros Hb (Hdev & Hst & Hsz & Hmax & Hlen) Hr Hlk Huse Hroom.
  unfold LOGSIZE, MAXOPBLOCKS in Hmax. assert (0 <= l_start (llog s) < 2 ^ 31) as Hx by lia.
  set (x := l_start (llog s)) in *. unfold write_head. log_steps. rewrite Hdev. fold x.
  rewrite u32_small by lia. eapply wp_mono; [eapply (bread_first (lbio s) x); try done; lia|].
  intros i s1 (Hb1 & Hi1 & Hd1 & Ha1 & _). log_steps.
  set (v := view (lbio s) x) in *. rewrite Hr in Ha1.
  (* the counter *)
  eapply wp_mono; [by apply (write_data_spec s1 i x)|].
  intros [] s2 (Hb2 & Hd2 & Ha2 & Hk2).
  pose proof (Ha1 x) as E1. rewrite decide_True in E1 by done. apply babs_eq in E1 as (Er1 & _ & Ev1).
  rewrite Er1, Ev1 in Ha2.
  (* the block numbers *)
  log_step.
  eapply wp_mono; [apply (wp_for (fun k st => llog st = llog s /\ binv (lbio st) /\ held (lbio st) i x /\
    same_dev (lbio s) (lbio st) /\ forall b, babs (lbio st) b =
      if decide (b = x) then (1, true, enc_head (llog s) (Z.to_nat k) v) else babs (lbio s) b))|].
  - split_and!; try done; [by apply Hk2| |].
    + destruct Hd1 as (? & ? & ?), Hd2 as (? & ? & ?). split_and!; cbn; congruence.
    + intros b. cbn. rewrite Ha2. destruct (decide (b = x)); [done|]. by rewrite Ha1, decide_False.
  - intros k st Hk (El & Hbst & Hist & Hdst & Hast). log_steps.
    eapply wp_mono; [by apply (write_data_spec (lbio st) i x)|].
    intros [] s3 (Hb3 & Hd3 & Ha3 & Hk3). cbn [lbio llog].
    pose proof (Hast x) as E. rewrite decide_True in E by done. apply babs_eq in E as (Er & _ & Ev).
    split_and!; try done; [by apply Hk3| |].
    + destruct Hdst as (? & ? & ?), Hd3 as (? & ? & ?). split_and!; cbn; congruence.
    + intros b. rewrite Ha3, Er, Ev, El. destruct (decide (b = x)); [|by rewrite Hast, decide_False].
      replace (Z.to_nat (k + 1)) with (S (Z.to_nat k)) by lia. cbn [enc_head].
      by rewrite Z2Nat.id by lia.
  - intros [] s3 (El & Hb3 & Hi3 & Hd3 & Ha3). rewrite Z.add_0_l, Nat2Z.id in Ha3. cbn [llog] in Ha3.
    fold (new_head (llog s) v) in Ha3. set (h := new_head (llog s) v) in *.
    pose proof (Ha3 x) as E. rewrite decide_True in E by done. apply babs_eq in E as (Er & _ & Ev).
    log_steps. eapply wp_mono; [by apply (bwrite_spec (lbio s3) i x)|].
    intros [] s4 (Hb4 & Hdk4 & Hh4 & Hp4 & Ha4 & Hk4). rewrite Ev in Hdk4, Hh4.
    pose proof (Ha4 x) as E. rewrite Ha3, decide_True in E by done. apply babs_eq in E as (Er4 & _ & Ev4).
    log_steps. eapply wp_mono; [apply (brelse_spec s4 i x); [done|by apply Hk4|lia|]|].
    { intros _. by rewrite Ev4, Hdk4, dblk_insert, decide_True. }
    intros [] s5 (Hb5 & (S1 & S2 & S3) & Ha5 & _). cbn [lbio llog].
    destruct Hd3 as (T1 & T2 & T3). split_and!; try done; try congruence.
    intros b. rewrite Ha5, Er4, Ev4. destruct (decide (b = x)); [done|]. by rewrite Ha4, Ha3, decide_False.
Qed.

(** ** install_trans *)

Section install.
Context (s : lst) (unpin : bool) (V : Z -> block).

Abbreviation l := (llog s).

Hypothesis (Hb : binv (lbio s)) (Hgeo : geometry l).
Hypothesis (Hn : 0 <= lh_n l <= l_size l - 1) (Hn' : lh_n l < LOGSIZE).
Hypothesis (Hnd : NoDup (txn l)) (Hhome : Forall (home l) (txn l)).
Hypothesis Hrefs : forall b, refs (lbio s) b = if unpin then count b (txn l) else 0.
Hypothesis Hlock : forall b, lockd (lbio s) b = false.
Hypothesis HV : forall i b, txn l !! i = Some b -> view (lbio s) (l_start l + Z.of_nat i + 1) = V b.

(** After [k] passes the first [k] blocks of the transaction are installed. *)
Definition installed (k : Z) (s' : lst) : Prop :=
  llog s' = l /\ binv (lbio s') /\ curpid (lbio s') = curpid (lbio s) /\
  hist (lbio s') = hist (lbio s) ++ take (Z.to_nat k) (inst_writes l V) /\
  disk (lbio s') = apply_writes (take (Z.to_nat k) (inst_writes l V)) (disk (lbio s)) /\
  forall b, babs (lbio s') b =
    if decide (b ∈ take (Z.to_nat k) (txn l)) then (0, false, V b) else babs (lbio s) b.

(** The home block of pass [k] has not been touched, and its log block never is. *)
Lemma install_facts k st y :
  installed k st -> 0 <= k < lh_n l -> txn l !! Z.to_nat k = Some y ->
  let x := l_start l + k + 1 in
  x <> y /\ x ∉ txn l /\ 0 <= y < 2 ^ 31 /\ in_use (lbio st) (if unpin then txn l else []) /\
  babs (lbio st) x = (0, false, V y) /\
  babs (lbio st) y = ((if unpin then 1 else 0), false, view (lbio s) y).
Proof using Hb Hgeo Hn Hnd Hhome Hrefs Hlock HV.
  intros (_ & _ & _ & _ & _ & Ha) Hk Htx x. rewrite Forall_forall in Hhome.
  assert (x ∉ txn l) as Hxt.
  { intros Hx. destruct (Hhome x Hx) as [_ []]. unfold in_log, x. lia. }
  assert (y ∈ txn l) as Hyt by (by eapply list_elem_of_lookup_2).
  assert (y ∉ take (Z.to_nat k) (txn l)) as Hyk.
  { intros (i & Hi & Hlt)%elem_of_take. pose proof (NoDup_lookup _ _ _ _ Hnd Hi Htx). lia. }
  split_and!; [congruence|done|by apply Hhome|by apply Hhome| | |].
  - intros b Hr. specialize (Ha b). case_decide.
    + by apply babs_eq in Ha as [? _].
    + apply babs_eq in Ha as [E _]. rewrite E, Hrefs in Hr. destruct unpin; [|done].
      unfold count in Hr. by destruct (decide (b ∈ txn l)).
  - rewrite Ha, decide_False by (intros (i & Hi & _)%elem_of_take; apply Hxt; by eapply list_elem_of_lookup_2).
    apply babs_eq. rewrite Hrefs, Hlock. rewrite <- (HV _ _ Htx), Z2Nat.id by lia.
    unfold count. rewrite decide_False by done. by destruct unpin.
  - rewrite Ha, decide_False by done. apply babs_eq. rewrite Hrefs, Hlock.
    unfold count. by rewrite decide_True.
Qed.

Lemma install_pass k st :
  installed k st -> 0 <= k < lh_n l ->
  wp (dev <- getl l_dev ;;
      start <- getl l_start ;;
      lbuf <- bio (bread dev (u32 (start + k + 1))) ;;
      blk <- getl (lh_blk k) ;;
      dbuf <- bio (bread dev (u32 blk)) ;;
      x <- bio (getb lbuf) ;;
      bio (write_data dbuf (fun _ => b_data x)) ;;;
      bio (bwrite dbuf) ;;;
      when unpin (bio (bunpin dbuf)) ;;;
      bio (brelse lbuf) ;;;
      bio (brelse dbuf)) (fun _ st' => installed (k + 1) st') st.
Proof using Hb Hgeo Hn Hn' Hnd Hhome Hrefs Hlock HV.
  intros Hst Hk. pose proof Hgeo as (Hdev & Hstart & Hsz & Hmax & Hlen). unfold LOGSIZE, MAXOPBLOCKS in *.
  pose proof (txn_lookup l k Hgeo ltac:(unfold LOGSIZE, MAXOPBLOCKS; lia) ltac:(lia)) as Htx.
  destruct (install_facts k st _ Hst Hk Htx) as (Hxy & Hxt & Hy & Huse & Ex & Ey).
  pose proof Hst as (El & Hbst & Hpid & Hhist & Hdisk & Ha).
  set (y := lh_blk k l) in *. set (x := l_start l + k + 1) in *.
  apply babs_eq in Ex as (Erx & Elx & Evx), Ey as (Ery & Ely & Evy).
  assert (length (if unpin then txn l else []) < NBUF)%nat as Hroom.
  { destruct unpin; [rewrite length_txn; unfold LOGSIZE, MAXOPBLOCKS, NBUF; [lia|done|lia]|unfold NBUF; simpl; lia]. }
  log_steps. rewrite El, Hdev. fold x. rewrite (u32_small x) by (unfold x; lia).
  eapply wp_mono; [eapply (bread_first (lbio st) x); try done; lia|].
  intros i s1 Hpost. log_steps. fold y. rewrite (u32_small y) by lia.
  eapply wp_mono; [eapply (bread_second (lbio st) x y); try done;
    [destruct unpin; lia|destruct unpin; [left; lia|right; unfold NBUF; simpl; lia]]|].
  intros j s2 (Hb2 & Hi2 & Hj2 & Hij & (D1 & D2 & D3) & Ha2).
  pose proof (Ha2 x) as Ex2. rewrite decide_True in Ex2 by done.
  pose proof (Ha2 y) as Ey2. rewrite decide_False, decide_True in Ey2 by done.
  apply babs_eq in Ex2 as (Erx2 & _ & Evx2), Ey2 as (Ery2 & _ & _).
  apply wp_overwrite_log. eapply wp_mono; [apply (wp_overwrite s2 j i y x unpin); try done|].
  { destruct unpin; lia. }
  { lia. }
  { intros _. rewrite Evx2, D1. by apply refs0_clean. }
  { destruct unpin; [lia|done]. }
  intros [] s3 (Hb3 & Hd3 & Hh3 & Hp3 & Ha3). rewrite Evx2, Evx in Hd3, Hh3, Ha3. rewrite Erx2, Ery2 in Ha3.
  pose proof (inst_writes_lookup l V _ _ Htx) as Hw.
  assert (Z.to_nat (k + 1) = S (Z.to_nat k)) as Ek by lia.
  split_and!; cbn [lbio llog]; rewrite ?Ek; [done|done|congruence| | |].
  - rewrite Hh3, D2, Hhist, (take_S_r _ _ _ Hw), <- app_assoc. done.
  - rewrite Hd3, D1, Hdisk, (apply_writes_S _ _ _ _ Hw). done.
  - intros b. rewrite Ha3. rewrite (take_S_r _ _ _ Htx). destruct (decide (b = y)) as [->|Hby].
    + rewrite decide_True by (rewrite elem_of_app, list_elem_of_singleton; by right).
      f_equal. f_equal. destruct unpin; lia.
    + destruct (decide (b = x)) as [->|Hbx].
      * rewrite Erx. change (0 + 1 - 1) with 0. pose proof (Ha x) as E.
        assert (x ∉ take (Z.to_nat k) (txn l)).
        { intros (j' & Hj' & _)%elem_of_take. apply Hxt. by eapply list_elem_of_lookup_2. }
        rewrite decide_False in E by done. rewrite decide_False by set_solver.
        rewrite <- E. symmetry. by apply babs_eq.
      * rewrite Ha2, !decide_False by done. rewrite Ha. repeat case_decide; set_solver.
Qed.

Lemma install_spec : wp (install_trans (negb unpin)) (fun _ s' => installed (lh_n l) s') s.
Proof using Hb Hgeo Hn Hn' Hnd Hhome Hrefs Hlock HV.
  unfold install_trans. rewrite negb_involutive. apply wp_bind, wp_getl.
  eapply wp_mono; [apply (wp_for installed)|].
  - split_and!; rewrite ?app_nil_r; try done.
  - intros k st Hk Hst. apply install_pass; [done|lia].
  - intros [] s'. by rewrite Z2Nat.id by lia.
Qed.
End install.

(** ** Reading back a header *)

Lemma hdr_n_enc l k d : 0 <= lh_n l < 2 ^ 31 -> hdr_n (enc_head l k d) = lh_n l.
Proof.
  intros Hn. destruct (u32_s32 _ Hn) as [Es Eu]. unfold hdr_n. induction k as [|k IH]; cbn [enc_head].
  - by rewrite Eu, rd32_wr32_eq by lia.
  - by rewrite rd32_wr32_ne by lia.
Qed.

Lemma hdr_block_enc l k d i : 0 <= i < Z.of_nat k -> 0 <= lh_blk i l < 2 ^ 31 ->
  hdr_block (enc_head l k d) i = lh_blk i l.
Proof.
  intros Hi Hv. destruct (u32_s32 _ Hv) as [Es Eu]. unfold hdr_block.
  induction k as [|k IH]; cbn [enc_head]; [lia|].
  destruct (decide (i = Z.of_nat k)) as [->|].
  - by rewrite Eu, rd32_wr32_eq by lia.
  - rewrite rd32_wr32_ne by lia. apply IH. lia.
Qed.

(** ** commit *)

(** The writes of a commit: the log blocks, the header that commits, the home
    blocks, the empty header. *)
Definition head1 (s : lst) : block := new_head (llog s) (view (lbio s) (l_start (llog s))).
Definition head0 (s : lst) : block := new_head (set_lh_n 0 (llog s)) (head1 s).
Definition commit_writes (s : lst) : list (Z * block) :=
  if 0 <? lh_n (llog s) then
    log_writes (llog s) (view (lbio s)) ++ (l_start (llog s), head1 s) ::
    inst_writes (llog s) (view (lbio s)) ++ [(l_start (llog s), head0 s)]
  else [].

Lemma count_nil b : count b [] = 0.
Proof. unfold count. rewrite decide_False; [done|apply not_elem_of_nil]. Qed.

Lemma linv_nil s : linv s [] ->
  (forall b, refs (lbio s) b = count b (txn (llog s))) /\ (forall b, lockd (lbio s) b = false) /\
  (forall b, in_log (llog s) b -> b ∉ txn (llog s)).
Proof.
  intros [_ _ _ [_ Hhome] Hrefs Hlock _]. split_and!.
  - intros b. rewrite Hrefs, count_nil. lia.
  - intros b. rewrite Hlock. apply bool_decide_eq_false_2, not_elem_of_nil.
  - intros b Hl Hb. rewrite Forall_forall in Hhome. by destruct (Hhome b Hb).
Qed.

(** The cache when the log blocks and the header have been written. *)
Lemma commit_head s s1 :
  linv s [] -> logged s (lh_n (llog s)) s1 ->
  wp write_head (fun _ s2 => llog s2 = llog s /\ binv (lbio s2) /\ curpid (lbio s2) = curpid (lbio s) /\
    hist (lbio s2) = hist (lbio s1) ++ [(l_start (llog s), head1 s)] /\
    disk (lbio s2) = <[l_start (llog s) := head1 s]> (disk (lbio s1)) /\
    (forall b, refs (lbio s2) b = count b (txn (llog s))) /\ (forall b, lockd (lbio s2) b = false) /\
    view (lbio s2) (l_start (llog s)) = head1 s /\
    (forall i b, txn (llog s) !! i = Some b ->
       view (lbio s2) (l_start (llog s) + Z.of_nat i + 1) = view (lbio s) b) /\
    (forall b, ~ in_log (llog s) b -> view (lbio s2) b = view (lbio s) b)) s1.
Proof.
  intros Hinv (El1 & Hb1 & Hp1 & Hh1 & Hd1 & Ha1).
  destruct (linv_nil s Hinv) as (Hrefs & Hlock & Hlog).
  destruct Hinv as [Hb Hgeo Hn [Hnd Hhome] _ _ _]. pose proof Hgeo as (_ & _ & Hsz & _ & Hlen).
  unfold LOGSIZE, MAXOPBLOCKS in *. set (l := llog s) in *.
  assert (forall b, refs (lbio s1) b = count b (txn l) /\ lockd (lbio s1) b = false) as H1.
  { intros b. specialize (Ha1 b). case_decide as Hc; apply babs_eq in Ha1 as (-> & -> & _).
    - unfold count. rewrite decide_False; [done|]. apply Hlog. unfold in_log. lia.
    - by rewrite Hrefs, Hlock. }
  assert (in_log l (l_start l)) as Hsl by (unfold in_log; lia).
  assert (view (lbio s1) (l_start l) = view (lbio s) (l_start l)) as Ev.
  { specialize (Ha1 (l_start l)). rewrite decide_False in Ha1 by lia. by apply babs_eq in Ha1 as (_ & _ & ->). }
  eapply wp_mono; [apply (write_head_spec s1 (txn l)); rewrite ?El1; try done|].
  - rewrite (proj1 (H1 _)). unfold count. rewrite decide_False; [done|by apply Hlog].
  - apply H1.
  - intros b. rewrite (proj1 (H1 b)). unfold count. by case_decide.
  - rewrite length_txn; unfold LOGSIZE, MAXOPBLOCKS, NBUF; [lia|done|lia].
  - rewrite El1, Ev. fold l. change (new_head l (view (lbio s) (l_start l))) with (head1 s).
    intros [] s2 (El2 & Hb2 & Hp2 & Hh2 & Hd2 & Ha2). split_and!; try done; try congruence.
    + intros b. specialize (Ha2 b). destruct (decide (b = l_start l)) as [->|].
      * apply babs_eq in Ha2 as (-> & _). unfold count. rewrite decide_False; [done|by apply Hlog].
      * apply babs_eq in Ha2 as (-> & _). apply H1.
    + intros b. specialize (Ha2 b). destruct (decide (b = l_start l)); apply babs_eq in Ha2 as (_ & -> & _); [done|apply H1].
    + specialize (Ha2 (l_start l)). rewrite decide_True in Ha2 by done. by apply babs_eq in Ha2 as (_ & _ & ->).
    + intros i b Hib. specialize (Ha2 (l_start l + Z.of_nat i + 1)). rewrite decide_False in Ha2 by lia.
      apply babs_eq in Ha2 as (_ & _ & ->). specialize (Ha1 (l_start l + Z.of_nat i + 1)).
      pose proof (lookup_lt_Some _ _ _ Hib) as Hlt.
      rewrite length_txn in Hlt by (done || unfold LOGSIZE, MAXOPBLOCKS; lia).
      rewrite decide_True in Ha1 by lia. apply babs_eq in Ha1 as (_ & _ & ->).
      f_equal. replace (l_start l + Z.of_nat i + 1 - l_start l - 1) with (Z.of_nat i) by lia.
      pose proof (txn_lookup l (Z.of_nat i) Hgeo ltac:(unfold LOGSIZE, MAXOPBLOCKS; lia) ltac:(lia)) as E.
      rewrite Nat2Z.id in E. congruence.
    + intros b Hnb. specialize (Ha2 b). rewrite decide_False in Ha2 by congruence.
      apply babs_eq in Ha2 as (_ & _ & ->). specialize (Ha1 b). unfold in_log in Hnb.
      rewrite decide_False in Ha1 by lia. by apply babs_eq in Ha1 as (_ & _ & ->).
Qed.

Lemma commit_spec s :
  linv s [] ->
  wp commit (fun _ s' => linv s' [] /\ llog s' = set_lh_n 0 (llog s) /\
    curpid (lbio s') = curpid (lbio s) /\
    hist (lbio s') = hist (lbio s) ++ commit_writes s /\
    disk (lbio s') = apply_writes (commit_writes s) (disk (lbio s)) /\
    forall b, ~ in_log (llog s) b -> view (lbio s') b = view (lbio s) b) s.
Proof.
  intros Hinv. pose proof Hinv as [Hb Hgeo Hn [Hnd Hhome] Hrefs Hlock Hhdr].
  unfold commit, commit_writes. apply wp_bind, wp_getl.
  destruct (Z.ltb_spec 0 (lh_n (llog s))) as [Hpos|Hz]; unfold when.
  2: { assert (lh_n (llog s) = 0) as E by lia. apply wp_ret. rewrite app_nil_r.
       split_and!; try done. destruct (llog s); cbn in *. by subst. }
  apply wp_bind. eapply wp_mono; [by apply write_log_spec|].
  intros [] s1 Hlogged. pose proof Hlogged as (_ & _ & _ & Hh1 & Hd1 & _).
  destruct (linv_nil s Hinv) as (_ & _ & Hlog).
  assert (length (txn (llog s)) = Z.to_nat (lh_n (llog s))) as Htl by (apply length_txn; [done|lia]).
  rewrite take_ge in Hh1, Hd1 by (unfold log_writes; rewrite length_imap; lia).
  apply wp_bind. eapply wp_mono; [by apply commit_head|].
  intros [] s2 (El2 & Hb2 & Hp2 & Hh2 & Hd2 & Hr2 & Hl2 & Hvs2 & Hvl2 & Hv2).
  apply wp_bind. change false with (negb true).
  eapply wp_mono; [apply (install_spec s2 true (view (lbio s))); rewrite ?El2; try done; lia|].
  intros [] s3 (El3 & Hb3 & Hp3 & Hh3 & Hd3 & Ha3). rewrite El2 in *.
  rewrite take_ge in Hh3, Hd3 by (unfold inst_writes; rewrite length_fmap; lia).
  rewrite take_ge in Ha3 by lia. log_steps.
  assert (forall b, refs (lbio s3) b = 0 /\ lockd (lbio s3) b = false) as H3.
  { intros b. specialize (Ha3 b). case_decide; apply babs_eq in Ha3 as (-> & -> & _); [done|].
    rewrite Hr2, Hl2. unfold count. by rewrite decide_False. }
  assert (in_log (llog s) (l_start (llog s))) as Hsl by (unfold in_log; destruct Hgeo as (_ & _ & ? & _); lia).
  assert (view (lbio s3) (l_start (llog s)) = head1 s) as Evs3.
  { specialize (Ha3 (l_start (llog s))). rewrite decide_False in Ha3 by (by apply Hlog).
    by apply babs_eq in Ha3 as (_ & _ & ->). }
  eapply wp_mono; [apply (write_head_spec (Lst (lbio s3) (set_lh_n 0 (llog s3))) [])|]; cbn [lbio llog];
    rewrite ?El3; try done; try (by apply H3).
  { intros b. by rewrite (proj1 (H3 b)). }
  { unfold NBUF. simpl. lia. }
  change (l_start (set_lh_n 0 (llog s))) with (l_start (llog s)).
  rewrite Evs3. fold (head0 s).
  intros [] s4 (El4 & Hb4 & Hp4 & Hh4 & Hd4 & Ha4).
  assert (forall b, refs (lbio s4) b = 0 /\ lockd (lbio s4) b = false) as H4.
  { intros b. specialize (Ha4 b). destruct (decide (b = l_start (llog s)));
      apply babs_eq in Ha4 as (-> & -> & _); [done|apply H3]. }
  split_and!; try done; try congruence.
  - split; try done; rewrite ?El4; try done.
    + cbn. lia.
    + unfold txn. cbn. split; [apply NoDup_nil_2|constructor].
    + intros b. rewrite (proj1 (H4 b)), count_nil. unfold txn. cbn. by rewrite count_nil.
    + intros b. rewrite (proj2 (H4 b)), bool_decide_eq_false_2; [done|apply not_elem_of_nil].
    + cbn. rewrite Hd4, dblk_insert, decide_True by done. by apply hdr_n_enc.
  - rewrite Hh4, Hh3, Hh2, Hh1, <- !app_assoc. done.
  - rewrite Hd4, Hd3, Hd2, Hd1, apply_writes_app. cbn. by rewrite apply_writes_app.
  - intros b Hnb. specialize (Ha4 b). rewrite decide_False in Ha4 by congruence.
    apply babs_eq in Ha4 as (_ & _ & ->). specialize (Ha3 b).
    case_decide; apply babs_eq in Ha3 as (_ & _ & ->); [done|by apply Hv2].
Qed.

(** ** Recovery *)

(** A freshly booted cache: nothing is referenced. *)
Definition idle (s : bst) : Prop := binv s /\ forall b, refs s b = 0 /\ lockd s b = false.

(** The header block [h] records the transaction [bs]. *)
Definition records (h : block) (bs : list Z) : Prop :=
  hdr_n h = Z.of_nat (length bs) /\ forall i b, bs !! i = Some b -> hdr_block h (Z.of_nat i) = b.

Lemma read_head_spec s bs :
  idle (lbio s) -> geometry (llog s) -> Z.of_nat (length bs) <= LOGSIZE ->
  records (dblk (disk (lbio s)) (l_start (llog s))) bs ->
  wp read_head (fun _ s' => idle (lbio s') /\ same_dev (lbio s) (lbio s') /\ geometry (llog s') /\
    txn (llog s') = bs /\ lh_n (llog s') = Z.of_nat (length bs) /\
    l_start (llog s') = l_start (llog s) /\ l_size (llog s') = l_size (llog s) /\
    l_outstanding (llog s') = l_outstanding (llog s) /\ l_committing (llog s') = l_committing (llog s)) s.
Proof.
  intros [Hb Hidle] Hgeo Hbs [Hn Hblk]. pose proof Hgeo as (Hdev & Hst & Hsz & Hmax & Hlen).
  unfold LOGSIZE, MAXOPBLOCKS in *. set (x := l_start (llog s)) in *.
  destruct (Hidle x) as [Hrx Hlx]. unfold read_head. log_steps. rewrite Hdev. fold x.
  rewrite u32_small by lia.
  eapply wp_mono; [apply (bread_first (lbio s) x Hb Hlx ltac:(lia) [])|].
  { intros b. by rewrite (proj1 (Hidle b)). }
  { unfold NBUF. simpl. lia. }
  intros i s1 (Hb1 & Hi1 & Hd1 & Ha1 & _). rewrite Hrx in Ha1.
  pose proof (Ha1 x) as E1. rewrite decide_True in E1 by done. apply babs_eq in E1 as (Er1 & El1 & Ev1).
  destruct (held_ref _ _ _ Hb1 Hi1) as [E _]. apply babs_eq in E as (_ & _ & Edata).
  rewrite (refs0_clean (lbio s) x Hb Hrx) in Ev1.
  log_steps. apply wp_getb. rewrite <- Edata, Ev1. set (h := dblk _ x) in *. log_steps.
  cbn [lh_n set_lh_n]. rewrite Hn, Nat2Z.id.
  eapply wp_mono; [apply (wp_for (fun k st => lbio st = s1 /\ geometry (llog st) /\
    lh_n (llog st) = Z.of_nat (length bs) /\ take (Z.to_nat k) (lh_block (llog st)) = take (Z.to_nat k) bs /\
    l_start (llog st) = x /\ l_size (llog st) = l_size (llog s) /\
    l_outstanding (llog st) = l_outstanding (llog s) /\ l_committing (llog st) = l_committing (llog s)))|].
  - split_and!; done.
  - intros k st Hk (Eb & (G1 & G2 & G3 & G4 & G5) & En & Et & Es & Ez & Eo & Ec). log_steps.
    destruct (lookup_lt_is_Some_2 bs (Z.to_nat k)) as [b Hkb]; [lia|].
    pose proof (Hblk _ _ Hkb) as Hv. rewrite Z2Nat.id in Hv by lia. rewrite Hv.
    replace (Z.to_nat (k + 1)) with (S (Z.to_nat k)) by lia.
    split_and!; try done.
    + unfold geometry, LOGSIZE, MAXOPBLOCKS in *. cbn. rewrite length_insert. split_and!; try done; lia.
    + unfold LOGSIZE, MAXOPBLOCKS in *. cbn. rewrite (take_S_r _ _ b) by (apply list_lookup_insert_eq; lia).
      rewrite take_insert_ge by lia. by rewrite Et, (take_S_r _ _ _ Hkb).
  - intros [] st (Eb & Hg & En & Et & Es & Ez & Eo & Ec). rewrite Z.add_0_l, Nat2Z.id in Et.
    rewrite (take_ge bs) in Et by lia. log_steps. rewrite Eb.
    eapply wp_mono; [apply (brelse_spec s1 i x); [done|done|lia|]|].
    { intros _. rewrite Ev1. destruct Hd1 as (-> & _). done. }
    intros [] s2 (Hb2 & Hd2 & Ha2 & _). rewrite Er1 in Ha2. cbn [lbio llog].
    split_and!; try done.
    + split; [done|]. intros b. specialize (Ha2 b). specialize (Ha1 b). destruct (decide (b = x)).
      * by apply babs_eq in Ha2 as (-> & -> & _).
      * apply babs_eq in Ha2 as (-> & -> & _). apply babs_eq in Ha1 as (-> & -> & _). apply Hidle.
    + destruct Hd1 as (? & ? & ?), Hd2 as (? & ? & ?). split_and!; congruence.
    + unfold txn. by rewrite En, Nat2Z.id.
Qed.

Lemma dblk_inst bs V d b :
  dblk (apply_writes ((fun b => (b, V b)) <$> bs) d) b = if decide (b ∈ bs) then V b else dblk d b.
Proof.
  revert d. induction bs as [|x bs IH]; intros d; [by rewrite decide_False by apply not_elem_of_nil|].
  change (apply_writes _ d) with (apply_writes ((fun b => (b, V b)) <$> bs) (<[x := V x]> d)).
  rewrite IH, dblk_insert. repeat case_decide; set_solver.
Qed.

Lemma dblk_log (bs : list Z) (V : Z -> block) o d b :
  dblk (apply_writes (imap (fun i b => (o + Z.of_nat i + 1, V b)) bs) d) b =
  match (if decide (o < b) then bs !! Z.to_nat (b - o - 1) else None) with
  | Some x => V x | None => dblk d b end.
Proof.
  revert o d. induction bs as [|x bs IH]; intros o d; [by case_decide|].
  cbn [imap]. rewrite (imap_ext _ (fun i b => (o + 1 + Z.of_nat i + 1, V b))).
  2: { intros i y _. cbn. f_equal. lia. }
  change (apply_writes _ d) with
    (apply_writes (imap (fun i b => (o + 1 + Z.of_nat i + 1, V b)) bs) (<[o + Z.of_nat 0 + 1 := V x]> d)).
  rewrite IH, dblk_insert. destruct (decide (b = o + Z.of_nat 0 + 1)) as [->|Hne].
  - rewrite decide_False by lia. rewrite decide_True by lia.
    by replace (Z.to_nat _) with O by lia.
  - destruct (decide (o < b)) as [Hlt|]; [|by rewrite decide_False by lia].
    rewrite decide_True by lia.
    by replace (Z.to_nat (b - o - 1)) with (S (Z.to_nat (b - (o + 1) - 1))) by lia.
Qed.

Lemma recover_spec s bs V :
  idle (lbio s) -> geometry (llog s) ->
  Z.of_nat (length bs) < LOGSIZE -> Z.of_nat (length bs) <= l_size (llog s) - 1 ->
  NoDup bs -> Forall (home (llog s)) bs ->
  records (dblk (disk (lbio s)) (l_start (llog s))) bs ->
  (forall i b, bs !! i = Some b -> dblk (disk (lbio s)) (l_start (llog s) + Z.of_nat i + 1) = V b) ->
  wp recover_from_log (fun _ s' => linv s' [] /\
    l_start (llog s') = l_start (llog s) /\ l_size (llog s') = l_size (llog s) /\
    l_outstanding (llog s') = l_outstanding (llog s) /\ l_committing (llog s') = l_committing (llog s) /\
    lh_n (llog s') = 0 /\
    forall b, ~ in_log (llog s) b ->
      dblk (disk (lbio s')) b = if decide (b ∈ bs) then V b else dblk (disk (lbio s)) b) s.
Proof.
  intros Hidle Hgeo Hl1 Hl2 Hnd Hhome Hrec HV. unfold recover_from_log.
  apply wp_bind. eapply wp_mono; [apply (read_head_spec s bs); try done; lia|].
  intros [] s1 ((Hb1 & Hid1) & (D1 & D2 & D3) & Hg1 & Htx & Hn1 & Es & Ez & Eo & Ec).
  apply wp_bind. change true with (negb false).
  eapply wp_mono; [apply (install_spec s1 false V); rewrite ?Htx, ?Hn1, ?Es, ?Ez; try done; try lia|].
  { eapply Forall_impl; [exact Hhome|]. intros b. unfold home, in_log. by rewrite Es, Ez. }
  { intros b. apply Hid1. }
  { intros b. apply Hid1. }
  { intros i b Hib. rewrite refs0_clean, D1 by (done || apply Hid1). by apply HV. }
  intros [] s2 (El2 & Hb2 & Hp2 & Hh2 & Hd2 & Ha2).
  unfold inst_writes in Hd2. rewrite Htx, Hn1, Nat2Z.id, take_ge, D1 in Hd2 by (by rewrite length_fmap).
  assert (forall b, refs (lbio s2) b = 0 /\ lockd (lbio s2) b = false) as H2.
  { intros b. specialize (Ha2 b). case_decide; apply babs_eq in Ha2 as (-> & -> & _); [done|apply Hid1]. }
  log_steps.
  eapply wp_mono; [apply (write_head_spec (Lst (lbio s2) (set_lh_n 0 (llog s2))) [])|]; cbn [lbio llog];
    rewrite ?El2; try done; try (by apply H2).
  { intros b. by rewrite (proj1 (H2 b)). }
  { unfold NBUF. simpl. lia. }
  change (l_start (set_lh_n 0 (llog s1))) with (l_start (llog s1)). rewrite Es.
  intros [] s3 (El3 & Hb3 & Hp3 & Hh3 & Hd3 & Ha3).
  assert (forall b, refs (lbio s3) b = 0 /\ lockd (lbio s3) b = false) as H3.
  { intros b. specialize (Ha3 b). destruct (decide (b = l_start (llog s)));
      apply babs_eq in Ha3 as (-> & -> & _); [done|apply H2]. }
  destruct Hg1 as (G1 & G2 & G3 & G4 & G5).
  split; [|rewrite El3; cbn; split_and!; try done].
  - split; try done; rewrite ?El3; try done.
    + cbn. lia.
    + unfold txn. cbn. split; [apply NoDup_nil_2|constructor].
    + intros b. rewrite (proj1 (H3 b)), count_nil. unfold txn. cbn. by rewrite count_nil.
    + intros b. rewrite (proj2 (H3 b)), bool_decide_eq_false_2; [done|apply not_elem_of_nil].
    + cbn. rewrite Hd3, Es, dblk_insert, decide_True by done. by apply hdr_n_enc.
  - intros b Hnb. rewrite Hd3, dblk_insert, decide_False, Hd2.
    2: { intros ->. apply Hnb. unfold in_log. lia. }
    apply dblk_inst.
Qed.

(** ** Crashes *)

Lemma dblk_skip ws d b : b ∉ ws.*1 -> dblk (apply_writes ws d) b = dblk d b.
Proof.
  revert d. induction ws as [|[x v] ws IH]; intros d Hb; [done|].
  change (apply_writes _ d) with (apply_writes ws (<[x := v]> d)). cbn in Hb.
  rewrite IH, dblk_insert by set_solver. case_decide; set_solver.
Qed.

Lemma log_writes_blocks l V b : geometry l -> 0 <= lh_n l <= LOGSIZE ->
  b ∈ (log_writes l V).*1 -> l_start l < b <= l_start l + lh_n l.
Proof.
  intros Hg Hn (w & -> & Hw)%list_elem_of_fmap. unfold log_writes in Hw.
  apply elem_of_lookup_imap in Hw as (i & x & -> & Hi). apply lookup_lt_Some in Hi.
  rewrite length_txn in Hi by done. cbn. lia.
Qed.

Lemma elem_of_take_fst {A} (ws : list (Z * A)) k b : b ∈ (take k ws).*1 -> b ∈ ws.*1.
Proof. rewrite fmap_take. intros (i & Hi & _)%elem_of_take. by eapply list_elem_of_lookup_2. Qed.

(** The disk after the first [k] writes of a commit, as recovery sees it: before
    the header is written it has no transaction and the old home blocks; from then
    on it has the transaction in the log until the home blocks are installed. *)
Definition crash_disk (s : lst) (k : nat) : gmap Z block :=
  apply_writes (take k (commit_writes s)) (disk (lbio s)).

Section crash.
Context (s : lst).
Hypothesis Hinv : linv s [].
Abbreviation l := (llog s).
Abbreviation V := (view (lbio s)).
Abbreviation n := (Z.to_nat (lh_n (llog s))).

Lemma crash_before k : (k <= n)%nat ->
  records (dblk (crash_disk s k) (l_start l)) [] /\
  forall b, ~ in_log l b -> dblk (crash_disk s k) b = dblk (disk (lbio s)) b.
Proof using Hinv.
  destruct Hinv as [_ Hg Hn _ _ _ Hhdr]. intros Hk. unfold crash_disk, commit_writes.
  assert (length (log_writes l V) = n) as Hlen.
  { unfold log_writes. rewrite length_imap. apply length_txn; [done|lia]. }
  assert (forall b, ~ l_start l < b <= l_start l + lh_n l ->
    dblk (apply_writes (take k (commit_writes s)) (disk (lbio s))) b = dblk (disk (lbio s)) b) as Hskip.
  { intros b Hb. apply dblk_skip. unfold commit_writes. destruct (Z.ltb_spec 0 (lh_n l)).
    - rewrite take_app_le by lia. intros Hin%elem_of_take_fst. apply Hb.
      apply (log_writes_blocks l V); [done|lia|done].
    - rewrite take_nil. apply not_elem_of_nil. }
  fold (commit_writes s). split.
  - rewrite Hskip by lia. split; [done|]. intros i b Hib. by rewrite lookup_nil in Hib.
  - intros b Hb. apply Hskip. unfold in_log in Hb. lia.
Qed.

(** The disk when the header has been written and [j] home blocks installed. *)
Definition committed_disk (j : nat) : gmap Z block :=
  apply_writes (take j (inst_writes l V)) (<[l_start l := head1 s]> (apply_writes (log_writes l V) (disk (lbio s)))).

Lemma committed_home j b : ~ in_log l b ->
  dblk (committed_disk j) b = if decide (b ∈ take j (txn l)) then V b else dblk (disk (lbio s)) b.
Proof using Hinv.
  destruct Hinv as [_ Hg Hn _ _ _ _]. intros Hb. unfold committed_disk, inst_writes.
  rewrite <- fmap_take, dblk_inst. case_decide; [done|].
  destruct Hg as (H1 & H2 & H3 & H4 & H5). unfold in_log in Hb.
  rewrite dblk_insert, decide_False by lia. apply dblk_skip.
  intros Hin. apply (log_writes_blocks l V b) in Hin; [lia|done|lia].
Qed.

(** A block outside the transaction is clean, so once all blocks of the
    transaction have their new contents the disk shows the cache. *)
Lemma clean_outside b : b ∉ txn l -> dblk (disk (lbio s)) b = V b.
Proof using Hinv.
  intros Hb. destruct (linv_nil s Hinv) as (Hr & _). symmetry. apply refs0_clean; [apply Hinv|].
  rewrite Hr. unfold count. by rewrite decide_False.
Qed.

Lemma committed_log j :
  records (dblk (committed_disk j) (l_start l)) (txn l) /\
  forall i b, txn l !! i = Some b -> dblk (committed_disk j) (l_start l + Z.of_nat i + 1) = V b.
Proof using Hinv.
  destruct (linv_nil s Hinv) as (_ & _ & Hlog). destruct Hinv as [_ Hg Hn [_ Hhome] _ _ _].
  pose proof Hg as (H1 & H2 & H3 & H4 & H5). unfold LOGSIZE, MAXOPBLOCKS in *.
  assert (forall b, in_log l b -> dblk (committed_disk j) b =
    dblk (<[l_start l := head1 s]> (apply_writes (log_writes l V) (disk (lbio s)))) b) as Hin.
  { intros b Hb. unfold committed_disk, inst_writes. rewrite <- fmap_take, dblk_inst.
    rewrite decide_False; [done|]. intros (i & Hi & _)%elem_of_take.
    apply (Hlog b Hb). by eapply list_elem_of_lookup_2. }
  pose proof (length_txn l Hg ltac:(unfold LOGSIZE, MAXOPBLOCKS; lia)) as Hlen. split.
  - rewrite Hin by (unfold in_log; lia). rewrite dblk_insert, decide_True by done. split.
    + unfold head1, new_head. rewrite hdr_n_enc by lia. lia.
    + intros i b Hib. pose proof (lookup_lt_Some _ _ _ Hib).
      pose proof (txn_lookup l (Z.of_nat i) Hg ltac:(unfold LOGSIZE, MAXOPBLOCKS; lia) ltac:(lia)) as E.
      rewrite Nat2Z.id, Hib in E. injection E as E. unfold head1, new_head.
      rewrite Forall_lookup in Hhome. destruct (Hhome _ _ Hib) as [? _].
      by rewrite hdr_block_enc by (lia || rewrite <- E; lia).
  - intros i b Hib. pose proof (lookup_lt_Some _ _ _ Hib).
    rewrite Hin by (unfold in_log; lia). rewrite dblk_insert, decide_False by lia.
    unfold log_writes. rewrite dblk_log, decide_True by lia.
    by replace (Z.to_nat _) with i by lia; rewrite Hib.
Qed.

(** Past the header, the disk is one of the above or has the empty header again. *)
Lemma crash_after k : (n < k)%nat -> 0 < lh_n l ->
  (exists j, crash_disk s k = committed_disk j) \/
  crash_disk s k = <[l_start l := head0 s]> (committed_disk n).
Proof using Hinv.
  destruct Hinv as [_ Hg Hn _ _ _ _]. intros Hk Hpos. unfold crash_disk, commit_writes.
  destruct (Z.ltb_spec 0 (lh_n l)); [|lia].
  pose proof (length_txn l Hg ltac:(lia)) as Ht.
  assert (length (log_writes l V) = n) as Hlw by (unfold log_writes; by rewrite length_imap).
  assert (length (inst_writes l V) = n) as Hiw by (unfold inst_writes; by rewrite length_fmap).
  rewrite take_app_ge, Hlw, apply_writes_app by lia.
  destruct (k - n)%nat as [|j] eqn:Ej; [lia|]. cbn [take].
  destruct (decide (j <= n)%nat).
  - left. exists j. rewrite take_app_le by lia. done.
  - right. rewrite take_ge by (rewrite length_app; simpl; lia).
    change (apply_writes (?w :: ?ws) ?d) with (apply_writes ws (<[w.1 := w.2]> d)).
    rewrite apply_writes_app. unfold committed_disk. by rewrite (take_ge (inst_writes l V)) by lia.
Qed.
End crash.

(** The kernel's memory after a reboot, and the start of the file system: the
    cache is built and the log recovered. *)
Definition zero_log : log := Log 0 0 0 0 0 0 (replicate (Z.to_nat LOGSIZE) 0).
Definition rebooted (d : gmap Z block) (pid : Z) : lst := Lst (zero_bufs d pid) zero_log.
Definition boot (logstart nlog : Z) : M lst unit :=
  bio binit ;;; initlog ROOTDEV logstart nlog.

Lemma boot_spec d pid l bs V :
  geometry l -> Z.of_nat (length bs) < LOGSIZE -> Z.of_nat (length bs) <= l_size l - 1 ->
  NoDup bs -> Forall (home l) bs -> records (dblk d (l_start l)) bs ->
  (forall i b, bs !! i = Some b -> dblk d (l_start l + Z.of_nat i + 1) = V b) ->
  wp (boot (l_start l) (l_size l)) (fun _ s' => linv s' [] /\
    l_start (llog s') = l_start l /\ l_size (llog s') = l_size l /\ l_outstanding (llog s') = 0 /\
    l_committing (llog s') = 0 /\ lh_n (llog s') = 0 /\
    forall b, ~ in_log l b -> dblk (disk (lbio s')) b = if decide (b ∈ bs) then V b else dblk d b)
    (rebooted d pid).
Proof.
  intros (H1 & H2 & H3 & H4 & H5) Hl1 Hl2 Hnd Hhome Hrec HV. unfold LOGSIZE, MAXOPBLOCKS in H4.
  unfold boot. log_steps. eapply wp_mono; [apply (binit_spec d pid)|].
  intros [] s1 (Hb1 & Hd1 & Hh1 & Hp1 & Ha1). unfold initlog.
  change (BSIZE <=? sizeof_logheader) with false. cbv iota. log_steps.
  rewrite !s32_small by lia.
  eapply wp_mono; [apply (recover_spec _ bs V); cbn; rewrite ?Hd1; try done|].
  - split; [done|]. intros b. specialize (Ha1 b). by apply babs_eq in Ha1 as (-> & -> & _).
  - intros [] s2 (L & ? & ? & ? & ? & ? & Hd). split_and!; try done.
    intros b Hb. rewrite Hd by done. cbn. by rewrite Hd1.
Qed.

(** A crash after any number of the writes of a commit, then a reboot: the home
    blocks are all old or all new, and the log is empty. *)
Lemma crash_recover s k pid :
  linv s [] ->
  wp (boot (l_start (llog s)) (l_size (llog s))) (fun _ s' => linv s' [] /\ lh_n (llog s') = 0 /\
    forall b, ~ in_log (llog s) b -> dblk (disk (lbio s')) b =
      if decide (k <= Z.to_nat (lh_n (llog s)))%nat then dblk (disk (lbio s)) b else view (lbio s) b)
    (rebooted (crash_disk s k) pid).
Proof.
  intros Hinv. pose proof Hinv as [Hb Hg Hn [Hnd Hhome] _ _ _].
  pose proof (length_txn _ Hg ltac:(lia)) as Ht.
  assert (forall d, records (dblk d (l_start (llog s))) [] ->
    (forall b, ~ in_log (llog s) b -> dblk d b =
      if decide (k <= Z.to_nat (lh_n (llog s)))%nat then dblk (disk (lbio s)) b else view (lbio s) b) ->
    wp (boot (l_start (llog s)) (l_size (llog s))) (fun _ s' => linv s' [] /\ lh_n (llog s') = 0 /\
      forall b, ~ in_log (llog s) b -> dblk (disk (lbio s')) b =
        if decide (k <= Z.to_nat (lh_n (llog s)))%nat then dblk (disk (lbio s)) b else view (lbio s) b)
      (rebooted d pid)) as Hempty.
  { intros d Hrec Hd. pose proof Hg as (_ & _ & Hsz & _).
    eapply wp_mono; [apply (boot_spec d pid (llog s) [] (view (lbio s))); try done; simpl;
      first [lia|apply NoDup_nil_2|apply Forall_nil_2]|].
    - intros [] s' (L & _ & _ & _ & _ & E & Hd'). split_and!; try done.
      intros b Hb'. rewrite Hd' by done. rewrite decide_False by apply not_elem_of_nil. by apply Hd. }
  destruct (decide (k <= Z.to_nat (lh_n (llog s)))%nat) as [Hk|Hk].
  { destruct (crash_before s Hinv k Hk) as [Hrec Hd]. by apply Hempty. }
  destruct (decide (0 < lh_n (llog s))) as [Hpos|Hz].
  2: { assert (crash_disk s k = disk (lbio s)) as ->.
       { unfold crash_disk, commit_writes. destruct (Z.ltb_spec 0 (lh_n (llog s))); [lia|].
         by rewrite take_nil. }
       assert (txn (llog s) = []) as Hnil by (apply nil_length_inv; lia).
       apply Hempty.
       - split; [apply (li_hdr s [] Hinv)|]. intros i b Hib. by rewrite lookup_nil in Hib.
       - intros b Hb'. apply clean_outside; [done|]. rewrite Hnil. apply not_elem_of_nil. }
  destruct (crash_after s Hinv k ltac:(lia) Hpos) as [[j ->]| ->].
  - destruct (committed_log s Hinv j) as [Hrec HV].
    eapply wp_mono; [apply (boot_spec _ pid (llog s) (txn (llog s)) (view (lbio s))); [exact Hg|lia|lia|exact Hnd|exact Hhome|exact Hrec|exact HV]|].
    intros [] s' (L & _ & _ & _ & _ & E & Hd'). split; [exact L|split; [exact E|]].
    intros b Hb'. rewrite Hd' by done. case_decide as Hin; [done|].
    rewrite committed_home by done. rewrite decide_False.
    + by apply clean_outside.
    + intros (i & Hi & _)%elem_of_take. apply Hin. by eapply list_elem_of_lookup_2.
  - apply Hempty.
    + rewrite dblk_insert, decide_True by done. unfold head0, new_head.
      split; [rewrite hdr_n_enc; cbn; [done|lia]|]. intros i b Hib. by rewrite lookup_nil in Hib.
    + intros b Hb'. destruct Hg as (G1 & G2 & G3 & G4 & G5).
      rewrite dblk_insert, decide_False by (intros ->; apply Hb'; unfold in_log; lia).
      rewrite committed_home by done. rewrite take_ge by lia.
      case_decide; [done|]. by apply clean_outside.
Qed.

(** ** log_write *)

Lemma absorb_spec bs b n :
  (n <= length bs)%nat -> Forall (fun x => u32 x = x) (take n bs) ->
  (absorb bs b n = n /\ b ∉ take n bs) \/ ((absorb bs b n < n)%nat /\ bs !! absorb bs b n = Some b).
Proof.
  revert n. induction bs as [|x bs IH]; intros [|n] Hn Hf; simpl in *; try lia.
  - left. split; [done|apply not_elem_of_nil].
  - left. split; [done|apply not_elem_of_nil].
  - apply Forall_cons in Hf as [Hx Hf]. rewrite Hx. destruct (Z.eqb_spec x b) as [->|Hne].
    + right. split; [lia|done].
    + destruct (IH n ltac:(lia) Hf) as [[E Hni]|[Hlt E]].
      * left. split; [lia|]. set_solver.
      * right. split; [lia|done].
Qed.

(** The transaction after logging [b]. *)
Definition add_txn (b : Z) (bs : list Z) : list Z := if decide (b ∈ bs) then bs else bs ++ [b].

Lemma set_lh_block_txn l b i :
  geometry l -> 0 <= lh_n l < LOGSIZE -> 0 <= b < 2 ^ 31 -> Forall (home l) (txn l) ->
  i = Z.of_nat (absorb (lh_block l) b (Z.to_nat (lh_n l))) ->
  geometry (set_lh_block i b l) /\
  if decide (b ∈ txn l) then i < lh_n l /\ txn (set_lh_block i b l) = txn l
  else i = lh_n l /\ take (S (Z.to_nat (lh_n l))) (lh_block (set_lh_block i b l)) = txn l ++ [b].
Proof.
  intros Hg Hn Hb Hhome ->. pose proof Hg as (G1 & G2 & G3 & G4 & G5). unfold txn in *.
  assert (Z.to_nat (lh_n l) < length (lh_block l))%nat as Hlen by (unfold LOGSIZE, MAXOPBLOCKS in *; lia).
  split.
  { unfold geometry. cbn. by rewrite length_insert. }
  destruct (absorb_spec (lh_block l) b (Z.to_nat (lh_n l))) as [[E Hni]|[Hlt E]].
  - lia.
  - eapply Forall_impl; [exact Hhome|]. intros x [Hx _]. apply u32_small. lia.
  - rewrite decide_False by done. rewrite E. split; [lia|]. cbn. rewrite Nat2Z.id.
    rewrite (take_S_r _ _ b) by (by apply list_lookup_insert_eq). by rewrite take_insert_ge by lia.
  - rewrite decide_True by (apply elem_of_take; eauto). split; [lia|]. cbn. rewrite Nat2Z.id.
    by rewrite list_insert_id.
Qed.

Lemma log_write_spec s H i b :
  linv s H -> held (lbio s) i b -> home (llog s) b -> 1 <= l_outstanding (llog s) ->
  lh_n (llog s) + 1 <= l_size (llog s) - 1 -> lh_n (llog s) + 1 < LOGSIZE -> b ∈ H ->
  wp (log_write i) (fun _ s' => linv s' H /\ txn (llog s') = add_txn b (txn (llog s)) /\
    l_start (llog s') = l_start (llog s) /\ l_size (llog s') = l_size (llog s) /\
    l_outstanding (llog s') = l_outstanding (llog s) /\ l_committing (llog s') = l_committing (llog s) /\
    same_dev (lbio s) (lbio s') /\ (forall b', view (lbio s') b' = view (lbio s) b') /\
    (forall j b', held (lbio s) j b' -> held (lbio s') j b')) s.
Proof.
  intros [Hb Hg Hn [Hnd Hhome] Hrefs Hlock Hhdr] Hh [Hb31 Hbl] Hout Hroom Hroom' HbH.
  unfold log_write. log_steps.
  destruct (Z.leb_spec LOGSIZE (lh_n (llog s))); [lia|]. destruct (Z.leb_spec (l_size (llog s) - 1) (lh_n (llog s))); [lia|].
  cbn [orb]. log_steps. destruct (Z.ltb_spec (l_outstanding (llog s)) 1); [lia|]. log_steps. apply wp_getb. log_steps.
  destruct Hh as ((Hi & Hd & Hbn) & Hlk & Hr). rewrite Hbn. rewrite (s32_small b) by lia.
  destruct (set_lh_block_txn (llog s) b _ Hg ltac:(lia) Hb31 Hhome eq_refl) as [Hg' Htx].
  set (k := Z.of_nat _) in *. assert (held (lbio s) i b) as Hh by done.
  destruct (decide (b ∈ txn (llog s))) as [Hin|Hni].
  - (* absorbed *)
    destruct Htx as [Hk Htx]. destruct (Z.eqb_spec k (lh_n (llog s))); [lia|]. unfold when. log_steps.
    split_and!; try done; rewrite ?Htx; try (unfold add_txn; by rewrite decide_True).
    split; cbn; rewrite ?Htx; done.
  - (* a new block: pin it *)
    destruct Htx as [Hk Htx]. rewrite Hk, Z.eqb_refl. unfold when. log_steps.
    assert (count b H = 1) as EH by (unfold count; by rewrite decide_True).
    assert (refs (lbio s) b = 1) as Er.
    { rewrite Hrefs, EH. unfold count. by rewrite decide_False. }
    eapply wp_mono; [apply (bpin_spec (lbio s) i b); [done|done|lia]|].
    intros [] s1 (Hb1 & Hd1 & Ha1 & Hk1). log_steps. rewrite Hk in *.
    assert (txn (set_lh_n (lh_n (llog s) + 1) (set_lh_block (lh_n (llog s)) b (llog s))) =
      txn (llog s) ++ [b]) as Htx'.
    { rewrite <- Htx. unfold txn. cbn [lh_n set_lh_n lh_block]. f_equal. lia. }
    split_and!; try done.
    + split; cbn [lbio llog]; rewrite ?Htx'; try done.
      * cbn. lia.
      * split; [|apply Forall_app; split; [done|by apply Forall_singleton]].
        apply NoDup_app. split_and!; [done|set_solver|apply NoDup_singleton].
      * intros b'. specialize (Ha1 b'). unfold count in *. destruct (decide (b' = b)) as [->|Hne].
        -- apply babs_eq in Ha1 as (-> & _). rewrite Er, EH. rewrite decide_True by set_solver. done.
        -- apply babs_eq in Ha1 as (-> & _). rewrite Hrefs. f_equal.
           unfold count. repeat case_decide; set_solver.
      * intros b'. specialize (Ha1 b'). destruct (decide (b' = b)) as [->|].
        -- apply babs_eq in Ha1 as (_ & -> & _). by rewrite bool_decide_eq_true_2.
        -- apply babs_eq in Ha1 as (_ & -> & _). apply Hlock.
      * cbn. by destruct Hd1 as (-> & _).
    + cbn [llog]. rewrite Htx'. unfold add_txn. by rewrite decide_False.
    + intros b'. specialize (Ha1 b'). by destruct (decide (b' = b)) as [->|]; apply babs_eq in Ha1 as (_ & _ & ->).
Qed.

(** ** begin_op and end_op *)

Lemma begin_pass_spec s :
  wp begin_pass (fun ok s' =>
    if nz (l_committing (llog s)) || (LOGSIZE <? lh_n (llog s) + (l_outstanding (llog s) + 1) * MAXOPBLOCKS)
    then ok = false /\ s' = s
    else ok = true /\ s' = Lst (lbio s) (set_outstanding (l_outstanding (llog s) + 1) (llog s))) s.
Proof.
  unfold begin_pass. log_steps. destruct (nz (l_committing (llog s))); cbn [orb]; log_steps; [done|].
  destruct (LOGSIZE <? _); by log_steps.
Qed.

Lemma linv_outstanding s H k c :
  linv s H -> linv (Lst (lbio s) (set_committing c (set_outstanding k (llog s)))) H.
Proof. by intros [? ? ? ? ? ? ?]. Qed.

(** The counters do not matter for what a commit writes. *)
Lemma enc_head_ext l l' k d : lh_n l' = lh_n l -> lh_block l' = lh_block l -> enc_head l' k d = enc_head l k d.
Proof. intros Hn Hb. induction k as [|k IH]; cbn; [by rewrite Hn|]. unfold lh_blk. by rewrite IH, Hb. Qed.

Lemma commit_writes_counters s k c :
  commit_writes (Lst (lbio s) (set_committing c (set_outstanding k (llog s)))) = commit_writes s.
Proof.
  unfold commit_writes, log_writes, inst_writes, txn, head0, head1, new_head. cbn [lbio llog lh_n l_start
    lh_block set_committing set_outstanding set_lh_n].
  rewrite !(enc_head_ext (llog s) (set_committing c (set_outstanding k (llog s)))) by done.
  by rewrite !(enc_head_ext (set_lh_n 0 (llog s))
    (set_lh_n 0 (set_committing c (set_outstanding k (llog s))))) by done.
Qed.

(** Everything in the cache is on disk. *)
Definition durable (s : lst) : Prop := forall b, dblk (disk (lbio s)) b = view (lbio s) b.

Lemma durable_empty s : linv s [] -> lh_n (llog s) = 0 -> durable s.
Proof.
  intros Hinv Hn b. apply (clean_outside s Hinv). unfold txn. rewrite Hn. apply not_elem_of_nil.
Qed.

Lemma end_op_last s :
  linv s [] -> l_outstanding (llog s) = 1 -> l_committing (llog s) = 0 ->
  wp end_op (fun _ s' => linv s' [] /\ l_outstanding (llog s') = 0 /\ l_committing (llog s') = 0 /\
    lh_n (llog s') = 0 /\ l_start (llog s') = l_start (llog s) /\ l_size (llog s') = l_size (llog s) /\
    curpid (lbio s') = curpid (lbio s) /\ hist (lbio s') = hist (lbio s) ++ commit_writes s /\
    disk (lbio s') = apply_writes (commit_writes s) (disk (lbio s)) /\
    durable s' /\ forall b, ~ in_log (llog s) b -> view (lbio s') b = view (lbio s) b) s.
Proof.
  intros Hinv Hout Hcom. unfold end_op. log_steps. cbn [set_outstanding l_committing]. rewrite Hcom, Hout.
  change (nz 0) with false. cbv iota. log_steps. cbn [set_outstanding l_outstanding Z.sub Z.eqb Z.add Z.opp Z.pos_sub].
  unfold when. change (1 - 1 =? 0) with true. cbv iota. log_steps.
  eapply wp_mono; [apply commit_spec|].
  { by apply (linv_outstanding s [] (1 - 1) 1). }
  intros [] s1 (Hinv1 & El1 & Hp1 & Hh1 & Hd1 & Hv1). log_steps.
  pose proof (linv_outstanding s1 [] (l_outstanding (llog s1)) 0 Hinv1) as Hinv2.
  rewrite El1 in Hinv2. cbn in Hinv2.
  rewrite El1. cbn [l_outstanding l_committing lh_n l_start l_size set_committing set_lh_n set_outstanding].
  rewrite commit_writes_counters in Hh1, Hd1. split_and!; try done. by apply durable_empty.
Qed.

Lemma end_op_more s :
  1 < l_outstanding (llog s) -> l_committing (llog s) = 0 ->
  wp end_op (fun _ s' => s' = Lst (lbio s) (set_outstanding (l_outstanding (llog s) - 1) (llog s))) s.
Proof.
  intros Hout Hcom. unfold end_op. log_steps. cbn [set_outstanding l_committing]. rewrite Hcom.
  change (nz 0) with false. cbv iota. log_steps. cbn [set_outstanding l_outstanding]. unfold when.
  destruct (Z.eqb_spec (l_outstanding (llog s) - 1) 0); [lia|]. by log_steps.
Qed.

(** ** Buffers held by an operation *)

Lemma log_bread_spec s H b :
  linv s H -> b ∉ H -> lh_n (llog s) + Z.of_nat (length H) < Z.of_nat NBUF ->
  wp (bio (bread ROOTDEV b)) (fun i s' => linv s' (b :: H) /\ llog s' = llog s /\
    held (lbio s') i b /\ same_dev (lbio s) (lbio s') /\
    (forall b', view (lbio s') b' = view (lbio s) b') /\
    (forall j b', held (lbio s) j b' -> held (lbio s') j b')) s.
Proof.
  intros [Hb Hg Hn Htx Hrefs Hlock Hhdr] HbH Hroom. log_steps.
  assert (count b H = 0) as EH by (unfold count; by rewrite decide_False).
  eapply wp_mono; [apply (bread_spec (lbio s) b); [done| | |]|].
  - by rewrite Hlock, bool_decide_eq_false_2.
  - rewrite Hrefs, EH. unfold count. case_decide; lia.
  - right. apply (room_free (lbio s) (txn (llog s) ++ H)); [done| |].
    + intros b' Hr. rewrite Hrefs in Hr. unfold count in Hr. rewrite elem_of_app. repeat case_decide; tauto.
    + rewrite length_app, length_txn by (done || lia). lia.
  - intros i s1 (Hb1 & Hi1 & Hd1 & Ha1 & Hk1). cbn [lbio llog].
    split_and!; try done.
    + split; cbn [lbio llog]; try done.
      * intros b'. specialize (Ha1 b'). destruct (decide (b' = b)) as [->|Hne];
          apply babs_eq in Ha1 as (-> & _); rewrite Hrefs; unfold count in *; repeat case_decide; set_solver by lia.
      * intros b'. specialize (Ha1 b'). destruct (decide (b' = b)) as [->|Hne];
          apply babs_eq in Ha1 as (_ & -> & _).
        -- by rewrite bool_decide_eq_true_2 by set_solver.
        -- rewrite Hlock. apply bool_decide_ext. set_solver.
      * by destruct Hd1 as (-> & _).
    + intros b'. specialize (Ha1 b'). by destruct (decide (b' = b)) as [->|]; apply babs_eq in Ha1 as (_ & _ & ->).
Qed.

Lemma linv_held s H H' : linv s H -> (forall b, b ∈ H <-> b ∈ H') -> linv s H'.
Proof.
  intros [Hb Hg Hn Htx Hrefs Hlock Hhdr] HH. split; try done.
  - intros b. rewrite Hrefs. f_equal. unfold count. repeat case_decide; naive_solver.
  - intros b. rewrite Hlock. by apply bool_decide_ext.
Qed.

Lemma log_write_data_spec s H i b f :
  linv s H -> held (lbio s) i b ->
  wp (bio (write_data i f)) (fun _ s' => linv s' H /\ llog s' = llog s /\
    same_dev (lbio s) (lbio s') /\
    (forall b', view (lbio s') b' = if decide (b' = b) then f (view (lbio s) b) else view (lbio s) b') /\
    (forall j b', held (lbio s) j b' -> held (lbio s') j b')) s.
Proof.
  intros [Hb Hg Hn Htx Hrefs Hlock Hhdr] Hi. log_steps.
  eapply wp_mono; [by apply (write_data_spec (lbio s) i b)|].
  intros [] s1 (Hb1 & Hd1 & Ha1 & Hk1). cbn [lbio llog].
  destruct (held_ref _ _ _ Hb Hi) as [E _]. apply babs_eq in E as (_ & El & _).
  split_and!; try done.
  - split; cbn [lbio llog]; try done.
    + intros b'. rewrite <- Hrefs. specialize (Ha1 b').
      by destruct (decide (b' = b)) as [->|]; apply babs_eq in Ha1 as (-> & _).
    + intros b'. rewrite <- Hlock. specialize (Ha1 b').
      by destruct (decide (b' = b)) as [->|]; apply babs_eq in Ha1 as (_ & -> & _).
    + by destruct Hd1 as (-> & _).
  - intros b'. specialize (Ha1 b'). by destruct (decide (b' = b)) as [->|]; apply babs_eq in Ha1 as (_ & _ & ->).
Qed.

Lemma log_brelse_spec s H i b :
  linv s (b :: H) -> b ∉ H -> held (lbio s) i b ->
  b ∈ txn (llog s) \/ view (lbio s) b = dblk (disk (lbio s)) b ->
  wp (bio (brelse i)) (fun _ s' => linv s' H /\ llog s' = llog s /\ same_dev (lbio s) (lbio s') /\
    (forall b', view (lbio s') b' = view (lbio s) b') /\
    (forall j b', j <> i -> held (lbio s) j b' -> held (lbio s') j b')) s.
Proof.
  intros [Hb Hg Hn Htx Hrefs Hlock Hhdr] HbH Hi Hclean. log_steps.
  assert (count b (b :: H) = 1) as EH by (unfold count; rewrite decide_True; [done|by left]).
  assert (refs (lbio s) b = count b (txn (llog s)) + 1) as Er by (by rewrite Hrefs, EH).
  eapply wp_mono; [apply (brelse_spec (lbio s) i b); [done|done| |]|].
  - rewrite Er. unfold count. case_decide; lia.
  - intros Hone. destruct Hclean as [Hin|]; [|done]. rewrite Er in Hone. unfold count in Hone.
    rewrite decide_True in Hone by done. lia.
  - intros [] s1 (Hb1 & Hd1 & Ha1 & Hk1). cbn [lbio llog]. split_and!; try done.
    + split; cbn [lbio llog]; try done.
      * intros b'. specialize (Ha1 b'). destruct (decide (b' = b)) as [->|Hne]; apply babs_eq in Ha1 as (-> & _).
        -- rewrite Er. unfold count. rewrite (decide_False (P := b ∈ H)) by done. lia.
        -- rewrite Hrefs. f_equal. unfold count. repeat case_decide; set_solver.
      * intros b'. specialize (Ha1 b'). destruct (decide (b' = b)) as [->|Hne]; apply babs_eq in Ha1 as (_ & -> & _).
        -- by rewrite bool_decide_eq_false_2.
        -- rewrite Hlock. apply bool_decide_ext. set_solver.
      * by destruct Hd1 as (-> & _).
    + intros b'. specialize (Ha1 b'). by destruct (decide (b' = b)) as [->|]; apply babs_eq in Ha1 as (_ & _ & ->).
Qed.
