(* ===== verification/LogProps.v ===== *)
(** * What the log guarantees (kernel/log.c, kernel/bio.c)

    A file-system operation as the rest of the kernel uses the log: [begin_op], a
    number of block updates ([bread], modify, [log_write], [brelse]), [end_op].  The
    operation is atomic with respect to crashes and durable when it returns; three
    operations that the log admits together may nevertheless overflow it. *)

From stdpp Require Import base list gmap strings.
From Stdlib Require Import ZArith Lia.
From S2P Require Import Prelude Mem Sleeplock Bio BioInv Log LogInv.

#[local] Open Scope Z_scope.

(** The idiom of the comment above [log_write]. *)
Definition update_block (b : Z) (f : block -> block) : M lst unit :=
  i <- bio (bread ROOTDEV b) ;;
  bio (write_data i f) ;;;
  log_write i ;;;
  bio (brelse i).

Fixpoint update_blocks (ws : list (Z * (block -> block))) : M lst unit :=
  match ws with
  | [] => ret tt
  | (b, f) :: ws' => update_block b f ;;; update_blocks ws'
  end.

Definition operation (ws : list (Z * (block -> block))) : M lst unit :=
  begin_op ;;; update_blocks ws ;;; end_op.

(** The contents of the blocks after the updates. *)
Fixpoint updated (ws : list (Z * (block -> block))) (v : Z -> block) : Z -> block :=
  match ws with
  | [] => v
  | (b, f) :: ws' => updated ws' (fun b' => if decide (b' = b) then f (v b) else v b')
  end.

(** No operation is running and the log is empty. *)
Definition quiet_log (s : lst) : Prop :=
  linv s [] /\ lh_n (llog s) = 0 /\ l_outstanding (llog s) = 0 /\ l_committing (llog s) = 0.

Definition same_geometry (l l' : log) : Prop := l_start l' = l_start l /\ l_size l' = l_size l.

(** ** Updates *)

(** After some updates: they are in the transaction and in the cache, not on disk. *)
Definition in_txn (s s' : lst) (v : Z -> block) (n : nat) : Prop :=
  linv s' [] /\ same_geometry (llog s) (llog s') /\ l_outstanding (llog s') = 1 /\
  l_committing (llog s') = 0 /\ (length (txn (llog s')) <= n)%nat /\
  same_dev (lbio s) (lbio s') /\ forall b, view (lbio s') b = v b.

Lemma home_geometry l l' b : same_geometry l l' -> home l b -> home l' b.
Proof. intros [E1 E2] [Hb Hn]. split; [done|]. unfold in_log in *. by rewrite E1, E2. Qed.

Lemma update_block_spec s st v n b f :
  in_txn s st v n -> home (llog s) b ->
  Z.of_nat n + 1 < LOGSIZE -> Z.of_nat n + 1 <= l_size (llog s) - 1 ->
  wp (update_block b f) (fun _ st' =>
    in_txn s st' (fun b' => if decide (b' = b) then f (v b) else v b') (S n)) st.
Proof.
  intros (Hinv & Hg & Ho & Hc & Hlen & Hd & Hv) Hb Hn Hsz. unfold update_block.
  pose proof Hinv as [_ Hgeo Hnn _ _ _ _]. pose proof (length_txn _ Hgeo ltac:(lia)) as Htl.
  destruct Hg as [Eg1 Eg2].
  apply wp_bind. eapply wp_mono; [apply (log_bread_spec st [] b Hinv); [apply not_elem_of_nil|]|].
  { change (Z.of_nat NBUF) with 30. unfold LOGSIZE, MAXOPBLOCKS in Hn. simpl. lia. }
  intros i s1 (H1 & E1 & Hh1 & D1 & V1 & _).
  apply wp_bind. eapply wp_mono; [by apply (log_write_data_spec s1 [b] i b f)|].
  intros [] s2 (H2 & E2 & D2 & V2 & K2). rewrite E1 in E2.
  apply wp_bind. eapply wp_mono; [apply (log_write_spec s2 [b] i b); rewrite ?E2; try done; try lia|].
  { by apply K2. } { by eapply home_geometry. } { by left. }
  intros [] s3 (H3 & T3 & S3 & Z3 & O3 & C3 & D3 & V3 & K3). rewrite E2 in *.
  eapply wp_mono; [apply (log_brelse_spec s3 [] i b); try done|].
  { apply not_elem_of_nil. } { by apply K3, K2. }
  { left. rewrite T3. unfold add_txn. case_decide; [done|]. rewrite elem_of_app. right. by left. }
  intros [] s4 (H4 & E4 & D4 & V4 & _). unfold in_txn, same_geometry. rewrite E4.
  split_and!; [done|congruence|congruence|congruence|congruence| | |].
  - rewrite T3. unfold add_txn. case_decide; [lia|]. rewrite length_app. simpl. lia.
  - unfold same_dev in *. destruct Hd as (? & ? & ?), D1 as (? & ? & ?), D2 as (? & ? & ?), D3 as (? & ? & ?),
      D4 as (? & ? & ?). split_and!; congruence.
  - intros b'. rewrite V4, V3, V2, !V1, !Hv. done.
Qed.

Lemma updated_ext ws v v' b : (forall b, v b = v' b) -> updated ws v b = updated ws v' b.
Proof.
  revert v v'. induction ws as [|[b0 f] ws IH]; intros v v' E; [done|]. simpl. apply IH.
  intros b'. case_decide; [by rewrite E|done].
Qed.

Lemma update_blocks_spec s st v n ws :
  in_txn s st v n -> Forall (fun w => home (llog s) w.1) ws ->
  Z.of_nat (n + length ws) < LOGSIZE -> Z.of_nat (n + length ws) <= l_size (llog s) - 1 ->
  wp (update_blocks ws) (fun _ st' => in_txn s st' (updated ws v) (n + length ws)) st.
Proof.
  revert st v n. induction ws as [|[b f] ws IH]; intros st v n Hin Hh Hn Hsz; cbn [update_blocks length] in *.
  - apply wp_ret. by rewrite Nat.add_0_r.
  - apply Forall_cons in Hh as [Hb Hh]. apply wp_bind.
    eapply wp_mono; [apply (update_block_spec s st v n b f Hin Hb); lia|]. intros [] st' Hin'. cbn [updated].
    replace (n + S (length ws))%nat with (S n + length ws)%nat by lia. apply IH; [done|done|lia|lia].
Qed.

(** ** Atomicity *)

(** Recovery on a disk: booting it leaves the blocks outside the log with contents
    [v]. *)
Definition recovers_to (start size : Z) (d : gmap Z block) (v : Z -> block) : Prop :=
  forall pid, wp (boot start size) (fun _ s => linv s [] /\ lh_n (llog s) = 0 /\
    forall b, ~ (start <= b < start + size) -> dblk (disk (lbio s)) b = v b) (rebooted d pid).

Lemma recovers_ext start size d v v' :
  (forall b, v b = v' b) -> recovers_to start size d v -> recovers_to start size d v'.
Proof.
  intros E H pid. specialize (H pid). revert H. generalize (boot start size). intros c H.
  eapply wp_mono; [exact H|]. intros [] s' (? & ? & Hb). split_and!; [done..|].
  intros b Hb'. rewrite Hb by exact Hb'. apply E.
Qed.

Lemma crash_atomic s k :
  linv s [] ->
  recovers_to (l_start (llog s)) (l_size (llog s)) (crash_disk s k) (dblk (disk (lbio s))) \/
  recovers_to (l_start (llog s)) (l_size (llog s)) (crash_disk s k) (view (lbio s)).
Proof.
  intros Hinv. destruct (decide (k <= Z.to_nat (lh_n (llog s)))%nat) as [Hk|Hk]; [left|right];
    intros pid; (eapply wp_mono; [by apply (crash_recover s k pid)|]); intros [] s' (L & E & Hd);
    (split_and!; [done|done|]); intros b Hb; rewrite Hd by exact Hb; by case_decide.
Qed.

Lemma begin_op_spec s :
  quiet_log s -> wp begin_op (fun _ s' => in_txn s s' (view (lbio s)) 0) s.
Proof.
  intros (Hinv & Hn & Ho & Hc). unfold begin_op. apply wp_bind.
  eapply wp_mono; [apply begin_pass_spec|]. intros ok s'. rewrite Hc, Hn, Ho.
  change (nz 0 || (LOGSIZE <? 0 + (0 + 1) * MAXOPBLOCKS)) with false. cbv iota. intros [-> ->]. apply wp_ret.
  unfold in_txn, same_geometry. cbn [lbio llog]. split_and!; try done.
  - destruct Hinv. by constructor.
  - cbn. unfold txn. cbn. rewrite Hn. simpl. lia.
Qed.

(** C1: A file-system operation of at most MAXOPBLOCKS block updates, bracketed by
    [begin_op] and [end_op] on a quiet log, returns; when it has returned all its
    updates are on disk, and the log is quiet again.  If the machine stops after any
    number [k] of the disk writes it performs, recovery finds either no update or all
    of them. *)
Theorem operation_crash_atomic s ws :
  quiet_log s -> Forall (fun w => home (llog s) w.1) ws ->
  Z.of_nat (length ws) <= MAXOPBLOCKS -> Z.of_nat (length ws) <= l_size (llog s) - 1 ->
  wp (operation ws) (fun _ s' =>
    quiet_log s' /\ same_geometry (llog s) (llog s') /\
    (forall b, ~ in_log (llog s) b ->
      dblk (disk (lbio s')) b = updated ws (dblk (disk (lbio s))) b) /\
    exists hw, hist (lbio s') = hist (lbio s) ++ hw /\
      disk (lbio s') = apply_writes hw (disk (lbio s)) /\
      forall k, let d := apply_writes (take k hw) (disk (lbio s)) in
        recovers_to (l_start (llog s)) (l_size (llog s)) d (dblk (disk (lbio s))) \/
        recovers_to (l_start (llog s)) (l_size (llog s)) d (updated ws (dblk (disk (lbio s))))) s.
Proof.
  intros Hq Hh Hlen Hsz. unfold operation. apply wp_bind.
  eapply wp_mono; [by apply begin_op_spec|]. intros [] s0 H0. apply wp_bind.
  eapply wp_mono; [apply (update_blocks_spec s s0 _ 0 ws H0 Hh); unfold MAXOPBLOCKS, LOGSIZE, MAXOPBLOCKS in *; lia|].
  intros [] s1 (Hinv & [Eg1 Eg2] & Ho & Hc & _ & (Ed & Eh & _) & Hv).
  assert (forall b, view (lbio s1) b = updated ws (dblk (disk (lbio s))) b) as Hview.
  { intros b. rewrite Hv. apply updated_ext. intros b'. symmetry. apply durable_empty; apply Hq. }
  eapply wp_mono; [by apply (end_op_last s1)|].
  intros [] s2 (Hinv2 & Ho2 & Hc2 & Hn2 & Es2 & Ez2 & _ & Hh2 & Hd2 & Hdur & Hv2).
  split_and!; [done|unfold same_geometry; split; congruence| |].
  - intros b Hb. rewrite Hdur, Hv2; [apply Hview|]. unfold in_log in *. by rewrite Eg1, Eg2.
  - exists (commit_writes s1). rewrite Hh2, Hd2, Eh, Ed. split_and!; [done..|]. intros k.
    destruct (crash_atomic s1 k Hinv) as [H|H]; unfold crash_disk in H; rewrite Eg1, Eg2, ?Ed in H; [by left|right].
    exact (recovers_ext _ _ _ _ _ Hview H).
Qed.

Definition ex_fill (v : Z) : block -> block := fun d => wr32 d 0 v.
Definition ex_log : log := Log 2 30 0 0 ROOTDEV 0 (replicate (Z.to_nat LOGSIZE) 0).

Lemma ex_boot : wp (boot 2 30) (fun _ s => quiet_log s /\ same_geometry ex_log (llog s)) (rebooted ∅ 1).
Proof.
  eapply wp_mono; [apply (boot_spec ∅ 1 ex_log [] (fun _ => ∅)); try done|].
  - constructor.
  - intros [] s (Hi & E1 & E2 & Ho & Hc & Hn & _). by split.
Qed.

Lemma operation_crash_atomic_witness :
  wp (boot 2 30) (fun _ s =>
    wp (operation [(45, ex_fill 7); (46, ex_fill 8)]) (fun _ s' => quiet_log s' /\
      dblk (disk (lbio s')) 46 = updated [(45, ex_fill 7); (46, ex_fill 8)] (dblk (disk (lbio s))) 46) s)
    (rebooted ∅ 1).
Proof.
  eapply wp_mono; [exact ex_boot|]. intros [] s (Hq & E1 & E2). cbn in E1, E2.
  eapply wp_mono; [apply (operation_crash_atomic s); [exact Hq| | |rewrite E2; cbn; lia]|].
  - repeat constructor; cbn; unfold in_log; rewrite ?E1, ?E2; lia.
  - cbn. unfold MAXOPBLOCKS. lia.
  - intros [] s' (Hq' & _ & Hd & _). split; [exact Hq'|]. apply Hd. unfold in_log. rewrite E1, E2. lia.
Defined.

(** ** Admission *)

(** [k] operations that the log admits together, then the updates of all of them. *)
Fixpoint begin_ops (k : nat) : M lst unit :=
  match k with O => ret tt | S k' => begin_op ;;; begin_ops k' end.

Definition ex_updates (n : nat) : list (Z * (block -> block)) :=
  map (fun i => (45 + Z.of_nat i, ex_fill (Z.of_nat i))) (seq 0 n).

