(* ===== verification/TxDisk.v ===== *)
(** * The interface between the file system and the log

    File-system code reads and writes blocks through [bread], [brelse] and
    [log_write].  [TxDisk] states what it may rely on: during an operation the
    blocks have contents, some blocks are in the transaction, some are held, and
    each call changes these as its law says.  The log implements the interface. *)

From stdpp Require Import base list gmap strings.
From Stdlib Require Import ZArith Lia.
From S2P Require Import Prelude Mem Sleeplock Bio BioInv Log LogInv.

#[local] Open Scope Z_scope.

(** The abstract state of a running operation. *)
Record tx : Type := Tx {
  tx_blk : Z -> block;  (* contents *)
  tx_old : Z -> block;  (* contents before the transaction, on disk *)
  tx_log : list Z;      (* blocks of the transaction *)
  tx_held : list Z;     (* blocks whose buffer is held *)
  tx_cap : Z;           (* how many blocks a transaction may have *)
  tx_home : Z -> Prop;  (* blocks outside the log area *)
}.

Definition tx_hold (b : Z) (t : tx) : tx :=
  Tx (tx_blk t) (tx_old t) (tx_log t) (b :: tx_held t) (tx_cap t) (tx_home t).
Definition tx_drop (b : Z) (t : tx) : tx :=
  Tx (tx_blk t) (tx_old t) (tx_log t) (filter (fun x => x <> b) (tx_held t)) (tx_cap t) (tx_home t).
Definition tx_put (b : Z) (d : block) (t : tx) : tx :=
  Tx (fun b' => if decide (b' = b) then d else tx_blk t b') (tx_old t) (tx_log t) (tx_held t)
    (tx_cap t) (tx_home t).
Definition tx_add (b : Z) (t : tx) : tx :=
  Tx (tx_blk t) (tx_old t) (add_txn b (tx_log t)) (tx_held t) (tx_cap t) (tx_home t).

Class TxDisk (St : Type) : Type := {
  t_bread : Z -> Z -> M St nat;
  t_brelse : nat -> M St unit;
  t_log_write : nat -> M St unit;
  t_data : nat -> M St block;
  t_write : nat -> (block -> block) -> M St unit;
  t_inv : St -> tx -> Prop;
  t_has : St -> nat -> Z -> Prop;  (* a handle on the buffer of a block *)
  t_bread_ok : forall s t b,
    t_inv s t -> b ∉ tx_held t -> 0 <= b < 2 ^ 32 ->
    Z.of_nat (length (tx_log t) + length (tx_held t)) < Z.of_nat NBUF ->
    wp (t_bread ROOTDEV b) (fun i s' => t_inv s' (tx_hold b t) /\ t_has s' i b /\
      (b ∈ tx_log t \/ tx_blk t b = tx_old t b) /\
      (forall j b', t_has s j b' -> t_has s' j b')) s;
  t_data_ok : forall s t i b,
    t_inv s t -> t_has s i b -> wp (t_data i) (fun d s' => d = tx_blk t b /\ s' = s) s;
  t_write_ok : forall s t i b f,
    t_inv s t -> t_has s i b ->
    wp (t_write i f) (fun _ s' => t_inv s' (tx_put b (f (tx_blk t b)) t) /\
      (forall j b', t_has s j b' -> t_has s' j b')) s;
  t_log_write_ok : forall s t i b,
    t_inv s t -> t_has s i b -> b ∈ tx_held t -> tx_home t b ->
    Z.of_nat (length (tx_log t)) < tx_cap t ->
    wp (t_log_write i) (fun _ s' => t_inv s' (tx_add b t) /\
      (forall j b', t_has s j b' -> t_has s' j b')) s;
  t_brelse_ok : forall s t i b,
    t_inv s t -> t_has s i b -> b ∈ tx_held t -> (b ∈ tx_log t \/ tx_blk t b = tx_old t b) ->
    wp (t_brelse i) (fun _ s' => t_inv s' (tx_drop b t) /\
      (forall j b', b' <> b -> t_has s j b' -> t_has s' j b')) s;
}.

(** ** The log as an instance *)

(** What a transaction of the log can hold, one block less than the log has. *)
Definition log_cap (l : log) : Z := Z.min (l_size l - 1) (LOGSIZE - 1).

Definition log_rel (s : lst) (t : tx) : Prop :=
  linv s (tx_held t) /\ 1 <= l_outstanding (llog s) /\ txn (llog s) = tx_log t /\
  tx_cap t = log_cap (llog s) /\ (forall b, tx_home t b -> home (llog s) b) /\
  (forall b, view (lbio s) b = tx_blk t b) /\ (forall b, dblk (disk (lbio s)) b = tx_old t b) /\
  NoDup (tx_held t).

Definition log_data (i : nat) : M lst block := x <- bio (getb i) ;; ret (b_data x).

Lemma log_rel_len s t : log_rel s t -> lh_n (llog s) = Z.of_nat (length (tx_log t)).
Proof.
  intros ([_ Hg Hn _ _ _ _] & _ & <- & _). rewrite length_txn by (done || lia). lia.
Qed.

Lemma log_rel_bread s t b :
  log_rel s t -> b ∉ tx_held t -> 0 <= b < 2 ^ 32 ->
  Z.of_nat (length (tx_log t) + length (tx_held t)) < Z.of_nat NBUF ->
  wp (bio (bread ROOTDEV b)) (fun i s' => log_rel s' (tx_hold b t) /\ held (lbio s') i b /\
    (b ∈ tx_log t \/ tx_blk t b = tx_old t b) /\
    (forall j b', held (lbio s) j b' -> held (lbio s') j b')) s.
Proof.
  intros Hrel Hb _ Hroom. pose proof (log_rel_len _ _ Hrel) as Hlen.
  destruct Hrel as (Hinv & Hout & Htx & Hcap & Hhome & Hv & Hd & Hnd).
  eapply wp_mono; [apply (log_bread_spec s (tx_held t) b); [done|done|lia]|].
  intros i s' (Hinv' & El & Hh & (D1 & _ & _) & Hv' & Hk). split_and!; try done.
  - unfold log_rel. cbn. rewrite El, D1. split_and!; try done; [|by constructor].
    intros b'. by rewrite Hv'.
  - destruct (decide (b ∈ tx_log t)) as [|Hni]; [by left|right].
    rewrite <- Hv, <- Hd. apply refs0_clean; [apply Hinv|].
    rewrite (li_refs _ _ Hinv), Htx. unfold count. by rewrite !decide_False.
Qed.

Lemma log_rel_data s t i b :
  log_rel s t -> held (lbio s) i b -> wp (log_data i) (fun d s' => d = tx_blk t b /\ s' = s) s.
Proof.
  intros (Hinv & _ & _ & _ & _ & Hv & _) Hi. unfold log_data. log_steps. apply wp_getb. log_steps.
  destruct (held_ref _ _ _ (li_bio _ _ Hinv) Hi) as [E _]. apply babs_eq in E as (_ & _ & <-).
  rewrite Hv. split; [done|by destruct s].
Qed.

Lemma log_rel_write s t i b f :
  log_rel s t -> held (lbio s) i b ->
  wp (bio (write_data i f)) (fun _ s' => log_rel s' (tx_put b (f (tx_blk t b)) t) /\
    (forall j b', held (lbio s) j b' -> held (lbio s') j b')) s.
Proof.
  intros (Hinv & Hout & Htx & Hcap & Hhome & Hv & Hd & Hnd) Hi.
  eapply wp_mono; [by apply (log_write_data_spec s (tx_held t) i b f)|].
  intros [] s' (Hinv' & El & (D1 & _ & _) & Hv' & Hk). split; [|done].
  unfold log_rel. cbn. rewrite El, D1. split_and!; try done. intros b'. rewrite Hv', !Hv. done.
Qed.

Lemma log_rel_log_write s t i b :
  log_rel s t -> held (lbio s) i b -> b ∈ tx_held t -> tx_home t b ->
  Z.of_nat (length (tx_log t)) < tx_cap t ->
  wp (log_write i) (fun _ s' => log_rel s' (tx_add b t) /\
    (forall j b', held (lbio s) j b' -> held (lbio s') j b')) s.
Proof.
  intros Hrel Hi Hb Hhb Hlen. pose proof (log_rel_len _ _ Hrel) as Hn.
  destruct Hrel as (Hinv & Hout & Htx & Hcap & Hhome & Hv & Hd & Hnd). rewrite Hcap in Hlen.
  unfold log_cap in Hlen.
  eapply wp_mono; [apply (log_write_spec s (tx_held t) i b); try done; try lia; by apply Hhome|].
  intros [] s' (Hinv' & Htx' & E1 & E2 & E3 & E4 & (D1 & _ & _) & Hv' & Hk). split; [|done].
  unfold log_rel. cbn. rewrite D1, Htx', Htx, E3. split_and!; try done.
  - rewrite Hcap. unfold log_cap. by rewrite E2.
  - intros b' Hb'. destruct (Hhome b' Hb') as [? Hnl]. split; [done|].
    unfold in_log in *. by rewrite E1, E2.
  - intros b'. by rewrite Hv'.
Qed.

Lemma log_rel_brelse s t i b :
  log_rel s t -> held (lbio s) i b -> b ∈ tx_held t -> (b ∈ tx_log t \/ tx_blk t b = tx_old t b) ->
  wp (bio (brelse i)) (fun _ s' => log_rel s' (tx_drop b t) /\
    (forall j b', b' <> b -> held (lbio s) j b' -> held (lbio s') j b')) s.
Proof.
  intros (Hinv & Hout & Htx & Hcap & Hhome & Hv & Hd & Hnd) Hi Hb Hclean.
  set (H' := filter (fun x => x <> b) (tx_held t)).
  assert (b ∉ H') as HbH'.
  { unfold H'. rewrite list_elem_of_filter. tauto. }
  eapply wp_mono; [apply (log_brelse_spec s H' i b); [|done|done|]|].
  - apply (linv_held s (tx_held t)); [done|]. intros b'. unfold H'.
    rewrite elem_of_cons, list_elem_of_filter. destruct (decide (b' = b)) as [->|]; tauto.
  - by rewrite Htx, Hv, Hd.
  - intros [] s' (Hinv' & El & (D1 & _ & _) & Hv' & Hk). split.
    + unfold log_rel. cbn. rewrite El, D1. split_and!; try done.
      * intros b'. by rewrite Hv'.
      * by apply NoDup_filter.
    + intros j b' Hne Hj. apply Hk; [|done]. intros ->. apply Hne.
      destruct Hj as ((_ & _ & <-) & _), Hi as ((_ & _ & <-) & _). done.
Qed.

#[global] Instance log_txdisk : TxDisk lst := {|
  t_bread dev b := bio (bread dev b);
  t_brelse i := bio (brelse i);
  t_log_write := log_write;
  t_data := log_data;
  t_write i f := bio (write_data i f);
  t_inv := log_rel;
  t_has s i b := held (lbio s) i b;
  t_bread_ok := log_rel_bread;
  t_data_ok := log_rel_data;
  t_write_ok := log_rel_write;
  t_log_write_ok := log_rel_log_write;
  t_brelse_ok := log_rel_brelse;
|}.
