(* ===== verification/Fs.v ===== *)
(** * The file system (kernel/fs.c)

    Block allocator, inode table, file contents, directories and path names, over
    the transactional disk of [TxDisk].  Inodes in memory are entries of the table
    [itable]; a pointer to one is its index.  [readi] and [writei] with a kernel
    address are modelled by the bytes they deliver or take, with a user address
    by the class [UserCopy]. *)

From stdpp Require Import base list gmap strings.
From Stdlib Require Import ZArith Lia.
From S2P Require Import Prelude Mem Str Sleeplock Bio BioInv TxDisk.

#[local] Open Scope Z_scope.

(** ** On-disk format (kernel/fs.h, kernel/stat.h) *)

Definition ROOTINO : Z := 1.
Definition FSMAGIC : Z := 0x10203040.
Definition NDIRECT : Z := 12.
Definition NINDIRECT : Z := BSIZE / 4.
Definition MAXFILE : Z := NDIRECT + NINDIRECT.
Definition DIRSIZ : Z := 14.
Definition sizeof_dinode : Z := 64.
Definition sizeof_dirent : Z := 16.
Definition IPB : Z := BSIZE / sizeof_dinode.
Definition BPB : Z := BSIZE * 8.
Definition T_DIR : Z := 1.
Definition T_FILE : Z := 2.
Definition T_DEVICE : Z := 3.
Definition NINODE : nat := 50.

Record superblock : Type := Superblock {
  sb_magic : Z; sb_size : Z; sb_nblocks : Z; sb_ninodes : Z;
  sb_nlog : Z; sb_logstart : Z; sb_inodestart : Z; sb_bmapstart : Z;
}.

Definition IBLOCK (i : Z) (sb : superblock) : Z := u32 (i / IPB + sb_inodestart sb).
Definition BBLOCK (b : Z) (sb : superblock) : Z := u32 (b / BPB + sb_bmapstart sb).

(** [struct inode] (kernel/file.h). *)
Record inode : Type := Inode {
  i_dev : Z; i_inum : Z; i_ref : Z; i_lock : sleeplock; i_valid : Z;
  i_type : Z; i_major : Z; i_minor : Z; i_nlink : Z; i_size : Z;
  i_addrs : list Z;  (* NDIRECT + 1 entries *)
}.
#[global] Instance inode_inhabited : Inhabited inode :=
  populate (Inode 0 0 0 initsleeplock 0 0 0 0 0 0 (replicate 13 0)).

Definition i_set_ref (v : Z) (ip : inode) : inode :=
  Inode (i_dev ip) (i_inum ip) v (i_lock ip) (i_valid ip) (i_type ip) (i_major ip) (i_minor ip)
    (i_nlink ip) (i_size ip) (i_addrs ip).
Definition i_set_lock (v : sleeplock) (ip : inode) : inode :=
  Inode (i_dev ip) (i_inum ip) (i_ref ip) v (i_valid ip) (i_type ip) (i_major ip) (i_minor ip)
    (i_nlink ip) (i_size ip) (i_addrs ip).
Definition i_set_valid (v : Z) (ip : inode) : inode :=
  Inode (i_dev ip) (i_inum ip) (i_ref ip) (i_lock ip) v (i_type ip) (i_major ip) (i_minor ip)
    (i_nlink ip) (i_size ip) (i_addrs ip).
Definition i_set_type (v : Z) (ip : inode) : inode :=
  Inode (i_dev ip) (i_inum ip) (i_ref ip) (i_lock ip) (i_valid ip) v (i_major ip) (i_minor ip)
    (i_nlink ip) (i_size ip) (i_addrs ip).
Definition i_set_nlink (v : Z) (ip : inode) : inode :=
  Inode (i_dev ip) (i_inum ip) (i_ref ip) (i_lock ip) (i_valid ip) (i_type ip) (i_major ip)
    (i_minor ip) v (i_size ip) (i_addrs ip).
Definition i_set_mm (mj mn : Z) (ip : inode) : inode :=
  Inode (i_dev ip) (i_inum ip) (i_ref ip) (i_lock ip) (i_valid ip) (i_type ip) mj mn
    (i_nlink ip) (i_size ip) (i_addrs ip).
Definition i_set_size (v : Z) (ip : inode) : inode :=
  Inode (i_dev ip) (i_inum ip) (i_ref ip) (i_lock ip) (i_valid ip) (i_type ip) (i_major ip)
    (i_minor ip) (i_nlink ip) v (i_addrs ip).
Definition i_set_addr (k v : Z) (ip : inode) : inode :=
  Inode (i_dev ip) (i_inum ip) (i_ref ip) (i_lock ip) (i_valid ip) (i_type ip) (i_major ip)
    (i_minor ip) (i_nlink ip) (i_size ip) (<[Z.to_nat k := v]> (i_addrs ip)).
Definition i_addr (k : Z) (ip : inode) : Z := i_addrs ip !!! Z.to_nat k.

(** The inode at byte [o] of a block, and storing one there. *)
Definition rd_addrs (d : block) (o : Z) : list Z :=
  (fun k => rd32 d (o + 12 + 4 * k)) <$> seqZ 0 13.
Definition load_dinode (d : block) (o : Z) (ip : inode) : inode :=
  Inode (i_dev ip) (i_inum ip) (i_ref ip) (i_lock ip) (i_valid ip)
    (s16 (rd16 d o)) (s16 (rd16 d (o + 2))) (s16 (rd16 d (o + 4))) (s16 (rd16 d (o + 6)))
    (rd32 d (o + 8)) (rd_addrs d o).
Fixpoint wr_addrs (d : block) (o : Z) (l : list Z) : block :=
  match l with
  | [] => d
  | v :: l' => wr_addrs (wr32 d o v) (o + 4) l'
  end.
Definition store_dinode (ip : inode) (o : Z) (d : block) : block :=
  let d := wr16 d o (u16 (i_type ip)) in
  let d := wr16 d (o + 2) (u16 (i_major ip)) in
  let d := wr16 d (o + 4) (u16 (i_minor ip)) in
  let d := wr16 d (o + 6) (u16 (i_nlink ip)) in
  let d := wr32 d (o + 8) (i_size ip) in
  wr_addrs d (o + 12) (i_addrs ip).

(** ** State *)

Record fsst (St : Type) : Type := Fsst {
  fs_disk : St;
  fs_sb : superblock;
  fs_itable : list inode;
  fs_pid : Z;  (* myproc()->pid *)
}.
Arguments Fsst {St}.
Arguments fs_disk {St}.
Arguments fs_sb {St}.
Arguments fs_itable {St}.
Arguments fs_pid {St}.

(** Copies between a block and user memory: [u_copyout va bytes] is
    [either_copyout(1, va, ...)]; [u_copyin old va] is [either_copyin(dst, 1, va, n)]
    on a destination that holds the [n] bytes [old], and returns what it holds
    after, also when the copy fails half-way. *)
Class UserCopy (St : Type) : Type := {
  u_copyout : Z -> list Z -> M St Z;
  u_copyin : list Z -> Z -> M St (Z * list Z);
}.

Section fs.
Context {St : Type} `{TxDisk St} `{UserCopy St}.

Abbreviation FS := (M (fsst St)).

Definition set_disk (d : St) (s : fsst St) : fsst St := Fsst d (fs_sb s) (fs_itable s) (fs_pid s).
Definition dk {A} (c : M St A) : FS A := zoom fs_disk set_disk c.
Definition geti (ip : nat) : FS inode := gets (fun s => fs_itable s !!! ip).
Definition updi (ip : nat) (f : inode -> inode) : FS unit :=
  modify (fun s => Fsst (fs_disk s) (fs_sb s) (alter f ip (fs_itable s)) (fs_pid s)).

(** Bytes [o .. o+n-1] of a block, and overwriting bytes from [o]. *)
Definition blk_bytes (d : block) (o n : Z) : list Z := bytes_at d o (Z.to_nat n).
Fixpoint blk_store (d : block) (o : Z) (l : list Z) : block :=
  match l with
  | [] => d
  | v :: l' => blk_store (wr8 d o v) (o + 1) l'
  end.

(** ** Blocks *)

Definition parse_sb (d : block) : superblock :=
  Superblock (rd32 d 0) (rd32 d 4) (rd32 d 8) (rd32 d 12) (rd32 d 16) (rd32 d 20) (rd32 d 24) (rd32 d 28).
Definition readsb (dev : Z) : FS unit :=
  bp <- dk (t_bread dev 1) ;;
  d <- dk (t_data bp) ;;
  modify (fun s => Fsst (fs_disk s) (parse_sb d) (fs_itable s) (fs_pid s)) ;;;
  dk (t_brelse bp).

(** [initlog] is the log's, so it is passed in. *)
Definition fsinit (initlog : Z -> Z -> Z -> M St unit) (dev : Z) : FS unit :=
  readsb dev ;;;
  sb <- gets fs_sb ;;
  if negb (sb_magic sb =? FSMAGIC) then panic "invalid file system"
  else dk (initlog dev (sb_logstart sb) (sb_nlog sb)).

Definition bzero (dev bno : Z) : FS unit :=
  bp <- dk (t_bread dev bno) ;;
  dk (t_write bp (fun d => memset d 0 0 BSIZE)) ;;;
  dk (t_log_write bp) ;;;
  dk (t_brelse bp).

(** The mask and the test of a bit of the bitmap. *)
Definition bit_mask (bi : Z) : Z := Z.shiftl 1 (bi mod 8).
Definition bit_free (d : block) (bi : Z) : bool := Z.land (rd8 d (bi / 8)) (bit_mask bi) =? 0.

Definition balloc (dev : Z) : FS Z :=
  sb <- gets fs_sb ;;
  while_ (fun b =>
    if b <? sb_size sb then
      bp <- dk (t_bread dev (BBLOCK b sb)) ;;
      r <- while_ (fun bi =>
        if (bi <? BPB) && (b + bi <? sb_size sb) then
          d <- dk (t_data bp) ;;
          if bit_free d bi then
            dk (t_write bp (fun d => wr8 d (bi / 8) (Z.lor (rd8 d (bi / 8)) (bit_mask bi)))) ;;;
            dk (t_log_write bp) ;;;
            dk (t_brelse bp) ;;;
            bzero dev (b + bi) ;;;
            ret (Brk (Some (b + bi)))
          else ret (Next (bi + 1))
        else ret (Brk None)) 0 ;;
      match r with
      | Some addr => ret (Brk addr)
      | None => dk (t_brelse bp) ;;; ret (Next (b + BPB))
      end
    else ret (Brk 0)) 0.

Definition bfree (dev b : Z) : FS unit :=
  sb <- gets fs_sb ;;
  bp <- dk (t_bread dev (BBLOCK b sb)) ;;
  let bi := b mod BPB in
  d <- dk (t_data bp) ;;
  if bit_free d bi then panic "freeing free block"
  else
    dk (t_write bp (fun d => wr8 d (bi / 8) (Z.land (rd8 d (bi / 8)) (Z.lnot (bit_mask bi))))) ;;;
    dk (t_log_write bp) ;;;
    dk (t_brelse bp).

(** ** Inodes *)

Definition iinit : FS unit :=
  for_ 0 NINODE (fun i => updi (Z.to_nat i) (i_set_lock initsleeplock)).

(** The search of [iget]: an entry for the inode, else the first empty slot. *)
Fixpoint iget_scan (l : list inode) (i : nat) (empty : option nat) (dev inum : Z) : nat + option nat :=
  match l with
  | [] => inr empty
  | ip :: l' =>
      if (0 <? i_ref ip) && (i_dev ip =? dev) && (i_inum ip =? inum) then inl i
      else
        let empty := match empty with
                     | None => if i_ref ip =? 0 then Some i else None
                     | Some e => Some e
                     end in
        iget_scan l' (S i) empty dev inum
  end.

Definition iget (dev inum : Z) : FS nat :=
  l <- gets fs_itable ;;
  match iget_scan l 0 None dev inum with
  | inl ip => updi ip (fun x => i_set_ref (i_ref x + 1) x) ;;; ret ip
  | inr None => panic "iget: no inodes"
  | inr (Some ip) =>
      updi ip (fun x => Inode dev inum 1 (i_lock x) 0 (i_type x) (i_major x) (i_minor x)
        (i_nlink x) (i_size x) (i_addrs x)) ;;;
      ret ip
  end.

(** Clear an on-disk inode and give it its type. *)
Definition new_dinode (type o : Z) (d : block) : block :=
  wr16 (memset d o 0 sizeof_dinode) o (u16 type).

Definition ialloc (dev type : Z) : FS (option nat) :=
  sb <- gets fs_sb ;;
  while_ (fun inum =>
    if inum <? sb_ninodes sb then
      bp <- dk (t_bread dev (IBLOCK inum sb)) ;;
      let o := inum mod IPB * sizeof_dinode in
      d <- dk (t_data bp) ;;
      if s16 (rd16 d o) =? 0 then
        dk (t_write bp (new_dinode type o)) ;;;
        dk (t_log_write bp) ;;;
        dk (t_brelse bp) ;;;
        ip <- iget dev inum ;;
        ret (Brk (Some ip))
      else
        dk (t_brelse bp) ;;;
        ret (Next (inum + 1))
    else ret (Brk None)) 1.

Definition iupdate (ip : nat) : FS unit :=
  sb <- gets fs_sb ;;
  x <- geti ip ;;
  bp <- dk (t_bread (i_dev x) (IBLOCK (i_inum x) sb)) ;;
  dk (t_write bp (store_dinode x (i_inum x mod IPB * sizeof_dinode))) ;;;
  dk (t_log_write bp) ;;;
  dk (t_brelse bp).

Definition idup (ip : nat) : FS nat :=
  updi ip (fun x => i_set_ref (i_ref x + 1) x) ;;; ret ip.

Definition acquire_inode (ip : nat) : FS unit :=
  x <- geti ip ;;
  pid <- gets fs_pid ;;
  match acquiresleep pid (i_lock x) with
  | Some lk => updi ip (i_set_lock lk)
  | None => hang
  end.

Definition ilock (ip : nat) : FS unit :=
  x <- geti ip ;;
  if i_ref x <? 1 then panic "ilock"
  else
    acquire_inode ip ;;;
    x <- geti ip ;;
    when (i_valid x =? 0)
      (sb <- gets fs_sb ;;
       bp <- dk (t_bread (i_dev x) (IBLOCK (i_inum x) sb)) ;;
       d <- dk (t_data bp) ;;
       updi ip (load_dinode d (i_inum x mod IPB * sizeof_dinode)) ;;;
       dk (t_brelse bp) ;;;
       updi ip (i_set_valid 1) ;;;
       x <- geti ip ;;
       if i_type x =? 0 then panic "ilock: no type" else ret tt).

Definition iunlock (ip : nat) : FS unit :=
  x <- geti ip ;;
  pid <- gets fs_pid ;;
  if negb (holdingsleep pid (i_lock x)) || (i_ref x <? 1) then panic "iunlock"
  else updi ip (i_set_lock (releasesleep (i_lock x))).

(** ** Contents *)

(** [struct uint *a] of an indirect block. *)
Definition rd_slot (d : block) (k : Z) : Z := rd32 d (4 * k).

Definition bmap (ip : nat) (bn : Z) : FS Z :=
  x <- geti ip ;;
  if bn <? NDIRECT then
    (if i_addr bn x =? 0 then
       addr <- balloc (i_dev x) ;;
       if addr =? 0 then ret 0
       else updi ip (i_set_addr bn addr) ;;; ret addr
     else ret (i_addr bn x))
  else
    let bn := bn - NDIRECT in
    if bn <? NINDIRECT then
      addr <- (if i_addr NDIRECT x =? 0 then
                 addr <- balloc (i_dev x) ;;
                 when (negb (addr =? 0)) (updi ip (i_set_addr NDIRECT addr)) ;;;
                 ret addr
               else ret (i_addr NDIRECT x)) ;;
      if addr =? 0 then ret 0
      else
        bp <- dk (t_bread (i_dev x) addr) ;;
        d <- dk (t_data bp) ;;
        addr <- (if rd_slot d bn =? 0 then
                   addr <- balloc (i_dev x) ;;
                   when (negb (addr =? 0))
                     (dk (t_write bp (fun d => wr32 d (4 * bn) addr)) ;;;
                      dk (t_log_write bp)) ;;;
                   ret addr
                 else ret (rd_slot d bn)) ;;
        dk (t_brelse bp) ;;;
        ret addr
    else panic "bmap: out of range".

Definition itrunc (ip : nat) : FS unit :=
  for_ 0 (Z.to_nat NDIRECT) (fun i =>
    x <- geti ip ;;
    when (nz (i_addr i x))
      (bfree (i_dev x) (i_addr i x) ;;;
       updi ip (i_set_addr i 0))) ;;;
  x <- geti ip ;;
  when (nz (i_addr NDIRECT x))
    (bp <- dk (t_bread (i_dev x) (i_addr NDIRECT x)) ;;
     for_ 0 (Z.to_nat NINDIRECT) (fun j =>
       d <- dk (t_data bp) ;;
       when (nz (rd_slot d j)) (bfree (i_dev x) (rd_slot d j))) ;;;
     dk (t_brelse bp) ;;;
     bfree (i_dev x) (i_addr NDIRECT x) ;;;
     updi ip (i_set_addr NDIRECT 0)) ;;;
  updi ip (i_set_size 0) ;;;
  iupdate ip.

Definition iput (ip : nat) : FS unit :=
  x <- geti ip ;;
  when ((i_ref x =? 1) && nz (i_valid x) && (i_nlink x =? 0))
    (acquire_inode ip ;;;
     itrunc ip ;;;
     updi ip (i_set_type 0) ;;;
     iupdate ip ;;;
     updi ip (i_set_valid 0) ;;;
     updi ip (fun x => i_set_lock (releasesleep (i_lock x)) x)) ;;;
  updi ip (fun x => i_set_ref (i_ref x - 1) x).

Definition iunlockput (ip : nat) : FS unit := iunlock ip ;;; iput ip.

(** [struct stat] as filled by [stati]. *)
Record stat : Type := Stat { st_dev : Z; st_ino : Z; st_type : Z; st_nlink : Z; st_size : Z }.
Definition stati (ip : nat) : FS stat :=
  x <- geti ip ;;
  ret (Stat (s32 (i_dev x)) (i_inum x) (i_type x) (i_nlink x) (i_size x)).

(** Where [readi] delivers to, and where [writei] takes from. *)
Inductive rdst : Type := ToUser (va : Z) | ToKernel.
Inductive wsrc : Type := FromUser (va : Z) | FromKernel (bytes : list Z).

(** [either_copyout(user_dst, dst + tot, bytes)] for the piece at offset [tot]. *)
Definition deliver (dst : rdst) (tot : Z) (bytes : list Z) : FS Z :=
  match dst with
  | ToUser va => dk (u_copyout (u64 (va + tot)) bytes)
  | ToKernel => ret 0
  end.
(** [either_copyin(dst, user_src, src + tot, m)] where [dst] holds [old]. *)
Definition take_src (src : wsrc) (tot : Z) (old : list Z) : FS (Z * list Z) :=
  match src with
  | FromUser va => dk (u_copyin old (u64 (va + tot)))
  | FromKernel bytes => ret (0, take (length old) (drop (Z.to_nat tot) bytes))
  end.

(** Returns the count and the bytes delivered, in order. *)
Definition readi (ip : nat) (dst : rdst) (off n : Z) : FS (Z * list Z) :=
  x <- geti ip ;;
  if (i_size x <? off) || (u32 (off + n) <? off) then ret (0, [])
  else
    let n := if i_size x <? off + n then i_size x - off else n in
    while_ (fun '(tot, off, acc) =>
      if tot <? n then
        addr <- bmap ip (off / BSIZE) ;;
        if addr =? 0 then ret (Brk (s32 tot, acc))
        else
          bp <- dk (t_bread (i_dev x) addr) ;;
          let m := Z.min (n - tot) (BSIZE - off mod BSIZE) in
          d <- dk (t_data bp) ;;
          let bytes := blk_bytes d (off mod BSIZE) m in
          r <- deliver dst tot bytes ;;
          if r =? -1 then
            dk (t_brelse bp) ;;; ret (Brk (-1, acc))
          else
            dk (t_brelse bp) ;;;
            ret (Next (tot + m, off + m, acc ++ bytes))
      else ret (Brk (s32 tot, acc))) (0, off, []).

Definition writei (ip : nat) (src : wsrc) (off n : Z) : FS Z :=
  x <- geti ip ;;
  if (i_size x <? off) || (u32 (off + n) <? off) then ret (-1)
  else if MAXFILE * BSIZE <? off + n then ret (-1)
  else
    r <- while_ (fun '(tot, off) =>
      if tot <? n then
        addr <- bmap ip (off / BSIZE) ;;
        if addr =? 0 then ret (Brk (tot, off))
        else
          bp <- dk (t_bread (i_dev x) addr) ;;
          let m := Z.min (n - tot) (BSIZE - off mod BSIZE) in
          d <- dk (t_data bp) ;;
          p <- take_src src tot (blk_bytes d (off mod BSIZE) m) ;;
          let '(r, bytes) := p in
          dk (t_write bp (fun d => blk_store d (off mod BSIZE) bytes)) ;;;
          if r =? -1 then
            dk (t_brelse bp) ;;; ret (Brk (tot, off))
          else
            dk (t_log_write bp) ;;;
            dk (t_brelse bp) ;;;
            ret (Next (tot + m, off + m))
      else ret (Brk (tot, off))) (0, off) ;;
    let '(tot, off) := r in
    x <- geti ip ;;
    when (i_size x <? off) (updi ip (i_set_size off)) ;;;
    iupdate ip ;;;
    ret (s32 tot).

(** ** Directories *)

(** Byte [k] of a string that ends with its list. *)
Definition chr (l : list Z) (k : nat) : Z := nth k l 0.

(** [strncmp] on two names, each read as NUL-terminated. *)
Fixpoint name_strncmp (p q : list Z) (n : nat) : Z :=
  match n with
  | O => 0
  | S n' =>
      if nz (chr p 0) && (chr p 0 =? chr q 0) then name_strncmp (tail p) (tail q) n'
      else u8 (chr p 0) - u8 (chr q 0)
  end.
Definition namecmp (s t : list Z) : Z := name_strncmp s t (Z.to_nat DIRSIZ).

(** The 16 bytes of a directory entry. *)
Definition de_inum (de : list Z) : Z := chr de 0 + 256 * chr de 1.
Definition de_name (de : list Z) : list Z := drop 2 de.

(** [strncpy(de.name, name, DIRSIZ)]: the name cut at a NUL or at 14 bytes, padded. *)
Fixpoint pad_name (s : list Z) (n : nat) : list Z :=
  match n with
  | O => []
  | S n' => match s with
            | [] => 0 :: pad_name [] n'
            | c :: s' => if c =? 0 then 0 :: pad_name [] n' else c :: pad_name s' n'
            end
  end.
Definition make_dirent (inum : Z) (name : list Z) : list Z :=
  [u8 inum; u8 (inum / 256)] ++ pad_name name (Z.to_nat DIRSIZ).

(** Returns the inode and the offset of the entry. *)
Definition dirlookup (dp : nat) (name : list Z) : FS (option (nat * Z)) :=
  x <- geti dp ;;
  if negb (i_type x =? T_DIR) then panic "dirlookup not DIR"
  else
    while_ (fun off =>
      x <- geti dp ;;
      if off <? i_size x then
        r <- readi dp ToKernel off sizeof_dirent ;;
        let '(n, de) := r in
        if negb (n =? sizeof_dirent) then panic "dirlookup read"
        else if de_inum de =? 0 then ret (Next (u32 (off + sizeof_dirent)))
        else if namecmp name (de_name de) =? 0 then
          ip <- iget (i_dev x) (de_inum de) ;;
          ret (Brk (Some (ip, off)))
        else ret (Next (u32 (off + sizeof_dirent)))
      else ret (Brk None)) 0.

Definition dirlink (dp : nat) (name : list Z) (inum : Z) : FS Z :=
  r <- dirlookup dp name ;;
  match r with
  | Some (ip, _) => iput ip ;;; ret (-1)
  | None =>
      off <- while_ (fun off =>
        x <- geti dp ;;
        if off <? i_size x then
          r <- readi dp ToKernel off sizeof_dirent ;;
          let '(n, de) := r in
          if negb (n =? sizeof_dirent) then panic "dirlink read"
          else if de_inum de =? 0 then ret (Brk off)
          else ret (Next (off + sizeof_dirent))
        else ret (Brk off)) 0 ;;
      n <- writei dp (FromKernel (make_dirent inum name)) off sizeof_dirent ;;
      if negb (n =? sizeof_dirent) then ret (-1) else ret 0
  end.

(** ** Paths *)

Definition SLASH : Z := 47.

Fixpoint skip_slashes (path : list Z) : list Z :=
  match path with
  | c :: path' => if c =? SLASH then skip_slashes path' else path
  | [] => []
  end.
(** The element up to a slash or the end, and what follows. *)
Fixpoint take_elem (path : list Z) : list Z * list Z :=
  match path with
  | c :: path' => if c =? SLASH then ([], path)
                  else let '(e, r) := take_elem path' in (c :: e, r)
  | [] => ([], [])
  end.

(** The rest of the path and the element, cut to [DIRSIZ] bytes. *)
Definition skipelem (path : list Z) : option (list Z * list Z) :=
  match skip_slashes path with
  | [] => None
  | s =>
      let '(e, r) := take_elem s in
      Some (skip_slashes r, if DIRSIZ <=? Z.of_nat (length e) then take (Z.to_nat DIRSIZ) e else e)
  end.

(** [cwd] is [myproc()->cwd].  The loop runs once per element, so the length of
    the path bounds it. *)
Fixpoint namex_loop (fuel : nat) (ip : nat) (path name : list Z) (parent : bool)
  : FS (option (nat * list Z)) :=
  match fuel with
  | O => hang
  | S fuel' =>
      match skipelem path with
      | None =>
          if parent then iput ip ;;; ret None else ret (Some (ip, name))
      | Some (path', name) =>
          ilock ip ;;;
          x <- geti ip ;;
          if negb (i_type x =? T_DIR) then iunlockput ip ;;; ret None
          else if parent && (match path' with [] => true | _ => false end) then
            iunlock ip ;;; ret (Some (ip, name))
          else
            r <- dirlookup ip name ;;
            match r with
            | None => iunlockput ip ;;; ret None
            | Some (next, _) =>
                iunlockput ip ;;;
                namex_loop fuel' next path' name parent
            end
      end
  end.
Definition namex (cwd : nat) (path : list Z) (parent : bool) : FS (option (nat * list Z)) :=
  ip <- (match path with
         | c :: _ => if c =? SLASH then iget ROOTDEV ROOTINO else idup cwd
         | [] => idup cwd
         end) ;;
  namex_loop (S (length path)) ip path [] parent.

Definition namei (cwd : nat) (path : list Z) : FS (option nat) :=
  r <- namex cwd path false ;; ret (fst <$> r).
Definition nameiparent (cwd : nat) (path : list Z) : FS (option (nat * list Z)) :=
  namex cwd path true.

End fs.
