(* ===== verification/FsBlocks.v ===== *)
(** * Correctness of the block allocator

    [balloc] returns the first block whose bit is clear, sets the bit and clears
    the block, or reports that there is none; [bfree] clears the bit.  All lemmas
    are proved from the laws of [TxDisk]. *)

From stdpp Require Import base list gmap strings.
From Stdlib Require Import ZArith Lia.
From S2P Require Import Prelude Mem Str Sleeplock Bio BioInv LogInv TxDisk Fs.

#[local] Open Scope Z_scope.

(** ** Bits of the bitmap *)

Lemma bit_free_testbit d bi : 0 <= bi -> bit_free d bi = negb (Z.testbit (rd8 d (bi / 8)) (bi mod 8)).
Proof.
  intros Hbi. unfold bit_free, bit_mask. pose proof (Z.mod_pos_bound bi 8 ltac:(lia)) as Hk.
  set (k := bi mod 8) in *. set (x := rd8 d (bi / 8)).
  assert (forall i, 0 <= i -> Z.testbit (Z.land x (Z.shiftl 1 k)) i = Z.testbit x i && (i =? k)) as Ht.
  { intros i Hi. rewrite Z.land_spec, Z.shiftl_1_l, Z.pow2_bits_eqb by lia. by rewrite (Z.eqb_sym k). }
  destruct (Z.testbit x k) eqn:E; simpl.
  - apply Z.eqb_neq. intros H0. specialize (Ht k ltac:(lia)). rewrite H0, Z.bits_0, E, Z.eqb_refl in Ht. done.
  - apply Z.eqb_eq. apply Z.bits_inj'. intros i Hi. rewrite Ht, Z.bits_0 by done.
    destruct (Z.eqb_spec i k) as [->|]; [by rewrite E|by rewrite andb_false_r].
Qed.

(** A byte whose bits are changed by [f] only at position [k] of byte [o]. *)
Lemma bit_free_wr d bi bj v b :
  0 <= bi -> 0 <= bj -> 0 <= v < 256 ->
  (forall i, 0 <= i < 8 -> Z.testbit v i = if i =? bi mod 8 then b else Z.testbit (rd8 d (bi / 8)) i) ->
  bit_free (wr8 d (bi / 8) v) bj = if decide (bj = bi) then negb b else bit_free d bj.
Proof.
  intros Hi Hj Hv Hbits. rewrite !bit_free_testbit by done.
  pose proof (Z.mod_pos_bound bi 8 ltac:(lia)). pose proof (Z.mod_pos_bound bj 8 ltac:(lia)).
  pose proof (Z.div_mod bi 8 ltac:(lia)). pose proof (Z.div_mod bj 8 ltac:(lia)).
  rewrite rd8_wr8. destruct (decide (bi / 8 = bj / 8)) as [E|Hne].
  - rewrite u8_small by done. rewrite Hbits by lia. rewrite <- E.
    destruct (Z.eqb_spec (bj mod 8) (bi mod 8)); case_decide; try done; lia.
  - case_decide; [subst; lia|done].
Qed.

Lemma bit_free_set d bi bj : 0 <= bi -> 0 <= bj ->
  bit_free (wr8 d (bi / 8) (Z.lor (rd8 d (bi / 8)) (bit_mask bi))) bj =
  if decide (bj = bi) then false else bit_free d bj.
Proof.
  intros Hi Hj. pose proof (Z.mod_pos_bound bi 8 ltac:(lia)) as Hk. unfold bit_mask.
  apply (bit_free_wr d bi bj _ true); [done|done| |].
  - apply (lor_range _ _ 8); [lia|apply rd8_range|]. rewrite Z.shiftl_1_l. split; [apply Z.pow_nonneg; lia|].
    apply Z.pow_lt_mono_r; lia.
  - intros i Hi8. rewrite Z.lor_spec, Z.shiftl_1_l, Z.pow2_bits_eqb, (Z.eqb_sym (bi mod 8)) by lia.
    destruct (Z.eqb_spec i (bi mod 8)); [apply orb_true_r|apply orb_false_r].
Qed.

Lemma bit_free_clear d bi bj : 0 <= bi -> 0 <= bj ->
  bit_free (wr8 d (bi / 8) (Z.land (rd8 d (bi / 8)) (Z.lnot (bit_mask bi)))) bj =
  if decide (bj = bi) then true else bit_free d bj.
Proof.
  intros Hi Hj. pose proof (Z.mod_pos_bound bi 8 ltac:(lia)) as Hk. unfold bit_mask.
  apply (bit_free_wr d bi bj _ false); [done|done| |].
  - apply (land_range _ _ 8); [lia|apply rd8_range].
  - intros i Hi8. rewrite Z.land_spec, Z.lnot_spec, Z.shiftl_1_l, Z.pow2_bits_eqb, (Z.eqb_sym (bi mod 8)) by lia.
    destruct (Z.eqb_spec i (bi mod 8)); [apply andb_false_r|apply andb_true_r].
Qed.

Section blocks.
Context {St : Type} `{TxDisk St} `{UserCopy St}.

Lemma wp_dk {A} (c : M St A) Q (s : fsst St) :
  wp c (fun a d => Q a (set_disk d s)) (fs_disk s) -> wp (dk c) Q s.
Proof. apply (wp_zoom fs_disk set_disk). Qed.

(** ** Transactions *)

(** The operation went from [t] to [t'], logging the blocks [L] and leaving the
    contents [f]. *)
Definition evolves (t t' : tx) (L : list Z) (f : Z -> block) : Prop :=
  tx_held t' = tx_held t /\ tx_old t' = tx_old t /\ tx_cap t' = tx_cap t /\ tx_home t' = tx_home t /\
  tx_log t' = foldl (fun l b => add_txn b l) (tx_log t) L /\ forall b, tx_blk t' b = f b.

Lemma evolves_refl t : evolves t t [] (tx_blk t).
Proof. done. Qed.

Lemma evolves_ext t t' L f g : evolves t t' L f -> (forall b, f b = g b) -> evolves t t' L g.
Proof. intros (H1 & H2 & H3 & H4 & H5 & H6) Hfg. split_and!; try done. intros b. by rewrite H6. Qed.

Lemma evolves_trans t t' t'' L L' f f' :
  evolves t t' L f -> evolves t' t'' L' f' -> evolves t t'' (L ++ L') f'.
Proof.
  intros (H1 & H2 & H3 & H4 & H5 & H6) (H1' & H2' & H3' & H4' & H5' & H6').
  split_and!; try congruence. by rewrite foldl_app, H5', H5.
Qed.

Lemma filter_out (b : Z) (l : list Z) : b ∉ l -> filter (fun x => x <> b) l = l.
Proof.
  induction l as [|x l IH]; intros Hb; [done|]. rewrite filter_cons_True by set_solver.
  by rewrite IH by set_solver.
Qed.

(** Reading a block and giving it back changes nothing. *)
Lemma evolves_read t b : b ∉ tx_held t -> evolves t (tx_drop b (tx_hold b t)) [] (tx_blk t).
Proof.
  intros Hb. split_and!; try done. cbn [tx_held tx_drop tx_add tx_put tx_hold].
  rewrite filter_cons_False by tauto. by apply filter_out.
Qed.

(** Reading, changing, logging and releasing. *)
Lemma evolves_write t b d :
  b ∉ tx_held t ->
  evolves t (tx_drop b (tx_add b (tx_put b d (tx_hold b t)))) [b]
    (fun b' => if decide (b' = b) then d else tx_blk t b').
Proof.
  intros Hb. split_and!; try done. cbn [tx_held tx_drop tx_add tx_put tx_hold].
  rewrite filter_cons_False by tauto. by apply filter_out.
Qed.

Lemma length_add_txn b l : (length l <= length (add_txn b l) <= length l + 1)%nat.
Proof. unfold add_txn. case_decide; [lia|]. rewrite length_app. simpl. lia. Qed.

Lemma in_add_txn b l : b ∈ add_txn b l.
Proof. unfold add_txn. case_decide; set_solver. Qed.

Lemma add_txn_mono b b' l : b' ∈ l -> b' ∈ add_txn b l.
Proof. unfold add_txn. case_decide; set_solver. Qed.

(** Room for [k] more blocks in the transaction and [h] more held buffers. *)
Definition room (t : tx) (k h : Z) : Prop :=
  Z.of_nat (length (tx_log t)) + k <= tx_cap t /\
  Z.of_nat (length (tx_log t)) + k + Z.of_nat (length (tx_held t)) + h <= Z.of_nat NBUF.

Lemma room_weaken t k h k' h' : room t k h -> k' <= k -> h' <= h -> room t k' h'.
Proof. unfold room. lia. Qed.

Lemma room_evolves t t' L f k h :
  evolves t t' L f -> room t (k + Z.of_nat (length L)) h -> room t' k h.
Proof.
  intros (E1 & _ & E3 & _ & E5 & _) [R1 R2]. unfold room. rewrite E1, E3, E5.
  assert (length (foldl (fun l b => add_txn b l) (tx_log t) L) <= length (tx_log t) + length L)%nat as Hl.
  { clear. generalize (tx_log t). induction L as [|b L IH]; intros l; simpl; [lia|].
    specialize (IH (add_txn b l)). pose proof (length_add_txn b l). lia. }
  lia.
Qed.

(** ** Steps on the disk *)

Lemma wp_bread (s : fsst St) t b Q :
  t_inv (fs_disk s) t -> b ∉ tx_held t -> 0 <= b < 2 ^ 32 -> room t 0 1 ->
  (forall i d', t_inv d' (tx_hold b t) -> t_has d' i b -> (b ∈ tx_log t \/ tx_blk t b = tx_old t b) ->
    (forall j b', t_has (fs_disk s) j b' -> t_has d' j b') -> Q i (set_disk d' s)) ->
  wp (dk (t_bread ROOTDEV b)) Q s.
Proof.
  intros Hinv Hb Hr [_ Hroom] HQ. apply wp_dk.
  eapply wp_mono; [apply t_bread_ok; try done; lia|]. intros i d' (? & ? & ? & ?). by apply HQ.
Qed.

(** Changing a held block, logging and releasing it. *)
Lemma wp_write_release (s : fsst St) t i b f Q :
  t_inv (fs_disk s) t -> t_has (fs_disk s) i b -> b ∈ tx_held t -> tx_home t b -> room t 1 0 ->
  (forall d', t_inv d' (tx_drop b (tx_add b (tx_put b (f (tx_blk t b)) t))) ->
    (forall j b', b' <> b -> t_has (fs_disk s) j b' -> t_has d' j b') -> Q tt (set_disk d' s)) ->
  wp (dk (t_write i f) ;;; dk (t_log_write i) ;;; dk (t_brelse i)) Q s.
Proof.
  intros Hinv Hi Hb Hhome [Hroom _] HQ. apply wp_bind, wp_dk.
  eapply wp_mono; [by apply (t_write_ok _ t i b)|]. intros [] d1 [Hinv1 Hk1].
  apply wp_bind, wp_dk.
  eapply wp_mono; [apply (t_log_write_ok _ _ i b Hinv1); auto; cbn; lia|]. intros [] d2 [Hinv2 Hk2].
  apply wp_dk. eapply wp_mono; [apply (t_brelse_ok _ _ i b Hinv2); auto|].
  { left. apply in_add_txn. }
  intros [] d3 [Hinv3 Hk3]. apply HQ; [done|]. intros j b' Hne Hj. auto.
Qed.

(** Releasing a block that was not changed. *)
Lemma wp_release (s : fsst St) t i b Q :
  t_inv (fs_disk s) t -> t_has (fs_disk s) i b -> b ∈ tx_held t ->
  (b ∈ tx_log t \/ tx_blk t b = tx_old t b) ->
  (forall d', t_inv d' (tx_drop b t) ->
    (forall j b', b' <> b -> t_has (fs_disk s) j b' -> t_has d' j b') -> Q tt (set_disk d' s)) ->
  wp (dk (t_brelse i)) Q s.
Proof.
  intros Hinv Hi Hb Hc HQ. apply wp_dk. eapply wp_mono; [by apply (t_brelse_ok _ t i b)|].
  intros [] d' [? ?]. by apply HQ.
Qed.

Lemma wp_data (s : fsst St) t i b Q :
  t_inv (fs_disk s) t -> t_has (fs_disk s) i b -> Q (tx_blk t b) s -> wp (dk (t_data i)) Q s.
Proof.
  intros Hinv Hi HQ. apply wp_dk. eapply wp_mono; [by apply (t_data_ok _ t i b)|].
  intros d s' [-> ->]. by destruct s.
Qed.
(** ** The allocator *)

(** Block [b] is free according to the bitmap. *)
Definition blk_free (sb : superblock) (t : tx) (b : Z) : bool :=
  bit_free (tx_blk t (BBLOCK b sb)) (b mod BPB).

(** The layout [mkfs] guarantees: the bitmap lies outside the log, and so do the
    free blocks, which are not part of the bitmap. *)
Record layout (sb : superblock) (t : tx) : Prop := {
  lay_size : 0 < sb_size sb < 2 ^ 31;
  lay_bmap : 0 <= sb_bmapstart sb /\ sb_bmapstart sb + sb_size sb < 2 ^ 31;
  lay_bhome : forall b, 0 <= b < sb_size sb -> tx_home t (BBLOCK b sb);
  lay_free : forall b, 0 <= b < sb_size sb -> blk_free sb t b = true ->
    tx_home t b /\ forall b', 0 <= b' < sb_size sb -> BBLOCK b' sb <> b;
}.

Lemma BBLOCK_val sb t b : layout sb t -> 0 <= b < sb_size sb -> BBLOCK b sb = b / BPB + sb_bmapstart sb.
Proof.
  intros [Hs Hb _ _] Hr. unfold BBLOCK. apply u32_small. unfold BPB, BSIZE.
  assert (0 <= b / (1024 * 8) <= b); [|lia].
  split; [apply Z.div_pos; lia|]. apply Z.div_le_upper_bound; lia.
Qed.

(** The transaction after block [r] has been taken: its bit is set and it is zero. *)
Definition taken (sb : superblock) (t : tx) (r : Z) : Z -> block := fun b =>
  if decide (b = r) then memset (tx_blk t r) 0 0 BSIZE
  else if decide (b = BBLOCK r sb) then
    wr8 (tx_blk t b) (r mod BPB / 8) (Z.lor (rd8 (tx_blk t b) (r mod BPB / 8)) (bit_mask (r mod BPB)))
  else tx_blk t b.

Lemma bzero_spec (s : fsst St) t r :
  t_inv (fs_disk s) t -> r ∉ tx_held t -> 0 <= r < 2 ^ 32 -> tx_home t r -> room t 1 1 ->
  wp (bzero ROOTDEV r) (fun _ s' => exists d' t', s' = set_disk d' s /\ t_inv d' t' /\
    evolves t t' [r] (fun b => if decide (b = r) then memset (tx_blk t r) 0 0 BSIZE else tx_blk t b) /\
    (forall j b', b' <> r -> t_has (fs_disk s) j b' -> t_has d' j b')) s.
Proof.
  intros Hinv Hr Hr32 Hhome Hroom. unfold bzero. apply wp_bind.
  apply (wp_bread s t); [done|done|done|by apply (room_weaken t 1 1)|].
  intros i d1 Hinv1 Hi1 _ Hk1.
  apply (wp_write_release _ (tx_hold r t) i r).
  - done.
  - done.
  - by left.
  - done.
  - unfold room in *. cbn. lia.
  - intros d2 Hinv2 Hk2. exists d2, (tx_drop r (tx_add r (tx_put r (memset (tx_blk t r) 0 0 BSIZE) (tx_hold r t)))).
    split_and!; [done|done|by apply evolves_write|]. intros j b' Hne Hj. auto.
Qed.

(** The buffers held by the caller are neither bitmap blocks nor free. *)
Definition quiet (sb : superblock) (t : tx) : Prop :=
  forall b, b ∈ tx_held t -> (forall b', 0 <= b' < sb_size sb -> BBLOCK b' sb <> b) /\
    (0 <= b < sb_size sb -> blk_free sb t b = false).

Definition none_free (sb : superblock) (t : tx) (lo hi : Z) : Prop :=
  forall b, lo <= b < hi -> blk_free sb t b = false.

(** [balloc] took block [r]. *)
Definition balloc_took (sb : superblock) (s : fsst St) (t : tx) (r : Z) (s' : fsst St) : Prop :=
  0 <= r < sb_size sb /\ blk_free sb t r = true /\ none_free sb t 0 r /\
  exists d' t', s' = set_disk d' s /\ t_inv d' t' /\ evolves t t' [BBLOCK r sb; r] (taken sb t r) /\
    (forall j b', b' ∈ tx_held t -> t_has (fs_disk s) j b' -> t_has d' j b').

(** Taking the block of bit [bi] of the bitmap block of [b], which is held. *)
Lemma balloc_take sb (s s1 : fsst St) t bp r bi :
  layout sb t -> quiet sb t -> room t 2 1 -> 0 <= r < sb_size sb -> blk_free sb t r = true ->
  none_free sb t 0 r -> bi = r mod BPB ->
  t_inv (fs_disk s1) (tx_hold (BBLOCK r sb) t) -> t_has (fs_disk s1) bp (BBLOCK r sb) ->
  s1 = set_disk (fs_disk s1) s ->
  (forall j b', t_has (fs_disk s) j b' -> t_has (fs_disk s1) j b') ->
  wp (dk (t_write bp (fun d => wr8 d (bi / 8) (Z.lor (rd8 d (bi / 8)) (bit_mask bi)))) ;;;
      dk (t_log_write bp) ;;; dk (t_brelse bp) ;;; bzero ROOTDEV r ;;; ret (Brk (Some r) : ctl Z (option Z)))
    (fun c s' => c = Brk (Some r) /\ balloc_took sb s t r s') s1.
Proof.
  intros Hlay Hq Hroom Hr Hf Hnf Hbi Hinv Hbp Hs1 Hk.
  pose proof (lay_size _ _ Hlay). destruct (lay_free _ _ Hlay r Hr Hf) as [Hhr Hnb].
  set (bb := BBLOCK r sb) in *.
  assert (bb ∉ tx_held t) as Hbbh by (intros Hin; by destruct (Hq bb Hin) as [Hc _]; apply (Hc r)).
  assert (r ∉ tx_held t) as Hrh.
  { intros Hin. destruct (Hq r Hin) as [_ Hc]. rewrite Hc in Hf by done. done. }
  apply wp_seq3. apply (wp_write_release s1 (tx_hold bb t) bp bb).
  { done. }
  { done. }
  { by left. }
  { by apply (lay_bhome _ _ Hlay). }
  { unfold room in *. cbn. lia. }
  intros d2 Hinv2 Hk2. cbn [tx_blk tx_hold] in Hinv2.
  set (v := wr8 _ _ _) in Hinv2. pose proof (evolves_write t bb v Hbbh) as E1.
  set (t2 := tx_drop bb _) in *. pose proof E1 as (F1 & F2 & F3 & F4 & F5 & F6).
  apply wp_bind. eapply wp_mono; [apply (bzero_spec _ t2 r)|].
  { done. }
  { by rewrite F1. }
  { lia. }
  { by rewrite F4. }
  { eapply room_evolves; [exact E1|]. done. }
  intros [] s3 (d3 & t3 & -> & Hinv3 & E2 & Hk3). apply wp_ret. split; [done|].
  split; [done|]. split; [done|]. split; [done|]. exists d3, t3. split_and!; try done.
  - rewrite Hs1. done.
  - destruct (evolves_trans _ _ _ _ _ _ _ E1 E2) as (G1 & G2 & G3 & G4 & G5 & G6).
    split_and!; try done. intros b. rewrite G6. unfold taken.
    destruct (decide (b = r)) as [->|].
    + rewrite F6, decide_False by (intros ?; by apply (Hnb r)). done.
    + rewrite F6. fold bb. destruct (decide (b = bb)) as [->|]; [|done]. unfold v. by rewrite Hbi.
  - intros j b' Hb' Hj. apply Hk3; [congruence|]. apply Hk2; [congruence|]. by apply Hk.
Qed.

(** Searching one block of the bitmap, whose first block is [b]. *)
Lemma balloc_scan sb (s s1 : fsst St) t bp b :
  layout sb t -> quiet sb t -> room t 2 1 -> 0 <= b < sb_size sb -> b mod BPB = 0 -> none_free sb t 0 b ->
  t_inv (fs_disk s1) (tx_hold (BBLOCK b sb) t) -> t_has (fs_disk s1) bp (BBLOCK b sb) ->
  s1 = set_disk (fs_disk s1) s ->
  (forall j b', t_has (fs_disk s) j b' -> t_has (fs_disk s1) j b') ->
  wp (while_ (fun bi =>
        if (bi <? BPB) && (b + bi <? sb_size sb) then
          d <- dk (t_data bp) ;;
          if bit_free d bi then
            dk (t_write bp (fun d => wr8 d (bi / 8) (Z.lor (rd8 d (bi / 8)) (bit_mask bi)))) ;;;
            dk (t_log_write bp) ;;; dk (t_brelse bp) ;;; bzero ROOTDEV (b + bi) ;;;
            ret (Brk (Some (b + bi)))
          else ret (Next (bi + 1))
        else ret (Brk None)) 0)
    (fun r s' => match r with
       | Some r => balloc_took sb s t r s'
       | None => s' = s1 /\ none_free sb t 0 (Z.min (b + BPB) (sb_size sb)) end) s1.
Proof.
  intros Hlay Hq Hroom Hb Hmod Hnf Hinv Hbp Hs1 Hk. pose proof (lay_size _ _ Hlay).
  apply (wp_while _ (fun bi st => st = s1 /\ 0 <= bi <= BPB /\
      none_free sb t 0 (Z.min (b + bi) (Z.max b (sb_size sb)))) (fun bi _ => BPB - bi)); cycle 1.
  { split_and!; [done|done|unfold BPB, BSIZE; lia|]. intros x Hx. apply Hnf. lia. }
  { unfold BPB, BSIZE. lia. }
  intros bi st (-> & Hbi & Hnf'). rewrite (Z.max_r b) in Hnf' by lia.
  destruct (Z.ltb_spec bi BPB), (Z.ltb_spec (b + bi) (sb_size sb)); cbn [andb].
  2-4: apply wp_ret; split; [done|]; intros x Hx; apply Hnf'; lia.
  assert ((b + bi) / BPB = b / BPB /\ (b + bi) mod BPB = bi) as [Ed Em].
  { pose proof (Z.div_mod b BPB ltac:(done)). rewrite Hmod in *.
    assert (b + bi = BPB * (b / BPB) + bi) as E by lia.
    split; [symmetry; apply (Z.div_unique _ _ _ bi); lia|symmetry; apply (Z.mod_unique _ _ (b / BPB)); lia]. }
  assert (BBLOCK (b + bi) sb = BBLOCK b sb) as Ebb.
  { rewrite !(BBLOCK_val sb t) by (done || lia). by rewrite Ed. }
  apply wp_bind. eapply wp_data; [done|done|]. cbn [tx_blk tx_hold].
  assert (bit_free (tx_blk t (BBLOCK b sb)) bi = blk_free sb t (b + bi)) as Ef.
  { unfold blk_free. by rewrite Ebb, Em. }
  rewrite Ef. destruct (blk_free sb t (b + bi)) eqn:Efree.
  - eapply wp_mono; [apply (balloc_take sb s s1 t bp (b + bi) bi); rewrite ?Ebb; try done; [lia|]|].
    + intros x Hx. apply Hnf'. lia.
    + intros c s' [-> Ht]. done.
  - apply wp_ret. split; [|lia]. split_and!; [done|lia|lia|]. intros x Hx.
    destruct (decide (x = b + bi)) as [->|]; [done|]. apply Hnf'. lia.
Qed.

(** Reads do not change what the allocator sees. *)
Lemma read_same sb t t1 : evolves t t1 [] (tx_blk t) ->
  (forall b, blk_free sb t1 b = blk_free sb t b) /\ (layout sb t -> layout sb t1) /\
  (quiet sb t -> quiet sb t1) /\ (forall k h, room t k h -> room t1 k h).
Proof.
  intros (F1 & F2 & F3 & F4 & F5 & F6).
  assert (forall b, blk_free sb t1 b = blk_free sb t b) as Hf by (intros b; unfold blk_free; by rewrite F6).
  split_and!; [done| | |].
  - intros [A B C D]. split; try done; rewrite ?F4; [done|]. intros b Hb. rewrite Hf. auto.
  - intros Hq b. rewrite F1, Hf. auto.
  - intros k h. unfold room. rewrite F1, F3, F5. done.
Qed.

Lemma took_trans sb s t d t1 r s' :
  evolves t t1 [] (tx_blk t) ->
  (forall j b', b' ∈ tx_held t -> t_has (fs_disk s) j b' -> t_has d j b') ->
  balloc_took sb (set_disk d s) t1 r s' -> balloc_took sb s t r s'.
Proof.
  intros E Hk (Hr & Hf & Hnf & d' & t' & -> & Hinv & E' & Hk').
  destruct (read_same sb t t1 E) as (Hfr & _). split_and!; [lia|lia|by rewrite <- Hfr| |].
  - intros b Hb. rewrite <- Hfr. by apply Hnf.
  - exists d', t'. split_and!; [done|done| |].
    + destruct (evolves_trans _ _ _ _ _ _ _ E E') as (G1 & G2 & G3 & G4 & G5 & G6). split_and!; try done.
      intros b. rewrite G6. destruct E as (_ & _ & _ & _ & _ & F6). unfold taken. by rewrite !F6.
    + intros j b' Hb' Hj. apply Hk'; [|by apply Hk]. by destruct E as (-> & _).
Qed.

Lemma balloc_spec sb (s : fsst St) t :
  fs_sb s = sb -> t_inv (fs_disk s) t -> layout sb t -> quiet sb t -> room t 2 1 ->
  wp (balloc ROOTDEV) (fun r s' => balloc_took sb s t r s' \/
    r = 0 /\ none_free sb t 0 (sb_size sb) /\ exists d' t', s' = set_disk d' s /\ t_inv d' t' /\
      evolves t t' [] (tx_blk t) /\
      (forall j b', b' ∈ tx_held t -> t_has (fs_disk s) j b' -> t_has d' j b')) s.
Proof.
  intros Hsb Hinv Hlay Hq Hroom. pose proof (lay_size _ _ Hlay) as Hsz. destruct (lay_bmap _ _ Hlay) as [Hbm Hbm'].
  unfold balloc. apply wp_bind, wp_gets. rewrite Hsb.
  apply (wp_while _ (fun b st => 0 <= b /\ b mod BPB = 0 /\ none_free sb t 0 (Z.min b (sb_size sb)) /\
      exists d t1, st = set_disk d s /\ t_inv d t1 /\ evolves t t1 [] (tx_blk t) /\
        (forall j b', b' ∈ tx_held t -> t_has (fs_disk s) j b' -> t_has d j b'))
    (fun b _ => Z.max 0 (sb_size sb - b))); cycle 1.
  { split_and!; [done|done|intros x Hx; lia|]. exists (fs_disk s), t. by destruct s. }
  { lia. }
  intros b st (Hb & Hmod & Hnf & d & t1 & -> & Hinv1 & E1 & Hk1).
  destruct (Z.ltb_spec b (sb_size sb)) as [Hlt|Hge].
  2: { apply wp_ret. right. split; [done|]. rewrite Z.min_r in Hnf by lia. split; [done|].
       exists d, t1. done. }
  destruct (read_same sb t t1 E1) as (Hfr & HL & HQ & HR).
  assert (BBLOCK b sb ∉ tx_held t1) as Hbb.
  { intros Hin. destruct (HQ Hq _ Hin) as [Hc _]. by apply (Hc b). }
  apply wp_bind. apply (wp_bread (set_disk d s) t1 (BBLOCK b sb)).
  { done. }
  { done. }
  { apply u32_range. }
  { apply (room_weaken t1 2 1); [by apply HR|lia|lia]. }
  intros bp d2 Hinv2 Hbp Hclean Hk2. apply wp_bind.
  eapply wp_mono; [apply (balloc_scan sb (set_disk d s) (set_disk d2 (set_disk d s)) t1 bp b); auto; intros x Hx; rewrite Hfr; apply Hnf; lia|].
  intros [r|] s2 Hr.
  { apply wp_ret. left. by eapply took_trans. }
  destruct Hr as [-> Hnf2]. apply wp_bind.
  apply (wp_release _ (tx_hold (BBLOCK b sb) t1) bp (BBLOCK b sb)); [done|done|by left|done|].
  intros d3 Hinv3 Hk3. apply wp_ret. split; [|unfold BPB, BSIZE; lia].
  pose proof (evolves_read t1 (BBLOCK b sb) Hbb) as E3.
  split_and!; [unfold BPB, BSIZE; lia|rewrite <- Z.add_mod_idemp_r, Z.mod_same, Z.add_0_r by done; done| |].
  - intros x Hx. rewrite <- Hfr. by apply Hnf2.
  - exists d3, (tx_drop (BBLOCK b sb) (tx_hold (BBLOCK b sb) t1)). split_and!; try done.
    + destruct (evolves_trans _ _ _ _ _ _ _ E1 E3) as (G1 & G2 & G3 & G4 & G5 & G6). split_and!; try done.
      destruct E1 as (_ & _ & _ & _ & _ & F6). intros x. by rewrite G6, F6.
    + intros j b' Hb' Hj. apply Hk3; [|by apply Hk2, Hk1].
      intros ->. apply Hbb. by destruct E1 as (-> & _).
Qed.

(** The bitmap after block [r] was taken. *)
Lemma taken_free sb t t' L r x :
  layout sb t -> evolves t t' L (taken sb t r) -> 0 <= r < sb_size sb -> blk_free sb t r = true ->
  0 <= x < sb_size sb ->
  blk_free sb t' x = if decide (x = r) then false else blk_free sb t x.
Proof.
  intros Hlay (_ & _ & _ & _ & _ & F) Hr Hf Hx. destruct (lay_free _ _ Hlay r Hr Hf) as [_ Hnb].
  unfold blk_free. rewrite F. unfold taken. rewrite decide_False by (by apply Hnb).
  assert (0 < BPB) as HB by done.
  destruct (decide (BBLOCK x sb = BBLOCK r sb)) as [E|Hne].
  - rewrite E, bit_free_set by (apply Z.mod_pos_bound; done).
    rewrite !(BBLOCK_val sb t) in E by done.
    pose proof (Z.div_mod x BPB ltac:(lia)). pose proof (Z.div_mod r BPB ltac:(lia)).
    destruct (decide (x mod BPB = r mod BPB)), (decide (x = r)); try done; [lia|subst; done].
  - destruct (decide (x = r)); [subst; done|done].
Qed.

(** The transaction after block [b] has been given back. *)
Definition given_back (sb : superblock) (t : tx) (b : Z) : Z -> block := fun b' =>
  if decide (b' = BBLOCK b sb) then
    wr8 (tx_blk t b') (b mod BPB / 8) (Z.land (rd8 (tx_blk t b') (b mod BPB / 8)) (Z.lnot (bit_mask (b mod BPB))))
  else tx_blk t b'.

Lemma given_back_free sb t t' L b x :
  layout sb t -> evolves t t' L (given_back sb t b) -> 0 <= b < sb_size sb -> 0 <= x < sb_size sb ->
  blk_free sb t' x = if decide (x = b) then true else blk_free sb t x.
Proof.
  intros Hlay (_ & _ & _ & _ & _ & F) Hb Hx. unfold blk_free. rewrite F. unfold given_back.
  assert (0 < BPB) as HB by done.
  destruct (decide (BBLOCK x sb = BBLOCK b sb)) as [E|Hne].
  - rewrite E, bit_free_clear by (apply Z.mod_pos_bound; done).
    rewrite !(BBLOCK_val sb t) in E by done.
    pose proof (Z.div_mod x BPB ltac:(lia)). pose proof (Z.div_mod b BPB ltac:(lia)).
    destruct (decide (x mod BPB = b mod BPB)), (decide (x = b)); try done; [lia|subst; done].
  - destruct (decide (x = b)); [subst; done|done].
Qed.

Lemma bfree_spec sb (s : fsst St) t b :
  fs_sb s = sb -> t_inv (fs_disk s) t -> layout sb t -> BBLOCK b sb ∉ tx_held t -> room t 1 1 ->
  0 <= b < sb_size sb -> blk_free sb t b = false ->
  wp (bfree ROOTDEV b) (fun _ s' => exists d' t', s' = set_disk d' s /\ t_inv d' t' /\
    evolves t t' [BBLOCK b sb] (given_back sb t b) /\
    (forall j b', b' ∈ tx_held t -> t_has (fs_disk s) j b' -> t_has d' j b')) s.
Proof.
  intros Hsb Hinv Hlay Hbb Hroom Hb Hf. unfold bfree. apply wp_bind, wp_gets. rewrite Hsb. apply wp_bind.
  apply (wp_bread s t (BBLOCK b sb)); [done|done|apply u32_range|by apply (room_weaken t 1 1)|].
  intros bp d1 Hinv1 Hbp _ Hk1. apply wp_bind. eapply wp_data; [done|done|]. cbn [tx_blk tx_hold].
  change (bit_free (tx_blk t (BBLOCK b sb)) (b mod BPB)) with (blk_free sb t b). rewrite Hf.
  apply (wp_write_release _ (tx_hold (BBLOCK b sb) t) bp (BBLOCK b sb)).
  - done.
  - done.
  - by left.
  - by apply (lay_bhome _ _ Hlay).
  - unfold room in *. cbn. lia.
  - intros d2 Hinv2 Hk2. eexists d2, _. split_and!; [done|exact Hinv2| |].
    + eapply evolves_ext; [by apply evolves_write|]. intros x. unfold given_back.
      by destruct (decide (x = BBLOCK b sb)) as [->|].
    + intros j b' Hb' Hj. apply Hk2; [congruence|]. by apply Hk1.
Qed.

End blocks.
