(* ===== verification/FsMap.v ===== *)
(** * The blocks of a file (kernel/fs.c: [bmap])

    The block map of an inode, the bytes of a file as one sees them through it, and
    the well-formedness of a file: its blocks are marked as used, lie outside the
    log and the bitmap, and no two places of the file share one.  [bmap] finds the
    block of a place or allocates one; the file reads the same afterwards, and
    nothing else on the disk changes. *)

From stdpp Require Import base list gmap strings.
From Stdlib Require Import ZArith Lia.
From S2P Require Import Prelude Mem Str Sleeplock Bio BioInv Log LogInv TxDisk Fs FsBlocks.

#[local] Open Scope Z_scope.

Lemma rd32_zero m a : (forall i, a <= i < a + 4 -> rd8 m i = 0) -> rd32 m a = 0.
Proof. intros Hz. unfold rd32. cbn [rd]. rewrite !Hz by lia. done. Qed.

(** ** Files *)

Definition blockno (t : tx) (x : inode) (bn : Z) : Z :=
  if bn <? NDIRECT then i_addr bn x
  else if i_addr NDIRECT x =? 0 then 0
  else rd_slot (tx_blk t (i_addr NDIRECT x)) (bn - NDIRECT).

(** A byte of the file; a hole reads as zero. *)
Definition fbyte (t : tx) (x : inode) (o : Z) : Z :=
  let b := blockno t x (o / BSIZE) in
  if b =? 0 then 0 else rd8 (tx_blk t b) (o mod BSIZE).

Definition in_file (bn : Z) : Prop := 0 <= bn < MAXFILE.
Definition owned (t : tx) (x : inode) (b : Z) : Prop :=
  b <> 0 /\ (b = i_addr NDIRECT x \/ exists bn, in_file bn /\ b = blockno t x bn).

Lemma owned_ext t x t' x' b :
  i_addr NDIRECT x' = i_addr NDIRECT x -> (forall k, in_file k -> blockno t' x' k = blockno t x k) ->
  owned t' x' b <-> owned t x b.
Proof.
  intros Ei Hmap. unfold owned. rewrite Ei. split; (intros [? [?|(k & Hk & ?)]]; (split; [done|]); [by left|right; exists k]);
    rewrite (Hmap k) in * by done; done.
Qed.

Section files.
Context (sb : superblock).

Definition on_disk (b : Z) : Prop := 0 <= b < sb_size sb.
Definition bitmap (b : Z) : Prop := exists b', on_disk b' /\ BBLOCK b' sb = b.
Definition free_block (t : tx) (b : Z) : Prop := on_disk b /\ blk_free sb t b = true.

Record wf_file (t : tx) (x : inode) : Prop := {
  wf_len : length (i_addrs x) = 13%nat;
  wf_dev : i_dev x = ROOTDEV;
  wf_block0 : blk_free sb t 0 = false;
  wf_used : forall b, owned t x b -> on_disk b /\ blk_free sb t b = false;
  wf_place : forall b, owned t x b -> tx_home t b /\ ~ bitmap b /\ b ∉ tx_held t;
  wf_inj : forall bn bn', in_file bn -> in_file bn' -> blockno t x bn <> 0 ->
    blockno t x bn = blockno t x bn' -> bn = bn';
  wf_ind : forall bn, in_file bn -> blockno t x bn <> 0 -> blockno t x bn <> i_addr NDIRECT x;
}.

(** What does not depend on the map. *)
Definition same_inode (x x' : inode) : Prop :=
  i_dev x' = i_dev x /\ i_inum x' = i_inum x /\ i_ref x' = i_ref x /\ i_lock x' = i_lock x /\
  i_valid x' = i_valid x /\ i_type x' = i_type x /\ i_major x' = i_major x /\ i_minor x' = i_minor x /\
  i_nlink x' = i_nlink x.

(** The file may have taken free blocks and changed its own; at most [k] blocks were
    added to the transaction. *)
Record extends (k : Z) (t : tx) (x : inode) (t' : tx) (x' : inode) : Prop := {
  ex_held : tx_held t' = tx_held t;
  ex_cap : tx_cap t' = tx_cap t;
  ex_home : tx_home t' = tx_home t;
  ex_log : Z.of_nat (length (tx_log t')) <= Z.of_nat (length (tx_log t)) + k;
  ex_free : forall b, free_block t' b -> free_block t b;
  ex_owned : forall b, owned t' x' b -> owned t x b \/ free_block t b;
  ex_frame : forall b, ~ bitmap b -> ~ owned t x b -> ~ free_block t b -> tx_blk t' b = tx_blk t b;
  ex_same : same_inode x x';
  ex_size : i_size x' = i_size x;
}.

Lemma extends_refl t x : extends 0 t x t x.
Proof. split; try done; [lia|by left]. Qed.
Lemma extends_weaken k k' t x t' x' : extends k t x t' x' -> k <= k' -> extends k' t x t' x'.
Proof. intros [] Hk. split; try done. lia. Qed.
Lemma extends_trans k k' t x t1 x1 t2 x2 :
  extends k t x t1 x1 -> extends k' t1 x1 t2 x2 -> extends (k + k') t x t2 x2.
Proof.
  intros [H1 H2 H3 H4 H5 H6 H7 H8 H9] [G1 G2 G3 G4 G5 G6 G7 G8 G9]. split; try congruence.
  - lia.
  - intros b Hb. by apply H5, G5.
  - intros b [Hb|Hb]%G6; [by apply H6|]. right. by apply H5.
  - intros b Hm Ho Hf. rewrite G7, H7; [done|done|done|done|done| |].
    + intros [?|?]%H6; done.
    + intros ?%H5. done.
  - unfold same_inode in *. intuition congruence.
Qed.
Lemma extends_room k t x t' x' j h : extends k t x t' x' -> room t (j + k) h -> room t' j h.
Proof. intros [H1 H2 _ H4 _ _ _ _ _] [R1 R2]. unfold room. rewrite H1, H2. lia. Qed.
Lemma extends_layout k t x t' x' : extends k t x t' x' -> layout sb t -> layout sb t'.
Proof.
  intros [_ _ H3 _ H5 _ _ _ _] []. split; try done; rewrite H3; [done|]. intros b Hb Hf.
  apply lay_free; [done|]. apply (H5 b). by split.
Qed.
Lemma extends_quiet k t x t' x' : extends k t x t' x' -> quiet sb t -> quiet sb t'.
Proof.
  intros [H1 _ _ _ H5 _ _ _ _] Hq b Hb. rewrite H1 in Hb. destruct (Hq b Hb) as [Hm Hf]. split; [done|]. intros Hr.
  destruct (blk_free sb t' b) eqn:E; [|done]. destruct (H5 b) as [_ Hf']; [by split|]. by rewrite Hf in Hf'.
Qed.

(** ** Taking a block *)

(** The place [bn] of the file now has the block [r], which was free and is zero. *)
Section take.
Context (t t' : tx) (x x' : inode) (r : Z).
Hypothesis t_wf : wf_file t x.
Hypothesis t_layout : layout sb t.
Hypothesis r_free : free_block t r.
Hypothesis x_len : length (i_addrs x') = 13%nat.
Hypothesis x_same : same_inode x x' /\ i_size x' = i_size x.
Hypothesis held_same : tx_held t' = tx_held t.
Hypothesis home_same : tx_home t' = tx_home t.
Hypothesis t_quiet : quiet sb t.

Lemma taken_nonzero : r <> 0.
Proof using t_wf r_free. intros ->. destruct r_free as [_ Hf]. by rewrite (wf_block0 _ _ t_wf) in Hf. Qed.
Lemma taken_not_owned : ~ owned t x r.
Proof using t_wf r_free. intros Ho. destruct r_free as [_ Hf], (wf_used _ _ t_wf r Ho) as [_ Hu]. by rewrite Hu in Hf. Qed.
Lemma taken_place : tx_home t r /\ ~ bitmap r /\ r ∉ tx_held t.
Proof using t_layout t_quiet r_free.
  destruct r_free as [Hr Hf]. destruct (lay_free _ _ t_layout r Hr Hf) as [Hh Hm]. split_and!; [done| |].
  - intros (b & Hb & E). by apply (Hm b).
  - intros Hin. destruct (t_quiet r Hin) as [_ Hu]. by rewrite Hu in Hf.
Qed.

Hypothesis free_less : forall y, on_disk y -> blk_free sb t' y = if decide (y = r) then false else blk_free sb t y.

(** The file with [r] among its blocks is well formed when its map is. *)
Lemma wf_take :
  (forall b, owned t' x' b -> owned t x b \/ b = r) ->
  (forall bn bn', in_file bn -> in_file bn' -> blockno t' x' bn <> 0 -> blockno t' x' bn = blockno t' x' bn' -> bn = bn') ->
  (forall bn, in_file bn -> blockno t' x' bn <> 0 -> blockno t' x' bn <> i_addr NDIRECT x') ->
  wf_file t' x'.
Proof using All.
  intros Hown Hinj Hind. pose proof taken_nonzero as Hr0. destruct x_same as [(Hd & _) _], t_wf.
  assert (on_disk 0) as Hd0 by (pose proof (lay_size _ _ t_layout); unfold on_disk; lia).
  split; try done.
  - congruence.
  - rewrite free_less by done. by destruct (decide (0 = r)).
  - intros b [Hb|Hb]%Hown.
    + destruct (wf_used0 b Hb) as [Ho Hf]. split; [done|]. rewrite free_less by done. by destruct (decide (b = r)).
    + subst b. destruct r_free as [Ho _]. split; [done|]. rewrite free_less by done. by rewrite decide_True.
  - intros b Hb. rewrite held_same, home_same. apply Hown in Hb as [Hb| ->]; [by apply wf_place0|apply taken_place].
Qed.

Hypothesis zero : forall i, 0 <= i < BSIZE -> rd8 (tx_blk t' r) i = 0.

(** Place [bn], which was a hole, gets the block. *)
Lemma take_slot bn :
  in_file bn -> blockno t x bn = 0 -> i_addr NDIRECT x' = i_addr NDIRECT x ->
  (forall k, in_file k -> blockno t' x' k = if decide (k = bn) then r else blockno t x k) ->
  (forall b, owned t x b -> b <> i_addr NDIRECT x -> tx_blk t' b = tx_blk t b) ->
  wf_file t' x' /\ (forall b, owned t' x' b -> owned t x b \/ b = r) /\
  (forall o, 0 <= o < MAXFILE * BSIZE -> fbyte t' x' o = fbyte t x o).
Proof using All.
  intros Hbn Hhole Hi Hmap Hsame. pose proof taken_nonzero as Hr0. pose proof taken_not_owned as Hro.
  assert (forall k, in_file k -> blockno t x k <> 0 -> blockno t x k <> r) as Hne.
  { intros k Hk Hb E. apply Hro. split; [done|]. right. by exists k. }
  assert (forall b, owned t' x' b -> owned t x b \/ b = r) as Hown.
  { intros b [Hb0 [->|(k & Hk & ->)]]; [left; split; [done|]; left; congruence|]. revert Hb0. rewrite (Hmap k Hk).
    destruct (decide (k = bn)); [by right|]. intros Hb. left. split; [done|]. right. by exists k. }
  split_and!; [|done|].
  - apply wf_take; [done| |].
    + intros k k' Hk Hk'. rewrite !Hmap by done. intros Hb0 E.
      destruct (decide (k = bn)) as [->|], (decide (k' = bn)) as [->|]; try done.
      * exfalso. apply (Hne k'); congruence.
      * exfalso. by apply (Hne k).
      * by apply (wf_inj _ _ t_wf).
    + intros k Hk. rewrite Hmap, Hi by done. destruct (decide (k = bn)); [|by apply (wf_ind _ _ t_wf)].
      intros _ E. apply Hro. rewrite E. split; [congruence|by left].
  - intros o Ho. unfold fbyte. assert (in_file (o / BSIZE)) as Hk.
    { split; [apply Z.div_pos; [lia|done]|]. apply Z.div_lt_upper_bound; [done|]. lia. }
    rewrite Hmap by done. destruct (decide (o / BSIZE = bn)) as [->|].
    + rewrite Hhole. destruct (Z.eqb_spec r 0); [done|]. apply zero, Z.mod_pos_bound. done.
    + destruct (Z.eqb_spec (blockno t x (o / BSIZE)) 0) as [|Hb]; [done|]. f_equal. apply Hsame; [|by apply (wf_ind _ _ t_wf)].
      split; [done|]. right. by exists (o / BSIZE).
Qed.

(** The file gets an indirect block. *)
Lemma take_indirect :
  i_addr NDIRECT x = 0 -> i_addr NDIRECT x' = r -> (forall k, 0 <= k < NDIRECT -> i_addr k x' = i_addr k x) ->
  (forall b, owned t x b -> tx_blk t' b = tx_blk t b) ->
  wf_file t' x' /\ (forall b, owned t' x' b -> owned t x b \/ b = r) /\
  (forall k, in_file k -> blockno t' x' k = blockno t x k) /\
  (forall o, 0 <= o < MAXFILE * BSIZE -> fbyte t' x' o = fbyte t x o).
Proof using All.
  intros Hi Hi' Hdir Hsame. pose proof taken_nonzero as Hr0. pose proof taken_not_owned as Hro.
  assert (forall k, in_file k -> blockno t' x' k = blockno t x k) as Hmap.
  { intros k Hk. unfold blockno. destruct (Z.ltb_spec k NDIRECT) as [|Hge]; [apply Hdir; unfold in_file in Hk; lia|].
    rewrite Hi, Hi'. destruct (Z.eqb_spec r 0); [done|]. cbn. unfold rd_slot. apply rd32_zero. intros i Hii. apply zero.
    unfold in_file, MAXFILE, NINDIRECT, NDIRECT, BSIZE in *. change (1024 / 4) with 256 in *. lia. }
  assert (forall b, owned t' x' b -> owned t x b \/ b = r) as Hown.
  { intros b [Hb0 [->|(k & Hk & ->)]]; [by right|]. left. split; [done|]. right. exists k. by rewrite <- Hmap. }
  split_and!; [|done|done|].
  - apply wf_take; [done| |].
    + intros k k' Hk Hk'. rewrite !Hmap by done. by apply (wf_inj _ _ t_wf).
    + intros k Hk. rewrite Hmap, Hi' by done. intros Hb E. apply Hro. rewrite <- E. split; [done|]. right. by exists k.
  - intros o Ho. unfold fbyte. assert (in_file (o / BSIZE)) as Hk.
    { split; [apply Z.div_pos; [lia|done]|]. apply Z.div_lt_upper_bound; [done|]. lia. }
    rewrite Hmap by done. destruct (Z.eqb_spec (blockno t x (o / BSIZE)) 0) as [|Hb]; [done|]. f_equal. apply Hsame.
    split; [done|]. right. by exists (o / BSIZE).
Qed.
End take.
End files.

(** ** [bmap] *)

Section bmap.
Context {St : Type} `{TxDisk St} `{UserCopy St} (sb : superblock).

(** The state with another disk and another inode [ip]. *)
Definition put (ip : nat) (s : fsst St) (d : St) (x : inode) : fsst St :=
  Fsst d (fs_sb s) (<[ip := x]> (fs_itable s)) (fs_pid s).

Record at_file (s : fsst St) (ip : nat) (t : tx) (x : inode) : Prop := {
  at_sb : fs_sb s = sb;
  at_inode : fs_itable s !! ip = Some x;
  at_tx : t_inv (fs_disk s) t;
  at_wf : wf_file sb t x;
  at_layout : layout sb t;
  at_quiet : quiet sb t;
}.

Lemma put_id ip s x : fs_itable s !! ip = Some x -> put ip s (fs_disk s) x = s.
Proof. intros Hx. unfold put. rewrite list_insert_id by done. by destruct s. Qed.
Lemma put_put ip s d x d' x' : put ip (put ip s d x) d' x' = put ip s d' x'.
Proof. unfold put. cbn. by rewrite list_insert_insert_eq. Qed.
Lemma put_disk ip s d x d' : set_disk d' (put ip s d x) = put ip s d' x.
Proof. done. Qed.
Lemma set_disk_put ip s d x : fs_itable s !! ip = Some x -> set_disk d s = put ip s d x.
Proof. intros Hx. unfold put, set_disk. by rewrite list_insert_id by done. Qed.

Lemma at_file_put ip s d t x t' x' k :
  at_file s ip t x -> t_inv d t' -> wf_file sb t' x' -> extends sb k t x t' x' -> at_file (put ip s d x') ip t' x'.
Proof.
  intros [] Hd Hw He. split; try done.
  - cbn. apply list_lookup_insert_eq. by eapply lookup_lt_Some.
  - by eapply extends_layout.
  - by eapply extends_quiet.
Qed.

Lemma wp_geti ip (s : fsst St) x Q : fs_itable s !! ip = Some x -> Q x s -> wp (geti ip) Q s.
Proof. intros Hx HQ. unfold geti. apply wp_gets. by rewrite (list_lookup_total_correct _ _ _ Hx). Qed.
Lemma wp_updi ip (s : fsst St) x f Q : fs_itable s !! ip = Some x -> Q tt (put ip s (fs_disk s) (f x)) -> wp (updi ip f) Q s.
Proof.
  intros Hx HQ. unfold updi. apply wp_modify. unfold put in HQ.
  rewrite list_insert_alter in HQ. rewrite (list_alter_ext f (fun _ => f x) _ (fs_itable s) ip); [done| |done].
  intros y Hy. congruence.
Qed.

(** ** After [balloc] *)

Lemma length_fold_add L l : (length (foldl (fun l b => add_txn b l) l L) <= length l + length L)%nat.
Proof.
  revert l. induction L as [|b L IH]; intros l; simpl; [lia|]. specialize (IH (add_txn b l)).
  pose proof (length_add_txn b l). lia.
Qed.

Lemma taken_blocks t t' L r :
  evolves t t' L (taken sb t r) -> layout sb t -> free_block sb t r ->
  (forall b, b <> r -> ~ bitmap sb b -> tx_blk t' b = tx_blk t b) /\
  (forall i, 0 <= i < BSIZE -> rd8 (tx_blk t' r) i = 0).
Proof.
  intros (_ & _ & _ & _ & _ & E) Hlay [Hr Hf]. split.
  - intros b Hb Hm. rewrite E. unfold taken. rewrite decide_False by done. rewrite decide_False; [done|].
    intros ->. apply Hm. by exists r.
  - intros i Hi. rewrite E. unfold taken. rewrite decide_True by done. rewrite rd8_memset by done.
    destruct (decide _); [done|]. exfalso. lia.
Qed.

Lemma extends_intro k t t' x x' r :
  tx_held t' = tx_held t -> tx_cap t' = tx_cap t -> tx_home t' = tx_home t ->
  Z.of_nat (length (tx_log t')) <= Z.of_nat (length (tx_log t)) + k ->
  free_block sb t r ->
  (forall y, on_disk sb y -> blk_free sb t' y = if decide (y = r) then false else blk_free sb t y) ->
  (forall b, b <> r -> ~ bitmap sb b -> ~ owned t x b -> tx_blk t' b = tx_blk t b) ->
  (forall b, owned t' x' b -> owned t x b \/ b = r) ->
  same_inode x x' -> i_size x' = i_size x -> extends sb k t x t' x'.
Proof.
  intros Hh Hc Hho Hl Hr Hf Hb Ho Hs Hz. split; try done.
  - intros b [Hd Hfr]. rewrite Hf in Hfr by done. by destruct (decide (b = r)).
  - intros b [?| ->]%Ho; [by left|by right].
  - intros b Hm Hn Hnf. apply Hb; [|done|done]. by intros ->.
Qed.

(** The file after block [bn] has been found or allocated. *)
Definition bmap_post (n : Z) (s : fsst St) (ip : nat) (t : tx) (x : inode) (bn r : Z) (s' : fsst St) : Prop :=
  exists d' t' x', s' = put ip s d' x' /\ t_inv d' t' /\ wf_file sb t' x' /\ extends sb n t x t' x' /\
    (forall o, 0 <= o < MAXFILE * BSIZE -> fbyte t' x' o = fbyte t x o) /\
    (forall k, in_file k -> blockno t x k <> 0 -> blockno t' x' k = blockno t x k) /\
    (if decide (r = 0) then none_free sb t' 0 (sb_size sb) else blockno t' x' bn = r).

Lemma bmap_post_weaken n n' s ip t x bn r s' :
  n <= n' -> bmap_post n s ip t x bn r s' -> bmap_post n' s ip t x bn r s'.
Proof.
  intros Hn (d' & t' & x' & E & Hinv & Hwf & Hex & Hrest). exists d', t', x'. split_and!; try done; try apply Hrest.
  by eapply extends_weaken.
Qed.
(** One allocation after another. *)
Lemma bmap_post_trans n n' s ip t x bn r d1 t1 x1 s' :
  extends sb n t x t1 x1 -> (forall o, 0 <= o < MAXFILE * BSIZE -> fbyte t1 x1 o = fbyte t x o) ->
  (forall k, in_file k -> blockno t1 x1 k = blockno t x k) ->
  bmap_post n' (put ip s d1 x1) ip t1 x1 bn r s' -> bmap_post (n + n') s ip t x bn r s'.
Proof.
  intros Hex Hfb Hbl (d' & t' & x' & -> & Hinv & Hwf & Hex' & Hfb' & Hbl' & Hr). exists d', t', x'.
  split_and!; [by rewrite put_put|done|done|by eapply extends_trans| | |done].
  - intros o Ho. by rewrite Hfb', Hfb.
  - intros k Hk Hk0. rewrite Hbl' by (try done; by rewrite Hbl). by apply Hbl.
Qed.

Lemma i_addr_set k v k' x :
  length (i_addrs x) = 13%nat -> 0 <= k < 13 -> 0 <= k' -> i_addr k' (i_set_addr k v x) = if decide (k' = k) then v else i_addr k' x.
Proof.
  intros Hl Hk Hk'. unfold i_addr. cbn. destruct (decide (k' = k)) as [->|Hne].
  - apply list_lookup_total_insert_eq. rewrite Hl. lia.
  - apply list_lookup_total_insert_ne. lia.
Qed.

(** A block of the file is none of those that [balloc] changes. *)
Lemma owned_stays t t' x r :
  wf_file sb t x -> free_block sb t r -> (forall b, b <> r -> ~ bitmap sb b -> tx_blk t' b = tx_blk t b) ->
  forall b, owned t x b -> tx_blk t' b = tx_blk t b.
Proof.
  intros Hwf Hr Hsame b Hb. destruct (wf_place _ _ _ Hwf b Hb) as (_ & Hm & _). apply Hsame; [|done].
  intros ->. by eapply taken_not_owned.
Qed.

(** ** Reading changes nothing *)

Lemma same_blockno t t' x : (forall b, tx_blk t' b = tx_blk t b) -> forall k, blockno t' x k = blockno t x k.
Proof.
  intros Eb k. unfold blockno. destruct (k <? NDIRECT); [done|]. destruct (i_addr NDIRECT x =? 0); [done|]. by rewrite Eb.
Qed.
Lemma same_fbyte t t' x : (forall b, tx_blk t' b = tx_blk t b) -> forall o, fbyte t' x o = fbyte t x o.
Proof. intros Eb o. unfold fbyte. by rewrite (same_blockno _ _ _ Eb), Eb. Qed.

Lemma evolves_read_file t t' x :
  evolves t t' [] (tx_blk t) -> wf_file sb t x -> wf_file sb t' x /\ extends sb 0 t x t' x.
Proof.
  intros (Eh & _ & Ec & Eho & El & Eb) Hwf. pose proof (same_blockno t t' x Eb) as Hbl.
  assert (forall b, blk_free sb t' b = blk_free sb t b) as Hfr by (intros b; unfold blk_free; by rewrite Eb).
  pose proof (fun b => owned_ext t x t' x b eq_refl (fun k _ => Hbl k)) as Hown.
  split.
  - destruct Hwf. split; try done.
    + by rewrite Hfr.
    + intros b. rewrite Hown, Hfr. apply wf_used0.
    + intros b. rewrite Hown, Eh, Eho. apply wf_place0.
    + intros k k'. rewrite !Hbl. apply wf_inj0.
    + intros k. rewrite !Hbl. apply wf_ind0.
  - split; try done.
    + rewrite El. cbn. lia.
    + intros b [? Hf]. rewrite Hfr in Hf. done.
    + intros b. rewrite Hown. by left.
Qed.

Lemma bmap_unchanged s ip t x bn r d' t' :
  at_file s ip t x -> t_inv d' t' -> evolves t t' [] (tx_blk t) ->
  (if decide (r = 0) then none_free sb t 0 (sb_size sb) else blockno t x bn = r) ->
  bmap_post 0 s ip t x bn r (set_disk d' s).
Proof.
  intros [Hsb Hx Htx Hwf Hlay Hq] Hinv Hev Hr. destruct (evolves_read_file _ _ _ Hev Hwf) as [Hwf' Hex].
  destruct Hev as (_ & _ & _ & _ & _ & Eb). exists d', t', x. split_and!; [by apply set_disk_put|done..| | |].
  - intros o _. by apply same_fbyte.
  - intros k _ _. by apply same_blockno.
  - destruct (decide (r = 0)); [|by rewrite (same_blockno _ _ _ Eb)]. intros b Hb. unfold blk_free. rewrite Eb. by apply Hr.
Qed.
(** Nothing was free. *)
Lemma bmap_full s ip t x bn d' t' :
  at_file s ip t x -> t_inv d' t' -> evolves t t' [] (tx_blk t) -> none_free sb t 0 (sb_size sb) ->
  bmap_post 0 s ip t x bn 0 (set_disk d' s).
Proof. intros. by eapply bmap_unchanged. Qed.

Lemma bmap_direct s ip t x bn :
  at_file s ip t x -> room t 2 1 -> 0 <= bn < NDIRECT -> blockno t x bn = 0 ->
  wp (bmap ip bn) (bmap_post 2 s ip t x bn) s.
Proof.
  intros Hat Hroom Hbn Hhole. pose proof Hat as [Hsb Hx Htx Hwf Hlay Hq].
  assert (i_addr bn x = 0) as Ha by (unfold blockno in Hhole; destruct (Z.ltb_spec bn NDIRECT); [done|lia]).
  unfold bmap. wp_step. apply (wp_geti _ _ x); [done|]. destruct (Z.ltb_spec bn NDIRECT) as [_|]; [|lia].
  rewrite Ha. cbn [Z.eqb]. wp_step. rewrite (wf_dev _ _ _ Hwf).
  eapply wp_mono; [apply (balloc_spec sb s t); [done..|done]|].
  assert (in_file bn) as Hin by (unfold in_file, MAXFILE, NINDIRECT, NDIRECT, BSIZE in *; change (1024 / 4) with 256; lia).
  intros r s' [(Hr & Hf & _ & d' & t' & -> & Hinv & Hev & _)|(-> & Hnf & d' & t' & -> & Hinv & Hev & _)].
  2: { cbn [Z.eqb]. wp_steps. apply (bmap_post_weaken 0 2); [lia|]. by eapply bmap_full. }
  assert (free_block sb t r) as Hfree by done.
  pose proof (taken_nonzero sb t x r Hwf Hfree) as Hr0. destruct (Z.eqb_spec r 0); [done|]. wp_step.
  apply (wp_updi _ _ x); [done|]. wp_steps. cbn [fs_disk set_disk].
  destruct (taken_blocks t t' _ r Hev Hlay Hfree) as [Hsame Hzero].
  pose proof (fun y (Hy : on_disk sb y) => taken_free sb t t' _ r y Hlay Hev Hr Hf Hy) as Hfr.
  destruct Hev as (Eh & _ & Ec & Eho & El & _). pose proof (wf_len _ _ _ Hwf) as Hlen.
  pose proof (owned_stays _ _ _ _ Hwf Hfree Hsame) as Hkeep.
  assert (forall k, 0 <= k -> i_addr k (i_set_addr bn r x) = if decide (k = bn) then r else i_addr k x) as Hadr.
  { intros k Hk. apply i_addr_set; [done| |done]. unfold NDIRECT in Hbn. lia. }
  assert (i_addr NDIRECT (i_set_addr bn r x) = i_addr NDIRECT x) as Hind.
  { rewrite Hadr by done. by rewrite decide_False by lia. }
  assert (forall k, in_file k -> blockno t' (i_set_addr bn r x) k = if decide (k = bn) then r else blockno t x k) as Hmap.
  { intros k Hk. unfold blockno. rewrite Hind. destruct (Z.ltb_spec k NDIRECT); [apply Hadr; unfold in_file in Hk; lia|].
    rewrite decide_False by lia. destruct (Z.eqb_spec (i_addr NDIRECT x) 0); [done|]. f_equal. apply Hkeep. split; [done|by left]. }
  destruct (take_slot sb t t' x (i_set_addr bn r x) r Hwf Hlay Hfree) with bn as (Hwf' & Hown & Hfb); try done.
  { cbn. by rewrite length_insert. }
  { intros b Hb _. by apply Hkeep. }
  exists d', t', (i_set_addr bn r x). split_and!; try done.
  - apply (extends_intro _ _ _ _ _ r); try done; [|by intros b Hb Hm _; apply Hsame].
    rewrite El. pose proof (length_fold_add [BBLOCK r sb; r] (tx_log t)). cbn [length] in *. lia.
  - intros k Hk Hk0. rewrite Hmap by done. rewrite decide_False; [done|]. by intros ->.
  - rewrite decide_False by done. rewrite Hmap by done. by rewrite decide_True.
Qed.

(** ** Through the indirect block *)

(** The part of [bmap] after the indirect block is known. *)
Definition slot_part (ind k : Z) : M (fsst St) Z :=
  bp <- dk (t_bread ROOTDEV ind) ;;
  d <- dk (t_data bp) ;;
  addr <- (if rd_slot d k =? 0 then
             addr <- balloc ROOTDEV ;;
             when (negb (addr =? 0))
               (dk (t_write bp (fun d => wr32 d (4 * k) addr)) ;;;
                dk (t_log_write bp)) ;;;
             ret addr
           else ret (rd_slot d k)) ;;
  dk (t_brelse bp) ;;;
  ret addr.

Section slot.
Context (s : fsst St) (ip : nat) (t : tx) (x : inode) (k : Z).
Hypothesis s_at : at_file s ip t x.
Hypothesis k_slot : 0 <= k < NINDIRECT.
Hypothesis has_ind : i_addr NDIRECT x <> 0.
Notation ind := (i_addr NDIRECT x).

Lemma ind_owned : owned t x ind.
Proof using has_ind. split; [done|by left]. Qed.
Lemma ind_facts : on_disk sb ind /\ blk_free sb t ind = false /\ tx_home t ind /\ ~ bitmap sb ind /\ ind ∉ tx_held t.
Proof using s_at has_ind.
  destruct s_at as [_ _ _ Hwf _ _]. destruct (wf_used _ _ _ Hwf _ ind_owned), (wf_place _ _ _ Hwf _ ind_owned) as (? & ? & ?).
  done.
Qed.
Lemma ind_range : 0 <= ind < 2 ^ 32.
Proof using s_at has_ind.
  destruct ind_facts as ([Hr Hr'] & _). pose proof (lay_size _ _ (at_layout _ _ _ _ s_at)). lia.
Qed.
Lemma ind_quiet : quiet sb (tx_hold ind t).
Proof using s_at has_ind.
  destruct ind_facts as (_ & Hf & _ & Hm & _). intros b [->|Hb]%elem_of_cons; [|by apply (at_quiet _ _ _ _ s_at)].
  split; [|done]. intros b' Hb' E. apply Hm. by exists b'.
Qed.

(** The transaction after the slot was set to [r] and the indirect block released. *)
Definition slot_set (t2 : tx) (r : Z) : tx := tx_drop ind (tx_add ind (tx_put ind (wr32 (tx_blk t2 ind) (4 * k) r) t2)).

Lemma slot_set_post d3 t2 r :
  blockno t x (NDIRECT + k) = 0 -> free_block sb t r -> t_inv d3 (slot_set t2 r) ->
  evolves (tx_hold ind t) t2 [BBLOCK r sb; r] (taken sb (tx_hold ind t) r) ->
  bmap_post 3 s ip t x (NDIRECT + k) r (set_disk d3 s).
Proof using s_at k_slot has_ind.
  intros Hhole Hfree Hinv Hev. destruct ind_facts as (Hion & Hif & Hih & Him & Hin). pose proof ind_owned as Hio.
  destruct s_at as [Hsb Hx Htx Hwf Hlay Hq].
  assert (layout sb (tx_hold ind t)) as Hlay' by (by destruct Hlay; split).
  pose proof (taken_nonzero sb t x r Hwf Hfree) as Hr0. pose proof (taken_not_owned sb t x r Hwf Hfree) as Hro.
  assert (r <> ind) as Hri by (by intros ->).
  destruct (taken_blocks _ t2 _ r Hev Hlay' Hfree) as [Hsame Hzero]. cbn [tx_blk tx_hold] in Hsame.
  pose proof (fun y (Hy : on_disk sb y) => taken_free sb _ t2 _ r y Hlay' Hev (proj1 Hfree) (proj2 Hfree) Hy) as Hfr.
  destruct Hev as (Eh & _ & Ec & Eho & El & _). cbn [tx_held tx_cap tx_home tx_log tx_hold] in Eh, Ec, Eho, El.
  assert (forall b, b <> ind -> tx_blk (slot_set t2 r) b = tx_blk t2 b) as Hother.
  { intros b Hb. cbn. by rewrite decide_False. }
  assert (tx_blk (slot_set t2 r) ind = wr32 (tx_blk t ind) (4 * k) r) as Hself.
  { cbn. rewrite decide_True by done. by rewrite Hsame. }
  assert (tx_held (slot_set t2 r) = tx_held t) as Hheld.
  { cbn. rewrite Eh, filter_cons_False by tauto. by apply filter_out. }
  assert (forall y, on_disk sb y -> blk_free sb (slot_set t2 r) y = if decide (y = r) then false else blk_free sb t y) as Hfree'.
  { intros y Hy. transitivity (blk_free sb t2 y); [|exact (Hfr y Hy)]. unfold blk_free. rewrite Hother; [done|]. intros E. apply Him. by exists y. }
  assert (0 <= r < 2 ^ 32) as Hr32.
  { destruct Hfree as [[? ?] _]. pose proof (lay_size _ _ Hlay). lia. }
  assert (forall j, in_file j -> blockno (slot_set t2 r) x j = if decide (j = NDIRECT + k) then r else blockno t x j) as Hmap.
  { intros j Hj. unfold blockno. destruct (Z.ltb_spec j NDIRECT); [by rewrite decide_False by lia|].
    destruct (Z.eqb_spec ind 0); [done|]. rewrite Hself. unfold rd_slot. destruct (decide (j = NDIRECT + k)) as [->|Hne].
    - replace (NDIRECT + k - NDIRECT) with k by lia. by apply rd32_wr32_eq.
    - apply rd32_wr32_ne. lia. }
  destruct (take_slot sb t (slot_set t2 r) x x r Hwf Hlay Hfree) with (NDIRECT + k) as (Hwf' & Hown & Hfb); try done.
  { by destruct Hwf. }
  { intros i Hi. rewrite Hother by done. by apply Hzero. }
  { unfold in_file, MAXFILE. unfold NDIRECT. lia. }
  { intros b Hb Hbi. rewrite Hother by done. by eapply owned_stays. }
  exists d3, (slot_set t2 r), x. split_and!; try done.
  - by apply set_disk_put.
  - apply (extends_intro _ _ _ _ _ r); try done.
    + cbn [slot_set tx_log tx_drop tx_add tx_put]. pose proof (length_add_txn ind (tx_log t2)). rewrite El in *.
      pose proof (length_fold_add [BBLOCK r sb; r] (tx_log t)). cbn [length] in *. lia.
    + intros b Hb Hm Hno. rewrite Hother by (intros ->; done). by apply Hsame.
  - intros j Hj Hj0. rewrite Hmap by done. rewrite decide_False; [done|]. by intros ->.
  - rewrite decide_False by done. rewrite Hmap; [by rewrite decide_True|]. unfold in_file, MAXFILE. unfold NDIRECT. lia.
Qed.

Lemma slot_blockno : blockno t x (NDIRECT + k) = rd_slot (tx_blk t ind) k.
Proof using k_slot has_ind.
  unfold blockno. destruct (Z.ltb_spec (NDIRECT + k) NDIRECT); [lia|]. destruct (Z.eqb_spec ind 0); [done|].
  f_equal. lia.
Qed.

(** The slot is filled: nothing changes. *)
Lemma slot_found :
  room t 0 1 -> blockno t x (NDIRECT + k) <> 0 ->
  wp (slot_part ind k) (fun r s' => r = blockno t x (NDIRECT + k) /\ exists d' t', s' = set_disk d' s /\ t_inv d' t' /\
    evolves t t' [] (tx_blk t)) s.
Proof using s_at k_slot has_ind.
  rewrite slot_blockno. intros Hroom Hne. destruct ind_facts as (_ & _ & _ & _ & Hin). unfold slot_part. wp_step.
  apply (wp_bread s t ind); [apply (at_tx _ _ _ _ s_at)|done|apply ind_range|done|]. intros bp d1 Hinv1 Hbp Hcl Hk1. wp_step.
  apply (wp_data _ (tx_hold ind t) bp ind); [done|done|]. wp_step. cbn [tx_blk tx_hold].
  destruct (Z.eqb_spec (rd_slot (tx_blk t ind) k) 0); [done|]. wp_steps.
  apply (wp_release _ (tx_hold ind t) bp ind); [done|done|by left|done|]. intros d2 Hinv2 _. wp_steps. split; [done|].
  exists d2, (tx_drop ind (tx_hold ind t)). split_and!; [done|done|]. by apply evolves_read.
Qed.

(** The slot is empty: a block is allocated for it. *)
Lemma slot_alloc :
  room t 3 2 -> blockno t x (NDIRECT + k) = 0 -> wp (slot_part ind k) (bmap_post 3 s ip t x (NDIRECT + k)) s.
Proof using s_at k_slot has_ind.
  intros Hroom Hhole. pose proof Hhole as Hslot. rewrite slot_blockno in Hslot.
  destruct ind_facts as (_ & _ & Hih & _ & Hin). pose proof s_at as [Hsb Hx Htx Hwf Hlay Hq]. unfold slot_part. wp_step.
  apply (wp_bread s t ind); [done|done|apply ind_range|by apply (room_weaken t 3 2)|].
  intros bp d1 Hinv1 Hbp Hcl Hk1. wp_step.
  apply (wp_data _ (tx_hold ind t) bp ind); [done|done|]. wp_step. cbn [tx_blk tx_hold]. rewrite Hslot. cbn [Z.eqb]. wp_step.
  eapply wp_mono; [apply (balloc_spec sb (set_disk d1 s) (tx_hold ind t)); [done|done|by destruct Hlay; split|apply ind_quiet|]|].
  { unfold room in *. cbn [tx_hold tx_log tx_held tx_cap length]. lia. }
  intros r s' [(Hr & Hf & _ & d2 & t2 & -> & Hinv2 & Hev & Hk2)|(-> & Hnf & d2 & t2 & -> & Hinv2 & Hev & Hk2)].
  - assert (r <> 0) as Hr0 by (apply (taken_nonzero sb t x r Hwf); done). destruct (Z.eqb_spec r 0); [done|]. cbn [negb when].
    pose proof Hev as (Eh & _ & Ec & Eho & El & _).
    wp_step. wp_step. apply wp_dk. eapply wp_mono; [apply (t_write_ok _ t2 bp ind); [done|]|].
    { apply Hk2; [by left|done]. }
    intros [] d3 [Hinv3 Hk3]. apply wp_dk.
    eapply wp_mono; [apply (t_log_write_ok _ _ bp ind Hinv3)|].
    { apply Hk3, Hk2; [by left|done]. }
    { cbn. rewrite Eh. by left. }
    { cbn. by rewrite Eho. }
    { cbn. rewrite El, Ec. pose proof (length_fold_add [BBLOCK r sb; r] (tx_log t)). unfold room in Hroom. cbn [length tx_log tx_cap tx_hold] in *. lia. }
    intros [] d4 [Hinv4 Hk4]. wp_steps.
    apply (wp_release _ (tx_add ind (tx_put ind (wr32 (tx_blk t2 ind) (4 * k) r) t2)) bp ind); [done| | | |].
    { apply Hk4, Hk3, Hk2; [by left|done]. }
    { cbn. rewrite Eh. by left. }
    { left. apply in_add_txn. }
    intros d5 Hinv5 _. wp_steps. by apply (slot_set_post d5 t2 r).
  - cbn [Z.eqb negb when]. wp_steps. pose proof Hev as (Eh & Eold & Ec & Eho & El & Eb).
    apply (wp_release _ t2 bp ind); [done|by apply Hk2; [left|]|rewrite Eh; by left| |].
    { rewrite El, Eold, Eb. cbn. destruct Hcl; [by left|by right]. }
    intros d3 Hinv3 _. wp_steps. apply (bmap_post_weaken 0 3); [lia|].
    apply (bmap_full s ip t x _ d3 (tx_drop ind t2)); [done|done| |done].
    split_and!; try done. cbn [tx_drop tx_held]. rewrite Eh. cbn [tx_hold tx_held]. rewrite filter_cons_False by tauto. by apply filter_out.
Qed.
End slot.

Lemma indirect_place bn : in_file bn -> NDIRECT <= bn -> 0 <= bn - NDIRECT < NINDIRECT /\ NDIRECT + (bn - NDIRECT) = bn.
Proof. unfold in_file, MAXFILE. lia. Qed.

(** The block is there. *)
Lemma bmap_found s ip t x bn :
  at_file s ip t x -> room t 0 1 -> in_file bn -> blockno t x bn <> 0 ->
  wp (bmap ip bn) (fun r s' => r = blockno t x bn /\ exists d' t', s' = set_disk d' s /\ t_inv d' t' /\
    evolves t t' [] (tx_blk t)) s.
Proof.
  intros Hat Hroom Hbn Hne. pose proof Hat as [Hsb Hx Htx Hwf Hlay Hq]. unfold bmap. wp_step. apply (wp_geti _ _ x); [done|].
  destruct (Z.ltb_spec bn NDIRECT) as [Hd|Hge].
  - assert (blockno t x bn = i_addr bn x) as E by (unfold blockno; destruct (Z.ltb_spec bn NDIRECT); [done|lia]).
    rewrite <- E. destruct (Z.eqb_spec (blockno t x bn) 0); [done|]. wp_steps. split; [done|].
    exists (fs_disk s), t. by destruct s.
  - destruct (indirect_place bn Hbn Hge) as [Hk Ebn]. cbv zeta. destruct (Z.ltb_spec (bn - NDIRECT) NINDIRECT); [|lia].
    assert (i_addr NDIRECT x <> 0) as Hi.
    { intros E. apply Hne. unfold blockno. rewrite E. destruct (Z.ltb_spec bn NDIRECT); [lia|done]. }
    wp_step. destruct (Z.eqb_spec (i_addr NDIRECT x) 0); [done|]. wp_step.
    destruct (Z.eqb_spec (i_addr NDIRECT x) 0); [done|]. rewrite (wf_dev _ _ _ Hwf).
    rewrite <- Ebn in Hne. eapply wp_mono; [by apply (slot_found s ip t x (bn - NDIRECT))|]. by rewrite Ebn.
Qed.

(** The indirect block has just been allocated. *)
Lemma bmap_indirect s ip t x bn r d1 t1 :
  at_file s ip t x -> room t 5 2 -> in_file bn -> NDIRECT <= bn -> blockno t x bn = 0 -> i_addr NDIRECT x = 0 ->
  free_block sb t r -> t_inv d1 t1 -> evolves t t1 [BBLOCK r sb; r] (taken sb t r) ->
  wp (slot_part r (bn - NDIRECT)) (bmap_post 5 s ip t x bn) (put ip (set_disk d1 s) d1 (i_set_addr NDIRECT r x)).
Proof.
  intros Hat Hroom Hbn Hge Hhole Hi Hfree Hinv Hev. destruct (indirect_place bn Hbn Hge) as [Hk Ebn].
  pose proof Hat as [Hsb Hx Htx Hwf Hlay Hq]. pose proof (taken_nonzero sb t x r Hwf Hfree) as Hr0.
  destruct (taken_blocks t t1 _ r Hev Hlay Hfree) as [Hsame Hzero].
  pose proof (fun y (Hy : on_disk sb y) => taken_free sb t t1 _ r y Hlay Hev (proj1 Hfree) (proj2 Hfree) Hy) as Hfr.
  destruct Hev as (Eh & _ & Ec & Eho & El & _). pose proof (wf_len _ _ _ Hwf) as Hlen.
  pose proof (owned_stays _ _ _ _ Hwf Hfree Hsame) as Hkeep. set (x1 := i_set_addr NDIRECT r x).
  assert (forall k, 0 <= k -> i_addr k x1 = if decide (k = NDIRECT) then r else i_addr k x) as Hadr.
  { intros k Hk0. by apply i_addr_set. }
  assert (i_addr NDIRECT x1 = r) as Hind by (rewrite Hadr by done; by rewrite decide_True).
  destruct (take_indirect sb t t1 x x1 r Hwf Hlay Hfree) as (Hwf1 & Hown & Hbl & Hfb); try done.
  { unfold x1. cbn. by rewrite length_insert. }
  { intros k Hk0. rewrite Hadr by lia. by rewrite decide_False by lia. }
  assert (extends sb 2 t x t1 x1) as Hex.
  { apply (extends_intro _ _ _ _ _ r); try done; [|by intros b Hb Hm _; apply Hsame].
    rewrite El. pose proof (length_fold_add [BBLOCK r sb; r] (tx_log t)). cbn [length] in *. lia. }
  assert (at_file (put ip s d1 x1) ip t1 x1) as Hat1 by (by eapply at_file_put).
  assert (room t1 3 2) as Hroom1 by (eapply extends_room; [exact Hex|done]).
  rewrite <- Hind. eapply wp_mono.
  - apply (slot_alloc (put ip s d1 x1) ip t1 x1 (bn - NDIRECT)); [done|done|congruence|done|]. by rewrite Ebn, Hbl.
  - rewrite Ebn. intros r' s' Hpost. change 5 with (2 + 3). by eapply bmap_post_trans.
Qed.

(** A place that is a hole gets a block. *)
Lemma bmap_hole s ip t x bn :
  at_file s ip t x -> room t 5 2 -> in_file bn -> blockno t x bn = 0 -> wp (bmap ip bn) (bmap_post 5 s ip t x bn) s.
Proof.
  intros Hat Hroom Hbn Hhole. destruct (Z.ltb_spec bn NDIRECT) as [Hd|Hge].
  { eapply wp_mono; [apply (bmap_direct s ip t x bn); [done|by apply (room_weaken t 5 2)|unfold in_file in Hbn; lia|done]|].
    intros r s'. apply bmap_post_weaken. lia. }
  destruct (indirect_place bn Hbn Hge) as [Hk Ebn]. pose proof Hat as [Hsb Hx Htx Hwf Hlay Hq].
  unfold bmap. wp_step. apply (wp_geti _ _ x); [done|]. destruct (Z.ltb_spec bn NDIRECT); [lia|].
  cbv zeta. destruct (Z.ltb_spec (bn - NDIRECT) NINDIRECT); [|lia]. wp_step. rewrite (wf_dev _ _ _ Hwf).
  destruct (Z.eqb_spec (i_addr NDIRECT x) 0) as [Hi|Hi].
  2: { wp_step. destruct (Z.eqb_spec (i_addr NDIRECT x) 0); [done|]. rewrite <- Ebn in Hhole.
       eapply wp_mono; [apply (slot_alloc s ip t x (bn - NDIRECT)); [done|done|done|by apply (room_weaken t 5 2)|done]|].
       rewrite Ebn. intros r s'. apply bmap_post_weaken. lia. }
  wp_step. eapply wp_mono; [apply (balloc_spec sb s t); [done..|by apply (room_weaken t 5 2)]|].
  intros r s' [(Hr & Hf & _ & d' & t' & -> & Hinv & Hev & _)|(-> & Hnf & d' & t' & -> & Hinv & Hev & _)].
  2: { cbn [Z.eqb negb when]. do 3 wp_step. cbn [Z.eqb]. wp_steps. apply (bmap_post_weaken 0 5); [lia|]. by eapply bmap_full. }
  assert (free_block sb t r) as Hfree by done.
  pose proof (taken_nonzero sb t x r Hwf Hfree) as Hr0. destruct (Z.eqb_spec r 0) as [|Hr0']; [done|]. cbn [negb when].
  wp_step. apply (wp_updi _ _ x); [done|]. wp_step. cbn [fs_disk set_disk].
  destruct (Z.eqb_spec r 0); [done|]. by eapply bmap_indirect.
Qed.

Lemma bmap_spec s ip t x bn :
  at_file s ip t x -> room t 5 2 -> in_file bn -> wp (bmap ip bn) (bmap_post 5 s ip t x bn) s.
Proof.
  intros Hat Hroom Hbn. destruct (decide (blockno t x bn = 0)) as [E|E]; [by apply bmap_hole|].
  eapply wp_mono; [apply (bmap_found s ip t x bn); [done|by apply (room_weaken t 5 2)|done|done]|].
  intros r s' (-> & d' & t' & -> & Hinv & Hev). apply (bmap_post_weaken 0 5); [lia|].
  apply (bmap_unchanged s ip t x bn _ d' t'); [done..|]. by rewrite decide_False.
Qed.
End bmap.
