(* ===== verification/FsFile.v ===== *)
(** * Reading and writing files (kernel/fs.c: [readi], [writei], [balloc])

    [readi] returns the bytes of the file, and [writei] replaces them, through the
    block map of FsMap.v.  What is written is what is read back, and no block of
    another file changes. *)

From stdpp Require Import base list gmap strings.
From Stdlib Require Import ZArith Lia.
From S2P Require Import Prelude Mem Str Sleeplock Bio BioInv Log LogInv TxDisk Fs FsBlocks FsMap.

#[local] Open Scope Z_scope.

(** ** Bytes of a block *)

Lemma BSIZE_pos : 0 < BSIZE.
Proof. done. Qed.

Lemma rd8_blk_store d o l i :
  rd8 (blk_store d o l) i = if decide (o <= i < o + Z.of_nat (length l)) then u8 (l !!! Z.to_nat (i - o)) else rd8 d i.
Proof.
  revert d o. induction l as [|v l IH]; intros d o; cbn [blk_store length].
  { destruct (decide _); [lia|done]. }
  rewrite IH. destruct (decide (o + 1 <= i < o + 1 + Z.of_nat (length l))), (decide (o <= i < o + Z.of_nat (S (length l)))); try lia.
  - f_equal. replace (Z.to_nat (i - o)) with (S (Z.to_nat (i - (o + 1)))) by lia. done.
  - assert (i = o) as -> by lia. rewrite rd8_wr8_eq. by rewrite Z.sub_diag.
  - by rewrite rd8_wr8_ne by lia.
Qed.

(** The place in the file of byte [i] after offset [o], within the block of [o]. *)
Lemma same_block o i : 0 <= i < BSIZE - o mod BSIZE -> (o + i) / BSIZE = o / BSIZE /\ (o + i) mod BSIZE = o mod BSIZE + i.
Proof.
  intros Hi. pose proof (Z.div_mod o BSIZE ltac:(done)). pose proof (Z.mod_pos_bound o BSIZE BSIZE_pos).
  assert (o + i = BSIZE * (o / BSIZE) + (o mod BSIZE + i)) as E by lia.
  split; [symmetry; eapply Z.div_unique_pos|symmetry; eapply Z.mod_unique_pos]; [|exact E| |exact E]; lia.
Qed.

(** The bytes of the file from [off], [n] of them. *)
Definition fbytes (t : tx) (x : inode) (off n : Z) : list Z := fbyte t x <$> seqZ off n.

Lemma fbytes_app t x off n m : 0 <= n -> 0 <= m -> fbytes t x off (n + m) = fbytes t x off n ++ fbytes t x (off + n) m.
Proof. intros Hn Hm. unfold fbytes. by rewrite seqZ_app, fmap_app. Qed.

Lemma blk_bytes_file t x off m :
  blockno t x (off / BSIZE) <> 0 -> 0 <= off -> 0 <= m <= BSIZE - off mod BSIZE ->
  blk_bytes (tx_blk t (blockno t x (off / BSIZE))) (off mod BSIZE) m = fbytes t x off m.
Proof.
  intros Hb Hoff Hm. unfold blk_bytes, fbytes. apply list_eq. intros i.
  destruct (decide (i < Z.to_nat m)%nat) as [Hi|Hi].
  - rewrite lookup_bytes_at by done. rewrite list_lookup_fmap, lookup_seqZ_lt by lia. cbn [fmap option_fmap option_map].
    f_equal. unfold fbyte. destruct (same_block off (Z.of_nat i)) as [E1 E2]; [lia|]. rewrite E1, E2.
    by destruct (Z.eqb_spec (blockno t x (off / BSIZE)) 0).
  - rewrite !lookup_ge_None_2; [done| |]; rewrite ?length_fmap, ?length_bytes_at, ?length_seqZ; lia.
Qed.

Section files.
Context {St : Type} `{TxDisk St} `{UserCopy St} (sb : superblock).

(** Every byte below the size has a block. *)
Definition no_holes (t : tx) (x : inode) : Prop :=
  i_size x <= MAXFILE * BSIZE /\ forall o, 0 <= o < i_size x -> blockno t x (o / BSIZE) <> 0.

Lemma in_file_div o : 0 <= o < MAXFILE * BSIZE -> in_file (o / BSIZE).
Proof. intros Ho. split; [apply Z.div_pos; [lia|done]|]. apply Z.div_lt_upper_bound; [done|]. lia. Qed.

(** ** Reading *)

Lemma reads_trans t t1 t2 :
  evolves t t1 [] (tx_blk t) -> evolves t1 t2 [] (tx_blk t1) -> evolves t t2 [] (tx_blk t).
Proof.
  intros Hev Hev2. eapply evolves_ext; [eapply (evolves_trans _ _ _ [] []); [exact Hev|exact Hev2]|]. intros b.
  by destruct Hev as (_ & _ & _ & _ & _ & ->).
Qed.
Lemma reads_at s ip t x d1 t1 :
  at_file sb s ip t x -> t_inv d1 t1 -> evolves t t1 [] (tx_blk t) -> at_file sb (set_disk d1 s) ip t1 x.
Proof.
  intros Hat Hinv Hev. pose proof Hat as [Hsb Hx Htx Hwf Hlay Hq].
  destruct (evolves_read_file sb t t1 x Hev Hwf) as [Hwf' Hex].
  rewrite (set_disk_put ip s d1 x Hx). by eapply at_file_put.
Qed.
Lemma reads_room t t1 k h : evolves t t1 [] (tx_blk t) -> room t k h -> room t1 k h.
Proof. intros Hev Hr. eapply room_evolves; [exact Hev|]. cbn. by rewrite Z.add_0_r. Qed.

(** One pass of [readi]: the block at [off] is read and released. *)
Lemma owned_data t x bn : in_file bn -> blockno t x bn <> 0 -> owned t x (blockno t x bn).
Proof. intros Hbn Hb. split; [done|]. right. by exists bn. Qed.

(** How much of a request of [n] bytes at [off] there is. *)
Definition read_len (x : inode) (off n : Z) : Z := if i_size x <? off + n then i_size x - off else n.

Lemma readi_spec s ip t x off n :
  at_file sb s ip t x -> no_holes t x -> room t 0 1 -> 0 <= off -> 0 <= n -> off + n < 2 ^ 32 -> off <= i_size x ->
  wp (readi ip ToKernel off n) (fun r s' => r = (read_len x off n, fbytes t x off (read_len x off n)) /\
    exists d' t', s' = set_disk d' s /\ t_inv d' t' /\ evolves t t' [] (tx_blk t)) s.
Proof.
  intros Hat [Hmax Hholes] Hroom Hoff Hn Hw Hle. pose proof Hat as [Hsb Hx Htx Hwf Hlay Hq]. unfold readi. wp_step.
  apply (wp_geti _ _ x); [done|]. rewrite (u32_small (off + n)) by lia.
  destruct (Z.ltb_spec (i_size x) off); [lia|]. destruct (Z.ltb_spec (off + n) off); [lia|]. cbn [orb].
  change (if i_size x <? off + n then i_size x - off else n) with (read_len x off n). set (n' := read_len x off n).
  assert (0 <= n' /\ off + n' <= i_size x) as [Hn'0 Hn'].
  { unfold n', read_len. destruct (Z.ltb_spec (i_size x) (off + n)); lia. }
  assert (MAXFILE * BSIZE < 2 ^ 31) as Hmx by done.
  eapply wp_mono; [apply (wp_while _ (fun '(tot, o, acc) st => 0 <= tot <= n' /\ o = off + tot /\ acc = fbytes t x off tot /\
      exists d1 t1, st = set_disk d1 s /\ t_inv d1 t1 /\ evolves t t1 [] (tx_blk t)) (fun '(tot, _, _) _ => n' - tot)
      (fun r s' => r = (n', fbytes t x off n') /\ exists d' t', s' = set_disk d' s /\ t_inv d' t' /\ evolves t t' [] (tx_blk t)))|done].
  3: { lia. }
  2: { split_and!; [lia|lia|lia|done|]. exists (fs_disk s), t. by destruct s. }
  intros [[tot o] acc] st (Htot & -> & -> & d1 & t1 & -> & Hinv1 & Hev1).
  destruct (Z.ltb_spec tot n') as [Hlt|Hge].
  2: { assert (tot = n') as -> by lia. wp_steps. rewrite s32_small by lia. split; [done|]. by exists d1, t1. }
  pose proof (reads_at _ _ _ _ _ _ Hat Hinv1 Hev1) as Hat1. pose proof (reads_room _ _ _ _ Hev1 Hroom) as Hroom1.
  assert (forall b, tx_blk t1 b = tx_blk t b) as Hb1 by apply Hev1.
  set (bn := (off + tot) / BSIZE). assert (in_file bn) as Hbn by (apply in_file_div; lia).
  assert (blockno t1 x bn <> 0) as Hblk by (rewrite (same_blockno t t1 x Hb1); apply Hholes; lia).
  wp_step. eapply wp_mono; [by apply (bmap_found sb (set_disk d1 s) ip t1 x bn)|].
  intros r s2 (-> & d2 & t2 & -> & Hinv2 & Hev2). destruct (Z.eqb_spec (blockno t1 x bn) 0); [done|].
  pose proof (reads_at _ _ _ _ _ _ Hat1 Hinv2 Hev2) as Hat2. pose proof (reads_room _ _ _ _ Hev2 Hroom1) as Hroom2.
  assert (forall b, tx_blk t2 b = tx_blk t b) as Hb2 by (intros b; destruct Hev2 as (_ & _ & _ & _ & _ & ->); apply Hb1).
  rewrite (same_blockno t t1 x Hb1) in *. rewrite <- (same_blockno t t2 x Hb2) in *.
  pose proof (at_wf _ _ _ _ _ Hat2) as Hwf2. pose proof (owned_data t2 x bn Hbn Hblk) as Hown.
  destruct (wf_used _ _ _ Hwf2 _ Hown) as [Hon _], (wf_place _ _ _ Hwf2 _ Hown) as (_ & _ & Hnh).
  wp_step. rewrite (wf_dev _ _ _ Hwf).
  apply (wp_bread _ t2); [done|done| |done|].
  { pose proof (lay_size _ _ Hlay). unfold on_disk in Hon. lia. }
  intros bp d3 Hinv3 Hbp Hcl _. wp_step. apply (wp_data _ (tx_hold (blockno t2 x bn) t2) bp (blockno t2 x bn)); [done|done|].
  cbn [deliver]. wp_step. wp_step. change (0 =? -1) with false. cbn match. wp_step.
  apply (wp_release _ (tx_hold (blockno t2 x bn) t2) bp (blockno t2 x bn)); [done|done|by left|done|].
  intros d4 Hinv4 _. wp_steps. set (m := Z.min (n' - tot) (BSIZE - (off + tot) mod BSIZE)).
  pose proof (Z.mod_pos_bound (off + tot) BSIZE BSIZE_pos). assert (0 < m <= n' - tot) as Hm by (unfold m; lia).
  split; [|unfold m in *; lia]. split_and!; [lia|lia|lia| |].
  - rewrite fbytes_app by lia. f_equal. cbn [tx_blk tx_hold]. unfold bn in *. rewrite blk_bytes_file; [|done|lia|unfold m; lia].
    unfold fbytes. apply list_fmap_ext. intros i o _. by apply same_fbyte.
  - exists d4, (tx_drop (blockno t2 x bn) (tx_hold (blockno t2 x bn) t2)). split_and!; [done|done|].
    apply (reads_trans t t1); [done|]. apply (reads_trans t1 t2); [done|]. by apply evolves_read.
Qed.

(** ** Writing *)

(** The data block of place [bn] is overwritten with [l] from byte [o]. *)
Section store.
Context (t t' : tx) (x : inode) (bn o : Z) (l : list Z).
Notation r := (blockno t x bn).
Hypothesis t_wf : wf_file sb t x.
Hypothesis t_lay : layout sb t.
Hypothesis bn_in : in_file bn.
Hypothesis bn_block : r <> 0.
Hypothesis t_ev : evolves t t' [r] (fun b => if decide (b = r) then blk_store (tx_blk t r) o l else tx_blk t b).

Lemma store_other b : b <> r -> tx_blk t' b = tx_blk t b.
Proof using t_ev. intros Hb. destruct t_ev as (_ & _ & _ & _ & _ & ->). by rewrite decide_False. Qed.
Lemma store_map k : in_file k -> blockno t' x k = blockno t x k.
Proof using t_ev t_wf bn_in bn_block.
  intros Hk. unfold blockno at 1 2. destruct (k <? NDIRECT); [done|]. destruct (i_addr NDIRECT x =? 0); [done|].
  rewrite store_other; [done|]. intros E. by eapply (wf_ind _ _ _ t_wf bn).
Qed.
Lemma store_free b : on_disk sb b -> blk_free sb t' b = blk_free sb t b.
Proof using t_ev t_wf bn_in bn_block.
  intros Hb. unfold blk_free. rewrite store_other; [done|]. intros E.
  destruct (wf_place _ _ _ t_wf r) as (_ & Hm & _); [by apply owned_data|]. apply Hm. by exists b.
Qed.
Lemma store_owned b : owned t' x b <-> owned t x b.
Proof using t_ev t_wf bn_in bn_block.
  apply owned_ext; [done|apply store_map].
Qed.

Lemma store_wf : wf_file sb t' x.
Proof using t_ev t_wf t_lay bn_in bn_block.
  assert (on_disk sb 0) as Hd0 by (pose proof (lay_size _ _ t_lay); unfold on_disk; lia).
  destruct t_ev as (Eh & _ & _ & Eho & _ & _). destruct t_wf as [Hlen Hdev Hz Hused Hplace Hinj Hind]. split; try done.
  - by rewrite store_free.
  - intros b Hb%store_owned. destruct (Hused b Hb) as [Hon Hf]. by rewrite store_free.
  - intros b Hb%store_owned. rewrite Eh, Eho. by apply Hplace.
  - intros k k' Hk Hk'. rewrite !store_map by done. by apply Hinj.
  - intros k Hk. rewrite !store_map by done. by apply Hind.
Qed.
Lemma store_extends : extends sb 1 t x t' x.
Proof using t_ev t_wf bn_in bn_block.
  pose proof t_ev as (Eh & _ & Ec & Eho & El & _). split; try done.
  - rewrite El. cbn. pose proof (length_add_txn r (tx_log t)). lia.
  - intros b [Hb Hf]. by rewrite store_free in Hf.
  - intros b Hb%store_owned. by left.
  - intros b _ Hno _. apply store_other. intros ->. by apply Hno, owned_data.
Qed.

Lemma store_bytes :
  0 <= o -> o + Z.of_nat (length l) <= BSIZE -> Forall (fun v => 0 <= v < 256) l ->
  forall i, 0 <= i < MAXFILE * BSIZE -> fbyte t' x i =
    if decide (bn * BSIZE + o <= i < bn * BSIZE + o + Z.of_nat (length l)) then l !!! Z.to_nat (i - (bn * BSIZE + o)) else fbyte t x i.
Proof using t_ev t_wf bn_in bn_block.
  intros Ho Hl Hb i Hi. pose proof (in_file_div i Hi) as Hk. unfold fbyte. rewrite store_map by done.
  pose proof (Z.div_mod i BSIZE ltac:(done)) as Hdm. pose proof (Z.mod_pos_bound i BSIZE BSIZE_pos).
  destruct (decide (i / BSIZE = bn)) as [E|Hne].
  - rewrite E. destruct (Z.eqb_spec r 0); [done|]. destruct t_ev as (_ & _ & _ & _ & _ & Hblk). rewrite Hblk, decide_True by done.
    rewrite rd8_blk_store. rewrite E in Hdm. destruct (decide (o <= i mod BSIZE < o + Z.of_nat (length l))),
      (decide (bn * BSIZE + o <= i < bn * BSIZE + o + Z.of_nat (length l))); try lia.
    replace (i - (bn * BSIZE + o)) with (i mod BSIZE - o) by lia. apply u8_small.
    destruct (lookup_lt_is_Some_2 l (Z.to_nat (i mod BSIZE - o))) as [v Hv]; [lia|].
    rewrite (list_lookup_total_correct _ _ _ Hv). by apply (Forall_lookup_1 _ _ _ _ Hb Hv).
  - destruct (decide _) as [Hin|]; [|destruct (Z.eqb_spec (blockno t x (i / BSIZE)) 0); [done|]].
    + exfalso. apply Hne. symmetry. apply (Z.div_unique_pos i BSIZE bn (i - bn * BSIZE)); lia.
    + f_equal. apply store_other. intros E. apply Hne. by apply (wf_inj _ _ _ t_wf).
Qed.
End store.

(** The first [tot] bytes of [bytes] are in the file from [off]; [j] blocks were
    written. *)
Record wrote (t : tx) (x : inode) (off : Z) (bytes : list Z) (tot j : Z) (t' : tx) (x' : inode) : Prop := {
  wr_wf : wf_file sb t' x';
  wr_ext : extends sb (6 * j) t x t' x';
  wr_bytes : forall i, 0 <= i < MAXFILE * BSIZE ->
    fbyte t' x' i = if decide (off <= i < off + tot) then bytes !!! Z.to_nat (i - off) else fbyte t x i;
  wr_old : forall k, in_file k -> blockno t x k <> 0 -> blockno t' x' k = blockno t x k;
  wr_new : forall i, off <= i < off + tot -> blockno t' x' (i / BSIZE) <> 0;
}.

Lemma wrote_nothing t x off bytes : wf_file sb t x -> wrote t x off bytes 0 0 t x.
Proof.
  intros Hwf. split; try done; [apply extends_refl| |intros i Hi; lia].
  intros i Hi. destruct (decide _); [lia|done].
Qed.

(** [bmap] in between. *)
Lemma wrote_bmap t x off bytes tot j t1 x1 t2 x2 :
  wrote t x off bytes tot j t1 x1 -> wf_file sb t2 x2 -> extends sb 5 t1 x1 t2 x2 ->
  0 <= off -> off + tot <= MAXFILE * BSIZE ->
  (forall o, 0 <= o < MAXFILE * BSIZE -> fbyte t2 x2 o = fbyte t1 x1 o) ->
  (forall k, in_file k -> blockno t1 x1 k <> 0 -> blockno t2 x2 k = blockno t1 x1 k) ->
  extends sb (6 * j + 5) t x t2 x2 /\
  (forall i, 0 <= i < MAXFILE * BSIZE ->
    fbyte t2 x2 i = if decide (off <= i < off + tot) then bytes !!! Z.to_nat (i - off) else fbyte t x i) /\
  (forall k, in_file k -> blockno t x k <> 0 -> blockno t2 x2 k = blockno t x k) /\
  (forall i, off <= i < off + tot -> blockno t2 x2 (i / BSIZE) <> 0).
Proof.
  intros [Hwf Hex Hb Ho Hn] Hwf2 Hex2 Hoff Hmax Hfb Hbl. split_and!.
  - by eapply extends_trans.
  - intros i Hi. rewrite Hfb by done. by apply Hb.
  - intros k Hk Hk0. rewrite Hbl; [by apply Ho|done|]. by rewrite Ho.
  - intros i Hi. assert (in_file (i / BSIZE)) as Hk by (apply in_file_div; lia). rewrite Hbl; [by apply Hn|done|by apply Hn].
Qed.
Lemma wrote_more t x off bytes tot j t1 x1 t2 x2 :
  wrote t x off bytes tot j t1 x1 -> wf_file sb t2 x2 -> extends sb 5 t1 x1 t2 x2 ->
  0 <= off -> off + tot <= MAXFILE * BSIZE ->
  (forall o, 0 <= o < MAXFILE * BSIZE -> fbyte t2 x2 o = fbyte t1 x1 o) ->
  (forall k, in_file k -> blockno t1 x1 k <> 0 -> blockno t2 x2 k = blockno t1 x1 k) ->
  wrote t x off bytes tot (j + 1) t2 x2.
Proof.
  intros Hw Hwf2 Hex2 Hoff Hmax Hfb Hbl.
  destruct (wrote_bmap _ _ _ _ _ _ _ _ _ _ Hw Hwf2 Hex2 Hoff Hmax Hfb Hbl) as (Hex & Hb & Ho & Hn).
  split; try done. eapply extends_weaken; [exact Hex|]. lia.
Qed.

(** One more block: [m] bytes at place [off + tot]. *)
Lemma wrote_block t x off bytes tot j t1 x1 t2 x2 t3 m :
  let o := off + tot in let bn := o / BSIZE in
  wrote t x off bytes tot j t1 x1 -> wf_file sb t2 x2 -> layout sb t2 -> extends sb 5 t1 x1 t2 x2 ->
  (forall o, 0 <= o < MAXFILE * BSIZE -> fbyte t2 x2 o = fbyte t1 x1 o) ->
  (forall k, in_file k -> blockno t1 x1 k <> 0 -> blockno t2 x2 k = blockno t1 x1 k) ->
  blockno t2 x2 bn <> 0 ->
  0 <= off -> 0 <= tot -> 0 < m <= BSIZE - o mod BSIZE -> tot + m <= Z.of_nat (length bytes) -> o + m <= MAXFILE * BSIZE ->
  Forall (fun v => 0 <= v < 256) bytes ->
  evolves t2 t3 [blockno t2 x2 bn] (fun b => if decide (b = blockno t2 x2 bn) then
    blk_store (tx_blk t2 (blockno t2 x2 bn)) (o mod BSIZE) (take (Z.to_nat m) (drop (Z.to_nat tot) bytes)) else tx_blk t2 b) ->
  wrote t x off bytes (tot + m) (j + 1) t3 x2.
Proof.
  intros o bn Hw Hwf2 Hlay2 Hex2 Hfb Hbl Hblk Hoff Htot Hm Hlen Hmax Hbytes Hev.
  destruct (wrote_bmap _ _ _ _ _ _ _ _ _ _ Hw Hwf2 Hex2 Hoff ltac:(unfold o in *; lia) Hfb Hbl) as (Hex & Hb & Ho & Hn).
  assert (in_file bn) as Hbn by (apply in_file_div; unfold o in *; lia).
  set (l := take (Z.to_nat m) (drop (Z.to_nat tot) bytes)) in *.
  assert (Z.of_nat (length l) = m) as Hl by (unfold l; rewrite length_take, length_drop; lia).
  pose proof (Z.div_mod o BSIZE ltac:(done)) as Hdm. pose proof (Z.mod_pos_bound o BSIZE BSIZE_pos) as Hmod.
  pose proof (store_map t2 t3 x2 bn (o mod BSIZE) l Hwf2 Hbn Hblk Hev) as Hmap. split.
  - by apply (store_wf t2 t3 x2 bn (o mod BSIZE) l).
  - replace (6 * (j + 1)) with (6 * j + 5 + 1) by lia. eapply extends_trans; [exact Hex|].
    by apply (store_extends t2 t3 x2 bn (o mod BSIZE) l).
  - intros i Hi. rewrite (store_bytes t2 t3 x2 bn (o mod BSIZE) l) by (try done; first [lia | by apply Forall_take, Forall_drop]).
    replace (bn * BSIZE + o mod BSIZE) with o by (unfold bn; lia). rewrite Hl, Hb by done.
    destruct (decide (o <= i < o + m)), (decide (off <= i < off + tot)), (decide (off <= i < off + (tot + m))); unfold o in *; try lia.
    unfold l. rewrite list_lookup_total_alt, lookup_take_lt, lookup_drop by lia. rewrite <- list_lookup_total_alt. f_equal. lia.
  - intros k Hk Hk0. rewrite Hmap by done. by apply Ho.
  - intros i Hi. assert (in_file (i / BSIZE)) as Hk by (apply in_file_div; unfold o in *; lia). rewrite Hmap by done.
    destruct (decide (i < off + tot)); [by apply Hn; lia|]. destruct (same_block o (i - o)) as [E _]; [unfold o in *; lia|].
    replace (o + (i - o)) with i in E by lia. by rewrite E.
Qed.

(** The body of the loop of [writei] after [bmap] has returned [addr]. *)
Definition write_block (addr : Z) (src : wsrc) (n tot off : Z) : M (fsst St) (ctl (Z * Z) (Z * Z)) :=
  bp <- dk (t_bread ROOTDEV addr) ;;
  let m := Z.min (n - tot) (BSIZE - off mod BSIZE) in
  d <- dk (t_data bp) ;;
  p <- take_src src tot (blk_bytes d (off mod BSIZE) m) ;;
  let '(r, bytes) := p in
  dk (t_write bp (fun d => blk_store d (off mod BSIZE) bytes)) ;;;
  if r =? -1 then
    dk (t_brelse bp) ;;; ret (Brk (tot, off))
  else
    dk (t_log_write bp) ;;;
    dk (t_brelse bp) ;;;
    ret (Next (tot + m, off + m)).

Lemma write_block_ok s ip t x bytes tot off (Q : ctl (Z * Z) (Z * Z) -> fsst St -> Prop) :
  let addr := blockno t x (off / BSIZE) in
  let m := Z.min (Z.of_nat (length bytes) - tot) (BSIZE - off mod BSIZE) in
  at_file sb s ip t x -> room t 1 1 -> in_file (off / BSIZE) -> addr <> 0 -> 0 <= m -> 0 <= tot ->
  (forall d' t', t_inv d' t' -> evolves t t' [addr] (fun b => if decide (b = addr) then
     blk_store (tx_blk t addr) (off mod BSIZE) (take (Z.to_nat m) (drop (Z.to_nat tot) bytes)) else tx_blk t b) ->
     Q (Next (tot + m, off + m)) (set_disk d' s)) ->
  wp (write_block addr (FromKernel bytes) (Z.of_nat (length bytes)) tot off) Q s.
Proof.
  intros addr m [Hsb Hx Htx Hwf Hlay Hq] Hroom Hbn Haddr Hm Htot HQ. pose proof (owned_data t x _ Hbn Haddr) as Hown.
  fold addr in Hown. destruct (wf_used _ _ _ Hwf _ Hown) as [Hon _], (wf_place _ _ _ Hwf _ Hown) as (Hhome & _ & Hnh).
  unfold write_block. fold m. wp_step. apply (wp_bread _ t); [done|done| |by apply (room_weaken t 1 1)|].
  { pose proof (lay_size _ _ Hlay). unfold on_disk in Hon. lia. }
  intros bp d1 Hinv1 Hbp Hcl _. wp_step. apply (wp_data _ (tx_hold addr t) bp addr); [done|done|]. cbn [take_src]. wp_step. wp_step.
  change (0 =? -1) with false. cbn match. apply wp_seq3.
  apply (wp_write_release _ (tx_hold addr t) bp addr); [done|done|by left|done|unfold room in *; cbn in *; lia|].
  intros d2 Hinv2 _. wp_steps. apply (HQ d2 _ Hinv2). unfold blk_bytes. rewrite length_bytes_at. by apply evolves_write.
Qed.

Lemma write_loop s ip t x off bytes :
  let n := Z.of_nat (length bytes) in
  at_file sb s ip t x -> room t (6 * (n / BSIZE + 2)) 2 -> 0 <= off -> off + n <= MAXFILE * BSIZE ->
  Forall (fun v => 0 <= v < 256) bytes ->
  wp (while_ (fun '(tot, off) =>
      if tot <? n then
        addr <- bmap ip (off / BSIZE) ;;
        if addr =? 0 then ret (Brk (tot, off))
        else write_block addr (FromKernel bytes) n tot off
      else ret (Brk (tot, off))) (0, off))
    (fun r s' => let '(tot, o) := r in 0 <= tot <= n /\ o = off + tot /\ exists j d' t' x', 0 <= j <= n / BSIZE + 2 /\
       s' = put ip s d' x' /\ t_inv d' t' /\ wrote t x off bytes tot j t' x' /\
       (tot < n -> none_free sb t' 0 (sb_size sb))) s.
Proof.
  intros n Hat Hroom Hoff Hmax Hbytes. pose proof Hat as [Hsb Hx Htx Hwf Hlay Hq].
  assert (0 <= n / BSIZE) as Hnb by (apply Z.div_pos; [unfold n; lia|done]).
  apply (wp_while _ (fun '(tot, o) st => 0 <= tot <= n /\ o = off + tot /\ exists j d' t' x', 0 <= j <= n / BSIZE + 2 /\
      (tot < n -> j <= o / BSIZE - off / BSIZE) /\ st = put ip s d' x' /\ t_inv d' t' /\ wrote t x off bytes tot j t' x')
    (fun '(tot, _) _ => n - tot)).
  3: { unfold n. assert (MAXFILE * BSIZE < 2 ^ 31) by done. lia. }
  2: { split_and!; [lia|unfold n; lia|lia|]. exists 0, (fs_disk s), t, x. split_and!; try lia; [by rewrite put_id|done|].
       by apply wrote_nothing. }
  intros [tot o] st (Htot & -> & j & d1 & t1 & x1 & Hj & Hjb & -> & Hinv1 & Hw).
  destruct (Z.ltb_spec tot n) as [Hlt|Hge].
  2: { wp_steps. split_and!; [lia|lia|done|]. exists j, d1, t1, x1. split_and!; try done; lia. }
  specialize (Hjb Hlt). assert (j <= n / BSIZE + 1) as Hj1.
  { assert ((off + tot) / BSIZE <= off / BSIZE + n / BSIZE + 1); [|lia].
    pose proof (Z.div_mod off BSIZE ltac:(done)). pose proof (Z.mod_pos_bound off BSIZE BSIZE_pos).
    pose proof (Z.div_mod n BSIZE ltac:(done)). pose proof (Z.mod_pos_bound n BSIZE BSIZE_pos).
    assert ((off + tot) / BSIZE < off / BSIZE + n / BSIZE + 2); [|lia]. apply Z.div_lt_upper_bound; [done|]. lia. }
  pose proof (at_file_put sb ip s d1 t x t1 x1 _ Hat Hinv1 (wr_wf _ _ _ _ _ _ _ _ Hw) (wr_ext _ _ _ _ _ _ _ _ Hw)) as Hat1.
  assert (room t1 6 2) as Hroom1.
  { eapply extends_room; [apply (wr_ext _ _ _ _ _ _ _ _ Hw)|]. apply (room_weaken t (6 * (n / BSIZE + 2)) 2); [done|lia|lia]. }
  assert (in_file ((off + tot) / BSIZE)) as Hbn by (apply in_file_div; lia). wp_step.
  eapply wp_mono; [apply (bmap_spec sb _ ip t1 x1); [done|by apply (room_weaken t1 6 2)|done]|].
  intros r s2 (d2 & t2 & x2 & -> & Hinv2 & Hwf2 & Hex2 & Hfb & Hbl & Hr). rewrite put_put.
  destruct (Z.eqb_spec r 0) as [->|Hr0].
  - wp_steps. split_and!; [lia|lia|done|]. exists (j + 1), d2, t2, x2. split_and!; [lia|lia|done|done| |].
    + by eapply (wrote_more _ _ _ _ _ _ t1 x1); try done; lia.
    + intros _. by rewrite decide_True in Hr.
  - rewrite decide_False in Hr by done. subst r.
    pose proof (at_file_put sb ip _ d2 t1 x1 t2 x2 _ Hat1 Hinv2 Hwf2 Hex2) as Hat2. rewrite put_put in Hat2.
    pose proof (Z.mod_pos_bound (off + tot) BSIZE BSIZE_pos) as Hmod.
    apply (write_block_ok _ ip t2 x2); [done|eapply extends_room; [exact Hex2|by apply (room_weaken t1 6 2)]|done|done|unfold n in *; lia|lia|].
    intros d3 t3 Hinv3 Hev3. fold n. set (m := Z.min (n - tot) (BSIZE - (off + tot) mod BSIZE)) in *.
    split; [|unfold m; lia]. split_and!; [unfold m; lia|unfold m; lia|lia|].
    exists (j + 1), d3, t3, x2. split_and!; [lia|lia| |by rewrite put_disk|done|].
    + intros Hmore. assert (m = BSIZE - (off + tot) mod BSIZE) as -> by (unfold m in *; lia).
      pose proof (Z.div_mod (off + tot) BSIZE ltac:(done)).
      replace (off + tot + _) with ((off + tot) / BSIZE * BSIZE + 1 * BSIZE) by lia.
      rewrite <- Z.mul_add_distr_r, Z.div_mul by done. lia.
    + eapply (wrote_block _ _ _ _ _ _ t1 x1 t2 x2); try done; try apply (at_layout _ _ _ _ _ Hat2); unfold m, n in *; lia.
Qed.

(** ** The inode on disk *)

(** The block of the inode is neither part of the file nor of the bitmap. *)
Record inode_place (t : tx) (x : inode) : Prop := {
  ip_home : tx_home t (IBLOCK (i_inum x) sb);
  ip_own : ~ owned t x (IBLOCK (i_inum x) sb);
  ip_bitmap : ~ bitmap sb (IBLOCK (i_inum x) sb);
  ip_free : ~ free_block sb t (IBLOCK (i_inum x) sb);
  ip_held : IBLOCK (i_inum x) sb ∉ tx_held t;
}.

Lemma extends_place k t x t' x' : extends sb k t x t' x' -> inode_place t x -> inode_place t' x'.
Proof.
  intros [H1 _ H3 _ H5 H6 _ H8 _] []. destruct H8 as (_ & Hi & _). split; rewrite Hi; [by rewrite H3| |done| |by rewrite H1].
  - intros [?|?]%H6; done.
  - intros ?%H5. done.
Qed.

Definition dinode_stored (t : tx) (x : inode) : Z -> block := fun b =>
  if decide (b = IBLOCK (i_inum x) sb) then store_dinode x (i_inum x mod IPB * sizeof_dinode) (tx_blk t b) else tx_blk t b.

Lemma iupdate_spec s ip t x :
  fs_sb s = sb -> fs_itable s !! ip = Some x -> i_dev x = ROOTDEV -> t_inv (fs_disk s) t -> inode_place t x -> room t 1 1 ->
  wp (iupdate ip) (fun _ s' => exists d' t', s' = set_disk d' s /\ t_inv d' t' /\
    evolves t t' [IBLOCK (i_inum x) sb] (dinode_stored t x)) s.
Proof.
  intros Hsb Hx Hdev Hinv [] Hroom. unfold iupdate. wp_step. apply wp_gets. wp_step. apply (wp_geti _ _ x); [done|].
  rewrite Hsb, Hdev. wp_step. apply (wp_bread s t); [done|done|apply u32_range|by apply (room_weaken t 1 1)|].
  intros bp d1 Hinv1 Hbp _ _.
  apply (wp_write_release _ (tx_hold (IBLOCK (i_inum x) sb) t) bp (IBLOCK (i_inum x) sb));
    [done|done|by left|done|unfold room in *; cbn in *; lia|].
  intros d2 Hinv2 _. eexists d2, _. split_and!; [done|exact Hinv2|].
  eapply evolves_ext; [by apply evolves_write|]. intros b. unfold dinode_stored. by destruct (decide (b = _)) as [->|].
Qed.

(** The file does not notice. *)
Lemma dinode_stored_file t t' x x' :
  inode_place t x' -> i_addrs x' = i_addrs x -> wf_file sb t x -> i_dev x' = i_dev x -> layout sb t ->
  evolves t t' [IBLOCK (i_inum x') sb] (dinode_stored t x') ->
  wf_file sb t' x' /\ (forall o, 0 <= o < MAXFILE * BSIZE -> fbyte t' x' o = fbyte t x o) /\
  (forall k, in_file k -> blockno t' x' k = blockno t x k) /\
  (forall b, on_disk sb b -> blk_free sb t' b = blk_free sb t b).
Proof.
  intros [Hh Ho Hm Hf Hn] Ea Hwf Ed Hlay (Eh & _ & _ & Eho & _ & Eb).
  assert (forall b, b <> IBLOCK (i_inum x') sb -> tx_blk t' b = tx_blk t b) as Hother.
  { intros b Hb. rewrite Eb. unfold dinode_stored. by rewrite decide_False. }
  assert (forall k, i_addr k x' = i_addr k x) as Hadr by (intros k; unfold i_addr; by rewrite Ea).
  assert (forall k, in_file k -> blockno t x' k = blockno t x k) as Hbx by (intros k _; unfold blockno; by rewrite !Hadr).
  pose proof (fun b => owned_ext t x t x' b (Hadr NDIRECT) Hbx) as Hox.
  assert (forall k, in_file k -> blockno t' x' k = blockno t x k) as Hmap.
  { intros k Hk. rewrite <- Hbx by done. unfold blockno. destruct (k <? NDIRECT); [done|].
    destruct (Z.eqb_spec (i_addr NDIRECT x') 0) as [|Hi]; [done|]. rewrite Hother; [done|]. intros E. apply Ho. rewrite <- E. split; [done|by left]. }
  assert (forall b, on_disk sb b -> blk_free sb t' b = blk_free sb t b) as Hfr.
  { intros b Hb. unfold blk_free. rewrite Hother; [done|]. intros E. apply Hm. by exists b. }
  pose proof (fun b => owned_ext t x t' x' b (Hadr NDIRECT) Hmap) as Hown.
  assert (on_disk sb 0) as Hd0 by (pose proof (lay_size _ _ Hlay); unfold on_disk; lia).
  split_and!; [|intros o Hio|done|done].
  - destruct Hwf as [Wl Wd W0 Wu Wp Wi Wn]. split.
    + congruence.
    + congruence.
    + by rewrite Hfr.
    + intros b Hb%Hown. destruct (Wu b Hb). by rewrite Hfr.
    + intros b Hb%Hown. rewrite Eh, Eho. by apply Wp.
    + intros k k' Hk Hk'. rewrite !Hmap by done. by apply Wi.
    + intros k Hk. rewrite Hmap, Hadr by done. by apply Wn.
  - unfold fbyte. rewrite Hmap by (by apply in_file_div). destruct (Z.eqb_spec (blockno t x (o / BSIZE)) 0); [done|]. f_equal.
    apply Hother. intros E. apply Ho. rewrite <- E. apply Hox. by apply owned_data; [apply in_file_div|].
Qed.

Lemma place_addrs t x x' : i_addrs x' = i_addrs x -> i_inum x' = i_inum x -> inode_place t x -> inode_place t x'.
Proof.
  intros Ea Ei [P1 P2 P3 P4 P5]. split; rewrite Ei; try done. intros Hc. apply P2. revert Hc. apply owned_ext.
  - unfold i_addr. by rewrite Ea.
  - intros k _. unfold blockno, i_addr. by rewrite Ea.
Qed.
Lemma same_free_layout t t' :
  tx_held t' = tx_held t -> tx_home t' = tx_home t -> (forall b, on_disk sb b -> blk_free sb t' b = blk_free sb t b) ->
  layout sb t -> quiet sb t -> layout sb t' /\ quiet sb t'.
Proof.
  intros Eh Eho Hf [] Hq. split.
  - split; try done; rewrite Eho; [done|]. intros b Hb. rewrite Hf by done. by apply lay_free.
  - intros b. rewrite Eh. intros [Hm Hu]%Hq. split; [done|]. intros Hb. rewrite Hf by done. by apply Hu.
Qed.

(** ** [writei] *)

(** What can be in the way of a write of [n] bytes at [off] to [x]. *)
Record writable (s : fsst St) (ip : nat) (t : tx) (x : inode) (off n : Z) : Prop := {
  wa_at : at_file sb s ip t x;
  wa_holes : no_holes t x;
  wa_inode : inode_place t x;
  wa_off : 0 <= off <= i_size x;
  wa_max : off + n <= MAXFILE * BSIZE;
  wa_room : room t (6 * (n / BSIZE + 2) + 1) 2;
}.

(** The file after the first [tot] bytes of [bytes] were written at [off]. *)
Record write_result (t : tx) (x : inode) (off : Z) (bytes : list Z) (tot : Z) (t' : tx) (x' : inode) : Prop := {
  res_tot : 0 <= tot <= Z.of_nat (length bytes);
  res_full : tot < Z.of_nat (length bytes) -> none_free sb t' 0 (sb_size sb);
  res_bytes : forall i, 0 <= i < MAXFILE * BSIZE ->
    fbyte t' x' i = if decide (off <= i < off + tot) then bytes !!! Z.to_nat (i - off) else fbyte t x i;
  res_size : i_size x' = Z.max (i_size x) (off + tot);
  res_same : same_inode x x';
  res_holes : no_holes t' x';
  res_dinode : tx_blk t' (IBLOCK (i_inum x) sb) =
    store_dinode x' (i_inum x mod IPB * sizeof_dinode) (tx_blk t (IBLOCK (i_inum x) sb));
  res_frame : forall b, ~ bitmap sb b -> ~ owned t x b -> ~ free_block sb t b -> b <> IBLOCK (i_inum x) sb ->
    tx_blk t' b = tx_blk t b;
}.

Lemma wrote_result t x off bytes tot j t1 x1 t2 x2 :
  wrote t x off bytes tot j t1 x1 -> (tot < Z.of_nat (length bytes) -> none_free sb t1 0 (sb_size sb)) ->
  0 <= tot <= Z.of_nat (length bytes) -> no_holes t x -> inode_place t x -> 0 <= off <= i_size x ->
  off + Z.of_nat (length bytes) <= MAXFILE * BSIZE -> layout sb t1 ->
  x2 = (if i_size x1 <? off + tot then i_set_size (off + tot) x1 else x1) ->
  evolves t1 t2 [IBLOCK (i_inum x2) sb] (dinode_stored t1 x2) ->
  write_result t x off bytes tot t2 x2 /\ wf_file sb t2 x2 /\
  (forall b, on_disk sb b -> blk_free sb t2 b = blk_free sb t1 b).
Proof.
  intros [Hwf Hex Hb Ho Hn] Hfull Htot [Hsz Hholes] Hpl Hoff Hmax Hlay Ex2 Hev.
  pose proof (extends_place _ _ _ _ _ Hex Hpl) as Hpl1. pose proof (ex_size _ _ _ _ _ _ Hex) as Es.
  assert (i_addrs x2 = i_addrs x1 /\ i_dev x2 = i_dev x1 /\ i_inum x2 = i_inum x1 /\ same_inode x1 x2 /\
    i_size x2 = Z.max (i_size x) (off + tot)) as (Ea & Ed & Ei & Hs & Hz).
  { rewrite Ex2, Es. destruct (Z.ltb_spec (i_size x) (off + tot)); cbn; rewrite ?Es; split_and!; try done; lia. }
  pose proof (place_addrs _ _ _ Ea Ei Hpl1) as Hpl2.
  destruct (dinode_stored_file t1 t2 x1 x2 Hpl2 Ea Hwf Ed Hlay Hev) as (Hwf2 & Hfb & Hbl & Hfr).
  assert (i_inum x2 = i_inum x) as Einum by (destruct (ex_same _ _ _ _ _ _ Hex) as (_ & ? & _); congruence).
  destruct Hev as (_ & _ & _ & _ & _ & Hblk). split_and!; [|done|done]. split; try done.
  - intros Hlt b Hbr. rewrite Hfr by done. by apply Hfull.
  - intros i Hi. rewrite Hfb by done. by apply Hb.
  - destruct (ex_same _ _ _ _ _ _ Hex) as (? & ? & ? & ? & ? & ? & ? & ? & ?), Hs as (? & ? & ? & ? & ? & ? & ? & ? & ?).
    repeat split; congruence.
  - split; [lia|]. intros o Hio. assert (0 <= o < MAXFILE * BSIZE) as Hom by lia. pose proof (in_file_div o Hom) as Hk.
    rewrite Hbl by done. destruct (decide (o < i_size x)); [rewrite Ho by (try done; by apply Hholes; lia); apply Hholes; lia|].
    apply Hn. lia.
  - rewrite Hblk, <- Einum. unfold dinode_stored. rewrite decide_True by done. f_equal. rewrite Einum.
    destruct Hpl. by apply (ex_frame _ _ _ _ _ _ Hex).
  - intros b Hm Hno Hnf Hne. rewrite Hblk. unfold dinode_stored. rewrite Einum, decide_False by done.
    by apply (ex_frame _ _ _ _ _ _ Hex).
Qed.

Lemma writei_spec s ip t x off bytes :
  writable s ip t x off (Z.of_nat (length bytes)) -> Forall (fun v => 0 <= v < 256) bytes ->
  wp (writei ip (FromKernel bytes) off (Z.of_nat (length bytes))) (fun r s' => exists d' t' x', s' = put ip s d' x' /\
    at_file sb s' ip t' x' /\ room t' 0 1 /\ write_result t x off bytes r t' x') s.
Proof.
  intros [Hat Hholes Hpl Hoff Hmax Hroom] Hbytes. pose proof Hat as [Hsb Hx Htx Hwf Hlay Hq].
  set (n := Z.of_nat (length bytes)) in *. unfold writei. wp_step. apply (wp_geti _ _ x); [done|].
  assert (MAXFILE * BSIZE < 2 ^ 31) as Hmx by done. assert (0 <= n) as Hn0 by (unfold n; lia). rewrite (u32_small (off + n)) by lia.
  destruct (Z.ltb_spec (i_size x) off); [lia|]. destruct (Z.ltb_spec (off + n) off); [lia|]. cbn [orb].
  destruct (Z.ltb_spec (MAXFILE * BSIZE) (off + n)); [lia|]. wp_step. rewrite (wf_dev _ _ _ Hwf).
  eapply wp_mono; [apply (write_loop s ip t x off bytes); [done| |lia|done|done]|].
  { apply (room_weaken t (6 * (n / BSIZE + 2) + 1) 2); [done|unfold n; lia|lia]. }
  intros [tot o] s1 (Htot & -> & j & d1 & t1 & x1 & Hj & -> & Hinv1 & Hw & Hfull). fold n in Htot, Hj, Hfull.
  pose proof (wr_ext _ _ _ _ _ _ _ _ Hw) as Hex. pose proof (wr_wf _ _ _ _ _ _ _ _ Hw) as Hwf1.
  pose proof (at_file_put sb ip s d1 t x t1 x1 _ Hat Hinv1 Hwf1 Hex) as [Hsb1 Hx1 Htx1 _ Hlay1 Hq1].
  assert (room t1 1 2) as Hroom1.
  { eapply extends_room; [exact Hex|]. apply (room_weaken t (6 * (n / BSIZE + 2) + 1) 2); [done|lia|lia]. }
  wp_step. apply (wp_geti _ _ x1); [done|]. wp_step.
  set (x2 := if i_size x1 <? off + tot then i_set_size (off + tot) x1 else x1).
  assert (forall Q, Q tt (put ip s d1 x2) -> wp (when (i_size x1 <? off + tot) (updi ip (i_set_size (off + tot)))) Q (put ip s d1 x1)) as Hwhen.
  { intros Q HQ. unfold x2 in HQ. destruct (i_size x1 <? off + tot); cbn [when]; [|by apply wp_ret].
    apply (wp_updi _ _ x1); [done|]. by rewrite put_put. }
  apply Hwhen. clear Hwhen. wp_step.
  assert (fs_itable (put ip s d1 x2) !! ip = Some x2) as Hx2 by (apply list_lookup_insert_eq; by eapply lookup_lt_Some).
  assert (i_dev x2 = ROOTDEV /\ i_inum x2 = i_inum x1 /\ i_addrs x2 = i_addrs x1) as (Hd2 & Hi2 & Ha2).
  { unfold x2. pose proof (wf_dev _ _ _ Hwf1). by destruct (i_size x1 <? off + tot). }
  pose proof (place_addrs _ _ _ Ha2 Hi2 (extends_place _ _ _ _ _ Hex Hpl)) as Hpl2.
  eapply wp_mono; [apply (iupdate_spec (put ip s d1 x2) ip t1 x2); [done..|by apply (room_weaken t1 1 2)]|].
  intros [] s2 (d2 & t2 & -> & Hinv2 & Hev). rewrite put_disk. wp_steps. rewrite s32_small by lia.
  destruct (wrote_result t x off bytes tot j t1 x1 t2 x2) as (Hres & Hwf2 & Hfr2); try done.
  destruct (same_free_layout t1 t2) as [Hlay2 Hq2]; try done; [by apply Hev..|].
  exists d2, t2, x2. split_and!; [done| | |done].
  - by split.
  - eapply room_evolves; [exact Hev|]. apply (room_weaken t1 1 2); [done|cbn; lia|lia].
Qed.

(** ** Claims *)


(** C16: [balloc] allocates a block.  It returns the first block that the bitmap
    shows as free, with that block zeroed and exactly its bit set, and every block
    other than it and its bitmap block untouched; or, when no block is free, it
    returns 0 and no block has changed. *)
Theorem balloc_first_free (s : fsst St) t :
  fs_sb s = sb -> t_inv (fs_disk s) t -> layout sb t -> quiet sb t -> room t 2 1 ->
  wp (balloc ROOTDEV) (fun r s' => exists d' t', s' = set_disk d' s /\ t_inv d' t' /\ tx_held t' = tx_held t /\
    (free_block sb t r /\ none_free sb t 0 r /\
       (forall b, on_disk sb b -> blk_free sb t' b = if decide (b = r) then false else blk_free sb t b) /\
       (forall i, 0 <= i < BSIZE -> rd8 (tx_blk t' r) i = 0) /\
       (forall b, b <> r -> b <> BBLOCK r sb -> tx_blk t' b = tx_blk t b) \/
     r = 0 /\ none_free sb t 0 (sb_size sb) /\ (forall b, tx_blk t' b = tx_blk t b))) s.
Proof.
  intros Hsb Hinv Hlay Hq Hroom. eapply wp_mono; [by apply (balloc_spec sb s t)|].
  intros r s' [(Hr & Hf & Hnf & d' & t' & -> & Hinv' & Hev & _)|(-> & Hnf & d' & t' & -> & Hinv' & Hev & _)];
    exists d', t'; (split_and!; [done|done|apply Hev|]).
  - left. destruct (taken_blocks sb t t' _ r Hev Hlay) as [_ Hz]; [done|]. split_and!; try done.
    + intros b Hb. by apply (taken_free sb t t' _ r b Hlay Hev).
    + intros b Hb Hm. destruct Hev as (_ & _ & _ & _ & _ & ->). unfold taken. by rewrite !decide_False.
  - right. split_and!; [done|done|apply Hev].
Qed.
End files.

(** ** A disk in memory *)

(** The transaction itself as a disk; the handle of a block is its number. *)
Definition clean (t : tx) : Prop := forall b, b ∉ tx_held t -> b ∈ tx_log t \/ tx_blk t b = tx_old t b.
#[global] Program Instance tx_disk : TxDisk tx := {
  t_bread _ b := modify (tx_hold b) ;;; ret (Z.to_nat b);
  t_brelse i := modify (tx_drop (Z.of_nat i));
  t_log_write i := modify (tx_add (Z.of_nat i));
  t_data i := gets (fun t => tx_blk t (Z.of_nat i));
  t_write i f := modify (fun t => tx_put (Z.of_nat i) (f (tx_blk t (Z.of_nat i))) t);
  t_inv s t := s = t /\ clean s;
  t_has s i b := b = Z.of_nat i /\ b ∈ tx_held s;
}.
Next Obligation.
  intros s t b [-> Hc] Hb Hr _. wp_steps. split_and!; [done| |lia|by left|by apply Hc|].
  - intros b' Hb'. apply Hc. cbn in Hb'. set_solver.
  - intros j b' [-> Hb']. split; [done|by right].
Qed.
Next Obligation. intros s t i b [-> Hc] [-> Hb]. by wp_steps. Qed.
Next Obligation.
  intros s t i b f [-> Hc] [-> Hb]. wp_steps. split_and!; [done| |].
  - intros b' Hb'. cbn in *. rewrite decide_False by (intros ->; done). by apply Hc.
  - intros j b' [-> Hb']. done.
Qed.
Next Obligation.
  intros s t i b [-> Hc] [-> Hb] _ _ _. wp_steps. split_and!; [done| |].
  - intros b' Hb'. cbn in *. destruct (Hc b' Hb'); [left; by apply add_txn_mono|by right].
  - intros j b' [-> Hb']. done.
Qed.
Next Obligation.
  intros s t i b [-> Hc] [-> Hb] _ Hcl. wp_steps. split_and!; [done| |].
  - intros b' Hb'. cbn in *. rewrite list_elem_of_filter in Hb'. destruct (decide (b' = Z.of_nat i)) as [->|]; [done|].
    apply Hc. tauto.
  - intros j b' Hne [-> Hb']. split; [done|]. cbn. by rewrite list_elem_of_filter.
Qed.
#[global] Instance tx_copy : UserCopy tx := {
  u_copyout _ _ := ret (-1);
  u_copyin old _ := ret (-1, old);
}.

(** A disk of 20 blocks: inodes in block 2, the bitmap in block 3, blocks 0 to 9 used;
    and an empty file. *)
Definition ex_sb : superblock := Superblock FSMAGIC 20 17 16 0 1 2 3.
Definition ex_blocks (b : Z) : block := if b =? 3 then wr8 (wr8 ∅ 0 255) 1 3 else ∅.
Definition ex_tx : tx := Tx ex_blocks ex_blocks [] [] 29 (fun _ => True).
Definition ex_inode : inode := Inode ROOTDEV 1 1 initsleeplock 1 T_FILE 0 0 1 0 (replicate 13 0).
Definition ex_fs : fsst tx := Fsst ex_tx ex_sb [ex_inode] 1.
Definition ex_bytes : list Z := chars "hello".

Lemma ex_bblock b : on_disk ex_sb b -> BBLOCK b ex_sb = 3.
Proof.
  unfold on_disk, BBLOCK. cbn [sb_size sb_bmapstart ex_sb]. intros Hb. rewrite Z.div_small; [done|].
  unfold BPB, BSIZE. lia.
Qed.
Lemma ex_layout : layout ex_sb ex_tx.
Proof.
  split; try done. intros b Hb Hf. split; [done|]. intros b' Hb' E. rewrite ex_bblock in E by done. subst b. by vm_compute in Hf.
Qed.
Lemma ex_quiet : quiet ex_sb ex_tx.
Proof. intros b Hb. by apply elem_of_nil in Hb. Qed.
Lemma ex_room : room ex_tx 13 2.
Proof. by split; vm_compute. Qed.
Lemma ex_no_block k : in_file k -> blockno ex_tx ex_inode k = 0.
Proof.
  intros Hk. unfold blockno, i_addr. cbn [ex_inode i_addrs]. destruct (k <? NDIRECT) eqn:E; [|done].
  assert (0 <= k < 12) as Hr by (unfold in_file, NDIRECT in *; lia).
  rewrite list_lookup_total_alt, lookup_replicate_2 by lia. done.
Qed.
Lemma ex_not_owned b : ~ owned ex_tx ex_inode b.
Proof. intros [Hb [->|(k & Hk & ->)]]; [done|]. by rewrite ex_no_block in Hb. Qed.
Lemma ex_wf : wf_file ex_sb ex_tx ex_inode.
Proof.
  split; try done; try (intros b Hb; by apply ex_not_owned in Hb).
  - intros k k' Hk _ Hb. by rewrite ex_no_block in Hb.
Qed.
Lemma ex_writable : writable ex_sb ex_fs 0 ex_tx ex_inode 0 (Z.of_nat (length ex_bytes)).
Proof.
  split; try done.
  - split; try done; [|apply ex_wf|apply ex_layout|apply ex_quiet]. split; [done|]. intros b _. by right.
  - split; [done|]. intros o Ho. cbn in Ho. lia.
  - split; try done; [apply ex_not_owned| | |apply not_elem_of_nil].
    + intros (b & Hb & E). by rewrite ex_bblock in E.
    + intros [_ Hf]. by vm_compute in Hf.
Qed.


Example balloc_first_free_witness :
  wp (balloc ROOTDEV) (fun r s' => exists d' t', s' = set_disk d' ex_fs /\ t_inv d' t' /\ tx_held t' = tx_held ex_tx /\
    (free_block ex_sb ex_tx r /\ none_free ex_sb ex_tx 0 r /\
       (forall b, on_disk ex_sb b -> blk_free ex_sb t' b = if decide (b = r) then false else blk_free ex_sb ex_tx b) /\
       (forall i, 0 <= i < BSIZE -> rd8 (tx_blk t' r) i = 0) /\
       (forall b, b <> r -> b <> BBLOCK r ex_sb -> tx_blk t' b = tx_blk ex_tx b) \/
     r = 0 /\ none_free ex_sb ex_tx 0 (sb_size ex_sb) /\ (forall b, tx_blk t' b = tx_blk ex_tx b))) ex_fs.
Proof.
  apply (balloc_first_free ex_sb ex_fs ex_tx); [done| |apply ex_layout|apply ex_quiet|by apply (room_weaken ex_tx 13 2), ex_room].
  split; [done|]. intros b _. by right.
Defined.
