(* ===== verification/Mkfs.v ===== *)
(** * The image builder (mkfs/mkfs.c)

    Writes the disk image the kernel boots from: the superblock, an empty log, the
    inodes, the bitmap, and the files given on the command line, all in the root
    directory.  It runs on the host; the image file is a function from blocks to
    their contents together with its length in blocks, and a failed assertion or
    [die] is a panic.  A [struct dinode] is what [load_dinode] and [store_dinode] of
    Fs.v transfer. *)

From stdpp Require Import base list gmap strings.
From Stdlib Require Import ZArith Lia.
From S2P Require Import Prelude Mem Str Sleeplock Bio Fs.

#[local] Open Scope Z_scope.

Definition FSSIZE : Z := 2000.
Definition NINODES : Z := 200.
Definition nbitmap : Z := FSSIZE / (BSIZE * 8) + 1.
Definition ninodeblocks : Z := NINODES / IPB + 1.
Definition nlog : Z := LOGSIZE.
Definition nmeta : Z := 2 + nlog + ninodeblocks + nbitmap.
Definition nblocks : Z := FSSIZE - nmeta.

(** The superblock [main] fills in. *)
Definition mkfs_sb : superblock :=
  Superblock FSMAGIC FSSIZE nblocks NINODES nlog 2 (2 + nlog) (2 + nlog + ninodeblocks).

(** The image and the allocation counters. *)
Record img : Type := Img {
  im_blk : Z -> block;
  im_len : Z;
  freeinode : Z;
  freeblock : Z;
}.
#[global] Instance eta_img : Eta img := fun x => Img (im_blk x) (im_len x) (freeinode x) (freeblock x).
Definition MK (A : Type) : Type := M img A.

(** Blocks on the way to and from the image. *)
Definition wsect (sec : Z) (d : block) : MK unit :=
  modify (fun im => im <| im_blk := fun b => if b =? sec then d else im_blk im b |>
                       <| im_len := Z.max (im_len im) (sec + 1) |>).
(** Past the end [read] returns 0. *)
Definition rsect (sec : Z) : MK block :=
  im <- gets id ;;
  if sec <? im_len im then ret (im_blk im sec) else panic "read".

Definition dinode0 : inode := Inode 0 0 0 initsleeplock 0 0 0 0 0 0 (replicate 13 0).
Definition dinode_off (inum : Z) : Z := inum mod IPB * sizeof_dinode.

Definition winode (inum : Z) (ip : inode) : MK unit :=
  let bn := IBLOCK inum mkfs_sb in
  buf <- rsect bn ;;
  wsect bn (store_dinode ip (dinode_off inum) buf).
Definition rinode (inum : Z) : MK inode :=
  let bn := IBLOCK inum mkfs_sb in
  buf <- rsect bn ;;
  ret (load_dinode buf (dinode_off inum) dinode0).

Definition new_freeblock : MK Z :=
  b <- gets freeblock ;;
  modify (fun im => im <| freeblock := u32 (b + 1) |>) ;;;
  ret b.

Definition ialloc (type : Z) : MK Z :=
  inum <- gets freeinode ;;
  modify (fun im => im <| freeinode := u32 (inum + 1) |>) ;;;
  winode inum (i_set_nlink 1 (i_set_type type dinode0)) ;;;
  ret inum.

(** [buf[i/8] |= 1 << (i%8)] for the first [used] blocks. *)
Fixpoint mark_used (n : nat) (buf : block) : block :=
  match n with
  | O => buf
  | S n' => let i := Z.of_nat n' in
            let buf := mark_used n' buf in
            wr8 buf (i / 8) (Z.lor (rd8 buf (i / 8)) (Z.shiftl 1 (i mod 8)))
  end.
Definition zero_block : block := memset ∅ 0 0 BSIZE.

Definition balloc (used : Z) : MK unit :=
  if used <? BSIZE * 8 then wsect (sb_bmapstart mkfs_sb) (mark_used (Z.to_nat used) zero_block)
  else panic "used < BSIZE*8".

(** The block of the [fbn]-th piece of a file, allocated when there is none. *)
Definition iappend_block (din : inode) (fbn : Z) : MK (inode * Z) :=
  if fbn <? NDIRECT then
    din <- (if i_addr fbn din =? 0 then b <- new_freeblock ;; ret (i_set_addr fbn b din) else ret din) ;;
    ret (din, i_addr fbn din)
  else
    din <- (if i_addr NDIRECT din =? 0 then b <- new_freeblock ;; ret (i_set_addr NDIRECT b din) else ret din) ;;
    indirect <- rsect (i_addr NDIRECT din) ;;
    indirect <- (if rd_slot indirect (fbn - NDIRECT) =? 0 then
                   b <- new_freeblock ;;
                   let indirect := wr32 indirect (4 * (fbn - NDIRECT)) b in
                   wsect (i_addr NDIRECT din) indirect ;;;
                   ret indirect
                 else ret indirect) ;;
    ret (din, rd_slot indirect (fbn - NDIRECT)).

Definition iappend (inum : Z) (p : list Z) : MK unit :=
  din <- rinode inum ;;
  r <- while_ (fun '(din, off, p) =>
    match p with
    | [] => ret (Brk (din, off))
    | _ =>
        let fbn := off / BSIZE in
        if fbn <? MAXFILE then
          r <- iappend_block din fbn ;;
          let '(din, x) := r : inode * Z in
          let n1 := Z.min (Z.of_nat (length p)) ((fbn + 1) * BSIZE - off) in
          buf <- rsect x ;;
          wsect x (blk_store buf (off - fbn * BSIZE) (take (Z.to_nat n1) p)) ;;;
          ret (Next (din, u32 (off + n1), drop (Z.to_nat n1) p))
        else panic "fbn < MAXFILE"
    end) (din, i_size din, p) ;;
  let '(din, off) := r : inode * Z in
  winode inum (i_set_size off din).

(** The name of an entry: without [user/] and without a leading underscore. *)
Definition strip_user (arg : list Z) : list Z := if decide (take 5 arg = chars "user/") then drop 5 arg else arg.
Definition strip_underscore (short : list Z) : list Z := match short with 95 :: rest => rest | _ => short end.
Definition shortname (arg : list Z) : MK (list Z) :=
  if bool_decide (47 ∈ strip_user arg) then panic "index(shortname, '/') == 0"
  else ret (strip_underscore (strip_user arg)).

(** A file on the host: its name and what the [read]s of it return; [None] when it
    cannot be opened. *)
Definition hostfile : Type := list Z * option (list (list Z)).

Fixpoint append_all (inum : Z) (chunks : list (list Z)) : MK unit :=
  match chunks with
  | [] => ret tt
  | c :: rest => iappend inum c ;;; append_all inum rest
  end.

Fixpoint add_files (rootino : Z) (files : list hostfile) : MK unit :=
  match files with
  | [] => ret tt
  | (arg, content) :: rest =>
      short <- shortname arg ;;
      match content with
      | None => panic "open"
      | Some chunks =>
          inum <- ialloc T_FILE ;;
          iappend rootino (make_dirent inum short) ;;;
          append_all inum chunks ;;;
          add_files rootino rest
      end
  end.

Definition write_zeroes : MK unit :=
  for_ 0 (Z.to_nat FSSIZE) (fun i => wsect i zero_block).

(** [struct superblock] as it is in memory. *)
Definition sb_block (sb : superblock) : block :=
  let d := wr32 zero_block 0 (sb_magic sb) in
  let d := wr32 d 4 (sb_size sb) in
  let d := wr32 d 8 (sb_nblocks sb) in
  let d := wr32 d 12 (sb_ninodes sb) in
  let d := wr32 d 16 (sb_nlog sb) in
  let d := wr32 d 20 (sb_logstart sb) in
  let d := wr32 d 24 (sb_inodestart sb) in
  wr32 d 28 (sb_bmapstart sb).

Definition mkfs_main (files : list hostfile) : MK unit :=
  modify (fun im => im <| freeblock := nmeta |>) ;;;
  write_zeroes ;;;
  wsect 1 (sb_block mkfs_sb) ;;;
  rootino <- ialloc T_DIR ;;
  if negb (rootino =? ROOTINO) then panic "rootino == ROOTINO"
  else
    iappend rootino (make_dirent rootino (chars ".")) ;;;
    iappend rootino (make_dirent rootino (chars "..")) ;;;
    add_files rootino files ;;;
    din <- rinode rootino ;;
    let off := (i_size din / BSIZE + 1) * BSIZE in
    winode rootino (i_set_size (u32 off) din) ;;;
    used <- gets freeblock ;;
    balloc used.

(** The program on a new, empty image file. *)
Definition empty_img : img := Img (fun _ => ∅) 0 1 0.
