(* ===== verification/MkfsProps.v ===== *)
(** * The image that [mkfs] builds (mkfs/mkfs.c)

    What the kernel finds on the image: the superblock with the constants it
    expects, an empty log, and for every file of the command line an inode whose
    blocks hold exactly the file; no block belongs to two files, and the bitmap marks
    exactly the blocks in use.  The image satisfies the well-formedness that the
    theorems on the kernel's file system assume. *)

From stdpp Require Import base list gmap strings.
From Stdlib Require Import ZArith Lia.
From S2P Require Import Prelude Mem Str Sleeplock Bio BioInv TxDisk Fs FsBlocks FsMap FsFile Mkfs.

#[local] Open Scope Z_scope.

(** ** The superblock *)

Lemma parse_sb_block sb :
  Forall (fun v => 0 <= v < 2 ^ 32) [sb_magic sb; sb_size sb; sb_nblocks sb; sb_ninodes sb; sb_nlog sb; sb_logstart sb; sb_inodestart sb; sb_bmapstart sb] ->
  parse_sb (sb_block sb) = sb.
Proof.
  destruct sb as [a b c d e f g h]. cbn [sb_magic sb_size sb_nblocks sb_ninodes sb_nlog sb_logstart sb_inodestart sb_bmapstart]. rewrite !Forall_cons.
  intros (? & ? & ? & ? & ? & ? & ? & ? & _). unfold parse_sb, sb_block.
  cbn [sb_magic sb_size sb_nblocks sb_ninodes sb_nlog sb_logstart sb_inodestart sb_bmapstart].
  f_equal; repeat rewrite rd32_wr32_ne by lia; by rewrite rd32_wr32_eq.
Qed.
Lemma rd8_zero_block i : rd8 zero_block i = 0.
Proof. unfold zero_block. rewrite rd8_memset by done. by case_decide. Qed.
#[local] Opaque sb_block zero_block.

(** ** Inodes on disk *)

Lemma rd8_wr_addrs d o l a : ~ (o <= a < o + 4 * Z.of_nat (length l)) -> rd8 (wr_addrs d o l) a = rd8 d a.
Proof.
  revert d o. induction l as [|v l IH]; intros d o Ha; [done|]. cbn [wr_addrs length] in *. rewrite IH by lia.
  apply rd8_wr_ne. lia.
Qed.
Lemma rd32_wr_addrs d o l (k : nat) v : l !! k = Some v -> 0 <= v < 2 ^ 32 -> rd32 (wr_addrs d o l) (o + 4 * Z.of_nat k) = v.
Proof.
  revert d o k. induction l as [|w l IH]; intros d o [|k] Hk Hv; try done; cbn [wr_addrs].
  - cbn in Hk. simplify_eq. replace (o + 4 * Z.of_nat 0) with o by lia. rewrite <- (rd32_wr32_eq d o v) at 2 by done.
    apply rd_ext. intros i Hi. apply rd8_wr_addrs. lia.
  - replace (o + 4 * Z.of_nat (S k)) with (o + 4 + 4 * Z.of_nat k) by lia. by apply IH.
Qed.

(** An inode whose fields fit their width. *)
Record dinode_ok (x : inode) : Prop := {
  di_type : - 2 ^ 15 <= i_type x < 2 ^ 15;
  di_major : - 2 ^ 15 <= i_major x < 2 ^ 15;
  di_minor : - 2 ^ 15 <= i_minor x < 2 ^ 15;
  di_nlink : - 2 ^ 15 <= i_nlink x < 2 ^ 15;
  di_size : 0 <= i_size x < 2 ^ 32;
  di_addrs : Forall (fun a => 0 <= a < 2 ^ 32) (i_addrs x);
  di_len : length (i_addrs x) = 13%nat;
}.
(** The fields that are on disk. *)
Definition same_dinode (x y : inode) : Prop :=
  i_type x = i_type y /\ i_major x = i_major y /\ i_minor x = i_minor y /\ i_nlink x = i_nlink y /\
  i_size x = i_size y /\ i_addrs x = i_addrs y.

Lemma s16_range x : - 2 ^ 15 <= s16 x < 2 ^ 15.
Proof.
  unfold s16, sgn. pose proof (Z.mod_pos_bound x (2 ^ 16) ltac:(lia)).
  change (2 ^ (16 - 1)) with (2 ^ 15). destruct (Z.ltb_spec (x mod 2 ^ 16) (2 ^ 15)); lia.
Qed.
Lemma rd16_wr16 d o v : - 2 ^ 15 <= v < 2 ^ 15 -> s16 (rd16 (wr16 d o (u16 v)) o) = v.
Proof.
  intros Hv. unfold rd16, wr16. rewrite rd_wr_eq. change (256 ^ Z.of_nat 2) with (2 ^ 16). unfold u16. rewrite Z.mod_mod by lia.
  rewrite <- (sgn_small 16 v) at 2 by lia. unfold s16, sgn. by rewrite Z.mod_mod by lia.
Qed.

Lemma load_ok d o x0 : dinode_ok (load_dinode d o x0).
Proof.
  split; cbn; try apply s16_range; [apply rd32_range| |done]. apply Forall_forall. intros a (k & -> & _)%list_elem_of_fmap. apply rd32_range.
Qed.

Lemma rd8_store_dinode x o d a : length (i_addrs x) = 13%nat -> ~ (o <= a < o + 64) -> rd8 (store_dinode x o d) a = rd8 d a.
Proof.
  intros Hl Ha. unfold store_dinode, wr16, wr32. rewrite rd8_wr_addrs by (rewrite Hl; lia). by rewrite !rd8_wr_ne by lia.
Qed.
Lemma load_store x o d x0 : dinode_ok x -> same_dinode (load_dinode (store_dinode x o d) o x0) x.
Proof.
  intros []. unfold same_dinode, store_dinode. cbn [load_dinode i_type i_major i_minor i_nlink i_size i_addrs].
  assert (forall n a m l, a + Z.of_nat n <= o + 12 -> rd (wr_addrs m (o + 12) l) a n = rd m a n) as Hpre.
  { intros n a m l Ha. apply rd_ext. intros i Hi. apply rd8_wr_addrs. lia. }
  unfold rd16, rd32. rewrite !Hpre by lia. unfold wr32, wr16. split_and!.
  - rewrite !rd_wr_ne by lia. by apply rd16_wr16.
  - do 3 rewrite rd_wr_ne by lia. by apply rd16_wr16.
  - do 2 rewrite rd_wr_ne by lia. by apply rd16_wr16.
  - rewrite rd_wr_ne by lia. by apply rd16_wr16.
  - by apply rd32_wr32_eq.
  - apply list_eq. intros k. unfold rd_addrs. rewrite list_lookup_fmap. destruct (decide (k < 13)%nat) as [Hk|Hk].
    + rewrite lookup_seqZ_lt by lia. cbn. destruct (lookup_lt_is_Some_2 (i_addrs x) k) as [v Hv]; [lia|]. rewrite Hv. f_equal.
      apply rd32_wr_addrs; [done|].
      by apply (Forall_lookup_1 _ _ _ _ di_addrs0 Hv).
    + rewrite !lookup_ge_None_2; [done|lia|rewrite length_seqZ; lia].
Qed.
Lemma load_agree d d' o x0 : (forall a, o <= a < o + 64 -> rd8 d' a = rd8 d a) -> load_dinode d' o x0 = load_dinode d o x0.
Proof.
  intros He. unfold load_dinode, rd16, rd32. f_equal; try (f_equal; apply rd_ext; intros a Ha; apply He; lia).
  - apply rd_ext. intros a Ha. apply He. lia.
  - unfold rd_addrs. apply list_fmap_ext. intros i k Hk. apply lookup_seqZ in Hk as [-> Hi]. apply rd_ext. intros a Ha. apply He. lia.
Qed.

(** ** Files of the image *)

(** The image as the file system sees it before the first operation. *)
Definition tx_of (im : img) : tx := Tx (im_blk im) (im_blk im) [] [] 10 (fun b => ~ (2 <= b < 2 + nlog)).
Definition inode_at (im : img) (inum : Z) (x0 : inode) : inode :=
  load_dinode (im_blk im (IBLOCK inum mkfs_sb)) (dinode_off inum) x0.

(** Which place of which file a block belongs to; [MAXFILE] stands for the indirect block. *)
Abbreviation owners := (gmap Z (Z * Z)).

(** [x] is an inode for the contents [c] whose blocks reach up to byte [cap]. *)
Record inode_ok (im : img) (ow : owners) (inum : Z) (x : inode) (c : list Z) (cap : Z) : Prop := {
  io_len : length (i_addrs x) = 13%nat;
  io_cap : Z.of_nat (length c) <= cap <= MAXFILE * BSIZE;
  io_map : forall bn, in_file bn ->
    blockno (tx_of im) x bn = 0 /\ cap <= bn * BSIZE \/
    bn * BSIZE < cap /\ ow !! blockno (tx_of im) x bn = Some (inum, bn);
  io_ind : i_addr NDIRECT x = 0 /\ cap <= NDIRECT * BSIZE \/ ow !! i_addr NDIRECT x = Some (inum, MAXFILE);
  io_bytes : forall o, 0 <= o < MAXFILE * BSIZE -> fbyte (tx_of im) x o = default 0 (c !! Z.to_nat o);
}.

(** [x] is the complete inode of a file, with an indirect block only when needed. *)
Record file_ok (im : img) (ow : owners) (inum ty : Z) (c : list Z) (x : inode) : Prop := {
  fo_type : i_type x = ty;
  fo_nlink : i_nlink x = 1;
  fo_size : i_size x = Z.of_nat (length c);
  fo_ind : i_addr NDIRECT x = 0 <-> Z.of_nat (length c) <= NDIRECT * BSIZE;
  fo_ok : inode_ok im ow inum x c (Z.of_nat (length c));
}.
Lemma file_ok_frame im im' ow ow' inum ty c x :
  file_ok im ow inum ty c x ->
  (inode_ok im ow inum x c (Z.of_nat (length c)) -> inode_ok im' ow' inum x c (Z.of_nat (length c))) -> file_ok im' ow' inum ty c x.
Proof. intros [] Hf. split; [done..|]. by apply Hf. Qed.

(** The image with the files [fs], the [i]-th of which has the inode number [i + 1], but
    for the inode of the file [skip]. *)
Record img_but (skip : nat) (im : img) (ow : owners) (fs : list (Z * list Z)) : Prop := {
  ok_len : im_len im = FSSIZE;
  ok_inodes : freeinode im = Z.of_nat (length fs) + 1 /\ Z.of_nat (length fs) < NINODES;
  ok_next : nmeta <= freeblock im <= FSSIZE;
  ok_own : forall b p, ow !! b = Some p -> nmeta <= b < freeblock im;
  ok_zero : forall b i, freeblock im <= b -> rd8 (im_blk im b) i = 0;
  ok_files : forall i ty c x0, fs !! i = Some (ty, c) -> i <> skip ->
    file_ok im ow (Z.of_nat i + 1) ty c (inode_at im (Z.of_nat i + 1) x0);
  ok_bytes : forall i ty c, fs !! i = Some (ty, c) -> Forall (fun v => 0 <= v < 256) c;
  ok_sb : im_blk im 1 = sb_block mkfs_sb;
  ok_log : forall b i, 2 <= b < 2 + nlog -> rd8 (im_blk im b) i = 0;
}.

(** The constants of the layout. *)
Lemma nmeta_val : nmeta = 46.
Proof. done. Qed.
Lemma IBLOCK_val inum : 0 <= inum < 208 -> IBLOCK inum mkfs_sb = inum / 16 + 32 /\ 32 <= IBLOCK inum mkfs_sb < 45.
Proof.
  intros Hi. assert (0 <= inum / 16 < 13) by (split; [apply Z.div_pos; lia|apply Z.div_lt_upper_bound; lia]).
  assert (IBLOCK inum mkfs_sb = inum / 16 + 32) as E; [|lia]. unfold IBLOCK. change IPB with 16. change (sb_inodestart mkfs_sb) with 32.
  apply u32_small. lia.
Qed.

(** A file depends on its own blocks only. *)
Lemma blockno_ext im im' x bn :
  (i_addr NDIRECT x <> 0 -> forall i, rd8 (im_blk im' (i_addr NDIRECT x)) i = rd8 (im_blk im (i_addr NDIRECT x)) i) ->
  blockno (tx_of im') x bn = blockno (tx_of im) x bn.
Proof.
  intros He. unfold blockno. destruct (bn <? NDIRECT); [done|]. destruct (Z.eqb_spec (i_addr NDIRECT x) 0); [done|].
  unfold rd_slot, rd32. apply rd_ext. intros i Hi. cbn. by apply He.
Qed.
Lemma inode_ok_frame im im' ow ow' inum x c cap :
  inode_ok im ow inum x c cap ->
  (forall b p, ow !! b = Some (inum, p) -> ow' !! b = Some (inum, p) /\ forall i, rd8 (im_blk im' b) i = rd8 (im_blk im b) i) ->
  inode_ok im' ow' inum x c cap.
Proof.
  intros [Hl Hc Hm Hi Hb] Hf. assert (forall bn, blockno (tx_of im') x bn = blockno (tx_of im) x bn) as Hbn.
  { intros bn. apply blockno_ext. intros Hnz. destruct Hi as [[? _]|Hi]; [done|]. by apply (Hf _ _ Hi). }
  split; [done|done|..].
  - intros bn Hin. rewrite Hbn. destruct (Hm bn Hin) as [?|[? Ho]]; [by left|right]. split; [done|]. by apply Hf.
  - destruct Hi as [?|Hi]; [by left|right]. by apply Hf.
  - intros o Ho. rewrite <- Hb by done. unfold fbyte. rewrite Hbn. cbn.
    assert (in_file (o / BSIZE)) as Hin.
    { split; [apply Z.div_pos; [lia|done]|]. apply Z.div_lt_upper_bound; [done|]. lia. }
    destruct (Z.eqb_spec (blockno (tx_of im) x (o / BSIZE)) 0); [done|]. destruct (Hm _ Hin) as [[? _]|[_ Ho']]; [done|].
    by apply (Hf _ _ Ho').
Qed.

(** And on the fields of the inode that are on disk. *)
Lemma inode_ok_same im ow inum x y c cap :
  i_addrs y = i_addrs x -> inode_ok im ow inum x c cap -> inode_ok im ow inum y c cap.
Proof.
  intros E [Hl Hc Hm Hi Hb]. assert (forall k, i_addr k y = i_addr k x) as Ea by (intros k; unfold i_addr; by rewrite E).
  assert (forall bn, blockno (tx_of im) y bn = blockno (tx_of im) x bn) as Hbn by (intros bn; unfold blockno; by rewrite !Ea).
  split; [by rewrite E|done| |by rewrite Ea|].
  - intros bn Hin. rewrite Hbn. by apply Hm.
  - intros o Ho. unfold fbyte. rewrite Hbn. by apply Hb.
Qed.

(** What adding to the file [skip] may change: its own blocks, some of them new. *)
Record grows (inum : Z) (im im' : img) (ow ow' : owners) : Prop := {
  gr_len : im_len im' = im_len im;
  gr_inode : freeinode im' = freeinode im;
  gr_next : freeblock im <= freeblock im';
  gr_own : ow ⊆ ow';
  gr_new : forall b p, ow' !! b = Some p -> ow !! b = None -> freeblock im <= b < freeblock im' /\ p.1 = inum;
  gr_keep : forall b, (forall p, ow' !! b <> Some (inum, p)) -> im_blk im' b = im_blk im b;
}.

Lemma grows_refl inum im ow : grows inum im im ow ow.
Proof. split; [done|done|lia|done| |done]. intros b p H1 H2. by rewrite H2 in H1. Qed.
Lemma grows_trans inum im1 im2 im3 ow1 ow2 ow3 :
  grows inum im1 im2 ow1 ow2 -> grows inum im2 im3 ow2 ow3 -> grows inum im1 im3 ow1 ow3.
Proof.
  intros [A1 A2 A3 A4 A5 A6] [B1 B2 B3 B4 B5 B6]. split; [congruence|congruence|lia|by etrans|..].
  - intros b p H3 H1. destruct (ow2 !! b) as [q|] eqn:H2.
    + destruct (A5 b q H2 H1). pose proof (lookup_weaken _ _ _ _ H2 B4) as H3'. rewrite H3 in H3'. simplify_eq. split; [lia|done].
    + destruct (B5 b p H3 H2). split; [lia|done].
  - intros b Hb. rewrite B6 by done. apply A6. intros p Hp. apply (Hb p). by eapply lookup_weaken.
Qed.

Lemma img_but_grows skip im im' ow ow' fs :
  img_but skip im ow fs -> grows (Z.of_nat skip + 1) im im' ow ow' -> freeblock im' <= FSSIZE -> img_but skip im' ow' fs.
Proof.
  intros [Hl Hi Hn Ho Hz Hf Hby Hsb Hlog] [G1 G2 G3 G4 G5 G6] Hmax.
  assert (forall b p, ow' !! b = Some p -> nmeta <= b < freeblock im') as Ho'.
  { intros b p Hb. destruct (ow !! b) as [q|] eqn:E; [specialize (Ho b q E); lia|]. destruct (G5 b p Hb E). lia. }
  assert (forall b, b < nmeta \/ freeblock im' <= b -> im_blk im' b = im_blk im b) as Hkeep.
  { intros b Hb. apply G6. intros p Hp. specialize (Ho' b _ Hp). lia. }
  rewrite nmeta_val in *. split; [congruence|by rewrite G2|rewrite nmeta_val; lia|done|..].
  - intros b i Hb. rewrite Hkeep by lia. apply Hz. lia.
  - intros i ty c x0 Hi' Hne. assert (Z.of_nat i < Z.of_nat (length fs)) as Hil by (apply lookup_lt_Some in Hi'; lia).
    assert (inode_at im' (Z.of_nat i + 1) x0 = inode_at im (Z.of_nat i + 1) x0) as ->.
    { unfold inode_at. destruct (IBLOCK_val (Z.of_nat i + 1)) as [_ Hb]; [unfold NINODES in *; lia|]. by rewrite Hkeep by lia. }
    apply (file_ok_frame _ _ _ _ _ _ _ _ (Hf i ty c x0 Hi' Hne)). intros Hok. eapply inode_ok_frame; [exact Hok|].
    intros b p Hb. split; [by eapply lookup_weaken|]. intros k. rewrite G6; [done|]. intros q Hq.
    pose proof (lookup_weaken _ _ _ _ Hb G4) as Hb'. rewrite Hq in Hb'. injection Hb' as E _. lia.
  - done.
  - rewrite Hkeep by lia. done.
  - intros b i Hb. assert (b < 46) by (revert Hb; unfold nlog, LOGSIZE, MAXOPBLOCKS; lia). rewrite Hkeep by lia. by apply Hlog.
Qed.

(** ** How many blocks a file takes *)

Definition blocks_for (n : Z) : Z := (n + (BSIZE - 1)) / BSIZE + (if NDIRECT * BSIZE <? n then 1 else 0).

Lemma blocks_for_in fbn off : 0 <= fbn -> fbn * BSIZE < off <= (fbn + 1) * BSIZE -> blocks_for off = fbn + 1 + (if fbn <? NDIRECT then 0 else 1).
Proof.
  intros H0 Hr. unfold blocks_for. replace ((off + (BSIZE - 1)) / BSIZE) with (fbn + 1).
  - unfold BSIZE in *. change NDIRECT with 12. destruct (Z.ltb_spec (12 * 1024) off), (Z.ltb_spec fbn 12); lia.
  - apply (Z.div_unique_pos _ _ _ (off - fbn * BSIZE - 1)); unfold BSIZE in *; lia.
Qed.
Lemma blocks_for_mono n m : n <= m -> blocks_for n <= blocks_for m.
Proof.
  intros Hle. unfold blocks_for. assert ((n + (BSIZE - 1)) / BSIZE <= (m + (BSIZE - 1)) / BSIZE) by (apply Z.div_le_mono; [done|lia]).
  destruct (Z.ltb_spec (NDIRECT * BSIZE) n), (Z.ltb_spec (NDIRECT * BSIZE) m); lia.
Qed.
(** At a block boundary the next byte needs a new block, and the first indirect one
    needs two. *)
Lemma blocks_for_next fbn : 0 <= fbn -> blocks_for (fbn * BSIZE + 1) = blocks_for (fbn * BSIZE) + (if fbn =? NDIRECT then 2 else 1).
Proof.
  intros H0. rewrite (blocks_for_in fbn) by (unfold BSIZE; lia). destruct (Z.eqb_spec fbn 0) as [->|Hne]; [done|].
  rewrite (blocks_for_in (fbn - 1)) by (unfold BSIZE; lia). change NDIRECT with 12.
  destruct (Z.eqb_spec fbn 12), (Z.ltb_spec fbn 12), (Z.ltb_spec (fbn - 1) 12); lia.
Qed.
Lemma blocks_for_same fbn off off' :
  0 <= fbn -> fbn * BSIZE < off <= (fbn + 1) * BSIZE -> fbn * BSIZE < off' <= (fbn + 1) * BSIZE -> blocks_for off = blocks_for off'.
Proof. intros. rewrite !(blocks_for_in fbn) by done. done. Qed.

Fixpoint blocks_used (fs : list (Z * list Z)) : Z :=
  match fs with [] => 0 | (_, c) :: fs => blocks_for (Z.of_nat (length c)) + blocks_used fs end.
Lemma blocks_used_app fs gs : blocks_used (fs ++ gs) = blocks_used fs + blocks_used gs.
Proof. induction fs as [|[ty c] fs IH]; cbn [app blocks_used]; lia. Qed.
Lemma blocks_used_insert i fs ty c c' :
  fs !! i = Some (ty, c) ->
  blocks_used (<[i := (ty, c')]> fs) = blocks_used fs + blocks_for (Z.of_nat (length c')) - blocks_for (Z.of_nat (length c)).
Proof.
  revert i. induction fs as [|[ty0 c0] fs IH]; intros [|i] Hi; [done|done|cbn in Hi |- *; injection Hi as -> ->; lia|].
  change (<[S i := ?v]> (?x :: ?l)) with (x :: <[i := v]> l). cbn [blocks_used]. rewrite (IH i Hi). lia.
Qed.
Lemma blocks_used_nonneg fs : 0 <= blocks_used fs.
Proof.
  induction fs as [|[ty c] fs IH]; cbn [blocks_used]; [lia|]. pose proof (blocks_for_mono 0 (Z.of_nat (length c)) ltac:(lia)) as H.
  change (blocks_for 0) with 0 in H. lia.
Qed.

(** ** Adding a block to a file *)

Lemma i_addr_set_eq k v x : length (i_addrs x) = 13%nat -> 0 <= k < 13 -> i_addr k (i_set_addr k v x) = v.
Proof. intros Hl Hk. unfold i_addr, i_set_addr. cbn. apply list_lookup_total_insert_eq. lia. Qed.
Lemma i_addr_set_ne k k' v x : 0 <= k -> 0 <= k' -> k <> k' -> i_addr k' (i_set_addr k v x) = i_addr k' x.
Proof. intros Hk Hk' Hne. unfold i_addr, i_set_addr. cbn. apply list_lookup_total_insert_ne. lia. Qed.

Lemma new_freeblock_spec im (Q : Z -> img -> Prop) :
  freeblock im < 2 ^ 31 -> 0 <= freeblock im -> Q (freeblock im) (im <| freeblock := freeblock im + 1 |>) -> wp new_freeblock Q im.
Proof.
  intros Hf Hp HQ. unfold new_freeblock. wp_step. wp_step. wp_step. wp_step. wp_step. by rewrite u32_small by lia.
Qed.
Lemma rsect_spec im sec (Q : block -> img -> Prop) : sec < im_len im -> Q (im_blk im sec) im -> wp (rsect sec) Q im.
Proof.
  intros Hlt HQ. unfold rsect. wp_step. wp_step. unfold id. rewrite (proj2 (Z.ltb_lt sec (im_len im))) by done. by wp_step.
Qed.

(** [iappend] about to add at byte [off], the end of the file, in its block [fbn]. *)
Record adding (im : img) (ow : owners) (inum : Z) (x : inode) (c : list Z) (off fbn : Z) : Prop := {
  ad_ok : inode_ok im ow inum x c off;
  ad_off : off = Z.of_nat (length c);
  ad_fbn : fbn = off / BSIZE;
  ad_max : fbn < MAXFILE;
  ad_len : im_len im = FSSIZE;
  ad_next : nmeta <= freeblock im <= FSSIZE;
  ad_own : forall b p, ow !! b = Some p -> nmeta <= b < freeblock im;
  ad_zero : forall b i, freeblock im <= b -> rd8 (im_blk im b) i = 0;
}.

Lemma adding_block im ow inum x c off fbn : adding im ow inum x c off fbn -> 0 <= fbn /\ fbn * BSIZE <= off < (fbn + 1) * BSIZE.
Proof.
  intros [_ -> -> _ _ _ _ _]. pose proof (Z.div_mod (Z.of_nat (length c)) BSIZE ltac:(done)).
  pose proof (Z.mod_pos_bound (Z.of_nat (length c)) BSIZE BSIZE_pos). split; [apply Z.div_pos; [lia|done]|]. lia.
Qed.
(** No block yet means that the file ends at a block boundary. *)
Lemma adding_boundary im ow inum x c off fbn :
  adding im ow inum x c off fbn -> blockno (tx_of im) x fbn = 0 -> off = fbn * BSIZE.
Proof.
  intros Ha E. pose proof (adding_block _ _ _ _ _ _ _ Ha). pose proof (ad_max _ _ _ _ _ _ _ Ha).
  destruct (io_map _ _ _ _ _ _ (ad_ok _ _ _ _ _ _ _ Ha) fbn) as [[_ Hle]|[_ Ho]]; [split; lia|lia|].
  rewrite E in Ho. apply (ad_own _ _ _ _ _ _ _ Ha) in Ho. rewrite nmeta_val in Ho. lia.
Qed.

(** The file with a new, zeroed block in the place [fbn]. *)
Lemma adding_place im im' ow inum x x' c off fbn fb :
  adding im ow inum x c off fbn -> blockno (tx_of im) x fbn = 0 -> freeblock im <= fb ->
  length (i_addrs x') = 13%nat ->
  (forall bn, in_file bn -> bn <> fbn -> blockno (tx_of im') x' bn = blockno (tx_of im) x bn) ->
  blockno (tx_of im') x' fbn = fb ->
  i_addr NDIRECT x' = 0 /\ off + 1 <= NDIRECT * BSIZE \/ <[fb := (inum, fbn)]> ow !! i_addr NDIRECT x' = Some (inum, MAXFILE) ->
  (forall b p, ow !! b = Some (inum, p) -> p < MAXFILE -> im_blk im' b = im_blk im b) ->
  (forall i, rd8 (im_blk im' fb) i = 0) ->
  inode_ok im' (<[fb := (inum, fbn)]> ow) inum x' c (off + 1).
Proof.
  intros Ha E0 Hfb Hl Hmap Hfbn Hind Hkeep Hzero. pose proof (adding_block _ _ _ _ _ _ _ Ha) as Hb.
  pose proof (adding_boundary _ _ _ _ _ _ _ Ha E0) as Eoff. destruct Ha as [Hok Hoff _ Hmax _ Hnext Hown _].
  destruct Hok as [_ Hcap Hm _ Hby]. assert (0 < fb) by (rewrite nmeta_val in Hnext; lia).
  assert (forall b p, ow !! b = Some p -> <[fb := (inum, fbn)]> ow !! b = Some p) as Hwk.
  { intros b p Hbp. rewrite lookup_insert_ne; [done|]. specialize (Hown _ _ Hbp). lia. }
  split; [done| | |done|].
  - rewrite <- Hoff. assert ((fbn + 1) * BSIZE <= MAXFILE * BSIZE) by (apply Z.mul_le_mono_nonneg_r; [done|lia]). lia.
  - intros bn Hin. destruct (decide (bn = fbn)) as [->|Hne].
    + right. split; [lia|]. by rewrite Hfbn, lookup_insert_eq.
    + rewrite Hmap by done. destruct (Hm bn Hin) as [[-> Hle]|[Hlt Ho]]; [left|right]; (split; [|]); try done; [|lia|by apply Hwk].
      assert (fbn < bn) by (assert (fbn * BSIZE <= bn * BSIZE) as Hle' by lia; apply Z.mul_le_mono_pos_r in Hle'; [lia|done]).
      assert ((fbn + 1) * BSIZE <= bn * BSIZE) by (apply Z.mul_le_mono_nonneg_r; [done|lia]). lia.
  - intros o Ho. assert (in_file (o / BSIZE)) as Hin.
    { split; [apply Z.div_pos; [lia|done]|]. apply Z.div_lt_upper_bound; [done|]. lia. }
    unfold fbyte. destruct (decide (o / BSIZE = fbn)) as [E|Hne].
    + rewrite E, Hfbn, (proj2 (Z.eqb_neq fb 0)) by lia. cbn. rewrite Hzero, lookup_ge_None_2; [done|].
      pose proof (Z.mul_div_le o BSIZE BSIZE_pos). rewrite E in *. lia.
    + rewrite Hmap, <- Hby by done. unfold fbyte. destruct (Z.eqb_spec (blockno (tx_of im) x (o / BSIZE)) 0); [done|].
      destruct (Hm _ Hin) as [[? _]|[_ Ho']]; [done|]. cbn. rewrite (Hkeep _ _ Ho'); [done|apply Hin].
Qed.

(** The place has a block already. *)
Lemma adding_present im ow inum x c off fbn :
  adding im ow inum x c off fbn -> blockno (tx_of im) x fbn <> 0 -> inode_ok im ow inum x c (off + 1).
Proof.
  intros Ha Hnz. pose proof (adding_block _ _ _ _ _ _ _ Ha) as Hb. destruct Ha as [[Hl Hcap Hm Hind Hby] Hoff _ Hmax _ _ _ _].
  assert (forall bn, bn * BSIZE = off -> bn = fbn) as Hbn.
  { intros bn E. assert (fbn * BSIZE <= bn * BSIZE < (fbn + 1) * BSIZE) as [H1 H2] by lia.
    apply Z.mul_le_mono_pos_r in H1; [|done]. apply Z.mul_lt_mono_pos_r in H2; [|done]. lia. }
  split; [done| | | |done].
  - assert ((fbn + 1) * BSIZE <= MAXFILE * BSIZE) by (apply Z.mul_le_mono_nonneg_r; [done|lia]). lia.
  - intros bn Hin. destruct (Hm bn Hin) as [[E Hle]|[Hlt Ho]]; [left|right]; (split; [|]); try done; [|lia].
    destruct (decide (bn = fbn)) as [->|Hne]; [done|]. specialize (Hbn bn). lia.
  - destruct Hind as [[E Hle]|?]; [left|by right]. split; [done|]. specialize (Hbn NDIRECT).
    destruct (decide (NDIRECT = fbn)) as [<-|]; [|lia]. destruct Hnz. unfold blockno. rewrite Z.ltb_irrefl. by rewrite E.
Qed.

(** Only the map of the inode changes. *)
Record same_head (x x' : inode) : Prop := {
  sm_fields : i_type x' = i_type x /\ i_major x' = i_major x /\ i_minor x' = i_minor x /\ i_nlink x' = i_nlink x /\ i_size x' = i_size x;
  sm_ok : dinode_ok x -> dinode_ok x';
}.
Lemma same_head_refl x : same_head x x.
Proof. by split. Qed.
Lemma same_head_addr k v x : 0 <= v < 2 ^ 32 -> same_head x (i_set_addr k v x).
Proof.
  intros Hv. split; [done|]. intros []. split; try done; cbn; [by apply Forall_insert|by rewrite length_insert].
Qed.
Lemma same_head_trans x y z : same_head x y -> same_head y z -> same_head x z.
Proof. intros [(? & ? & ? & ? & ?) ?] [(? & ? & ? & ? & ?) ?]. split; [split_and!; congruence|auto]. Qed.

(** Taking the next free block for [inum]. *)
Definition took (im : img) : img := im <| freeblock := freeblock im + 1 |>.
Lemma grows_took im ow inum p :
  (forall b q, ow !! b = Some q -> nmeta <= b < freeblock im) ->
  grows inum im (took im) ow (<[freeblock im := (inum, p)]> ow).
Proof.
  intros Hown. assert (ow !! freeblock im = None) as Hn by (destruct (ow !! freeblock im) eqn:E; [specialize (Hown _ _ E); lia|done]).
  split; cbn; try done; [lia|by apply insert_subseteq|]. intros b q Hb Hnb. destruct (decide (b = freeblock im)) as [->|Hne].
  - rewrite lookup_insert_eq in Hb. simplify_eq. split; [lia|done].
  - rewrite lookup_insert_ne in Hb by done. by rewrite Hb in Hnb.
Qed.

(** What [iappend_block] establishes. *)
Definition block_post (im : img) (ow : owners) (inum : Z) (x : inode) (c : list Z) (off fbn k : Z) '((x', b) : inode * Z) (im' : img) : Prop :=
  exists ow', grows inum im im' ow ow' /\ inode_ok im' ow' inum x' c (off + 1) /\ b = blockno (tx_of im') x' fbn /\ same_head x x' /\
    freeblock im' = freeblock im + k /\ (i_addr NDIRECT x' = 0 <-> off + 1 <= NDIRECT * BSIZE).

(** The number of blocks that [iappend_block] takes. *)
Definition new_blocks (off : Z) : Z := blocks_for (off + 1) - blocks_for off.
Lemma adding_blocks im ow inum x c off fbn :
  adding im ow inum x c off fbn ->
  new_blocks off = if blockno (tx_of im) x fbn =? 0 then (if fbn =? NDIRECT then 2 else 1) else 0.
Proof.
  intros Ha. pose proof (adding_block _ _ _ _ _ _ _ Ha) as [Hb0 Hb]. unfold new_blocks.
  destruct (Z.eqb_spec (blockno (tx_of im) x fbn) 0) as [E|E].
  - rewrite (adding_boundary _ _ _ _ _ _ _ Ha E), blocks_for_next by done. lia.
  - destruct (io_map _ _ _ _ _ _ (ad_ok _ _ _ _ _ _ _ Ha) fbn) as [[? _]|[Hlt _]]; [split; [done|apply Ha]|done|].
    rewrite (blocks_for_same fbn (off + 1) off) by lia. lia.
Qed.

Lemma iappend_direct im ow inum x c off fbn :
  adding im ow inum x c off fbn -> fbn < NDIRECT -> i_addr NDIRECT x = 0 -> wp (iappend_block x fbn) (block_post im ow inum x c off fbn (new_blocks off)) im.
Proof.
  intros Ha Hd Hia. pose proof (adding_block _ _ _ _ _ _ _ Ha) as [Hb0 Hb1]. pose proof (ad_next _ _ _ _ _ _ _ Ha) as Hnext. rewrite nmeta_val in Hnext. unfold FSSIZE in Hnext.
  assert (forall im' y, blockno (tx_of im') y fbn = i_addr fbn y) as Ebn by (intros im' y; unfold blockno; by rewrite (proj2 (Z.ltb_lt fbn NDIRECT))).
  assert (off + 1 <= NDIRECT * BSIZE) as Hoff by (assert ((fbn + 1) * BSIZE <= NDIRECT * BSIZE) by (apply Z.mul_le_mono_nonneg_r; [done|lia]); lia).
  pose proof (adding_blocks _ _ _ _ _ _ _ Ha) as Hk. rewrite Ebn, (proj2 (Z.eqb_neq fbn NDIRECT)) in Hk by lia.
  unfold iappend_block. rewrite (proj2 (Z.ltb_lt fbn NDIRECT)) by done. pose proof (ad_ok _ _ _ _ _ _ _ Ha) as Hok.
  apply wp_bind. destruct (Z.eqb_spec (i_addr fbn x) 0) as [E|E]; rewrite Hk.
  - wp_step. apply new_freeblock_spec; [lia|lia|]. wp_step. wp_step.
    pose proof (io_len _ _ _ _ _ _ Hok) as Hl. assert (NDIRECT = 12) as E12 by done.
    exists (<[freeblock im := (inum, fbn)]> ow).
    split_and!; [| |by rewrite Ebn|apply same_head_addr; lia|reflexivity|by rewrite i_addr_set_ne by lia].
    + apply grows_took, Ha.
    + apply (adding_place im _ _ _ x); try done; [by rewrite Ebn|cbn; by rewrite length_insert| |by rewrite Ebn, i_addr_set_eq by (done || lia)| |].
      * intros bn [Hin _] Hne. unfold blockno. rewrite !i_addr_set_ne by lia. done.
      * rewrite i_addr_set_ne by lia. by left.
      * intros i. by apply (ad_zero _ _ _ _ _ _ _ Ha).
  - wp_step. wp_step. exists ow. split_and!; [apply grows_refl|apply (adding_present _ _ _ _ _ _ fbn); [done|by rewrite Ebn]|by rewrite Ebn|apply same_head_refl|lia|done].
Qed.

(** The file with an indirect block, before it has entries. *)
Lemma adding_indirect im ow inum x c off fbn :
  adding im ow inum x c off fbn -> freeblock im + 1 <= FSSIZE -> i_addr NDIRECT x = 0 ->
  adding (took im) (<[freeblock im := (inum, MAXFILE)]> ow) inum (i_set_addr NDIRECT (freeblock im) x) c off fbn /\
  forall bn, blockno (tx_of (took im)) (i_set_addr NDIRECT (freeblock im) x) bn = blockno (tx_of im) x bn \/ bn < 0.
Proof.
  intros [[Hl Hcap Hm Hind Hby] Hoff Hfbn Hmax Hlen Hnext Hown Hzero] Hfs E. rewrite nmeta_val in *. assert (NDIRECT = 12) as E12 by done.
  assert (forall bn, blockno (tx_of (took im)) (i_set_addr NDIRECT (freeblock im) x) bn = blockno (tx_of im) x bn \/ bn < 0) as Hbn.
  { intros bn. destruct (decide (bn < 0)) as [|Hpos]; [by right|left]. unfold blockno. rewrite i_addr_set_eq by (done || lia).
    destruct (Z.ltb_spec bn NDIRECT); [by rewrite i_addr_set_ne by lia|]. rewrite E, (proj2 (Z.eqb_neq (freeblock im) 0)) by lia. cbn [Z.eqb].
    unfold rd_slot. apply rd_zero. intros i _. cbn. by apply Hzero. }
  split; [|done]. split; [|done|done|done|done|rewrite nmeta_val; cbn; lia|..].
  - split; [cbn; by rewrite length_insert|done|..].
    + intros bn Hin. destruct (Hbn bn) as [->|?]; [|destruct Hin; lia]. destruct (Hm bn Hin) as [?|[? Ho]]; [by left|right]. split; [done|].
      rewrite lookup_insert_ne; [done|]. apply Hown in Ho. lia.
    + right. by rewrite i_addr_set_eq, lookup_insert_eq by (done || lia).
    + intros o Ho. rewrite <- Hby by done. unfold fbyte. destruct (Hbn (o / BSIZE)) as [->|?]; [done|].
      assert (0 <= o / BSIZE) by (apply Z.div_pos; [lia|done]). lia.
  - intros b p Hb. cbn. rewrite nmeta_val. destruct (decide (b = freeblock im)) as [->|Hne]; [lia|]. rewrite lookup_insert_ne in Hb by done.
    apply Hown in Hb. lia.
  - intros b i Hb. cbn in Hb |- *. apply Hzero. lia.
Qed.

(** Writing an entry of the indirect block. *)
Definition set_slot (ib k v : Z) (im : img) : img :=
  im <| im_blk := fun b => if b =? ib then wr32 (im_blk im ib) (4 * k) v else im_blk im b |> <| im_len := Z.max (im_len im) (ib + 1) |>.

Lemma slot_ok im ow inum x c off fbn :
  adding im ow inum x c off fbn -> NDIRECT <= fbn -> ow !! i_addr NDIRECT x = Some (inum, MAXFILE) -> blockno (tx_of im) x fbn = 0 ->
  let im' := set_slot (i_addr NDIRECT x) (fbn - NDIRECT) (freeblock im) (took im) in
  blockno (tx_of im') x fbn = freeblock im /\ inode_ok im' (<[freeblock im := (inum, fbn)]> ow) inum x c (off + 1).
Proof.
  intros Ha Hge Hib E. pose proof (ad_own _ _ _ _ _ _ _ Ha _ _ Hib) as Hibr. pose proof (ad_next _ _ _ _ _ _ _ Ha) as Hn.
  rewrite nmeta_val in *. unfold FSSIZE in Hn. set (ib := i_addr NDIRECT x) in *. cbv zeta. set (im' := set_slot ib (fbn - NDIRECT) (freeblock im) (took im)).
  assert (forall bn, in_file bn -> blockno (tx_of im') x bn = if decide (bn = fbn) then freeblock im else blockno (tx_of im) x bn) as Hmap.
  { intros bn Hin. unfold blockno. fold ib. rewrite (proj2 (Z.eqb_neq ib 0)) by lia. destruct (Z.ltb_spec bn NDIRECT); [by rewrite decide_False by lia|].
    unfold rd_slot. cbn. rewrite Z.eqb_refl. destruct (decide (bn = fbn)) as [->|]; [apply rd32_wr32_eq; lia|apply rd32_wr32_ne; lia]. }
  assert (in_file fbn) as Hin by (split; [|apply Ha]; assert (NDIRECT = 12) by done; lia).
  assert (blockno (tx_of im') x fbn = freeblock im) as Efb by (rewrite Hmap by done; by rewrite decide_True).
  split; [done|]. apply (adding_place im _ _ _ x); try done.
  - apply (io_len _ _ _ _ _ _ (ad_ok _ _ _ _ _ _ _ Ha)).
  - intros bn Hbn Hne. rewrite Hmap by done. by rewrite decide_False.
  - right. fold ib. rewrite lookup_insert_ne by lia. done.
  - intros b p Hb Hp. unfold im'. cbn. destruct (Z.eqb_spec b ib) as [->|]; [|done]. rewrite Hb in Hib. simplify_eq. lia.
  - intros i. unfold im'. cbn. rewrite (proj2 (Z.eqb_neq _ _)) by lia. apply Ha. lia.
Qed.

Lemma grows_slot im ow inum ib k v p :
  ow !! ib = Some (inum, p) -> ib < im_len im -> grows inum im (set_slot ib k v im) ow ow.
Proof.
  intros Hib Hlt. split; cbn; try done; [lia|by intros b q -> |]. intros b Hb. destruct (Z.eqb_spec b ib) as [->|]; [|done]. by destruct (Hb p).
Qed.

(** [iappend_block] beyond the direct blocks, once there is an indirect block. *)
Lemma iappend_slot im ow inum x c off fbn :
  adding im ow inum x c off fbn -> NDIRECT <= fbn -> ow !! i_addr NDIRECT x = Some (inum, MAXFILE) ->
  wp (indirect <- rsect (i_addr NDIRECT x) ;;
        indirect <- (if rd_slot indirect (fbn - NDIRECT) =? 0 then
                       b <- new_freeblock ;;
                       let indirect := wr32 indirect (4 * (fbn - NDIRECT)) b in
                       wsect (i_addr NDIRECT x) indirect ;;;
                       ret indirect
                     else ret indirect) ;;
        ret (x, rd_slot indirect (fbn - NDIRECT)))
    (block_post im ow inum x c off fbn (if blockno (tx_of im) x fbn =? 0 then 1 else 0)) im.
Proof.
  intros Ha Hge Hib. pose proof (ad_own _ _ _ _ _ _ _ Ha _ _ Hib) as Hibr. pose proof (ad_next _ _ _ _ _ _ _ Ha) as Hn.
  pose proof (ad_len _ _ _ _ _ _ _ Ha) as Hlen. pose proof (adding_block _ _ _ _ _ _ _ Ha) as [_ [Hb1 _]].
  rewrite nmeta_val in *. unfold FSSIZE in Hn, Hlen. wp_step. apply rsect_spec; [lia|]. apply wp_bind.
  assert (forall im', blockno (tx_of im') x fbn = rd_slot (im_blk im' (i_addr NDIRECT x)) (fbn - NDIRECT)) as Ebn.
  { intros im'. unfold blockno. rewrite (proj2 (Z.ltb_ge fbn NDIRECT)), (proj2 (Z.eqb_neq _ 0)) by lia. done. }
  assert (i_addr NDIRECT x = 0 <-> off + 1 <= NDIRECT * BSIZE) as Hind.
  { assert (NDIRECT * BSIZE <= fbn * BSIZE) by (apply Z.mul_le_mono_nonneg_r; done). lia. }
  rewrite (Ebn im). destruct (Z.eqb_spec (rd_slot (im_blk im (i_addr NDIRECT x)) (fbn - NDIRECT)) 0) as [E|E].
  - rewrite <- Ebn in E. destruct (slot_ok _ _ _ _ _ _ _ Ha Hge Hib E) as [Efb Hok]. wp_step. apply new_freeblock_spec; [lia|lia|].
    unfold wsect. do 4 wp_step. rewrite Ebn in Efb. cbn in Efb. rewrite Z.eqb_refl in Efb. rewrite Efb.
    exists (<[freeblock im := (inum, fbn)]> ow). split_and!; [|done|rewrite Ebn; cbn; by rewrite Z.eqb_refl, Efb|apply same_head_refl|done|exact Hind].
    eapply grows_trans; [apply (grows_took im ow inum fbn (ad_own _ _ _ _ _ _ _ Ha))|].
    apply (grows_slot (took im) _ inum (i_addr NDIRECT x) (fbn - NDIRECT) (freeblock im) MAXFILE); [|cbn; lia]. rewrite lookup_insert_ne by lia. done.
  - wp_step. wp_step. exists ow.
    split_and!; [apply grows_refl| |by rewrite Ebn|apply same_head_refl|lia|exact Hind]. apply (adding_present _ _ _ _ _ _ fbn); [done|by rewrite Ebn].
Qed.

Lemma iappend_block_spec im ow inum x c off fbn :
  adding im ow inum x c off fbn -> (i_addr NDIRECT x = 0 <-> off <= NDIRECT * BSIZE) -> freeblock im + new_blocks off <= FSSIZE ->
  wp (iappend_block x fbn) (block_post im ow inum x c off fbn (new_blocks off)) im.
Proof.
  intros Ha Hi Hroom. pose proof (adding_block _ _ _ _ _ _ _ Ha) as [Hb0 Hb1]. destruct (Z.lt_ge_cases fbn NDIRECT) as [Hd|Hge].
  { apply iappend_direct; [done..|]. apply Hi. assert ((fbn + 1) * BSIZE <= NDIRECT * BSIZE) by (apply Z.mul_le_mono_nonneg_r; [done|lia]). lia. }
  pose proof (ad_next _ _ _ _ _ _ _ Ha) as Hn. rewrite nmeta_val in Hn. unfold FSSIZE in Hn, Hroom.
  pose proof (adding_blocks _ _ _ _ _ _ _ Ha) as Hk. assert (NDIRECT * BSIZE <= fbn * BSIZE) as Hmul by (apply Z.mul_le_mono_nonneg_r; done).
  unfold iappend_block. rewrite (proj2 (Z.ltb_ge fbn NDIRECT)) by lia. apply wp_bind. destruct (Z.eqb_spec (i_addr NDIRECT x) 0) as [E|E].
  - apply Hi in E as Hle. assert (fbn = NDIRECT) as Efb by (assert (off = NDIRECT * BSIZE) by lia; unfold BSIZE in *; lia).
    assert (blockno (tx_of im) x fbn = 0) as E0 by (unfold blockno; rewrite (proj2 (Z.ltb_ge fbn NDIRECT)), E by lia; done).
    rewrite E0, Efb in Hk. change (new_blocks off = 2) in Hk. rewrite Hk in Hroom |- *.
    destruct (adding_indirect _ _ _ _ _ _ _ Ha ltac:(unfold FSSIZE; lia) E) as [Ha' Hbn]. assert (NDIRECT = 12) as E12 by done.
    pose proof (io_len _ _ _ _ _ _ (ad_ok _ _ _ _ _ _ _ Ha)) as Hl.
    wp_step. apply new_freeblock_spec; [lia|lia|]. wp_step.
    eapply wp_mono; [apply (iappend_slot _ _ _ _ _ _ _ Ha' Hge); by rewrite i_addr_set_eq, lookup_insert_eq by (done || lia)|].
    intros [x' b] im' (ow' & Hg & Hok & Eb & Hsm & Hfb & Hi'). exists ow'. split_and!; [|done|done| | |exact Hi'].
    + eapply grows_trans; [apply (grows_took im ow inum MAXFILE (ad_own _ _ _ _ _ _ _ Ha))|done].
    + eapply same_head_trans; [|done]. apply same_head_addr. lia.
    + rewrite Hfb. destruct (Hbn fbn) as [->|?]; [|lia]. rewrite E0. cbn. lia.
  - assert (NDIRECT < fbn \/ blockno (tx_of im) x fbn <> 0) as Hcase.
    { destruct (Z.eq_dec fbn NDIRECT) as [Ef|]; [right|left; lia]. intros E0. apply E, Hi.
      rewrite (adding_boundary _ _ _ _ _ _ _ Ha E0), Ef. done. }
    wp_step. destruct (io_ind _ _ _ _ _ _ (ad_ok _ _ _ _ _ _ _ Ha)) as [[? _]|Hib]; [done|]. rewrite Hk.
    eapply wp_mono; [apply (iappend_slot _ _ _ _ _ _ _ Ha Hge Hib)|]. intros [x' b] im' (ow' & Hg & Hok & Eb & Hsm & Hfb & Hi').
    exists ow'. split_and!; [done..| |exact Hi']. rewrite Hfb. destruct (Z.eqb_spec (blockno (tx_of im) x fbn) 0); [|done].
    rewrite (proj2 (Z.eqb_neq fbn NDIRECT)); [done|]. destruct Hcase; [lia|done].
Qed.

(** Storing bytes at the end of the file, within its last block. *)
Definition put_block (b : Z) (d : block) (im : img) : img :=
  im <| im_blk := fun k => if k =? b then d else im_blk im k |> <| im_len := Z.max (im_len im) (b + 1) |>.

Lemma grows_put im ow inum b d p : ow !! b = Some (inum, p) -> b < im_len im -> grows inum im (put_block b d im) ow ow.
Proof.
  intros Hb Hlt. split; cbn; try done; [lia|by intros k q -> |]. intros k Hk. destruct (Z.eqb_spec k b) as [->|]; [|done]. by destruct (Hk p).
Qed.

Lemma store_ok im ow inum x c off fbn l :
  inode_ok im ow inum x c (off + 1) -> off = Z.of_nat (length c) -> fbn = off / BSIZE -> fbn < MAXFILE ->
  (forall b p, ow !! b = Some p -> 0 < b) ->
  Forall (fun v => 0 <= v < 256) l -> 1 <= Z.of_nat (length l) <= (fbn + 1) * BSIZE - off ->
  let b := blockno (tx_of im) x fbn in
  ow !! b = Some (inum, fbn) /\
  inode_ok (put_block b (blk_store (im_blk im b) (off - fbn * BSIZE) l) im) ow inum x (c ++ l) (off + Z.of_nat (length l)).
Proof.
  intros [Hl Hcap Hm Hind Hby] Hoff Hfbn Hmax Hpos Hbl Hlen b. pose proof BSIZE_pos as HB.
  assert (0 <= fbn /\ fbn * BSIZE <= off < (fbn + 1) * BSIZE) as (Hf0 & Hfo).
  { pose proof (Z.div_mod off BSIZE ltac:(done)). pose proof (Z.mod_pos_bound off BSIZE HB). rewrite Hfbn. split; [apply Z.div_pos; lia|lia]. }
  assert (ow !! b = Some (inum, fbn)) as Hb. { destruct (Hm fbn) as [[_ ?]|[_ Ho]]; [split; lia|lia|done]. }
  assert (forall bn, in_file bn -> blockno (tx_of im) x bn = b -> bn = fbn) as Hinj.
  { intros bn Hin E. destruct (Hm bn Hin) as [[E0 _]|[_ Ho]]; [rewrite E in E0; specialize (Hpos _ _ Hb); lia|]. rewrite E, Hb in Ho. by simplify_eq. }
  set (im' := put_block b (blk_store (im_blk im b) (off - fbn * BSIZE) l) im). split; [done|].
  assert (forall bn, blockno (tx_of im') x bn = blockno (tx_of im) x bn) as Hbn.
  { intros bn. apply blockno_ext. intros Hnz i. unfold im'. cbn. destruct (Z.eqb_spec (i_addr NDIRECT x) b) as [E|]; [|done].
    destruct Hind as [[? _]|Ho]; [done|]. rewrite E, Hb in Ho. simplify_eq. lia. }
  assert (forall bn, bn * BSIZE < off + 1 <-> bn * BSIZE < off + Z.of_nat (length l)) as Hedge.
  { intros bn. split; [lia|]. intros Hlt. assert (bn * BSIZE < (fbn + 1) * BSIZE) as Hlt' by lia.
    apply Z.mul_lt_mono_pos_r in Hlt'; [|done]. assert (bn * BSIZE <= fbn * BSIZE) by (apply Z.mul_le_mono_nonneg_r; lia). lia. }
  split; [done| | | |].
  - rewrite length_app. assert ((fbn + 1) * BSIZE <= MAXFILE * BSIZE) by (apply Z.mul_le_mono_nonneg_r; lia). lia.
  - intros bn Hin. rewrite Hbn. pose proof (Hedge bn). destruct (Hm bn Hin) as [[? ?]|[? ?]]; [left|right]; (split; [done || lia|done || lia]).
  - pose proof (Hedge NDIRECT). destruct Hind as [[? ?]|?]; [left; split; [done|lia]|by right].
  - intros o Ho. assert (in_file (o / BSIZE)) as Hin.
    { split; [apply Z.div_pos; lia|]. apply Z.div_lt_upper_bound; [done|]. lia. }
    pose proof (Z.div_mod o BSIZE ltac:(done)) as Hdm. pose proof (Z.mod_pos_bound o BSIZE HB) as Hmod.
    unfold fbyte. rewrite Hbn. specialize (Hby o Ho). unfold fbyte in Hby. destruct (decide (o / BSIZE = fbn)) as [E|E].
    + rewrite E in *. fold b in Hby |- *. rewrite (proj2 (Z.eqb_neq b 0)) in * by (specialize (Hpos _ _ Hb); lia).
      unfold im'. cbn. rewrite Z.eqb_refl, rd8_blk_store. destruct (decide _) as [Hin'|Hout].
      * rewrite lookup_app_r by lia. replace (Z.to_nat o - length c)%nat with (Z.to_nat (o mod BSIZE - (off - fbn * BSIZE))) by lia.
        destruct (lookup_lt_is_Some_2 l (Z.to_nat (o mod BSIZE - (off - fbn * BSIZE)))) as [v Hv]; [lia|].
        rewrite Hv, (list_lookup_total_correct _ _ _ Hv). cbn. apply u8_small. by apply (Forall_lookup_1 _ _ _ _ Hbl Hv).
      * cbn in Hby. rewrite Hby. destruct (Z.lt_ge_cases o off); [by rewrite lookup_app_l by lia|].
        rewrite !lookup_ge_None_2; [done|rewrite length_app; lia|lia].
    + replace (c ++ l) with (c ++ l) by done. unfold im'. cbn. destruct (Z.eqb_spec (blockno (tx_of im) x (o / BSIZE)) b) as [Eb|Eb].
      { by destruct E; apply Hinj. }
      cbn in Hby. rewrite Hby. assert (o < off \/ off + Z.of_nat (length l) <= o) as [?|?].
      { destruct (Z.lt_ge_cases (o / BSIZE) fbn) as [Hlt|Hge].
        - left. assert ((o / BSIZE + 1) * BSIZE <= fbn * BSIZE) by (apply Z.mul_le_mono_nonneg_r; lia). lia.
        - right. assert ((fbn + 1) * BSIZE <= o / BSIZE * BSIZE) by (apply Z.mul_le_mono_nonneg_r; lia). lia. }
      * by rewrite lookup_app_l by lia.
      * rewrite !lookup_ge_None_2; [done|rewrite length_app; lia|lia].
Qed.

(** ** Writing inodes *)

Lemma dinode_apart i j : 0 <= i -> 0 <= j -> i <> j ->
  IBLOCK i mkfs_sb = IBLOCK j mkfs_sb -> i < 208 -> j < 208 -> dinode_off i + 64 <= dinode_off j \/ dinode_off j + 64 <= dinode_off i.
Proof.
  intros Hi Hj Hne E Hi' Hj'. destruct (IBLOCK_val i) as [Ei _]; [lia|]. destruct (IBLOCK_val j) as [Ej _]; [lia|]. rewrite Ei, Ej in E.
  unfold dinode_off. change IPB with 16. change sizeof_dinode with 64.
  pose proof (Z.div_mod i 16 ltac:(lia)). pose proof (Z.div_mod j 16 ltac:(lia)). lia.
Qed.

(** Writing the inode of the file [i] leaves the other files alone. *)
Lemma winode_but i im ow fs x :
  img_but i im ow fs -> (i < length fs)%nat -> dinode_ok x ->
  let b := IBLOCK (Z.of_nat i + 1) mkfs_sb in
  let im' := put_block b (store_dinode x (dinode_off (Z.of_nat i + 1)) (im_blk im b)) im in
  img_but i im' ow fs /\ (forall x0, same_dinode (inode_at im' (Z.of_nat i + 1) x0) x) /\
  forall j y c cap, inode_ok im ow j y c cap -> inode_ok im' ow j y c cap.
Proof.
  intros [Hl [Hi Hi'] Hn Ho Hz Hf Hby Hsb Hlog] Hil Hx b. unfold NINODES in Hi'.
  destruct (IBLOCK_val (Z.of_nat i + 1)) as [_ Hb]; [lia|]. fold b in Hb. rewrite nmeta_val in *.
  set (im' := put_block b _ im). assert (forall k, k <> b -> im_blk im' k = im_blk im k) as Hkeep.
  { intros k Hk. unfold im'. cbn. by rewrite (proj2 (Z.eqb_neq k b)). }
  assert (forall j y c' cap, inode_ok im ow j y c' cap -> inode_ok im' ow j y c' cap) as Hframe.
  { intros j y c' cap Hy. eapply inode_ok_frame; [exact Hy|]. intros k p Hk. split; [done|]. intros q. rewrite Hkeep; [done|]. apply Ho in Hk. lia. }
  split; [split|split; [|exact Hframe]].
  - cbn. rewrite Hl. unfold FSSIZE. lia.
  - by split.
  - done.
  - rewrite nmeta_val. done.
  - intros k q Hk. rewrite Hkeep by (cbn in Hk; lia). by apply Hz.
  - intros j ty' c' x0 Hj Hne. pose proof (lookup_lt_Some _ _ _ Hj) as Hjl.
    assert (inode_at im' (Z.of_nat j + 1) x0 = inode_at im (Z.of_nat j + 1) x0) as ->.
    { unfold inode_at. destruct (decide (IBLOCK (Z.of_nat j + 1) mkfs_sb = b)) as [E|E]; [|by rewrite Hkeep].
      apply load_agree. intros a Ha. rewrite E. unfold im'. cbn. rewrite Z.eqb_refl. apply rd8_store_dinode; [apply Hx|].
      destruct (dinode_apart (Z.of_nat i + 1) (Z.of_nat j + 1)); lia. }
    apply (file_ok_frame _ _ _ _ _ _ _ _ (Hf j ty' c' x0 Hj Hne)). apply Hframe.
  - done.
  - by rewrite Hkeep by lia.
  - intros k q Hk. rewrite Hkeep; [by apply Hlog|]. revert Hk. unfold nlog, LOGSIZE, MAXOPBLOCKS. lia.
  - intros x0. unfold inode_at. fold b. unfold im'. cbn [put_block im_blk]. cbn. rewrite Z.eqb_refl. by apply load_store.
Qed.

(** The image with the inode of the file [i] up to date. *)
Lemma winode_ok i im ow fs ty c x :
  img_but i im ow fs -> fs !! i = Some (ty, c) -> dinode_ok x -> i_type x = ty -> i_nlink x = 1 -> i_size x = Z.of_nat (length c) ->
  (i_addr NDIRECT x = 0 <-> Z.of_nat (length c) <= NDIRECT * BSIZE) -> inode_ok im ow (Z.of_nat i + 1) x c (Z.of_nat (length c)) ->
  let b := IBLOCK (Z.of_nat i + 1) mkfs_sb in
  img_but (length fs) (put_block b (store_dinode x (dinode_off (Z.of_nat i + 1)) (im_blk im b)) im) ow fs.
Proof.
  intros Hbut Hfi Hx Hty Hnl Hsz Hind Hok b. destruct (winode_but i im ow fs x Hbut (lookup_lt_Some _ _ _ Hfi) Hx) as ([] & Hsame & Hframe).
  fold b in ok_len0, ok_inodes0, ok_next0, ok_own0, ok_zero0, ok_files0, ok_bytes0, ok_sb0, ok_log0, Hsame, Hframe. set (im' := put_block b _ im) in *.
  split; [exact ok_len0|exact ok_inodes0|exact ok_next0|exact ok_own0|exact ok_zero0| |exact ok_bytes0|exact ok_sb0|exact ok_log0].
  intros j ty' c' x0 Hj _. destruct (decide (j = i)) as [->|Hne]; [|exact (ok_files0 j ty' c' x0 Hj Hne)].
  rewrite Hfi in Hj. injection Hj as <- <-. destruct (Hsame x0) as (E1 & _ & _ & E4 & E5 & E6).
  split; [congruence..| |apply Hframe; by apply (inode_ok_same _ _ _ x)]. unfold i_addr. by rewrite E6.
Qed.

Lemma winode_spec im inum x (Q : unit -> img -> Prop) :
  IBLOCK inum mkfs_sb < im_len im ->
  (let b := IBLOCK inum mkfs_sb in Q tt (put_block b (store_dinode x (dinode_off inum) (im_blk im b)) im)) -> wp (winode inum x) Q im.
Proof. intros Hlt HQ. unfold winode. wp_step. apply rsect_spec; [exact Hlt|]. unfold wsect. by wp_step. Qed.

(** The contents of the file [i] do not matter to an image without its inode. *)
Lemma img_but_update i im ow fs ty c c' :
  img_but i im ow fs -> fs !! i = Some (ty, c) -> Forall (fun v => 0 <= v < 256) c' -> img_but i im ow (<[i := (ty, c')]> fs).
Proof.
  intros [Hl Hi Hn Ho Hz Hf Hby Hsb Hlog] Hfi Hc.
  split; [exact Hl|by rewrite length_insert|exact Hn|exact Ho|exact Hz| | |exact Hsb|exact Hlog].
  - intros j ty' d x0 Hj Hne. rewrite list_lookup_insert_ne in Hj by done. by apply Hf.
  - intros j ty' d Hj. destruct (decide (j = i)) as [->|Hne]; [|rewrite list_lookup_insert_ne in Hj by done; by eapply Hby].
    rewrite list_lookup_insert_eq in Hj by (by eapply lookup_lt_Some). injection Hj as _ <-. exact Hc.
Qed.
Lemma img_but_any i im ow fs : img_but (length fs) im ow fs -> img_but i im ow fs.
Proof.
  intros [Hl Hi Hn Ho Hz Hf Hby Hsb Hlog]. split; [exact Hl|exact Hi|exact Hn|exact Ho|exact Hz| |exact Hby|exact Hsb|exact Hlog]. intros j ty c x0 Hj _. apply Hf; [exact Hj|]. apply lookup_lt_Some in Hj. lia.
Qed.

(** ** Appending *)

(** The image with the files [fs]; every block handed out is in one of them. *)
Record img_ok (im : img) (ow : owners) (fs : list (Z * list Z)) : Prop := {
  ok_but : img_but (length fs) im ow fs;
  ok_count : freeblock im = nmeta + blocks_used fs;
}.

(** In the loop of [iappend]: [done] of [p] has been added; the inode is in memory. *)
Record appending (i : nat) (fs : list (Z * list Z)) (c p : list Z) (x0 x : inode) (off : Z) (rest : list Z) (im : img) (ow : owners) : Prop := {
  ap_but : img_but i im ow fs;
  ap_file : exists done, p = done ++ rest /\ off = Z.of_nat (length (c ++ done)) /\
    inode_ok im ow (Z.of_nat i + 1) x (c ++ done) off;
  ap_ind : i_addr NDIRECT x = 0 <-> off <= NDIRECT * BSIZE;
  ap_count : freeblock im = nmeta + blocks_used fs + blocks_for off - blocks_for (Z.of_nat (length c));
  ap_head : same_head x0 x;
}.

Section appending.
Context (i : nat) (fs : list (Z * list Z)) (c p : list Z) (x0 : inode).
Hypothesis p_bytes : Forall (fun v => 0 <= v < 256) p.
Hypothesis p_max : Z.of_nat (length (c ++ p)) <= MAXFILE * BSIZE.
Hypothesis p_room : nmeta + blocks_used fs + blocks_for (Z.of_nat (length (c ++ p))) - blocks_for (Z.of_nat (length c)) <= FSSIZE.

Lemma appending_step x off rest im ow :
  appending i fs c p x0 x off rest im ow -> rest <> [] -> off / BSIZE < MAXFILE ->
  wp (r <- iappend_block x (off / BSIZE) ;;
        let '(x', b) := r : inode * Z in
        let n1 := Z.min (Z.of_nat (length rest)) ((off / BSIZE + 1) * BSIZE - off) in
        buf <- rsect b ;;
        wsect b (blk_store buf (off - off / BSIZE * BSIZE) (take (Z.to_nat n1) rest)) ;;;
        ret (Next (x', u32 (off + n1), drop (Z.to_nat n1) rest) : ctl (inode * Z * list Z) (inode * Z)))
    (fun r im' => match r with
       | Next (x', off', rest') => (exists ow', appending i fs c p x0 x' off' rest' im' ow') /\ (length rest' < length rest)%nat
       | Brk _ => False end) im.
Proof using p_bytes p_max p_room.
  intros [Hbut (done & Ep & Eoff & Hok) Hind Hcnt Hhead] Hne Hmax. pose proof Hbut as [Hl Hi Hn Ho Hz _ _ _ _].
  assert (adding im ow (Z.of_nat i + 1) x (c ++ done) off (off / BSIZE)) as Ha.
  { split; [exact Hok|exact Eoff|done|exact Hmax|exact Hl|lia|exact Ho|exact Hz]. }
  pose proof (adding_block _ _ _ _ _ _ _ Ha) as [Hf0 Hfo]. assert (0 < length rest)%nat as Hrl by (destruct rest; [done|cbn; lia]).
  set (n1 := Z.min _ _). assert (1 <= n1 <= Z.of_nat (length rest) /\ n1 <= (off / BSIZE + 1) * BSIZE - off) as [Hn1 Hn1'] by (unfold n1; lia).
  assert (off + Z.of_nat (length rest) = Z.of_nat (length (c ++ p))) as Hlp by (rewrite Ep, Eoff, !length_app; lia).
  assert (freeblock im + new_blocks off <= FSSIZE) as Hroom.
  { unfold new_blocks. pose proof (blocks_for_mono (off + 1) (Z.of_nat (length (c ++ p))) ltac:(lia)). lia. }
  wp_step. eapply wp_mono; [by apply iappend_block_spec; [exact Ha|exact Hind|exact Hroom]|].
  intros [x' b] im1 (ow1 & Hg & Hok1 & Eb & Hsm & Hfb & Hind1). cbv beta iota zeta.
  pose proof (gr_len _ _ _ _ _ Hg) as Hl1. assert (freeblock im1 <= FSSIZE) as Hfs by lia.
  pose proof (img_but_grows _ _ _ _ _ _ Hbut Hg Hfs) as Hbut1.
  destruct (store_ok im1 ow1 (Z.of_nat i + 1) x' (c ++ done) off (off / BSIZE) (take (Z.to_nat n1) rest)) as [Hown Hok2]; try done.
  { intros k q Hk. apply (ok_own _ _ _ _ Hbut1) in Hk. rewrite nmeta_val in Hk. lia. }
  { rewrite Ep in p_bytes. apply Forall_app in p_bytes as [_ Hp]. by apply Forall_take. }
  { rewrite length_take. lia. }
  rewrite <- Eb in Hown, Hok2. pose proof (ok_own _ _ _ _ Hbut1 _ _ Hown) as Hbl.
  wp_step. apply rsect_spec; [lia|]. unfold wsect. wp_step. wp_step. wp_step.
  assert (MAXFILE * BSIZE < 2 ^ 31) by done.
  rewrite u32_small by lia. split; [|rewrite length_drop; lia]. exists ow1. split.
  - eapply img_but_grows; [exact Hbut1| |exact Hfs]. eapply grows_put; [exact Hown|]. lia.
  - exists (done ++ take (Z.to_nat n1) rest). rewrite <- app_assoc, take_drop. split; [exact Ep|]. rewrite app_assoc, length_app, length_take.
    rewrite length_take in Hok2. replace (Z.of_nat (Z.to_nat n1 `min` length rest)) with n1 in Hok2 by lia. split; [lia|exact Hok2].
  - rewrite Hind1. split; intros; [|lia]. assert (off / BSIZE < NDIRECT) by (unfold BSIZE in *; lia).
    assert ((off / BSIZE + 1) * BSIZE <= NDIRECT * BSIZE) by (apply Z.mul_le_mono_nonneg_r; [done|lia]). lia.
  - change (freeblock im1 = nmeta + blocks_used fs + blocks_for (off + n1) - blocks_for (Z.of_nat (length c))). rewrite Hfb, Hcnt. unfold new_blocks.
    rewrite (blocks_for_same (off / BSIZE) (off + 1) (off + n1)) by lia. lia.
  - by eapply same_head_trans.
Qed.
End appending.

Lemma inode_block im ow fs i skip : img_but skip im ow fs -> (i < length fs)%nat -> IBLOCK (Z.of_nat i + 1) mkfs_sb < im_len im.
Proof.
  intros Hbut Hi. destruct (ok_inodes _ _ _ _ Hbut) as [_ Hn]. unfold NINODES in Hn. rewrite (ok_len _ _ _ _ Hbut). unfold FSSIZE.
  destruct (IBLOCK_val (Z.of_nat i + 1)) as [_ Hb]; lia.
Qed.

(** The end of [iappend]: the inode goes to disk. *)
Lemma iappend_finish i fs ty c p x0 x off im ow :
  fs !! i = Some (ty, c) -> Forall (fun v => 0 <= v < 256) (c ++ p) -> dinode_ok x0 -> i_type x0 = ty -> i_nlink x0 = 1 ->
  appending i fs c p x0 x off [] im ow ->
  wp (winode (Z.of_nat i + 1) (i_set_size off x)) (fun _ im' => img_ok im' ow (<[i := (ty, c ++ p)]> fs)) im.
Proof.
  intros Hfi Hcp Hd0 Hty Hnl [Hbut (done & Ep & Eoff & Hx) Hind Hcnt Hhead]. rewrite app_nil_r in Ep. subst done.
  pose proof (lookup_lt_Some _ _ _ Hfi) as Hil. apply winode_spec; [exact (inode_block im ow fs i i Hbut Hil)|].
  destruct Hhead as [(T1 & T2 & T3 & T4 & T5) Hd]. specialize (Hd Hd0). split.
  - apply (winode_ok i im ow (<[i := (ty, c ++ p)]> fs) ty (c ++ p)).
    + by eapply img_but_update.
    + by apply list_lookup_insert_eq.
    + destruct Hd. split; try done. cbn. rewrite Eoff. pose proof (io_cap _ _ _ _ _ _ Hx). assert (MAXFILE * BSIZE < 2 ^ 32) by done. lia.
    + cbn. rewrite T1. exact Hty.
    + cbn. rewrite T4. exact Hnl.
    + exact Eoff.
    + rewrite <- Eoff. exact Hind.
    + rewrite <- Eoff. eapply inode_ok_same; [|exact Hx]. done.
  - rewrite (blocks_used_insert i fs ty c (c ++ p) Hfi), <- Eoff. cbn. rewrite Hcnt. lia.
Qed.

Lemma iappend_spec i im ow fs ty c p :
  img_ok im ow fs -> fs !! i = Some (ty, c) -> Forall (fun v => 0 <= v < 256) p ->
  Z.of_nat (length (c ++ p)) <= MAXFILE * BSIZE -> nmeta + blocks_used (<[i := (ty, c ++ p)]> fs) <= FSSIZE ->
  wp (iappend (Z.of_nat i + 1) p) (fun _ im' => exists ow', img_ok im' ow' (<[i := (ty, c ++ p)]> fs)) im.
Proof.
  intros [Hok Hcnt] Hfi Hp Hlen Hroom. pose proof (lookup_lt_Some _ _ _ Hfi) as Hil. rewrite (blocks_used_insert i fs ty c _ Hfi) in Hroom.
  unfold iappend, rinode. wp_step. wp_step. apply rsect_spec; [exact (inode_block im ow fs i _ Hok Hil)|]. wp_step.
  set (x0 := load_dinode _ _ _). destruct (ok_files _ _ _ _ Hok i ty c dinode0 Hfi ltac:(lia)) as [Hty Hnl Hsz Hind Hin].
  fold (inode_at im (Z.of_nat i + 1) dinode0) in x0. fold x0 in Hty, Hnl, Hsz, Hind, Hin.
  assert (Z.of_nat (length p) < 2 ^ 64) by (rewrite length_app in Hlen; assert (MAXFILE * BSIZE < 2 ^ 64) by done; lia).
  wp_step. eapply wp_mono.
  - apply (wp_while _ (fun '(x, off, rest) im' => exists ow', appending i fs c p x0 x off rest im' ow')
      (fun '(x, off, rest) _ => Z.of_nat (length rest))
      (fun '(x, off) im' => exists ow', appending i fs c p x0 x off [] im' ow')); [|exists ow; split|lia].
    + intros [[x off] rest] im1 [ow1 Hap]. destruct rest as [|v rest]; [wp_step; by exists ow1|]. cbv zeta.
      destruct (ap_file _ _ _ _ _ _ _ _ _ _ Hap) as (dn & Ep & Eoff & _). pose proof Hlen as Hlen'. rewrite Ep, !length_app in Hlen'. cbn [length] in Hlen'. rewrite length_app in Eoff.
      assert (off / BSIZE < MAXFILE) as Hmax by (apply Z.div_lt_upper_bound; [done|lia]). rewrite (proj2 (Z.ltb_lt _ _) Hmax).
      eapply wp_mono; [apply (appending_step i fs c p x0 Hp Hlen ltac:(lia) x off (v :: rest) im1 ow1 Hap ltac:(done) Hmax)|].
      intros [[[x' off'] rest']|?] im2; [|done]. intros [Hap' Hlt]. split; [exact Hap'|]. lia.
    + by apply img_but_any.
    + exists []. rewrite app_nil_r. split; [done|]. rewrite Hsz. split; [done|exact Hin].
    + rewrite Hsz. exact Hind.
    + rewrite Hsz. lia.
    + apply same_head_refl.
  - intros [x off] im1 [ow1 Hap]. eapply wp_mono; [apply (iappend_finish i fs ty c p x0 x off im1 ow1 Hfi); [|apply load_ok|exact Hty|exact Hnl|exact Hap]|].
    + apply Forall_app. split; [by eapply (ok_bytes _ _ _ _ Hok)|done].
    + intros [] im2 Hok2. by exists ow1.
Qed.

(** ** The directory and the files *)

(** A new inode has no blocks. *)
Lemma blockno_new im ty bn : 0 <= bn -> blockno (tx_of im) (i_set_nlink 1 (i_set_type ty dinode0)) bn = 0.
Proof.
  intros Hin. unfold blockno. destruct (Z.ltb_spec bn NDIRECT) as [Hlt|Hge]; [|done]. unfold i_addr. cbn [i_set_nlink i_set_type i_addrs dinode0].
  apply lookup_total_replicate_2. assert (NDIRECT = 12) by done. lia.
Qed.

Lemma ialloc_spec im ow fs ty :
  img_ok im ow fs -> Z.of_nat (length fs) + 1 < NINODES -> - 2 ^ 15 <= ty < 2 ^ 15 ->
  wp (ialloc ty) (fun inum im' => inum = Z.of_nat (length fs) + 1 /\ img_ok im' ow (fs ++ [(ty, [])])) im.
Proof.
  intros [Hok Hcnt] Hn Hty. pose proof Hok as [Hl [Hi Hi'] Hnx Ho Hz Hf Hby Hsb Hlog]. unfold NINODES in *.
  set (im1 := im <| freeinode := Z.of_nat (length fs) + 1 + 1 |>). assert (img_but (length fs) im1 ow (fs ++ [(ty, [])])) as Hbut.
  { split; [exact Hl|unfold NINODES; rewrite length_app; cbn; lia|exact Hnx|exact Ho|exact Hz| | |exact Hsb|exact Hlog].
    - intros j ty' c x0 Hj Hne. pose proof (lookup_lt_Some _ _ _ Hj) as Hjl. rewrite length_app in Hjl. cbn in Hjl.
      rewrite lookup_app_l in Hj by lia. apply (file_ok_frame _ _ _ _ _ _ _ _ (Hf j ty' c x0 Hj ltac:(lia))).
      intros H4. eapply inode_ok_frame; [exact H4|]. intros b p Hb. split; [exact Hb|reflexivity].
    - intros j ty' c Hj. destruct (decide (j < length fs)%nat) as [Hlt|Hge].
      + rewrite lookup_app_l in Hj by done. exact (Hby j ty' c Hj).
      + rewrite lookup_app_r in Hj by lia. apply list_lookup_singleton_Some in Hj as [_ [= <- <-]]. constructor. }
  assert ((fs ++ [(ty, [])]) !! length fs = Some (ty, [])) as Hlast by by rewrite lookup_app_r, Nat.sub_diag by lia.
  pose proof (inode_block im1 ow _ (length fs) _ Hbut (lookup_lt_Some _ _ _ Hlast)) as Hib.
  unfold ialloc. do 4 wp_step. rewrite Hi, u32_small by lia. fold im1. wp_step. apply winode_spec; [exact Hib|]. cbv zeta. wp_step. split; [done|]. split.
  2:{ rewrite blocks_used_app. cbn [blocks_used length]. change (blocks_for (Z.of_nat 0)) with 0. change (freeblock im = nmeta + (blocks_used fs + (0 + 0))). lia. }
  clear - Hbut Hlast Hty. apply (winode_ok (length fs) im1 ow (fs ++ [(ty, [])]) ty [] _ Hbut Hlast); [|reflexivity..| |].
  - split; cbn [i_set_nlink i_set_type dinode0 i_type i_major i_minor i_nlink i_size i_addrs]; [lia..| |reflexivity]. by apply Forall_replicate.
  - split; [discriminate|reflexivity].
  - split; [reflexivity|split; reflexivity || discriminate| | |].
    + intros bn [Hin _]. left. split; [by apply blockno_new|]. assert (0 <= bn * BSIZE) by (apply Z.mul_nonneg_nonneg; done). cbn. lia.
    + left. split; [reflexivity|discriminate].
    + intros o [Hoo _]. unfold fbyte. rewrite lookup_nil. cbn [default]. rewrite blockno_new; [done|]. by apply Z.div_pos.
Qed.

Definition is_byte (v : Z) : Prop := 0 <= v < 256.
Lemma pad_name_bytes s n : Forall is_byte s -> Forall is_byte (pad_name s n) /\ length (pad_name s n) = n.
Proof.
  revert s. induction n as [|n IH]; intros s Hs; cbn; [by split; [constructor|]|]. destruct s as [|v s].
  - destruct (IH [] ltac:(constructor)). split; [constructor; [unfold is_byte; lia|done]|cbn; lia].
  - apply Forall_cons in Hs as [Hv Hs]. destruct (v =? 0).
    + destruct (IH [] ltac:(constructor)). split; [constructor; [unfold is_byte; lia|done]|cbn; lia].
    + destruct (IH s Hs). split; [by constructor|cbn; lia].
Qed.
Lemma make_dirent_bytes inum s : Forall is_byte s -> Forall is_byte (make_dirent inum s) /\ length (make_dirent inum s) = 16%nat.
Proof.
  intros Hs. unfold make_dirent. destruct (pad_name_bytes s (Z.to_nat DIRSIZ) Hs) as [Hb Hl]. split.
  - apply Forall_app. split; [|done]. repeat constructor; unfold is_byte, u8; apply Z.mod_pos_bound; lia.
  - rewrite length_app, Hl. done.
Qed.

(** The files given to [mkfs]: the names have no slash, the files can be opened and are
    not too large; all of it is bytes. *)
Record host_ok (f : hostfile) : Prop := {
  ho_name : Forall is_byte f.1 /\ 47 ∉ strip_user f.1;
  ho_open : is_Some f.2;
  ho_bytes : Forall (Forall is_byte) (default [] f.2);
  ho_size : Z.of_nat (length (concat (default [] f.2))) <= MAXFILE * BSIZE;
}.
Definition content (f : hostfile) : Z * list Z := (T_FILE, concat (default [] f.2)).
Fixpoint entries (inum : Z) (files : list hostfile) : list Z :=
  match files with
  | [] => []
  | f :: rest => make_dirent inum (strip_underscore (strip_user f.1)) ++ entries (inum + 1) rest
  end.

Lemma strip_bytes arg : Forall is_byte arg -> Forall is_byte (strip_underscore (strip_user arg)).
Proof.
  intros Ha. assert (Forall is_byte (strip_user arg)) as Hs by (unfold strip_user; destruct (decide _); [by apply Forall_drop|done]).
  unfold strip_underscore. destruct (strip_user arg) as [|v l]; [done|]. apply Forall_cons in Hs as [Hv Hl].
  assert (Forall is_byte (v :: l)) by by constructor. repeat case_match; done.
Qed.

Lemma append_all_spec i im ow fs ty c chunks :
  img_ok im ow fs -> fs !! i = Some (ty, c) -> Forall (Forall is_byte) chunks ->
  Z.of_nat (length (c ++ concat chunks)) <= MAXFILE * BSIZE -> nmeta + blocks_used (<[i := (ty, c ++ concat chunks)]> fs) <= FSSIZE ->
  wp (append_all (Z.of_nat i + 1) chunks) (fun _ im' => exists ow', img_ok im' ow' (<[i := (ty, c ++ concat chunks)]> fs)) im.
Proof.
  revert im ow fs c. induction chunks as [|p chunks IH]; intros im ow fs c Hok Hfi Hb Hlen Hroom; cbn [append_all concat] in *.
  { wp_step. exists ow. rewrite app_nil_r, list_insert_id by exact Hfi. exact Hok. }
  apply Forall_cons in Hb as [Hp Hb]. rewrite app_assoc in Hlen, Hroom |- *.
  assert (Z.of_nat (length (c ++ p)) <= Z.of_nat (length ((c ++ p) ++ concat chunks))) as Hle by (rewrite (length_app (c ++ p)); lia).
  wp_step. eapply wp_mono; [apply (iappend_spec i im ow fs ty c p Hok Hfi Hp); [lia|]|].
  { rewrite (blocks_used_insert i fs ty c _ Hfi) in Hroom. rewrite (blocks_used_insert i fs ty c _ Hfi). apply blocks_for_mono in Hle. lia. }
  intros [] im1 [ow1 Hok1]. rewrite <- (list_insert_insert_eq fs i (ty, (c ++ p) ++ concat chunks) (ty, c ++ p)) in Hroom.
  eapply wp_mono; [apply (IH im1 ow1 (<[i := (ty, c ++ p)]> fs) (c ++ p) Hok1); [|exact Hb|exact Hlen|exact Hroom]|].
  - apply list_lookup_insert_eq. by eapply lookup_lt_Some.
  - intros [] im2 [ow2 Hok2]. exists ow2. rewrite list_insert_insert_eq in Hok2. exact Hok2.
Qed.

Lemma wp_then3 {St A} (c : M St A) (d e : A -> M St unit) (k : M St unit) (Q : unit -> St -> Prop) s :
  wp (a <- c ;; d a ;;; e a) (fun _ s' => wp k Q s') s -> wp (a <- c ;; d a ;;; e a ;;; k) Q s.
Proof. unfold wp, bind. destruct (c s) as [a s1| |]; [|done..]. destruct (d a s1) as [[] s2| |]; [|done..]. by destruct (e a s2) as [[] s3| |]. Qed.

(** One file: its inode, its entry of the root directory, its contents. *)
Lemma add_file_spec im ow d fl arg chunks :
  img_ok im ow ((T_DIR, d) :: fl) -> Z.of_nat (length fl) + 2 < NINODES -> host_ok (arg, Some chunks) ->
  let e := make_dirent (Z.of_nat (length fl) + 2) (strip_underscore (strip_user arg)) in
  Z.of_nat (length (d ++ e)) <= MAXFILE * BSIZE ->
  nmeta + blocks_used ((T_DIR, d ++ e) :: fl ++ [content (arg, Some chunks)]) <= FSSIZE ->
  wp (inum <- ialloc T_FILE ;;
      iappend ROOTINO (make_dirent inum (strip_underscore (strip_user arg))) ;;;
      append_all inum chunks)
    (fun _ im' => exists ow', img_ok im' ow' ((T_DIR, d ++ e) :: fl ++ [content (arg, Some chunks)])) im.
Proof.
  intros Hok Hn [[Harg _] _ Hch Hsz] e Hdl Hroom. cbn [fst snd] in *. change (default [] (Some chunks)) with chunks in *.
  change (content (arg, Some chunks)) with (T_FILE, concat chunks) in *.
  rewrite app_comm_cons, blocks_used_app in Hroom. cbn [blocks_used] in Hroom.
  wp_step. eapply wp_mono; [apply (ialloc_spec im ow _ T_FILE Hok); [cbn [length]; lia|split; discriminate || reflexivity]|].
  intros inum im1 [-> Hok1]. cbn [length app] in Hok1 |- *. replace (Z.of_nat (S (length fl)) + 1) with (Z.of_nat (length fl) + 2) by lia. wp_step.
  destruct (make_dirent_bytes (Z.of_nat (length fl) + 2) _ (strip_bytes arg Harg)) as [Hdb _]. fold e in Hdb |- *.
  eapply wp_mono; [apply (iappend_spec 0 im1 ow _ T_DIR d e Hok1 eq_refl Hdb Hdl)|].
  { change (<[0%nat := ?v]> (?x :: ?l)) with (v :: l). cbn [blocks_used]. rewrite blocks_used_app. cbn [blocks_used length].
    pose proof (blocks_for_mono 0 (Z.of_nat (length (concat chunks))) ltac:(lia)) as H0. change (blocks_for (Z.of_nat 0)) with 0. change (blocks_for 0) with 0 in H0. lia. }
  intros [] im2 [ow2 Hok2]. change (<[0%nat := ?v]> (?x :: ?l)) with (v :: l) in Hok2.
  assert (((T_DIR, d ++ e) :: fl ++ [(T_FILE, @nil Z)]) !! S (length fl) = Some (T_FILE, [])) as Hlast.
  { change ((fl ++ [(T_FILE, @nil Z)]) !! length fl = Some (T_FILE, [])). by rewrite lookup_app_r, Nat.sub_diag by lia. }
  assert (<[S (length fl) := (T_FILE, [] ++ concat chunks)]> ((T_DIR, d ++ e) :: fl ++ [(T_FILE, @nil Z)]) =
    (T_DIR, d ++ e) :: fl ++ [(T_FILE, concat chunks)]) as Eins.
  { change (<[S ?k := ?v]> (?x :: ?l)) with (x :: <[k := v]> l). by rewrite insert_app_r_alt, Nat.sub_diag by lia. }
  replace (Z.of_nat (length fl) + 2) with (Z.of_nat (S (length fl)) + 1) by lia. rewrite <- Eins.
  apply (append_all_spec (S (length fl)) im2 ow2 _ T_FILE [] chunks Hok2 Hlast Hch Hsz).
  rewrite Eins, app_comm_cons, blocks_used_app. cbn [blocks_used]. lia.
Qed.

Lemma add_files_spec files : forall im ow d fl,
  img_ok im ow ((T_DIR, d) :: fl) -> Z.of_nat (length fl) + 1 + Z.of_nat (length files) < NINODES -> Forall host_ok files ->
  let fs := (T_DIR, d ++ entries (Z.of_nat (length fl) + 2) files) :: fl ++ (content <$> files) in
  Z.of_nat (length (d ++ entries (Z.of_nat (length fl) + 2) files)) <= MAXFILE * BSIZE -> nmeta + blocks_used fs <= FSSIZE ->
  wp (add_files ROOTINO files) (fun _ im' => exists ow', img_ok im' ow' fs) im.
Proof.
  induction files as [|[arg cont] files IH]; intros im ow d fl Hok Hn Hf fs Hdl Hroom; cbn [add_files entries fst] in *; subst fs.
  { wp_step. exists ow. rewrite !app_nil_r. exact Hok. }
  apply Forall_cons in Hf as [Hf1 Hf]. cbn [fst snd length] in *. apply wp_bind. unfold shortname.
  rewrite bool_decide_eq_false_2 by apply Hf1. wp_step. destruct (ho_open _ Hf1) as [chunks E]. cbn in E. subst cont.
  set (e := make_dirent _ _) in *. rewrite app_assoc in Hdl, Hroom |- *. cbn [fmap list_fmap] in Hroom |- *.
  change (content (arg, Some chunks) :: ?l) with ([content (arg, Some chunks)] ++ l) in Hroom |- *. rewrite app_assoc in Hroom |- *.
  assert (Z.of_nat (length (d ++ e)) <= Z.of_nat (length ((d ++ e) ++ entries (Z.of_nat (length fl) + 2 + 1) files))) as Hle by (rewrite (length_app (d ++ e)); lia).
  assert (Z.of_nat (length (fl ++ [content (arg, Some chunks)])) + 2 = Z.of_nat (length fl) + 2 + 1) as Elen by (rewrite length_app; cbn; lia).
  apply wp_then3. eapply wp_mono; [apply (add_file_spec im ow d fl arg chunks Hok ltac:(lia) Hf1); fold e; [lia|]|].
  { fold e. cbn [blocks_used] in Hroom |- *. rewrite blocks_used_app in Hroom. apply blocks_for_mono in Hle. pose proof (blocks_used_nonneg (content <$> files)). lia. }
  fold e. intros [] im1 [ow1 Hok1]. rewrite <- Elen in Hdl, Hroom |- *.
  apply (IH im1 ow1 (d ++ e) (fl ++ [content (arg, Some chunks)]) Hok1); [rewrite length_app; cbn; lia|exact Hf|exact Hdl|exact Hroom].
Qed.

(** ** The whole program *)

(** Nothing but zeroes in the image. *)
Definition blank (im : img) : Prop := forall b i, rd8 (im_blk im b) i = 0.

Lemma zeroes_upto n im :
  im_len im = 0 -> blank im ->
  wp (for_ 0 n (fun i => wsect i zero_block))
    (fun _ im' => im_len im' = Z.of_nat n /\ freeinode im' = freeinode im /\ freeblock im' = freeblock im /\ blank im') im.
Proof.
  intros Hl Hz. apply (wp_for (fun n im' => im_len im' = n /\ freeinode im' = freeinode im /\ freeblock im' = freeblock im /\ blank im') _ n 0 im).
  - split_and!; [exact Hl|reflexivity|reflexivity|exact Hz].
  - intros j im1 Hj (H1 & H2 & H3 & H4). unfold wsect. apply wp_modify. split_and!; [cbn; rewrite H1; lia|exact H2|exact H3|].
    intros b i. cbn. destruct (Z.eqb_spec b j); [apply rd8_zero_block|apply H4].
Qed.

(** [balloc] marks the first blocks. *)
Lemma mark_used_free n buf b : 0 <= b -> (forall i, rd8 buf i = 0) -> bit_free (mark_used n buf) b = negb (b <? Z.of_nat n).
Proof.
  intros Hb Hz. induction n as [|n IH]; cbn [mark_used].
  - unfold bit_free. rewrite Hz, Z.land_0_l, (proj2 (Z.ltb_ge b _)) by lia. done.
  - change (Z.shiftl 1 (Z.of_nat n mod 8)) with (bit_mask (Z.of_nat n)). rewrite bit_free_set by lia. rewrite IH.
    destruct (decide (b = Z.of_nat n)); destruct (Z.ltb_spec b (Z.of_nat n)); destruct (Z.ltb_spec b (Z.of_nat (S n))); done || lia.
Qed.

(** The image at the end: the root directory is the file 0, its size is rounded up, and
    the bitmap marks the blocks below [freeblock]. *)
Definition root_size (root : list Z) : Z := (Z.of_nat (length root) / BSIZE + 1) * BSIZE.
Record built (im : img) (ow : owners) (root : list Z) (fl : list (Z * list Z)) : Prop := {
  bu_but : img_but 0 im ow ((T_DIR, root) :: fl);
  bu_root : forall x0, let x := inode_at im ROOTINO x0 in
    i_type x = T_DIR /\ i_nlink x = 1 /\ i_size x = root_size root /\ inode_ok im ow ROOTINO x root (Z.of_nat (length root));
  bu_count : freeblock im = nmeta + blocks_used ((T_DIR, root) :: fl);
  bu_bits : forall b, 0 <= b -> bit_free (im_blk im (sb_bmapstart mkfs_sb)) b = (freeblock im <=? b);
}.

Lemma img_but_put skip im ow fs d : img_but skip im ow fs -> img_but skip (put_block 45 d im) ow fs.
Proof.
  intros [Hl [Hi Hi'] Hn Ho Hz Hf Hby Hsb Hlog]. unfold NINODES in Hi'. rewrite nmeta_val in *.
  assert (forall k, k <> 45 -> im_blk (put_block 45 d im) k = im_blk im k) as Hkeep by (intros k Hk; cbn; by rewrite (proj2 (Z.eqb_neq k 45))).
  split; [cbn; rewrite Hl; reflexivity|by split|rewrite nmeta_val; exact Hn|rewrite nmeta_val; exact Ho| | |exact Hby| |].
  - intros k q Hk. rewrite Hkeep by (cbn in Hk; lia). by apply Hz.
  - intros j ty c x0 Hj Hne. pose proof (lookup_lt_Some _ _ _ Hj) as Hjl.
    assert (inode_at (put_block 45 d im) (Z.of_nat j + 1) x0 = inode_at im (Z.of_nat j + 1) x0) as ->.
    { unfold inode_at. destruct (IBLOCK_val (Z.of_nat j + 1)); [lia|]. by rewrite Hkeep by lia. }
    apply (file_ok_frame _ _ _ _ _ _ _ _ (Hf j ty c x0 Hj Hne)). intros Hok. eapply inode_ok_frame; [exact Hok|].
    intros b p Hb. split; [exact Hb|]. intros i. rewrite Hkeep; [done|]. apply Ho in Hb. lia.
  - rewrite Hkeep by lia. exact Hsb.
  - intros b i Hb. rewrite Hkeep; [by apply Hlog|]. revert Hb. unfold nlog, LOGSIZE, MAXOPBLOCKS. lia.
Qed.

Lemma built_bits im ow root fl :
  img_but 0 im ow ((T_DIR, root) :: fl) -> freeblock im = nmeta + blocks_used ((T_DIR, root) :: fl) ->
  (forall x0, let x := inode_at im ROOTINO x0 in
    i_type x = T_DIR /\ i_nlink x = 1 /\ i_size x = root_size root /\ inode_ok im ow ROOTINO x root (Z.of_nat (length root))) ->
  built (put_block 45 (mark_used (Z.to_nat (freeblock im)) zero_block) im) ow root fl.
Proof.
  intros Hbut Hcnt Hroot. pose proof (ok_next _ _ _ _ Hbut) as Hn. rewrite nmeta_val in Hn. split; [by apply img_but_put| |exact Hcnt|].
  - intros x0. destruct (Hroot x0) as (H1 & H2 & H3 & H4). cbv zeta.
    assert (inode_at (put_block 45 (mark_used (Z.to_nat (freeblock im)) zero_block) im) ROOTINO x0 = inode_at im ROOTINO x0) as -> by reflexivity.
    split; [exact H1|]. split; [exact H2|]. split; [exact H3|]. eapply inode_ok_frame; [exact H4|].
    intros b p Hb. split; [exact Hb|]. intros i. cbn. rewrite (proj2 (Z.eqb_neq b 45)); [done|]. apply (ok_own _ _ _ _ Hbut) in Hb. rewrite nmeta_val in Hb. lia.
  - intros b Hb. change (sb_bmapstart mkfs_sb) with 45. cbn [put_block]. change (freeblock (put_block 45 ?d im)) with (freeblock im).
    change (im_blk (put_block 45 ?d im) 45) with d. rewrite mark_used_free by (done || apply rd8_zero_block).
    rewrite Z2Nat.id by lia. symmetry. apply Z.leb_antisym.
Qed.

Lemma finish_spec im ow root fl :
  img_ok im ow ((T_DIR, root) :: fl) ->
  wp (din <- rinode ROOTINO ;;
      let off := (i_size din / BSIZE + 1) * BSIZE in
      winode ROOTINO (i_set_size (u32 off) din) ;;;
      used <- gets freeblock ;;
      balloc used) (fun _ im' => built im' ow root fl) im.
Proof.
  intros [Hbut Hcnt]. pose proof (inode_block im ow _ 0 _ Hbut ltac:(cbn; lia)) as Hib. change (Z.of_nat 0 + 1) with ROOTINO in Hib.
  unfold rinode. wp_step. wp_step. apply rsect_spec; [exact Hib|]. wp_step. fold (inode_at im ROOTINO dinode0).
  destruct (ok_files _ _ _ _ Hbut 0 T_DIR root dinode0 eq_refl ltac:(done)) as [H1 H2 H3 H4 H5]. change (Z.of_nat 0 + 1) with ROOTINO in *.
  set (x := inode_at im ROOTINO dinode0) in *. cbv zeta. rewrite H3. fold (root_size root).
  assert (0 <= root_size root < 2 ^ 32) as Hrs.
  { pose proof (io_cap _ _ _ _ _ _ H5) as Hc. unfold root_size. pose proof (Z.mul_div_le (Z.of_nat (length root)) BSIZE BSIZE_pos).
    assert (0 <= Z.of_nat (length root) / BSIZE) by (apply Z.div_pos; [lia|done]). assert (MAXFILE * BSIZE < 2 ^ 31) by done. unfold BSIZE in *. lia. }
  rewrite u32_small by exact Hrs. apply wp_bind, winode_spec; [exact Hib|]. cbv zeta.
  assert (dinode_ok (i_set_size (root_size root) x)) as Hd by (destruct (load_ok (im_blk im (IBLOCK ROOTINO mkfs_sb)) (dinode_off ROOTINO) dinode0); split; assumption).
  destruct (winode_but 0 im ow ((T_DIR, root) :: fl) _ (img_but_any 0 _ _ _ Hbut) ltac:(cbn; lia) Hd) as (Hbut1 & Hsame & Hframe).
  change (Z.of_nat 0 + 1) with ROOTINO in *. set (im1 := put_block _ _ im) in *.
  wp_step. wp_step. unfold balloc. pose proof (ok_next _ _ _ _ Hbut1) as Hn.
  rewrite (proj2 (Z.ltb_lt (freeblock im1) (BSIZE * 8))) by (unfold FSSIZE, BSIZE in *; lia). unfold wsect. apply wp_modify.
  apply built_bits; [exact Hbut1|exact Hcnt|]. intros x0. destruct (Hsame x0) as (E1 & _ & _ & E4 & E5 & E6). cbv zeta.
  split; [rewrite E1; exact H1|]. split; [rewrite E4; exact H2|]. split; [exact E5|].
  apply Hframe. apply (inode_ok_same _ _ _ x); [exact E6|exact H5].
Qed.

(** The contents of the root directory. *)
Definition root_dir (files : list hostfile) : list Z :=
  make_dirent ROOTINO (chars ".") ++ make_dirent ROOTINO (chars "..") ++ entries 2 files.
(** Everything on the image: the root directory, then the files. *)
Definition image_files (files : list hostfile) : list (Z * list Z) := (T_DIR, root_dir files) :: (content <$> files).

Lemma entries_length inum files : Forall host_ok files -> length (entries inum files) = (16 * length files)%nat.
Proof.
  intros Hf. revert inum. induction Hf as [|f files [[Hb _] _ _ _] _ IH]; intros inum; cbn [entries length]; [done|].
  destruct (make_dirent_bytes inum _ (strip_bytes f.1 Hb)) as [_ Hl]. rewrite length_app, Hl, IH. lia.
Qed.
Lemma dot_bytes s : s ∈ [chars "."; chars ".."] -> Forall is_byte s.
Proof. intros Hs. repeat (apply elem_of_cons in Hs as [->|Hs]; [repeat constructor; discriminate|]). by apply elem_of_nil in Hs. Qed.

(** A blank image with its superblock has no files yet. *)
Lemma blank_ok im :
  im_len im = FSSIZE -> freeinode im = 1 -> freeblock im = nmeta -> blank im -> img_ok (put_block 1 (sb_block mkfs_sb) im) ∅ [].
Proof.
  intros Hl Hi Hb Hz. split; [split|].
  - cbn. rewrite Hl. reflexivity.
  - split; [exact Hi|reflexivity].
  - cbn. rewrite Hb. split; discriminate.
  - intros b p Hp. by rewrite lookup_empty in Hp.
  - intros b i Hge. cbn in Hge |- *. rewrite Hb, nmeta_val in Hge. rewrite (proj2 (Z.eqb_neq b 1)) by lia. apply Hz.
  - intros i ty c x0 Hk. by rewrite lookup_nil in Hk.
  - intros i ty c Hk. by rewrite lookup_nil in Hk.
  - reflexivity.
  - intros b i Hb2. cbn. rewrite (proj2 (Z.eqb_neq b 1)) by lia. apply Hz.
  - cbn. rewrite Hb. reflexivity.
Qed.

Section main.
Context (files : list hostfile).
Hypothesis files_ok : Forall host_ok files.
Hypothesis files_few : Z.of_nat (length files) + 1 < NINODES.
Hypothesis files_fit : nmeta + blocks_used (image_files files) <= FSSIZE.

(** The directory as it grows. *)
Lemma dir_room d fs : Z.of_nat (length d) <= 32 -> blocks_used fs = 0 -> nmeta + blocks_used ((T_DIR, d) :: fs) <= FSSIZE.
Proof.
  intros Hd Hfs. cbn [blocks_used]. rewrite Hfs. pose proof (blocks_for_mono _ _ Hd) as Hm. change (blocks_for 32) with 1 in Hm.
  rewrite nmeta_val. unfold FSSIZE. lia.
Qed.

Lemma main_spec : wp (mkfs_main files) (fun _ im => exists ow, built im ow (root_dir files) (content <$> files)) empty_img.
Proof using All.
  destruct (make_dirent_bytes ROOTINO (chars ".")) as [Hb1 Hl1]; [apply dot_bytes; set_solver|].
  destruct (make_dirent_bytes ROOTINO (chars "..")) as [Hb2 Hl2]; [apply dot_bytes; set_solver|].
  set (e1 := make_dirent ROOTINO (chars ".")) in *. set (e2 := make_dirent ROOTINO (chars "..")) in *.
  assert (length (root_dir files) = (32 + 16 * length files)%nat) as Hlen.
  { unfold root_dir. fold e1 e2. rewrite !length_app, entries_length, Hl1, Hl2 by done. lia. }
  unfold mkfs_main. wp_step. wp_step. wp_step. eapply wp_mono; [apply (zeroes_upto (Z.to_nat FSSIZE)); [reflexivity|intros b i; reflexivity]|].
  intros [] im1 (H1 & H2 & H3 & H4). rewrite Z2Nat.id in H1 by discriminate. pose proof (blank_ok im1 H1 H2 H3 H4) as Hok0.
  unfold wsect. wp_step. wp_step. fold (put_block 1 (sb_block mkfs_sb) im1).
  wp_step. eapply wp_mono; [apply (ialloc_spec _ ∅ [] T_DIR Hok0); [reflexivity|split; discriminate || reflexivity]|].
  intros rootino im2 [-> Hok2]. change (Z.of_nat (length (@nil (Z * list Z))) + 1) with ROOTINO. cbn [Z.eqb negb app] in Hok2 |- *. change (ROOTINO =? ROOTINO) with true. cbn [negb].
  assert (MAXFILE * BSIZE = 274432) as Emax by reflexivity. fold e1 e2.
  wp_step. eapply wp_mono; [apply (iappend_spec 0 im2 ∅ _ T_DIR [] e1 Hok2 eq_refl Hb1); [cbn [app]; lia|apply dir_room; [cbn [app]; lia|reflexivity]]|].
  intros [] im3 [ow3 Hok3]. change (<[0%nat := ?v]> (?x :: ?l)) with (v :: l) in Hok3. cbn [app] in Hok3.
  wp_step. eapply wp_mono; [apply (iappend_spec 0 im3 ow3 _ T_DIR e1 e2 Hok3 eq_refl Hb2); [rewrite length_app; lia|apply dir_room; [rewrite length_app; lia|reflexivity]]|].
  intros [] im4 [ow4 Hok4]. change (<[0%nat := ?v]> (?x :: ?l)) with (v :: l) in Hok4.
  assert ((e1 ++ e2) ++ entries 2 files = root_dir files) as Eroot by (unfold root_dir; fold e1 e2; by rewrite app_assoc).
  wp_step. eapply wp_mono; [apply (add_files_spec files im4 ow4 (e1 ++ e2) [] Hok4); [cbn [length]; lia|exact files_ok| |]; change (Z.of_nat (length (@nil (Z * list Z))) + 2) with 2; rewrite Eroot; [|exact files_fit]|].
  - rewrite Hlen, Emax. unfold NINODES in files_few. lia.
  - intros [] im5 [ow5 Hok5]. change (Z.of_nat (length (@nil (Z * list Z))) + 2) with 2 in Hok5. rewrite Eroot in Hok5. cbn [app] in Hok5.
    eapply wp_mono; [apply (finish_spec im5 ow5 _ _ Hok5)|]. intros [] im6 Hbu. by exists ow5.
Qed.
End main.

(** ** What the kernel finds *)

(** The image with the root directory [root] and the other files [fl]. *)
Record fs_image (im : img) (root : list Z) (fl : list (Z * list Z)) : Prop := {
  fi_sb : parse_sb (im_blk im 1) = mkfs_sb;
  fi_log : forall b i, 2 <= b < 2 + nlog -> rd8 (im_blk im b) i = 0;
  fi_layout : layout mkfs_sb (tx_of im);
  fi_free : forall b, 0 <= b < FSSIZE -> blk_free mkfs_sb (tx_of im) b = (nmeta + blocks_used ((T_DIR, root) :: fl) <=? b);
  fi_files : forall i ty c x0, ((T_DIR, root) :: fl) !! i = Some (ty, c) -> i_dev x0 = ROOTDEV ->
    let x := inode_at im (Z.of_nat i + 1) x0 in
    i_type x = ty /\ i_nlink x = 1 /\ i_size x = (if decide (i = 0%nat) then root_size root else Z.of_nat (length c)) /\
    wf_file mkfs_sb (tx_of im) x /\
    forall o, 0 <= o < MAXFILE * BSIZE -> fbyte (tx_of im) x o = default 0 (c !! Z.to_nat o);
  fi_apart : forall i j x0 b, (i < j < S (length fl))%nat ->
    owned (tx_of im) (inode_at im (Z.of_nat i + 1) x0) b -> ~ owned (tx_of im) (inode_at im (Z.of_nat j + 1) x0) b;
}.

Section image.
Context (im : img) (ow : owners) (root : list Z) (fl : list (Z * list Z)).
Hypothesis Hbu : built im ow root fl.

Lemma built_file i ty c x0 : ((T_DIR, root) :: fl) !! i = Some (ty, c) ->
  let x := inode_at im (Z.of_nat i + 1) x0 in
  i_type x = ty /\ i_nlink x = 1 /\ i_size x = (if decide (i = 0%nat) then root_size root else Z.of_nat (length c)) /\
  inode_ok im ow (Z.of_nat i + 1) x c (Z.of_nat (length c)).
Proof using Hbu.
  intros Hi. destruct (decide (i = 0%nat)) as [->|Hne].
  - injection Hi as <- <-. exact (bu_root _ _ _ _ Hbu x0).
  - destruct (ok_files _ _ _ _ (bu_but _ _ _ _ Hbu) i ty c x0 Hi Hne) as [H1 H2 H3 _ H5]. exact (conj H1 (conj H2 (conj H3 H5))).
Qed.
Lemma built_free b : 0 <= b < FSSIZE -> blk_free mkfs_sb (tx_of im) b = (freeblock im <=? b).
Proof using Hbu.
  intros Hb. unfold FSSIZE in Hb. unfold blk_free, BBLOCK. change BPB with 8192. rewrite Z.div_small, Z.mod_small by lia. exact (bu_bits _ _ _ _ Hbu b ltac:(lia)).
Qed.
Lemma built_BBLOCK b : 0 <= b < FSSIZE -> BBLOCK b mkfs_sb = 45.
Proof. intros Hb. unfold FSSIZE in Hb. unfold BBLOCK. change BPB with 8192. by rewrite Z.div_small by lia. Qed.

Lemma inode_owned inum x c cap b : inode_ok im ow inum x c cap -> owned (tx_of im) x b -> exists p, ow !! b = Some (inum, p).
Proof.
  intros [_ _ Hm Hi _] [Hnz [->|(bn & Hin & ->)]].
  - destruct Hi as [[? _]|Hi]; [done|]. by eexists.
  - destruct (Hm bn Hin) as [[? _]|[_ Ho]]; [done|]. by eexists.
Qed.

Lemma built_wf inum x c cap : inode_ok im ow inum x c cap -> i_dev x = ROOTDEV -> wf_file mkfs_sb (tx_of im) x.
Proof using Hbu.
  intros Hok Hdev. pose proof (ok_next _ _ _ _ (bu_but _ _ _ _ Hbu)) as Hn. pose proof (ok_own _ _ _ _ (bu_but _ _ _ _ Hbu)) as Ho.
  assert (forall b, owned (tx_of im) x b -> 46 <= b < freeblock im) as Hown.
  { intros b Hb. destruct (inode_owned _ _ _ _ _ Hok Hb) as [p Hp]. exact (Ho b _ Hp). }
  rewrite nmeta_val in Hn. unfold FSSIZE in Hn. split; [apply Hok|exact Hdev| | | | |].
  - rewrite built_free by (unfold FSSIZE; lia). apply Z.leb_gt. lia.
  - intros b Hb. specialize (Hown b Hb). assert (0 <= b < FSSIZE) by (unfold FSSIZE; lia). split; [done|]. rewrite built_free by done. apply Z.leb_gt. lia.
  - intros b Hb. specialize (Hown b Hb). split; [|split; [|apply not_elem_of_nil]].
    + cbn. unfold nlog, LOGSIZE, MAXOPBLOCKS. lia.
    + intros (b' & Hb' & E). rewrite built_BBLOCK in E by exact Hb'. lia.
  - intros bn bn' Hin Hin' Hnz E. destruct (io_map _ _ _ _ _ _ Hok bn Hin) as [[? _]|[_ H1]]; [done|].
    rewrite E in Hnz, H1. destruct (io_map _ _ _ _ _ _ Hok bn' Hin') as [[? _]|[_ H2]]; [done|]. rewrite H1 in H2. by injection H2.
  - intros bn Hin Hnz E. destruct (io_map _ _ _ _ _ _ Hok bn Hin) as [[? _]|[_ H1]]; [done|]. rewrite E in Hnz, H1.
    destruct (io_ind _ _ _ _ _ _ Hok) as [[? _]|H2]; [done|]. rewrite H1 in H2. injection H2 as E2. destruct Hin. lia.
Qed.

Lemma built_layout : layout mkfs_sb (tx_of im).
Proof using Hbu.
  pose proof (ok_next _ _ _ _ (bu_but _ _ _ _ Hbu)) as Hn. rewrite nmeta_val in Hn. split; [done|done| |].
  - intros b Hb. rewrite built_BBLOCK by exact Hb. cbn. unfold nlog, LOGSIZE, MAXOPBLOCKS. lia.
  - intros b Hb Hfree. rewrite built_free in Hfree by exact Hb. apply Z.leb_le in Hfree. split; [cbn; unfold nlog, LOGSIZE, MAXOPBLOCKS; lia|].
    intros b' Hb'. rewrite built_BBLOCK by exact Hb'. lia.
Qed.

Lemma built_image : fs_image im root fl.
Proof using Hbu.
  pose proof (bu_but _ _ _ _ Hbu) as Hbut. split.
  - rewrite (ok_sb _ _ _ _ Hbut). apply parse_sb_block. repeat constructor; discriminate.
  - exact (ok_log _ _ _ _ Hbut).
  - exact built_layout.
  - intros b Hb. rewrite built_free, (bu_count _ _ _ _ Hbu) by exact Hb. reflexivity.
  - intros i ty c x0 Hi Hdev. destruct (built_file i ty c x0 Hi) as (H1 & H2 & H3 & H4). cbv zeta.
    split; [exact H1|]. split; [exact H2|]. split; [exact H3|]. split; [|exact (io_bytes _ _ _ _ _ _ H4)].
    apply (built_wf _ _ _ _ H4). exact Hdev.
  - intros i j x0 b Hij Hi Hj.
    destruct (lookup_lt_is_Some_2 ((T_DIR, root) :: fl) i) as [[ty c] Hc]; [cbn; lia|]. destruct (lookup_lt_is_Some_2 ((T_DIR, root) :: fl) j) as [[ty' c'] Hc']; [cbn; lia|].
    destruct (built_file i ty c x0 Hc) as (_ & _ & _ & H4). destruct (built_file j ty' c' x0 Hc') as (_ & _ & _ & H4').
    destruct (inode_owned _ _ _ _ _ H4 Hi) as [p Hp]. destruct (inode_owned _ _ _ _ _ H4' Hj) as [p' Hp']. rewrite Hp in Hp'. injection Hp' as E _. lia.
Qed.
End image.

(** C17: when every file of the command line can be opened, is small enough and all of
    them fit, [mkfs] succeeds, and the kernel finds on the image the superblock it
    expects, an empty log, a bitmap that marks exactly the metadata and the blocks in
    use, and for the root directory and for every file an inode of its type and size
    whose bytes are its contents; the inodes are well formed and share no block. *)
Theorem mkfs_image files :
  Forall host_ok files -> Z.of_nat (length files) + 1 < NINODES -> nmeta + blocks_used (image_files files) <= FSSIZE ->
  wp (mkfs_main files) (fun _ im => fs_image im (root_dir files) (content <$> files)) empty_img.
Proof.
  intros Hok Hfew Hfit. eapply wp_mono; [exact (main_spec files Hok Hfew Hfit)|]. intros [] im [ow Hbu]. exact (built_image im ow _ _ Hbu).
Qed.

Definition byteb (v : Z) : bool := (0 <=? v) && (v <? 256).
Definition host_okb (f : hostfile) : bool :=
  forallb byteb f.1 && negb (existsb (Z.eqb 47) (strip_user f.1)) && match f.2 with
  | Some chunks => forallb (forallb byteb) chunks && (Z.of_nat (length (concat chunks)) <=? MAXFILE * BSIZE)
  | None => false end.
Lemma forallb_bytes l : forallb byteb l = true -> Forall is_byte l.
Proof. intros H. apply Forall_forall. intros v Hv%list_elem_of_In. rewrite forallb_forall in H. specialize (H v Hv). unfold byteb in H. unfold is_byte. lia. Qed.
Lemma host_okb_ok f : host_okb f = true -> host_ok f.
Proof.
  destruct f as [arg [chunks|]]; unfold host_okb; cbn [fst snd]; rewrite !andb_true_iff; [|by intros []].
  intros [[Ha Hs%negb_true_iff] [Hc Hl%Z.leb_le]]. split; [split; [by apply forallb_bytes|]|by eexists| |exact Hl].
  - intros Hin%list_elem_of_In. cbn [fst] in Hin. assert (existsb (Z.eqb 47) (strip_user arg) = true) as E; [|by rewrite Hs in E].
    apply existsb_exists. by exists 47.
  - apply Forall_forall. intros c Hc'%list_elem_of_In. rewrite forallb_forall in Hc. by apply forallb_bytes, Hc.
Qed.

(** Two programs and a text whose last block is partly filled. *)
Definition sample : list hostfile :=
  [(chars "user/_cat", Some [replicate 1024 1; replicate 600 2]); (chars "README", Some [chars "xv6 is"; chars " a re-implementation"]);
   (chars "user/_sh", Some (replicate 14 (replicate 1024 7)))].
Lemma mkfs_image_witness : wp (mkfs_main sample) (fun _ im => fs_image im (root_dir sample) (content <$> sample)) empty_img.
Proof.
  apply mkfs_image; [|reflexivity|by vm_compute]. apply Forall_forall. intros f Hf%list_elem_of_In. apply host_okb_ok.
  revert f Hf. apply forallb_forall. by vm_compute.
Defined.
