(* ===== verification/Kernel.v ===== *)
(** * Kernel state (kernel/proc.h, kernel/file.h, and the data of proc.c, file.c,
    pipe.c, console.c, uart.c, trap.c)

    The processes, open files, pipes, console and uart, over the memory of [Kalloc]
    and the disk of [Log]; together with the file system's state ([Fs.fsst]) they
    make the state of the whole kernel.  Critical sections of spinlocks are atomic
    here; a process that gives up the CPU lets [pf_others] run, which stands for
    everything the rest of the system does until the process runs again. *)

From stdpp Require Import base list gmap strings.
From Stdlib Require Import ZArith Lia.
From S2P Require Import Prelude Mem Str Riscv Kalloc Vm Sleeplock Bio BioInv Log LogInv TxDisk Fs Printf.

#[local] Open Scope Z_scope.

(** ** Data *)

Inductive procstate : Type := UNUSED | USED | SLEEPING | RUNNABLE | RUNNING | ZOMBIE.
#[global] Instance procstate_eq_dec : EqDecision procstate.
Proof. solve_decision. Defined.

(** Sleep channels: the addresses the kernel sleeps on.  Different objects have
    different addresses. *)
Inductive chan : Type :=
| ChNone                   (* 0 *)
| ChTicks                  (* &ticks *)
| ChNread (pi : Z)         (* &pi->nread *)
| ChNwrite (pi : Z)        (* &pi->nwrite *)
| ChProc (p : option nat)  (* a struct proc pointer *)
| ChCons                   (* &cons.r *)
| ChUart.                  (* &uart_tx_r *)
#[global] Instance chan_eq_dec : EqDecision chan.
Proof. solve_decision. Defined.

Definition NOFILE : nat := 16.
Definition NFILE : nat := 100.
Definition NDEV : Z := 10.
Definition MAXARG : Z := 32.
Definition MAXPATH : Z := 128.
Definition PIPESIZE : Z := 512.
Definition INPUT_BUF_SIZE : Z := 128.
Definition UART_TX_BUF_SIZE : Z := 32.

(** [struct proc]; a pointer to a process is its index in the table. *)
Record proc : Type := Proc {
  p_state : procstate;
  p_chan : chan;
  p_killed : Z;
  p_xstate : Z;
  p_pid : Z;
  p_parent : option nat;
  p_kstack : Z;
  p_sz : Z;
  p_pagetable : Z;
  p_trapframe : Z;              (* address of the page *)
  p_context : list Z;           (* ra, sp, s0 .. s11 *)
  p_ofile : list (option nat);  (* NOFILE entries *)
  p_cwd : option nat;
  p_name : list Z;
  p_mask : Z;
}.
#[global] Instance eta_proc : Eta proc := fun x =>
  Proc (p_state x) (p_chan x) (p_killed x) (p_xstate x) (p_pid x) (p_parent x) (p_kstack x) (p_sz x)
    (p_pagetable x) (p_trapframe x) (p_context x) (p_ofile x) (p_cwd x) (p_name x) (p_mask x).
#[global] Instance proc_inhabited : Inhabited proc :=
  populate (Proc UNUSED ChNone 0 0 0 None 0 0 0 0 (replicate 14 0) (replicate NOFILE None) None [] 0).

(** [struct file] and its type tag. *)
Inductive ftype : Type := FD_NONE | FD_PIPE | FD_INODE | FD_DEVICE.
#[global] Instance ftype_eq_dec : EqDecision ftype.
Proof. solve_decision. Defined.
Record file : Type := File {
  f_type : ftype;
  f_ref : Z;
  f_readable : Z;
  f_writable : Z;
  f_pipe : Z;
  f_ip : nat;
  f_off : Z;
  f_major : Z;
}.
#[global] Instance eta_file : Eta file := fun x =>
  File (f_type x) (f_ref x) (f_readable x) (f_writable x) (f_pipe x) (f_ip x) (f_off x) (f_major x).
#[global] Instance file_inhabited : Inhabited file := populate (File FD_NONE 0 0 0 0 0 0 0).

(** [struct pipe]. *)
Record pipe : Type := Pipe {
  pi_data : list Z;  (* PIPESIZE bytes *)
  pi_nread : Z;
  pi_nwrite : Z;
  pi_readopen : Z;
  pi_writeopen : Z;
}.
#[global] Instance eta_pipe : Eta pipe := fun x =>
  Pipe (pi_data x) (pi_nread x) (pi_nwrite x) (pi_readopen x) (pi_writeopen x).
#[global] Instance pipe_inhabited : Inhabited pipe := populate (Pipe (replicate 512 0) 0 0 0 0).

(** The console input buffer [cons]. *)
Record cons : Type := Cons {
  c_buf : list Z;  (* INPUT_BUF_SIZE bytes *)
  c_r : Z;
  c_w : Z;
  c_e : Z;
}.
#[global] Instance eta_cons : Eta cons := fun x => Cons (c_buf x) (c_r x) (c_w x) (c_e x).

(** The variables of the uart driver and what the device has seen. *)
Record uart : Type := Uart {
  uart_tx_buf : list Z;   (* UART_TX_BUF_SIZE bytes *)
  uart_tx_w : Z;
  uart_tx_r : Z;
  u_sent : list Z;        (* bytes stored in THR, in order *)
  u_rx : list Z;          (* received bytes waiting in RHR *)
  u_polls : nat;          (* reads of the transmitter's status so far *)
  u_regs : list (Z * Z);  (* stores to the control registers, in order *)
  panicked : Z;
}.
#[global] Instance eta_uart : Eta uart := fun x =>
  Uart (uart_tx_buf x) (uart_tx_w x) (uart_tx_r x) (u_sent x) (u_rx x) (u_polls x) (u_regs x)
    (panicked x).

(** Supervisor registers, and what the interrupt controller has seen. *)
Record csrs : Type := Csrs {
  r_sstatus : Z;
  r_sepc : Z;
  r_scause : Z;
  r_stval : Z;
  r_stvec : Z;
  r_satp : Z;
  r_sip : Z;
  r_tp : Z;
  plic_claims : nat;           (* reads of the claim register so far *)
  plic_writes : list (Z * Z);  (* stores to the controller, in order *)
}.
#[global] Instance eta_csrs : Eta csrs := fun x =>
  Csrs (r_sstatus x) (r_sepc x) (r_scause x) (r_stval x) (r_stvec x) (r_satp x) (r_sip x) (r_tp x)
    (plic_claims x) (plic_writes x).

(** Everything but the inode table and the super block. *)
Record machine : Type := Machine {
  m_log : lst;
  m_mem : kst;
  m_procs : list proc;     (* NPROC entries *)
  m_cur : nat;             (* mycpu()->proc *)
  m_files : list file;     (* ftable, NFILE entries *)
  m_pipes : gmap Z pipe;   (* by the address of the page the pipe lives in *)
  m_initproc : option nat;
  m_nextpid : Z;
  m_ticks : Z;
  m_cons : cons;
  m_uart : uart;
  m_csrs : csrs;
  m_first : Z;             (* static variable of forkret *)
  m_now : nat;             (* how often the running process gave up the CPU *)
}.
#[global] Instance eta_machine : Eta machine := fun x =>
  Machine (m_log x) (m_mem x) (m_procs x) (m_cur x) (m_files x) (m_pipes x) (m_initproc x)
    (m_nextpid x) (m_ticks x) (m_cons x) (m_uart x) (m_csrs x) (m_first x) (m_now x).

Definition kernel : Type := fsst machine.
#[global] Instance eta_kernel : Eta kernel := fun x =>
  Fsst (fs_disk x) (fs_sb x) (fs_itable x) (fs_pid x).

(** The null process pointer is the index past the table. *)
Definition no_proc : nat := Z.to_nat NPROC.

(** What the kernel is linked with and runs on. *)
Class Platform : Type := {
  pf_kend : Z;            (* linker symbol [end] *)
  pf_etext : Z;           (* linker symbol [etext] *)
  pf_trampoline : Z;      (* trampoline.S: [trampoline], [uservec], [userret] *)
  pf_uservec : Z;
  pf_userret : Z;
  pf_forkret : Z;         (* addresses of functions *)
  pf_usertrap : Z;
  pf_kernelvec : Z;
  pf_local : Z;           (* address of a kernel variable passed to copyin or copyout *)
  pf_tx_idle : nat -> bool;  (* whether the transmitter is idle at its n-th status read *)
  pf_claim : nat -> Z;    (* the interrupt reported by the n-th claim *)
  pf_others : nat -> M kernel unit;  (* the rest of the system, the n-th time it runs *)
}.

(** ** Access to the parts *)

Definition getm {A} (f : machine -> A) : M kernel A := gets (fun s => f (fs_disk s)).
Definition updm (f : machine -> machine) : M kernel unit :=
  modify (fun s => s <| fs_disk := f (fs_disk s) |>).
Definition memory {A} (c : M kst A) : M kernel A :=
  zoom (fun s : kernel => m_mem (fs_disk s)) (fun m s => s <| fs_disk := fs_disk s <| m_mem := m |> |>) c.
Definition logged {A} (c : M lst A) : M kernel A :=
  zoom (fun s : kernel => m_log (fs_disk s)) (fun l s => s <| fs_disk := fs_disk s <| m_log := l |> |>) c.

Definition getp (p : nat) : M kernel proc := getm (fun m => m_procs m !!! p).
Definition updp (p : nat) (f : proc -> proc) : M kernel unit :=
  updm (fun m => m <| m_procs := alter f p (m_procs m) |>).
Definition getf (f : nat) : M kernel file := getm (fun m => m_files m !!! f).
Definition updf (f : nat) (g : file -> file) : M kernel unit :=
  updm (fun m => m <| m_files := alter g f (m_files m) |>).
Definition getpipe (pi : Z) : M kernel pipe := getm (fun m => m_pipes m !!! pi).
Definition updpipe (pi : Z) (f : pipe -> pipe) : M kernel unit :=
  updm (fun m => m <| m_pipes := alter f pi (m_pipes m) |>).

(** [myproc()], and its structure. *)
Definition myproc : M kernel nat := getm m_cur.
Definition me : M kernel proc := p <- myproc ;; getp p.

(** ** The disk of the kernel is the log's *)

(** A transactional disk that is part of a larger state. *)
Section lift.
Context {St Sub : Type} (get : St -> Sub) (set : Sub -> St -> St) `{D : !TxDisk Sub}.
Hypothesis get_set : forall x s, get (set x s) = x.

Definition lift_txdisk : TxDisk St.
Proof using D get_set.
  refine {|
    t_bread dev b := zoom get set (t_bread dev b);
    t_brelse i := zoom get set (t_brelse i);
    t_log_write i := zoom get set (t_log_write i);
    t_data i := zoom get (fun _ s => s) (t_data i);
    t_write i f := zoom get set (t_write i f);
    t_inv s t := t_inv (get s) t;
    t_has s i b := t_has (get s) i b;
  |}.
  - intros s t b Hi Hb Hr Hn. apply wp_zoom. eapply wp_mono; [by apply t_bread_ok|].
    intros i s' H. by rewrite !get_set.
  - intros s t i b Hi Hb. apply wp_zoom. eapply wp_mono; [by apply t_data_ok|].
    intros d s' [-> _]. done.
  - intros s t i b f Hi Hb. apply wp_zoom. eapply wp_mono; [by apply t_write_ok|].
    intros u s' H. by rewrite !get_set.
  - intros s t i b Hi Hb Hh Hm Hn. apply wp_zoom. eapply wp_mono; [by apply t_log_write_ok|].
    intros u s' H. by rewrite !get_set.
  - intros s t i b Hi Hb Hh Hc. apply wp_zoom. eapply wp_mono; [by apply t_brelse_ok|].
    intros u s' H. by rewrite !get_set.
Defined.
End lift.

#[global] Instance machine_txdisk : TxDisk machine :=
  lift_txdisk m_log (fun l m => m <| m_log := l |>) (fun _ _ => eq_refl).

(** ** User memory of the running process *)

Section copies.
Context `{Platform}.

Fixpoint store_bytes (m : mem) (a : Z) (l : list Z) : mem :=
  match l with
  | [] => m
  | v :: l' => store_bytes (wr8 m a v) (a + 1) l'
  end.

(** [copyout] and [copyin] on a kernel variable, whose bytes are given. *)
Definition copyout_var (pagetable va : Z) (bytes : list Z) : M kst Z :=
  update_mem (fun m => store_bytes m pf_local bytes) ;;;
  copyout pagetable va pf_local (Z.of_nat (length bytes)).
Definition copyin_var (pagetable : Z) (old : list Z) (va : Z) : M kst (Z * list Z) :=
  update_mem (fun m => store_bytes m pf_local old) ;;;
  r <- copyin pagetable pf_local va (Z.of_nat (length old)) ;;
  bytes <- gets (fun s => bytes_at (kmem s) pf_local (length old)) ;;
  ret (r, bytes).

Definition m_pagetable (m : machine) : Z := p_pagetable (m_procs m !!! m_cur m).
Definition m_memory {A} (c : M kst A) : M machine A :=
  zoom m_mem (fun x m => m <| m_mem := x |>) c.

#[global] Instance machine_copy : UserCopy machine := {|
  u_copyout va bytes := pt <- gets m_pagetable ;; m_memory (copyout_var pt va bytes);
  u_copyin old va := pt <- gets m_pagetable ;; m_memory (copyin_var pt old va);
|}.

(** [copyout(myproc()->pagetable, va, &x, sizeof(x))], [copyin] likewise. *)
Definition user_out (va : Z) (bytes : list Z) : M kernel Z := dk (u_copyout va bytes).
Definition user_in (old : list Z) (va : Z) : M kernel (Z * list Z) := dk (u_copyin old va).
End copies.

(** Little-endian bytes of a C integer of [n] bytes. *)
Fixpoint le_bytes (n : nat) (v : Z) : list Z :=
  match n with
  | O => []
  | S n' => v mod 256 :: le_bytes n' (v / 256)
  end.
Fixpoint le_val (l : list Z) : Z :=
  match l with
  | [] => 0
  | c :: l' => c + 256 * le_val l'
  end.
