(* ===== verification/UserMem.v ===== *)
(** * Memory of the running process as the kernel's copies see it

    [user_view] abstracts the page table of the running process to a partial map
    from virtual addresses to bytes.  [user_in] and [user_out], the forms in which
    system calls, pipes and the console use [copyin] and [copyout], are specified
    against it; their clients do not look at page tables. *)

From stdpp Require Import base list gmap strings.
From Stdlib Require Import ZArith Lia.
From S2P Require Import Prelude Mem Str Riscv Kalloc Vm VmInv VmUser VmCopy Sleeplock Bio Log TxDisk Fs Kernel.

#[local] Open Scope Z_scope.

(** ** Stepping through kernel code *)

Definition procs (s : kernel) : list proc := m_procs (fs_disk s).
Definition with_procs (l : list proc) (s : kernel) : kernel := s <| fs_disk := fs_disk s <| m_procs := l |> |>.

Lemma with_procs_twice l l' s : with_procs l (with_procs l' s) = with_procs l s.
Proof. done. Qed.
Lemma with_procs_id s : with_procs (procs s) s = s.
Proof. by destruct s as [[]]. Qed.

Lemma wp_getm {A} (f : machine -> A) Q (s : kernel) : Q (f (fs_disk s)) s -> wp (getm f) Q s.
Proof. done. Qed.
Lemma wp_updm f (Q : unit -> kernel -> Prop) s :
  Q tt (s <| fs_disk := f (fs_disk s) |>) -> wp (updm f) Q s.
Proof. done. Qed.
Lemma wp_getp i Q (s : kernel) : Q (procs s !!! i) s -> wp (getp i) Q s.
Proof. done. Qed.
Lemma wp_updp i f (Q : unit -> kernel -> Prop) s :
  Q tt (with_procs (alter f i (procs s)) s) ->
  wp (updp i f) Q s.
Proof. done. Qed.
Lemma wp_myproc Q (s : kernel) : Q (m_cur (fs_disk s)) s -> wp myproc Q s.
Proof. done. Qed.

Definition the_mem (s : kernel) : kst := m_mem (fs_disk s).
Definition with_mem (m : kst) (s : kernel) : kernel := s <| fs_disk := fs_disk s <| m_mem := m |> |>.
Lemma wp_memory {A} (c : M kst A) (Q : A -> kernel -> Prop) s :
  wp c (fun a m => Q a (with_mem m s)) (the_mem s) -> wp (memory c) Q s.
Proof. apply wp_zoom. Qed.

Ltac k_step :=
  match goal with
  | |- wp (bind _ _) _ _ => apply wp_bind
  | |- wp (ret _) _ _ => apply wp_ret
  | |- wp (when true _) _ _ => unfold when
  | |- wp (when false _) _ _ => unfold when
  | |- wp (getm _) _ _ => apply wp_getm
  | |- wp (updm _) _ _ => apply wp_updm
  | |- wp (getp _) _ _ => apply wp_getp
  | |- wp (updp _ _) _ _ => apply wp_updp
  | |- wp myproc _ _ => apply wp_myproc
  end.
Ltac k_steps := repeat k_step; cbv beta.

(** ** The view *)

Definition umem : Type := Z -> option Z.

#[global] Instance umapped_dec m N va : Decision (umapped m N va).
Proof. unfold umapped. apply _. Defined.

Definition view_of (m : mem) (N : gmap (list Z) Z) : umem :=
  fun va => if decide (umapped m N va) then Some (ubyte m N va) else None.

(** [n] bytes from [va], if all are mapped. *)
Definition u_read (u : umem) (va : Z) (n : nat) : option (list Z) :=
  mapM (fun i => u (va + Z.of_nat i)) (seq 0 n).
(** The first [k] of [bytes] stored from [va]. *)
Definition u_write (u : umem) (va : Z) (bytes : list Z) (k : Z) : umem :=
  fun a => if decide (va <= a < va + k) then Some (bytes !!! Z.to_nat (a - va)) else u a.

(** The kernel starts in RAM; its local variables live outside the pages of the
    allocator (in its image or on a kernel stack, which is mapped above RAM). *)
Class PlatformLaws `{Platform} : Prop := {
  pl_kend : KERNBASE <= pf_kend;
  pl_local : pf_local + 4096 <= pf_kend \/ PHYSTOP <= pf_local;
}.

Section view.
Context `{PlatformLaws}.

Definition user_view (s : kernel) (u : umem) : Prop :=
  exists N l D, uspace pf_kend (m_mem (fs_disk s)) (m_pagetable (fs_disk s)) N l D /\
    forall va, u va = view_of (kmem (m_mem (fs_disk s))) N va.

Lemma rd8_store_bytes m a l b :
  rd8 (store_bytes m a l) b =
    if decide (a <= b < a + Z.of_nat (length l)) then u8 (l !!! Z.to_nat (b - a)) else rd8 m b.
Proof.
  revert m a. induction l as [|v l IH]; intros m a; cbn [store_bytes length].
  - case_decide; [lia|done].
  - rewrite IH. destruct (decide (a = b)) as [->|Hne].
    + rewrite decide_False, rd8_wr8_eq, decide_True by lia. by rewrite Z.sub_diag.
    + rewrite rd8_wr8_ne by done. repeat case_decide; try lia.
      replace (Z.to_nat (b - a)) with (S (Z.to_nat (b - (a + 1)))) by lia. done.
Qed.

(** Kernel variables are not part of a page. *)
Lemma local_outside p a : page_ok pf_kend p -> pf_local <= a < pf_local + 4096 -> ~ in_page p a.
Proof using H0.
  intros (Ha & Hk & Hp) Hl Hin. unfold in_page in Hin. pose proof (aligned_mul _ Ha) as E.
  pose proof pl_local. change PHYSTOP with (4096 * 557056) in *. lia.
Qed.

Lemma uspace_page_ok s root N l D p :
  uspace pf_kend s root N l D -> is_node N p \/ p ∈ l \/ p ∈ D -> page_ok pf_kend p.
Proof.
  intros Hus [Hp|[Hp|Hp]].
  - destruct Hp as [q Hq]. destruct (us_vm _ _ _ _ _ _ Hus) as [Hpt _]. by apply (pt_page _ _ _ _ Hpt q).
  - destruct (us_vm _ _ _ _ _ _ Hus) as (_ & (_ & _ & Hok) & _). by apply (proj1 (Forall_forall _ _) Hok p).
  - destruct (us_own _ _ _ _ _ _ Hus) as (_ & Hok & _). by apply (proj1 (Forall_forall _ _) Hok p).
Qed.

(** Storing into kernel variables changes nothing a process sees. *)
Lemma uspace_local s root N l D m' :
  uspace pf_kend s root N l D ->
  (forall a, ~ pf_local <= a < pf_local + 4096 -> rd8 m' a = rd8 (kmem s) a) ->
  uspace pf_kend (Kst m' (freelist s)) root N l D /\
  (forall va, leaf m' N va = leaf (kmem s) N va) /\ forall va, view_of m' N va = view_of (kmem s) N va.
Proof using H0.
  intros Hus Hm.
  assert (forall p a, is_node N p \/ p ∈ l \/ p ∈ D -> in_page p a -> rd8 m' a = rd8 (kmem s) a) as Hp.
  { intros p a Hp Ha. apply Hm. intros Hl. by apply (local_outside p a (uspace_page_ok _ _ _ _ _ _ Hus Hp) Hl). }
  destruct (uspace_write pf_kend s m' root N l D Hus) as [Hus' Hl].
  { intros p a Hpn Ha. apply (Hp p); [tauto|done]. }
  split_and!; [done|done|]. intros va. unfold view_of.
  assert (umapped m' N va <-> umapped (kmem s) N va) as Hiff by (unfold umapped; by rewrite Hl).
  case_decide as H1; case_decide as H2; try tauto. f_equal. unfold ubyte. rewrite Hl.
  destruct (uphys_in_page pf_kend s root N l D va Hus H2) as (p & HpD & _ & E & Hin).
  apply (Hp p); [tauto|]. by unfold uphys in Hin.
Qed.

Lemma view_kept m m' N va :
  (forall va, leaf m' N va = leaf m N va) -> (umapped m N va -> ubyte m' N va = ubyte m N va) ->
  view_of m' N va = view_of m N va.
Proof.
  intros Hl Hb. unfold view_of. assert (umapped m' N va <-> umapped m N va) as Hiff by (unfold umapped; by rewrite Hl).
  case_decide; case_decide; try tauto. f_equal. auto.
Qed.

Lemma u_read_Some u va n bytes :
  u_read u va n = Some bytes <->
  length bytes = n /\ forall i, (i < n)%nat -> u (va + Z.of_nat i) = Some (bytes !!! i).
Proof.
  unfold u_read. rewrite mapM_Some, Forall2_lookup. split.
  - intros Hf. assert (length bytes = n) as Hlen.
    { assert (forall i, is_Some (bytes !! i) <-> is_Some (seq 0 n !! i)) as Hi.
      { intros i. specialize (Hf i). inversion Hf; split; intros [? ?]; eauto; done. }
      apply Nat.le_antisymm; apply Nat.nlt_ge; intros Hlt.
      - pose proof (proj1 (Hi n) ltac:(by apply lookup_lt_is_Some)) as Hx.
        apply lookup_lt_is_Some in Hx. rewrite length_seq in Hx. lia.
      - pose proof (proj2 (Hi (length bytes)) ltac:(apply lookup_lt_is_Some; by rewrite length_seq)) as Hx.
        apply lookup_lt_is_Some in Hx. lia. }
    split; [done|]. intros i Hi. specialize (Hf i). rewrite lookup_seq_lt in Hf by done.
    inversion Hf as [x y E E1 E2|]. rewrite E. by rewrite (list_lookup_total_correct _ _ _ (eq_sym E2)).
  - intros [Hlen Hu] i. destruct (decide (i < n)%nat) as [Hi|Hi].
    + rewrite lookup_seq_lt by done. rewrite list_lookup_lookup_total_lt by lia. constructor. by apply Hu.
    + rewrite !(proj2 (lookup_ge_None _ _)) by (rewrite ?length_seq; lia). constructor.
Qed.

Lemma u_read_None u va n k : (k < n)%nat -> u (va + Z.of_nat k) = None -> u_read u va n = None.
Proof.
  intros Hk E. destruct (u_read u va n) as [bytes|] eqn:R; [|done].
  apply u_read_Some in R as [_ Hu]. rewrite Hu in E by done. done.
Qed.

Lemma view_of_None m N va : ~ umapped m N va -> view_of m N va = None.
Proof. intros. unfold view_of. by rewrite decide_False. Qed.
Lemma view_of_Some m N va : umapped m N va -> view_of m N va = Some (ubyte m N va).
Proof. intros. unfold view_of. by rewrite decide_True. Qed.

Lemma user_in_spec s u old va :
  user_view s u -> 0 <= va < 2 ^ 64 -> (length old <= 4096)%nat ->
  wp (user_in old va) (fun r s' => (exists m', s' = with_mem m' s) /\ user_view s' u /\
    (r.1 = 0 /\ u_read u va (length old) = Some r.2 \/ r.1 = -1 /\ u_read u va (length old) = None)) s.
Proof using H0.
  intros (N & l & D & Hus & Hu) Hva Hold. unfold user_in, u_copyin. cbn. unfold dk. apply wp_zoom, wp_bind, wp_gets.
  unfold m_memory. apply wp_zoom. unfold copyin_var. apply wp_bind, wp_update_mem.
  set (s0 := m_mem (fs_disk s)) in *. set (root := m_pagetable (fs_disk s)) in *.
  destruct (uspace_local s0 root N l D (store_bytes (kmem s0) pf_local old) Hus) as (Hus1 & Hl1 & Hv1).
  { intros a Ha. rewrite rd8_store_bytes, decide_False by lia. done. }
  set (s1 := Kst _ _) in *. apply wp_bind.
  assert (kbuf N l D pf_local (Z.of_nat (length old))) as Hbuf.
  { intros a p Ha Hp. apply local_outside; [by eapply uspace_page_ok|lia]. }
  eapply wp_mono; [apply (copyin_spec pf_kend pl_kend s1 root N l D pf_local va (Z.of_nat (length old))); [done|done|done|lia]|].
  intros r s2 (k & (Hk & Hr) & Hc). apply wp_bind, wp_gets, wp_ret. cbn [fst snd].
  destruct (copied_in_uspace pf_kend s1 root N l D _ _ _ k s2 Hus1 Hbuf ltac:(lia) Hc) as (Hus2 & Hl2 & Hb2).
  assert (forall va, u va = view_of (kmem s1) N va) as Hu1 by (intros; rewrite Hu; symmetry; apply Hv1).
  split; [by exists s2|]. split.
  { exists N, l, D. split; [done|]. intros x. rewrite Hu1. symmetry. by apply view_kept; [|auto]. }
  destruct Hc as (_ & Hm & Hd). destruct Hr as [[-> ->]|(-> & Hlt & Hun)]; [left|right]; (split; [done|]).
  - apply u_read_Some. split; [by rewrite length_bytes_at|]. intros i Hi.
    rewrite (list_lookup_total_correct _ _ _ (lookup_bytes_at _ _ _ _ Hi)), Hu1, view_of_Some by (apply Hm; lia).
    f_equal. rewrite Hd, decide_True by lia. f_equal. lia.
  - apply (u_read_None _ _ _ (Z.to_nat k)); [lia|]. rewrite Z2Nat.id, Hu1 by lia. by apply view_of_None.
Qed.

Lemma user_out_spec s u bytes va :
  user_view s u -> 0 <= va < 2 ^ 64 -> (length bytes <= 4096)%nat -> Forall (fun c => 0 <= c < 256) bytes ->
  wp (user_out va bytes) (fun r s' => (exists m', s' = with_mem m' s) /\ exists k,
    user_view s' (u_write u va bytes k) /\ 0 <= k <= Z.of_nat (length bytes) /\
    (forall i, 0 <= i < k -> u (va + i) <> None) /\
    (r = 0 /\ k = Z.of_nat (length bytes) \/ r = -1 /\ k < Z.of_nat (length bytes) /\ u (va + k) = None)) s.
Proof using H0.
  intros (N & l & D & Hus & Hu) Hva Hlen Hby. unfold user_out, u_copyout. cbn. unfold dk. apply wp_zoom, wp_bind, wp_gets.
  unfold m_memory. apply wp_zoom. unfold copyout_var. apply wp_bind, wp_update_mem.
  set (s0 := m_mem (fs_disk s)) in *. set (root := m_pagetable (fs_disk s)) in *.
  destruct (uspace_local s0 root N l D (store_bytes (kmem s0) pf_local bytes) Hus) as (Hus1 & Hl1 & Hv1).
  { intros a Ha. rewrite rd8_store_bytes, decide_False by lia. done. }
  set (s1 := Kst _ _) in *.
  eapply wp_mono; [apply (copyout_spec pf_kend pl_kend s1 root N l D va pf_local (Z.of_nat (length bytes))); [done|done|lia|]|].
  { intros a p Ha Hp. apply local_outside; [eapply uspace_page_ok; [exact Hus|tauto]|lia]. }
  intros r s2 (k & (Hk & Hr) & Hc).
  destruct (copied_out_uspace pf_kend s1 root N l D _ _ k s2 Hus1 Hc) as [Hus2 Hl2].
  assert (forall va, u va = view_of (kmem s1) N va) as Hu1 by (intros; rewrite Hu; symmetry; apply Hv1).
  destruct Hc as (_ & _ & Hm & Hd).
  assert (forall x, umapped (kmem s2) N x <-> umapped (kmem s1) N x) as Hiff by (intros; unfold umapped; by rewrite Hl2).
  split; [by exists s2|]. exists k. split_and!; [|lia|lia| |].
  - exists N, l, D. split; [done|]. intros x. cbn. unfold u_write. case_decide as Hx.
    + rewrite view_of_Some by (apply Hiff; replace x with (va + (x - va)) by lia; apply Hm; lia). f_equal.
      rewrite Hd, decide_True by (try lia; replace x with (va + (x - va)) by lia; apply Hm; lia).
      cbn. rewrite rd8_store_bytes, decide_True by lia.
      replace (pf_local + (x - va) - pf_local) with (x - va) by lia. symmetry. apply u8_small.
      apply (proj1 (Forall_forall _ _) Hby). apply list_elem_of_lookup_total_2. lia.
    + rewrite Hu1. symmetry. apply view_kept; [done|]. intros Hx'. rewrite Hd by done. by rewrite decide_False.
  - intros i Hi. rewrite Hu1, view_of_Some by (by apply Hm). done.
  - destruct Hr as [?|(-> & ? & Hun)]; [by left|right]. split_and!; [done|done|]. rewrite Hu1. by apply view_of_None.
Qed.

Lemma user_view_range s u va c : user_view s u -> u va = Some c -> 0 <= va < 2 ^ 38 /\ 0 <= c < 256.
Proof.
  intros (N & l & D & _ & Hu) E. rewrite Hu in E. unfold view_of in E. case_decide as Hm; [|done].
  injection E as <-. destruct Hm as [Hm _]. rewrite MAXVA_val in Hm. split; [done|apply rd8_range].
Qed.

(** The addresses of mapped bytes do not wrap around. *)
Lemma user_addr s u va i w :
  user_view s u -> 0 <= va < 2 ^ 64 -> u_read u va i = Some w -> u64 (va + Z.of_nat i) = va + Z.of_nat i.
Proof.
  intros Hu Hva Hr. apply u_read_Some in Hr as [_ Hr]. destruct i as [|i]; [rewrite Z.add_0_r; by apply u64_small|].
  pose proof (user_view_range s u _ _ Hu (Hr i ltac:(lia))) as [? _]. apply u64_small. lia.
Qed.

Lemma u_read_snoc u va i w c :
  u_read u va i = Some w -> u (va + Z.of_nat i) = Some c -> u_read u va (S i) = Some (w ++ [c]).
Proof.
  intros [Hl Hr]%u_read_Some Hc. apply u_read_Some. rewrite length_app. simpl. split; [lia|].
  intros j Hj. destruct (decide (j = i)) as [->|Hne].
  - rewrite Hc. f_equal. by rewrite list_lookup_total_middle.
  - rewrite Hr by lia. f_equal. rewrite lookup_total_app_l by lia. done.
Qed.

Lemma u_read_one u va bytes : u_read u va 1 = Some bytes -> u va = Some (bytes !!! 0%nat).
Proof. intros [_ Hr]%u_read_Some. specialize (Hr 0%nat ltac:(lia)). by rewrite Z.add_0_r in Hr. Qed.
Lemma u_read_one_None u va : u_read u va 1 = None -> u va = None.
Proof. unfold u_read. simpl. rewrite Z.add_0_r. by destruct (u va). Qed.

Lemma user_view_eq s u u' : (forall va, u va = u' va) -> user_view s u -> user_view s u'.
Proof. intros E (N & l & D & Hus & Hu). exists N, l, D. split; [done|]. intros va. by rewrite <- E. Qed.

(** Bytes stored one after the other. *)
Lemma u_write_snoc u va bytes c a :
  u_write (u_write u va bytes (Z.of_nat (length bytes))) (va + Z.of_nat (length bytes)) [c] 1 a =
  u_write u va (bytes ++ [c]) (Z.of_nat (length (bytes ++ [c]))) a.
Proof.
  unfold u_write. rewrite length_app. simpl. repeat case_decide; try lia; try done.
  - rewrite (list_lookup_total_middle bytes [] c) by lia. f_equal. by replace (Z.to_nat (a - _)) with 0%nat by lia.
  - rewrite lookup_total_app_l by lia. done.
Qed.

Lemma user_addr_written s u va bytes :
  user_view s (u_write u va bytes (Z.of_nat (length bytes))) -> 0 <= va < 2 ^ 64 ->
  u64 (va + Z.of_nat (length bytes)) = va + Z.of_nat (length bytes).
Proof.
  intros Hu Hva. destruct (decide (length bytes = 0)%nat) as [->|Hne]; [rewrite Z.add_0_r; by apply u64_small|].
  pose proof (user_view_range s _ (va + Z.of_nat (length bytes) - 1) (bytes !!! (length bytes - 1)%nat) Hu) as [Hr _].
  { unfold u_write. rewrite decide_True by lia. do 2 f_equal. lia. }
  apply u64_small. lia.
Qed.

(** The running process is entry [cur] and sees [u]. *)
Definition at_proc (cur : nat) (u : umem) (s : kernel) : Prop :=
  m_cur (fs_disk s) = cur /\ (cur < length (procs s))%nat /\ user_view s u.

Lemma at_proc_ext cur u s s' :
  at_proc cur u s -> m_cur (fs_disk s') = m_cur (fs_disk s) -> length (procs s') = length (procs s) ->
  p_pagetable (procs s' !!! cur) = p_pagetable (procs s !!! cur) -> m_mem (fs_disk s') = m_mem (fs_disk s) ->
  at_proc cur u s'.
Proof.
  intros (E & Hl & Hu) Ec El Ep Em. split_and!; [congruence|lia|].
  destruct Hu as (N & l & D & Hus & Hv). exists N, l, D. unfold m_pagetable in *. rewrite Em, Ec, E. rewrite E in Hus.
  unfold procs in Ep. rewrite Ep. by split.
Qed.

Lemma at_proc_mem cur u u' s m : at_proc cur u s -> user_view (with_mem m s) u' -> at_proc cur u' (with_mem m s).
Proof. intros (E & Hl & _) Hu. by split_and!. Qed.
End view.
