(* ===== verification/Example.v ===== *)
(** * A small machine

    A kernel with one running process that has two pages of memory, on which
    properties of the kernel are exercised. *)

From stdpp Require Import base list gmap strings.
From Stdlib Require Import ZArith Lia.
From S2P Require Import Prelude Mem Str Riscv Kalloc Vm VmInv VmUser VmCopy VmProps Sleeplock Bio BioInv Log LogInv TxDisk Fs Kernel UserMem.

#[local] Open Scope Z_scope.

(** The rest of the system is a parameter. *)
Definition ex_platform (others : nat -> M kernel unit) : Platform := {|
  pf_kend := ex_end;
  pf_etext := KERNBASE + 0x8000;
  pf_trampoline := KERNBASE + 0x7000;
  pf_uservec := KERNBASE + 0x7000;
  pf_userret := KERNBASE + 0x709c;
  pf_forkret := KERNBASE + 0x19b2;
  pf_usertrap := KERNBASE + 0x2730;
  pf_kernelvec := KERNBASE + 0x5000;
  pf_local := KERNBASE;
  pf_tx_idle := fun _ => true;
  pf_claim := fun _ => 10;
  pf_others := others;
|}.

#[global] Instance ex_laws others : @PlatformLaws (ex_platform others).
Proof. constructor; [apply ex_ram|]. left. vm_compute. discriminate. Qed.

(** The running process is entry 0 of the table; entry 1 is asleep. *)
Definition ex_proc : proc :=
  inhabitant <| p_state := RUNNING |> <| p_pid := 1 |> <| p_sz := 5000 |> <| p_pagetable := ex_root |>
    <| p_trapframe := KERNBASE + 4096 |>.
Definition ex_sleeper (ch : chan) : proc :=
  inhabitant <| p_state := SLEEPING |> <| p_chan := ch |> <| p_pid := 2 |> <| p_parent := Some 0%nat |>.
Definition ex_procs (ch : chan) : list proc :=
  ex_proc :: ex_sleeper ch :: replicate 62 inhabitant.

Definition ex_cons : cons := Cons (replicate (Z.to_nat INPUT_BUF_SIZE) 0) 0 0 0.
Definition ex_uart : uart := Uart (replicate (Z.to_nat UART_TX_BUF_SIZE) 0) 0 0 [] [] 0 [] 0.
Definition ex_csrs : csrs := Csrs 0 0 0 0 0 0 0 0 0 [].

Definition ex_machine (ch : chan) : machine :=
  Machine (rebooted ∅ 1) ex_s2 (ex_procs ch) 0 (replicate NFILE inhabitant) ∅ (Some 1%nat) 3 0
    ex_cons ex_uart ex_csrs 0 0.
Definition ex_sb : superblock := Superblock FSMAGIC 1000 950 200 30 2 32 45.
Definition ex_kernel (ch : chan) : kernel := Fsst (ex_machine ch) ex_sb (replicate NINODE inhabitant) 1.

(** ** Memory of the running process *)

Definition walks_to (va : Z) : bool :=
  match walkaddr ex_root va ex_s2 with Ok pa _ => negb (pa =? 0) | _ => false end.

Lemma ex_walk_mapped N l D va :
  uspace ex_end ex_s2 ex_root N l D -> 0 <= va < MAXVA -> walks_to va = true -> umapped (kmem ex_s2) N va.
Proof.
  intros Hus Hva E. destruct (us_vm _ _ _ _ _ _ Hus) as [Hpt _]. unfold walks_to in E.
  rewrite (walkaddr_leaf ex_end ex_ram ex_s2 ex_root N va Hpt Hva) in E. unfold umapped.
  destruct (has _ PTE_V); [|discriminate E]. destruct (has _ PTE_U); [|discriminate E]. auto.
Qed.

Lemma ex_walks : walks_to 0 = true /\ walks_to 4096 = true.
Proof. vm_compute. split; reflexivity. Qed.

Lemma ex_pages_mapped N l D va :
  uspace ex_end ex_s2 ex_root N l D -> 0 <= va < 8192 -> umapped (kmem ex_s2) N va.
Proof.
  intros Hus Hva. destruct ex_walks as [W0 W4].
  pose proof (ex_walk_mapped N l D 0 Hus ltac:(rewrite MAXVA_val; lia) W0) as H0.
  pose proof (ex_walk_mapped N l D 4096 Hus ltac:(rewrite MAXVA_val; lia) W4) as H4.
  assert (PGROUNDDOWN va = 0 \/ PGROUNDDOWN va = 4096) as HP.
  { destruct (PGROUNDDOWN_spec va) as [Hm Hb]. pose proof (aligned_mul _ Hm). lia. }
  unfold umapped in *. rewrite <- (leaf_page (kmem ex_s2) N va). rewrite MAXVA_val in *.
  destruct HP as [-> | ->]; split; try tauto; lia.
Qed.

(** The trapframe is still empty. *)
Lemma ex_trapframe : rd64 (kmem ex_s2) (KERNBASE + 4096 + 112) = 0.
Proof. vm_compute. reflexivity. Qed.

(** Conversion must not evaluate the memory of the machine. *)
#[global] Opaque ex_s2.

Lemma ex_view others ch :
  exists u, @user_view (ex_platform others) (ex_kernel ch) u /\ forall va, 0 <= va < 8192 -> u va <> None.
Proof.
  destruct ex_space2 as (N & l & D & Hus & _). exists (view_of (kmem ex_s2) N). split.
  - exists N, l, D. by split.
  - intros va Hva. rewrite view_of_Some by (by eapply ex_pages_mapped). done.
Qed.
