(* ===== verification/Virtio.v ===== *)
(** * The disk driver (kernel/virtio_disk.c, kernel/virtio.h)

    The driver shares a table of descriptors and two rings with the device.
    [virtio_disk_rw] is split where it sleeps: [rw_start] hands a request to the device,
    [rw_finish] returns its descriptors after [virtio_disk_intr] has seen it completed.
    The device is given by the virtio specification: it takes chains from the ring
    of available ones, carries them out in any order and puts their heads on the
    ring of used ones.  Pointers in descriptors are the objects they point to. *)

From stdpp Require Import base list strings.
From Stdlib Require Import ZArith Lia.
From S2P Require Import Prelude Ring.

#[local] Open Scope Z_scope.

(** ** Registers and data structures (kernel/virtio.h) *)

(** The registers and their offsets. *)
Inductive mmio_reg : Type :=
  | VIRTIO_MMIO_MAGIC_VALUE | VIRTIO_MMIO_VERSION | VIRTIO_MMIO_DEVICE_ID
  | VIRTIO_MMIO_VENDOR_ID | VIRTIO_MMIO_DEVICE_FEATURES | VIRTIO_MMIO_DRIVER_FEATURES
  | VIRTIO_MMIO_QUEUE_SEL | VIRTIO_MMIO_QUEUE_NUM_MAX | VIRTIO_MMIO_QUEUE_NUM
  | VIRTIO_MMIO_QUEUE_READY | VIRTIO_MMIO_QUEUE_NOTIFY | VIRTIO_MMIO_INTERRUPT_STATUS
  | VIRTIO_MMIO_INTERRUPT_ACK | VIRTIO_MMIO_STATUS | VIRTIO_MMIO_QUEUE_DESC_LOW
  | VIRTIO_MMIO_QUEUE_DESC_HIGH | VIRTIO_MMIO_DRIVER_DESC_LOW | VIRTIO_MMIO_DRIVER_DESC_HIGH
  | VIRTIO_MMIO_DEVICE_DESC_LOW | VIRTIO_MMIO_DEVICE_DESC_HIGH.
Definition mmio_offset (x : mmio_reg) : Z :=
  match x with
  | VIRTIO_MMIO_MAGIC_VALUE => 0x000 | VIRTIO_MMIO_VERSION => 0x004
  | VIRTIO_MMIO_DEVICE_ID => 0x008 | VIRTIO_MMIO_VENDOR_ID => 0x00c
  | VIRTIO_MMIO_DEVICE_FEATURES => 0x010 | VIRTIO_MMIO_DRIVER_FEATURES => 0x020
  | VIRTIO_MMIO_QUEUE_SEL => 0x030 | VIRTIO_MMIO_QUEUE_NUM_MAX => 0x034
  | VIRTIO_MMIO_QUEUE_NUM => 0x038 | VIRTIO_MMIO_QUEUE_READY => 0x044
  | VIRTIO_MMIO_QUEUE_NOTIFY => 0x050 | VIRTIO_MMIO_INTERRUPT_STATUS => 0x060
  | VIRTIO_MMIO_INTERRUPT_ACK => 0x064 | VIRTIO_MMIO_STATUS => 0x070
  | VIRTIO_MMIO_QUEUE_DESC_LOW => 0x080 | VIRTIO_MMIO_QUEUE_DESC_HIGH => 0x084
  | VIRTIO_MMIO_DRIVER_DESC_LOW => 0x090 | VIRTIO_MMIO_DRIVER_DESC_HIGH => 0x094
  | VIRTIO_MMIO_DEVICE_DESC_LOW => 0x0a0 | VIRTIO_MMIO_DEVICE_DESC_HIGH => 0x0a4
  end.
Coercion mmio_offset : mmio_reg >-> Z.
Definition VIRTIO_CONFIG_S_ACKNOWLEDGE : Z := 1.
Definition VIRTIO_CONFIG_S_DRIVER : Z := 2.
Definition VIRTIO_CONFIG_S_DRIVER_OK : Z := 4.
Definition VIRTIO_CONFIG_S_FEATURES_OK : Z := 8.
(** The features of a device. *)
Inductive feature : Type :=
  | VIRTIO_BLK_F_RO | VIRTIO_BLK_F_SCSI | VIRTIO_BLK_F_CONFIG_WCE
  | VIRTIO_BLK_F_MQ | VIRTIO_F_ANY_LAYOUT | VIRTIO_RING_F_INDIRECT_DESC
  | VIRTIO_RING_F_EVENT_IDX.
Definition feature_bit (x : feature) : Z :=
  match x with
  | VIRTIO_BLK_F_RO => 5 | VIRTIO_BLK_F_SCSI => 7
  | VIRTIO_BLK_F_CONFIG_WCE => 11 | VIRTIO_BLK_F_MQ => 12
  | VIRTIO_F_ANY_LAYOUT => 27 | VIRTIO_RING_F_INDIRECT_DESC => 28
  | VIRTIO_RING_F_EVENT_IDX => 29
  end.
Definition NUM : Z := 8.
Definition VRING_DESC_F_NEXT : Z := 1.
Definition VRING_DESC_F_WRITE : Z := 2.
Definition VIRTIO_BLK_T_IN : Z := 0.
Definition VIRTIO_BLK_T_OUT : Z := 1.

(** What a descriptor points to: a request header, the data of a buffer, a status byte. *)
Inductive daddr : Type := NoAddr | OpAddr (i : Z) | DataAddr (b : nat) | StatusAddr (i : Z).
Record virtq_desc : Type := Desc { d_addr : daddr; d_len : Z; d_flags : Z; d_next : Z }.
Record virtio_blk_req : Type := Req { q_type : Z; q_reserved : Z; q_sector : Z }.
#[global] Instance desc_inhabited : Inhabited virtq_desc := populate (Desc NoAddr 0 0 0).
#[global] Instance req_inhabited : Inhabited virtio_blk_req := populate (Req 0 0 0).

(** The fields of [struct buf] the driver uses. *)
Record vbuf : Type := Vbuf { v_blockno : Z; v_data : list Z; v_disk : Z }.
#[global] Instance eta_vbuf : Eta vbuf := fun x => Vbuf (v_blockno x) (v_data x) (v_disk x).
#[global] Instance vbuf_inhabited : Inhabited vbuf := populate (Vbuf 0 [] 0).

(** [struct disk], the buffers, the registers written so far, and the device: the
    number of chains it has taken, those it works on, and the disk by sectors. *)
Record vdisk : Type := Vdisk {
  vd_desc : list virtq_desc;
  vd_avail_idx : Z;
  vd_avail_ring : list Z;
  vd_used_dev : Z;          (* used->idx *)
  vd_used_ring : list Z;    (* used->ring[].id *)
  vd_free : list bool;
  vd_used_idx : Z;
  vd_info_b : list (option nat);
  vd_info_status : list Z;
  vd_ops : list virtio_blk_req;
  vd_bufs : list vbuf;
  vd_mmio : list (Z * Z);
  vd_seen : Z;
  vd_taken : list Z;
  vd_platter : Z -> list Z;
}.
#[global] Instance eta_vdisk : Eta vdisk := fun x =>
  Vdisk (vd_desc x) (vd_avail_idx x) (vd_avail_ring x) (vd_used_dev x) (vd_used_ring x) (vd_free x) (vd_used_idx x)
    (vd_info_b x) (vd_info_status x) (vd_ops x) (vd_bufs x) (vd_mmio x) (vd_seen x) (vd_taken x) (vd_platter x).

Definition VD (A : Type) : Type := M vdisk A.
(** [*R(r) = v], and reading a register, whose value may depend on all writes. *)
Definition w_reg (r v : Z) : VD unit := modify (fun d => d <| vd_mmio := vd_mmio d ++ [(r, v)] |>).

Section driver.
Context (reg : list (Z * Z) -> Z -> Z).
Definition r_reg (r : Z) : VD Z := gets (fun d => reg (vd_mmio d) r).

(** ** Initialisation *)

Definition clear_bit (features : Z) (f : feature) : Z := Z.land features (Z.lnot (Z.shiftl 1 (feature_bit f))).

(** [page k] is the address of the [k]-th page from [kalloc]. *)
Definition virtio_disk_init (page : nat -> Z) : VD unit :=
  magic <- r_reg VIRTIO_MMIO_MAGIC_VALUE ;;
  version <- r_reg VIRTIO_MMIO_VERSION ;;
  id <- r_reg VIRTIO_MMIO_DEVICE_ID ;;
  vendor <- r_reg VIRTIO_MMIO_VENDOR_ID ;;
  if negb (magic =? 0x74726976) || negb (version =? 2) || negb (id =? 2) || negb (vendor =? 0x554d4551)
  then panic "could not find virtio disk"
  else
    let status := 0 in
    w_reg VIRTIO_MMIO_STATUS status ;;;
    let status := Z.lor status VIRTIO_CONFIG_S_ACKNOWLEDGE in
    w_reg VIRTIO_MMIO_STATUS status ;;;
    let status := Z.lor status VIRTIO_CONFIG_S_DRIVER in
    w_reg VIRTIO_MMIO_STATUS status ;;;
    features <- r_reg VIRTIO_MMIO_DEVICE_FEATURES ;;
    let features := fold_left clear_bit
      [VIRTIO_BLK_F_RO; VIRTIO_BLK_F_SCSI; VIRTIO_BLK_F_CONFIG_WCE; VIRTIO_BLK_F_MQ; VIRTIO_F_ANY_LAYOUT;
       VIRTIO_RING_F_EVENT_IDX; VIRTIO_RING_F_INDIRECT_DESC] features in
    w_reg VIRTIO_MMIO_DRIVER_FEATURES (u32 features) ;;;
    let status := Z.lor status VIRTIO_CONFIG_S_FEATURES_OK in
    w_reg VIRTIO_MMIO_STATUS status ;;;
    status <- r_reg VIRTIO_MMIO_STATUS ;;
    if Z.land status VIRTIO_CONFIG_S_FEATURES_OK =? 0 then panic "virtio disk FEATURES_OK unset"
    else
      w_reg VIRTIO_MMIO_QUEUE_SEL 0 ;;;
      ready <- r_reg VIRTIO_MMIO_QUEUE_READY ;;
      if nz ready then panic "virtio disk should not be ready"
      else
        max <- r_reg VIRTIO_MMIO_QUEUE_NUM_MAX ;;
        if max =? 0 then panic "virtio disk has no queue 0"
        else if max <? NUM then panic "virtio disk max queue too short"
        else if (page 0%nat =? 0) || (page 1%nat =? 0) || (page 2%nat =? 0) then panic "virtio disk kalloc"
        else
          modify (fun d => d <| vd_desc := replicate 8 (Desc NoAddr 0 0 0) |>
            <| vd_avail_idx := 0 |> <| vd_avail_ring := replicate 8 0 |>
            <| vd_used_dev := 0 |> <| vd_used_ring := replicate 8 0 |>) ;;;
          w_reg VIRTIO_MMIO_QUEUE_NUM NUM ;;;
          w_reg VIRTIO_MMIO_QUEUE_DESC_LOW (u32 (page 0%nat)) ;;;
          w_reg VIRTIO_MMIO_QUEUE_DESC_HIGH (Z.shiftr (page 0%nat) 32) ;;;
          w_reg VIRTIO_MMIO_DRIVER_DESC_LOW (u32 (page 1%nat)) ;;;
          w_reg VIRTIO_MMIO_DRIVER_DESC_HIGH (Z.shiftr (page 1%nat) 32) ;;;
          w_reg VIRTIO_MMIO_DEVICE_DESC_LOW (u32 (page 2%nat)) ;;;
          w_reg VIRTIO_MMIO_DEVICE_DESC_HIGH (Z.shiftr (page 2%nat) 32) ;;;
          w_reg VIRTIO_MMIO_QUEUE_READY 0x1 ;;;
          modify (fun d => d <| vd_free := replicate 8 true |>) ;;;
          let status := Z.lor status VIRTIO_CONFIG_S_DRIVER_OK in
          w_reg VIRTIO_MMIO_STATUS status.

(** ** Descriptors *)

Definition alloc_desc : VD Z :=
  while_ (fun i =>
    if i <? NUM then
      free <- gets vd_free ;;
      if free !!! Z.to_nat i : bool then
        modify (fun d => d <| vd_free := <[Z.to_nat i := false]> (vd_free d) |>) ;;;
        ret (Brk i)
      else ret (Next (i + 1))
    else ret (Brk (-1))) 0.

(** The [wakeup] at the end is the scheduler's: a process that waits for a descriptor
    tries again. *)
Definition free_desc (i : Z) : VD unit :=
  if NUM <=? i then panic "free_desc 1"
  else
    free <- gets vd_free ;;
    if free !!! Z.to_nat i : bool then panic "free_desc 2"
    else modify (fun d => d <| vd_desc := <[Z.to_nat i := Desc NoAddr 0 0 0]> (vd_desc d) |>
                            <| vd_free := <[Z.to_nat i := true]> (vd_free d) |>).

Definition free_chain (i : Z) : VD unit :=
  while_ (fun i =>
    x <- gets (fun d => vd_desc d !!! Z.to_nat i) ;;
    let flag := d_flags x in
    let nxt := d_next x in
    free_desc i ;;;
    if nz (Z.land flag VRING_DESC_F_NEXT) then ret (Next nxt) else ret (Brk tt)) i.

(** The loop over [idx], unrolled. *)
Definition alloc3_desc : VD (option (Z * Z * Z)) :=
  i0 <- alloc_desc ;;
  if i0 <? 0 then ret None
  else
    i1 <- alloc_desc ;;
    if i1 <? 0 then free_desc i0 ;;; ret None
    else
      i2 <- alloc_desc ;;
      if i2 <? 0 then free_desc i0 ;;; free_desc i1 ;;; ret None
      else ret (Some (i0, i1, i2)).

(** ** Requests *)

Definition set_desc (i : Z) (x : virtq_desc) : VD unit :=
  modify (fun d => d <| vd_desc := <[Z.to_nat i := x]> (vd_desc d) |>).

(** Formatting the three descriptors and publishing the chain. *)
Definition submit (b : nat) (write : bool) (i0 i1 i2 : Z) : VD unit :=
  x <- gets (fun d => vd_bufs d !!! b) ;;
  let sector := u32 (v_blockno x * 2) in
  modify (fun d => d <| vd_ops := <[Z.to_nat i0 := Req (if write then VIRTIO_BLK_T_OUT else VIRTIO_BLK_T_IN) 0 sector]> (vd_ops d) |>) ;;;
  set_desc i0 (Desc (OpAddr i0) 16 VRING_DESC_F_NEXT i1) ;;;
  set_desc i1 (Desc (DataAddr b) 1024 (Z.lor (if write then 0 else VRING_DESC_F_WRITE) VRING_DESC_F_NEXT) i2) ;;;
  modify (fun d => d <| vd_info_status := <[Z.to_nat i0 := 0xff]> (vd_info_status d) |>) ;;;
  set_desc i2 (Desc (StatusAddr i0) 1 VRING_DESC_F_WRITE 0) ;;;
  modify (fun d => d <| vd_bufs := alter (fun x => x <| v_disk := 1 |>) b (vd_bufs d) |>) ;;;
  modify (fun d => d <| vd_info_b := <[Z.to_nat i0 := Some b]> (vd_info_b d) |>) ;;;
  modify (fun d => d <| vd_avail_ring := <[Z.to_nat (vd_avail_idx d mod NUM) := i0]> (vd_avail_ring d) |>) ;;;
  modify (fun d => d <| vd_avail_idx := u16 (vd_avail_idx d + 1) |>) ;;;
  w_reg VIRTIO_MMIO_QUEUE_NOTIFY 0.

(** [virtio_disk_rw] up to the first sleep: the head of the chain, or nothing when
    there are not three free descriptors. *)
Definition rw_start (b : nat) (write : bool) : VD (option Z) :=
  idx <- alloc3_desc ;;
  match idx with
  | Some (i0, i1, i2) => submit b write i0 i1 i2 ;;; ret (Some i0)
  | None => ret None
  end.
(** And after the request has finished. *)
Definition rw_finish (i0 : Z) : VD unit :=
  modify (fun d => d <| vd_info_b := <[Z.to_nat i0 := None]> (vd_info_b d) |>) ;;;
  free_chain i0.

(** The whole of it; [sleep] is what happens while the process sleeps. *)
Definition virtio_disk_rw (sleep : VD unit) (b : nat) (write : bool) : VD unit :=
  i0 <- while_ (fun _ : unit =>
    r <- rw_start b write ;;
    match r with Some i0 => ret (Brk i0) | None => sleep ;;; ret (Next tt) end) tt ;;
  while_ (fun _ : unit =>
    x <- gets (fun d => vd_bufs d !!! b) ;;
    if v_disk x =? 1 then sleep ;;; ret (Next tt) else ret (Brk tt)) tt ;;;
  rw_finish i0.

Definition virtio_disk_intr : VD unit :=
  st <- r_reg VIRTIO_MMIO_INTERRUPT_STATUS ;;
  w_reg VIRTIO_MMIO_INTERRUPT_ACK (Z.land st 0x3) ;;;
  while_ (fun _ : unit =>
    d <- gets id ;;
    if negb (vd_used_idx d =? vd_used_dev d) then
      let id := vd_used_ring d !!! Z.to_nat (vd_used_idx d mod NUM) in
      if negb (vd_info_status d !!! Z.to_nat id =? 0) then panic "virtio_disk_intr status"
      else
        match vd_info_b d !!! Z.to_nat id with
        | None => panic "null buffer"
        | Some b =>
            modify (fun d => d <| vd_bufs := alter (fun x => x <| v_disk := 0 |>) b (vd_bufs d) |>) ;;;
            modify (fun d => d <| vd_used_idx := u16 (vd_used_idx d + 1) |>) ;;;
            ret (Next tt)
        end
    else ret (Brk tt)) tt.
End driver.

(** ** The device *)

(** It takes the next chain from the ring. *)
Definition dev_take (d : vdisk) : option vdisk :=
  if vd_seen d =? vd_avail_idx d then None
  else Some (d <| vd_taken := vd_avail_ring d !!! Z.to_nat (vd_seen d mod NUM) :: vd_taken d |>
               <| vd_seen := u16 (vd_seen d + 1) |>).

(** It carries out the chain with head [h]: header, data, status. *)
Definition dev_complete (h : Z) (d : vdisk) : option vdisk :=
  let x0 := vd_desc d !!! Z.to_nat h in
  let x1 := vd_desc d !!! Z.to_nat (d_next x0) in
  let x2 := vd_desc d !!! Z.to_nat (d_next x1) in
  if negb (bool_decide (h ∈ vd_taken d)) || negb (Z.testbit (d_flags x0) 0) || negb (Z.testbit (d_flags x1) 0) ||
     Z.testbit (d_flags x2) 0 || negb (Z.testbit (d_flags x2) 1) then None
  else
    match d_addr x0, d_addr x1, d_addr x2 with
    | OpAddr i, DataAddr b, StatusAddr k =>
        let op := vd_ops d !!! Z.to_nat i in
        if (q_type op =? VIRTIO_BLK_T_OUT) && negb (Z.testbit (d_flags x1) 1) then
          Some (d <| vd_platter := fun s => if s =? q_sector op then v_data (vd_bufs d !!! b) else vd_platter d s |>
                  <| vd_info_status := <[Z.to_nat k := 0]> (vd_info_status d) |>
                  <| vd_used_ring := <[Z.to_nat (vd_used_dev d mod NUM) := h]> (vd_used_ring d) |>
                  <| vd_used_dev := u16 (vd_used_dev d + 1) |>
                  <| vd_taken := filter (fun k => k <> h) (vd_taken d) |>)
        else if (q_type op =? VIRTIO_BLK_T_IN) && Z.testbit (d_flags x1) 1 then
          Some (d <| vd_bufs := alter (fun x => x <| v_data := vd_platter d (q_sector op) |>) b (vd_bufs d) |>
                  <| vd_info_status := <[Z.to_nat k := 0]> (vd_info_status d) |>
                  <| vd_used_ring := <[Z.to_nat (vd_used_dev d mod NUM) := h]> (vd_used_ring d) |>
                  <| vd_used_dev := u16 (vd_used_dev d + 1) |>
                  <| vd_taken := filter (fun k => k <> h) (vd_taken d) |>)
        else None
    | _, _, _ => None
    end.
