(* ===== verification/VirtioProps.v ===== *)
(** * What the disk driver guarantees (kernel/virtio_disk.c)

    Requests in flight own their three descriptors; a descriptor is marked free exactly
    when no request owns it.  A request is queued, then taken by the device, done,
    and seen by the interrupt handler.  In every interleaving of processes, device
    and interrupts, the device finds a well-formed chain that transfers the block
    the process asked for, and the driver never panics. *)

From stdpp Require Import base list sets strings.
From Stdlib Require Import ZArith Lia.
From S2P Require Import Prelude Ring Safe Virtio.

#[local] Open Scope Z_scope.

(** ** Requests in flight *)

Inductive phase : Type := Queued | Taken | Done | Seen.
#[global] Instance phase_eq_dec : EqDecision phase.
Proof. solve_decision. Defined.

Record flight : Type := Flight {
  f_head : Z; f_mid : Z; f_tail : Z;
  f_buf : nat; f_write : bool; f_sector : Z; f_phase : phase;
}.
#[global] Instance eta_flight : Eta flight := fun x =>
  Flight (f_head x) (f_mid x) (f_tail x) (f_buf x) (f_write x) (f_sector x) (f_phase x).

Definition chain (f : flight) : list Z := [f_head f; f_mid f; f_tail f].
Definition descs (fl : list flight) : list Z := concat (map chain fl).
Definition heads (p : phase) (fl : list flight) : list Z := f_head <$> filter (fun f => f_phase f = p) fl.

(** What the device and the handler find for a request. *)
Record flight_ok (d : vdisk) (f : flight) : Prop := {
  fo_head : vd_desc d !! Z.to_nat (f_head f) = Some (Desc (OpAddr (f_head f)) 16 VRING_DESC_F_NEXT (f_mid f));
  fo_mid : vd_desc d !! Z.to_nat (f_mid f) =
    Some (Desc (DataAddr (f_buf f)) 1024 (Z.lor (if f_write f then 0 else VRING_DESC_F_WRITE) VRING_DESC_F_NEXT) (f_tail f));
  fo_tail : vd_desc d !! Z.to_nat (f_tail f) = Some (Desc (StatusAddr (f_head f)) 1 VRING_DESC_F_WRITE 0);
  fo_op : vd_ops d !! Z.to_nat (f_head f) =
    Some (Req (if f_write f then VIRTIO_BLK_T_OUT else VIRTIO_BLK_T_IN) 0 (f_sector f));
  fo_sector : u32 (v_blockno (vd_bufs d !!! f_buf f) * 2) = f_sector f;
  fo_info : vd_info_b d !! Z.to_nat (f_head f) = Some (Some (f_buf f));
  fo_status : f_phase f = Done \/ f_phase f = Seen -> vd_info_status d !! Z.to_nat (f_head f) = Some 0;
  fo_data : f_phase f = Done \/ f_phase f = Seen -> v_data (vd_bufs d !!! f_buf f) = vd_platter d (f_sector f);
  fo_buf : (f_buf f < length (vd_bufs d))%nat;
  fo_disk : v_disk (vd_bufs d !!! f_buf f) = if decide (f_phase f = Seen) then 0 else 1;
}.

(** The descriptors in use are [U]. *)
Definition in_use (d : vdisk) (U : list Z) : Prop :=
  forall i, 0 <= i < NUM -> vd_free d !! Z.to_nat i = Some (bool_decide (i ∉ U)).

Record shape (d : vdisk) : Prop := {
  sh_desc : length (vd_desc d) = 8%nat;
  sh_avail : length (vd_avail_ring d) = 8%nat;
  sh_used : length (vd_used_ring d) = 8%nat;
  sh_free : length (vd_free d) = 8%nat;
  sh_info : length (vd_info_b d) = 8%nat;
  sh_status : length (vd_info_status d) = 8%nat;
  sh_ops : length (vd_ops d) = 8%nat;
  sh_seen : 0 <= vd_seen d < 2 ^ 16;
  sh_aidx : 0 <= vd_avail_idx d < 2 ^ 16;
  sh_uidx : 0 <= vd_used_idx d < 2 ^ 16;
  sh_udev : 0 <= vd_used_dev d < 2 ^ 16;
}.

(** The chains published to the device and not yet taken; those completed and not seen. *)
Definition queued (d : vdisk) : list Z :=
  rbuf NUM (vd_avail_ring d) (vd_seen d) (ahead 16 (vd_seen d) (vd_avail_idx d)).
Definition completed (d : vdisk) : list Z :=
  rbuf NUM (vd_used_ring d) (vd_used_idx d) (ahead 16 (vd_used_idx d) (vd_used_dev d)).

Record vinv (d : vdisk) (fl : list flight) : Prop := {
  vi_shape : shape d;
  vi_nodup : NoDup (descs fl);
  vi_range : Forall (fun i => 0 <= i < NUM) (descs fl);
  vi_free : in_use d (descs fl);
  vi_bufs : NoDup (f_buf <$> fl);
  vi_sectors : NoDup (f_sector <$> fl);
  vi_flights : Forall (flight_ok d) fl;
  vi_queued : queued d ≡ₚ heads Queued fl;
  vi_taken : vd_taken d ≡ₚ heads Taken fl;
  vi_done : completed d ≡ₚ heads Done fl;
}.

Lemma descs_cons f fl : descs (f :: fl) = chain f ++ descs fl.
Proof. done. Qed.
Lemma descs_perm fl fl' : fl ≡ₚ fl' -> descs fl ≡ₚ descs fl'.
Proof. intros Hp. unfold descs. induction Hp; cbn [map concat]; [done|by rewrite IHHp|apply Permutation_app_swap_app|by etrans]. Qed.
Lemma heads_perm p fl fl' : fl ≡ₚ fl' -> heads p fl ≡ₚ heads p fl'.
Proof. intros Hp. unfold heads. by rewrite Hp. Qed.
Lemma heads_cons p f fl : heads p (f :: fl) = (if decide (f_phase f = p) then [f_head f] else []) ++ heads p fl.
Proof. unfold heads. rewrite filter_cons. by destruct (decide _). Qed.

Lemma heads_hit p f fl : f_phase f = p -> heads p (f :: fl) = f_head f :: heads p fl.
Proof. intros Hp. by rewrite heads_cons, decide_True. Qed.
Lemma heads_miss p f fl : f_phase f <> p -> heads p (f :: fl) = heads p fl.
Proof. intros Hp. by rewrite heads_cons, decide_False. Qed.

Lemma vinv_perm d fl fl' : fl ≡ₚ fl' -> vinv d fl -> vinv d fl'.
Proof.
  intros Hp []. pose proof (descs_perm _ _ Hp) as Hd. split; try done.
  - by rewrite <- Hd.
  - by rewrite <- Hd.
  - intros i Hi. rewrite vi_free0 by done. f_equal. apply bool_decide_ext. by rewrite Hd.
  - by rewrite <- Hp.
  - by rewrite <- Hp.
  - by rewrite <- Hp.
  - rewrite <- (heads_perm _ _ _ Hp). done.
  - rewrite <- (heads_perm _ _ _ Hp). done.
  - rewrite <- (heads_perm _ _ _ Hp). done.
Qed.

(** Bringing a request to the front. *)
Lemma vinv_front d fl f : vinv d fl -> f ∈ fl -> exists fl', fl ≡ₚ f :: fl' /\ vinv d (f :: fl').
Proof.
  intros Hv Hf. apply elem_of_Permutation in Hf as [fl' Hp]. exists fl'. split; [done|]. by eapply vinv_perm.
Qed.
Lemma heads_elem p fl h : h ∈ heads p fl -> exists f, f ∈ fl /\ f_head f = h /\ f_phase f = p.
Proof.
  unfold heads. intros (f & -> & Hf)%list_elem_of_fmap. apply list_elem_of_filter in Hf as [Hp Hf]. by exists f.
Qed.

(** There are never more than two requests. *)
Lemma length_descs fl : length (descs fl) = (3 * length fl)%nat.
Proof. unfold descs. induction fl as [|f fl IH]; [done|]. cbn [map concat length app chain]. lia. Qed.
Lemma few d fl : vinv d fl -> (length fl <= 2)%nat.
Proof.
  intros [_ Hnd Hr _ _ _ _ _ _ _]. assert (length (descs fl) <= length (seqZ 0 8))%nat as Hl.
  { apply (NoDup_incl_length (l := descs fl)); [by apply NoDup_ListNoDup|]. intros i Hi%list_elem_of_In.
    apply list_elem_of_In, elem_of_seqZ. rewrite Forall_forall in Hr. specialize (Hr i Hi). unfold NUM in Hr. lia. }
  rewrite length_descs, length_seqZ in Hl. change (Z.to_nat 8) with 8%nat in Hl. lia.
Qed.
Lemma length_heads p fl : (length (heads p fl) <= length fl)%nat.
Proof. unfold heads. rewrite length_fmap. apply length_filter. Qed.

(** A request is not disturbed by changes elsewhere. *)
Lemma flight_ok_frame d d' f :
  flight_ok d f ->
  (forall i, i ∈ chain f -> vd_desc d' !! Z.to_nat i = vd_desc d !! Z.to_nat i) ->
  vd_ops d' !! Z.to_nat (f_head f) = vd_ops d !! Z.to_nat (f_head f) ->
  vd_info_b d' !! Z.to_nat (f_head f) = vd_info_b d !! Z.to_nat (f_head f) ->
  vd_info_status d' !! Z.to_nat (f_head f) = vd_info_status d !! Z.to_nat (f_head f) ->
  length (vd_bufs d') = length (vd_bufs d) ->
  v_blockno (vd_bufs d' !!! f_buf f) = v_blockno (vd_bufs d !!! f_buf f) ->
  v_disk (vd_bufs d' !!! f_buf f) = v_disk (vd_bufs d !!! f_buf f) ->
  v_data (vd_bufs d' !!! f_buf f) = v_data (vd_bufs d !!! f_buf f) ->
  vd_platter d' (f_sector f) = vd_platter d (f_sector f) -> flight_ok d' f.
Proof.
  intros [] Hd Ho Hi Hs Hl Hb Hk Hdt Hpl. unfold chain in Hd. split; rewrite ?Hd, ?Ho, ?Hi, ?Hl, ?Hb, ?Hk by set_solver; try done.
  - intros Hp. rewrite Hs. by apply fo_status0.
  - intros Hp. rewrite Hdt, Hpl. by apply fo_data0.
Qed.

(** ** Descriptors *)

Definition set_free (i : Z) (b : bool) (d : vdisk) : vdisk := d <| vd_free := <[Z.to_nat i := b]> (vd_free d) |>.

Lemma in_use_take d U i : in_use d U -> length (vd_free d) = 8%nat -> 0 <= i < NUM -> in_use (set_free i false d) (i :: U).
Proof.
  intros Hu Hl Hi j Hj. cbn. unfold NUM in *. destruct (decide (i = j)) as [<-|Hne].
  - rewrite list_lookup_insert_eq by lia. by rewrite bool_decide_false by set_solver.
  - rewrite list_lookup_insert_ne by lia. rewrite Hu by (unfold NUM; lia). f_equal. apply bool_decide_ext. set_solver.
Qed.
Lemma in_use_give d U i :
  in_use d (i :: U) -> i ∉ U -> length (vd_free d) = 8%nat -> 0 <= i < NUM -> in_use (set_free i true d) U.
Proof.
  intros Hu Hn Hl Hi j Hj. cbn. unfold NUM in *. destruct (decide (i = j)) as [<-|Hne].
  - rewrite list_lookup_insert_eq by lia. by rewrite bool_decide_true.
  - rewrite list_lookup_insert_ne by lia. rewrite Hu by (unfold NUM; lia). f_equal. apply bool_decide_ext. set_solver.
Qed.

Lemma in_use_ext d U U' : (forall i, i ∈ U <-> i ∈ U') -> in_use d U -> in_use d U'.
Proof. intros HU Hu i Hi. rewrite Hu by done. f_equal. apply bool_decide_ext. by rewrite HU. Qed.

Lemma all_used U : (forall i, 0 <= i < NUM -> i ∈ U) -> (8 <= length U)%nat.
Proof.
  intros HU. change 8%nat with (length (seqZ 0 8)). apply (NoDup_incl_length (l := seqZ 0 8)).
  - apply NoDup_ListNoDup, NoDup_seqZ.
  - intros i Hi%list_elem_of_In. apply list_elem_of_In, HU. apply elem_of_seqZ in Hi. unfold NUM. lia.
Qed.

Lemma alloc_desc_spec d U :
  in_use d U -> length (vd_free d) = 8%nat ->
  wp alloc_desc (fun r d' => (r = -1 /\ d' = d /\ (8 <= length U)%nat) \/ (0 <= r < NUM /\ r ∉ U /\ d' = set_free r false d)) d.
Proof.
  intros Hu Hl. unfold alloc_desc.
  apply (wp_while _ (fun i d' => 0 <= i <= NUM /\ d' = d /\ forall j, 0 <= j < i -> j ∈ U) (fun i _ => NUM - i));
    [|split_and!; [done|done|done|intros; lia]|done].
  intros i d' (Hi & -> & Hall). destruct (Z.ltb_spec i NUM).
  - wp_step. wp_step. rewrite (list_lookup_total_correct _ _ _ (Hu i ltac:(lia))).
    case_bool_decide as Hin; wp_steps; [right; by split_and!; [lia|lia| |]|]. split; [|lia]. split_and!; [lia|lia|done|].
    intros j Hj. destruct (decide (j = i)) as [->|]; [|apply Hall; lia]. by destruct (decide (i ∈ U)).
  - wp_steps. left. split_and!; [done|done|]. apply all_used. intros j Hj. apply Hall. lia.
Qed.

(** The same driver state up to descriptors that no request uses. *)
Record same_but (U : list Z) (d d' : vdisk) : Prop := {
  sb_eq : d' = d <| vd_desc := vd_desc d' |> <| vd_free := vd_free d' |>;
  sb_len : length (vd_desc d') = length (vd_desc d);
  sb_flen : length (vd_free d') = length (vd_free d);
  sb_desc : forall i, i ∈ U -> vd_desc d' !! Z.to_nat i = vd_desc d !! Z.to_nat i;
}.
Lemma same_but_refl U d : same_but U d d.
Proof. split; try done. by destruct d. Qed.
Lemma same_but_trans U d1 d2 d3 : same_but U d1 d2 -> same_but U d2 d3 -> same_but U d1 d3.
Proof.
  intros [E1 L1 F1 D1] [E2 L2 F2 D2]. split; [|congruence|congruence|].
  - rewrite E2, E1. by destruct d3.
  - intros i Hi. by rewrite D2, D1.
Qed.
Lemma same_but_set_free U d i b : same_but U d (set_free i b d).
Proof. split; try done; cbn; [by rewrite length_insert]. Qed.
Lemma same_but_weaken U U' d d' : (forall i, i ∈ U' -> i ∈ U) -> same_but U d d' -> same_but U' d d'.
Proof. intros HU []. split; auto. Qed.

Definition ranged (U : list Z) : Prop := Forall (fun i => 0 <= i < NUM) U.
Lemma ranged_ne U i j : ranged U -> 0 <= i -> i ∉ U -> j ∈ U -> Z.to_nat i <> Z.to_nat j.
Proof. unfold ranged. rewrite Forall_forall. intros HU Hi Hn Hj E. pose proof (HU _ Hj). by replace i with j in Hn by lia. Qed.

Lemma free_desc_spec d U i :
  in_use d (i :: U) -> i ∉ U -> length (vd_free d) = 8%nat -> 0 <= i < NUM -> ranged U ->
  wp (free_desc i) (fun _ d' => in_use d' U /\ same_but U d d') d.
Proof.
  intros Hu Hn Hl Hi HU. unfold free_desc. destruct (Z.leb_spec NUM i); [lia|]. wp_step. wp_step.
  rewrite (list_lookup_total_correct _ _ _ (Hu i Hi)), bool_decide_false by set_solver. wp_step.
  split; [by apply (in_use_give d)|]. split; cbn; [done|by rewrite length_insert..|].
  intros j Hj. apply list_lookup_insert_ne. by eapply ranged_ne; [done|lia|..].
Qed.

Lemma alloc3_desc_spec d U :
  in_use d U -> length (vd_free d) = 8%nat -> ranged U ->
  wp alloc3_desc (fun r d' => match r with
    | Some (i0, i1, i2) => NoDup [i0; i1; i2] /\ Forall (fun i => 0 <= i < NUM /\ i ∉ U) [i0; i1; i2] /\
        d' = set_free i2 false (set_free i1 false (set_free i0 false d))
    | None => in_use d' U /\ same_but U d d' /\ (6 <= length U)%nat
    end) d.
Proof.
  intros Hu Hl HU. unfold alloc3_desc. wp_step. eapply wp_mono; [by apply alloc_desc_spec|].
  intros r0 d0 [(-> & -> & Hall)|(Hr0 & Hn0 & ->)].
  { cbn [Z.ltb Z.compare]. wp_step. split_and!; [done|apply same_but_refl|lia]. }
  destruct (Z.ltb_spec r0 0); [lia|]. pose proof (in_use_take _ _ _ Hu Hl Hr0) as Hu0.
  assert (length (vd_free (set_free r0 false d)) = 8%nat) as Hl0 by (cbn; by rewrite length_insert).
  wp_step. eapply wp_mono; [by apply alloc_desc_spec|]. intros r1 d1 [(-> & -> & Hall)|(Hr1 & Hn1 & ->)].
  { cbn [Z.ltb Z.compare]. wp_step. eapply wp_mono; [by apply (free_desc_spec _ U)|]. intros [] d' [Hd' Hs]. wp_step.
    cbn in Hall. split_and!; [done| |lia]. eapply same_but_trans; [apply same_but_set_free|done]. }
  destruct (Z.ltb_spec r1 0); [lia|]. pose proof (in_use_take _ _ _ Hu0 Hl0 Hr1) as Hu1.
  assert (length (vd_free (set_free r1 false (set_free r0 false d))) = 8%nat) as Hl1 by (cbn; by rewrite !length_insert).
  wp_step. eapply wp_mono; [by apply alloc_desc_spec|]. intros r2 d2 [(-> & -> & Hall)|(Hr2 & Hn2 & ->)].
  { cbn [Z.ltb Z.compare]. wp_step. eapply wp_mono;
      [apply (free_desc_spec _ (r1 :: U)); [eapply in_use_ext; [|done]; set_solver|set_solver|done|done|by constructor]|].
    intros [] d' [Hd' Hs]. wp_step. pose proof (sb_flen _ _ _ Hs) as Hl'.
    eapply wp_mono; [apply (free_desc_spec _ U); [done|set_solver|congruence|done|done]|]. intros [] d'' [Hd'' Hs']. wp_step.
    cbn in Hall. split_and!; [done| |lia]. eapply same_but_trans; [apply same_but_set_free|]. eapply same_but_trans; [apply same_but_set_free|].
    eapply same_but_trans; [|done]. eapply same_but_weaken; [|done]. set_solver. }
  destruct (Z.ltb_spec r2 0); [lia|]. wp_step. split_and!; [|repeat constructor; done || set_solver|done].
  repeat constructor; set_solver.
Qed.

(** ** The rings *)

Lemma vring_push data r w c :
  length data = 8%nat -> 0 <= w < 2 ^ 16 -> (ahead 16 r w < 8)%nat ->
  rbuf NUM (<[Z.to_nat (w mod NUM) := c]> data) r (ahead 16 r (u16 (w + 1))) = rbuf NUM data r (ahead 16 r w) ++ [c].
Proof.
  intros Hl Hw Ha. unfold u16. rewrite ahead_push by lia. rewrite <- rbuf_push by (unfold NUM; lia). f_equal. f_equal.
  rewrite (ahead_eq 16 ltac:(lia) r w) at 1 by lia. rewrite mod_slot; [done|done|by exists 8192|lia].
Qed.
Lemma vring_pop data r w :
  0 <= r < 2 ^ 16 -> 0 <= w < 2 ^ 16 -> r <> w ->
  rbuf NUM data r (ahead 16 r w) = data !!! Z.to_nat (r mod NUM) :: rbuf NUM data (u16 (r + 1)) (ahead 16 (u16 (r + 1)) w).
Proof.
  intros Hr Hw Hne. destruct (ahead 16 r w) as [|n] eqn:E; [apply ahead_zero in E; try lia; congruence|].
  rewrite rbuf_pop. f_equal. unfold u16. rewrite (ahead_pop 16 ltac:(lia) _ _ _ E), rbuf_mod; [done|done|by exists 8192|lia].
Qed.
Lemma vring_empty data r w : rbuf NUM data r (ahead 16 r w) = [] -> 0 <= r < 2 ^ 16 -> 0 <= w < 2 ^ 16 -> r = w.
Proof. intros E Hr Hw. apply (f_equal length) in E. rewrite rbuf_length in E. symmetry. by apply (ahead_zero 16). Qed.

Lemma elem_chain f fl i : f ∈ fl -> i ∈ chain f -> i ∈ descs fl.
Proof.
  intros Hf Hi. unfold descs. apply list_elem_of_In, in_concat. exists (chain f). split; [|by apply list_elem_of_In].
  by apply in_map, list_elem_of_In.
Qed.
Lemma elem_head f fl : f ∈ fl -> f_head f ∈ descs fl.
Proof. intros Hf. apply (elem_chain f); [done|]. unfold chain. set_solver. Qed.
Lemma flights_frame d d' fl :
  Forall (flight_ok d) fl ->
  (forall f, f ∈ fl -> flight_ok d f -> flight_ok d' f) -> Forall (flight_ok d') fl.
Proof. rewrite !Forall_forall. intros Hf Hi f Hin. auto. Qed.

(** A failed allocation changes nothing that matters. *)
Lemma vinv_same_but d d' fl : vinv d fl -> in_use d' (descs fl) -> same_but (descs fl) d d' -> vinv d' fl.
Proof.
  intros [Hsh Hnd Hr Hfr Hb Hsec Hfl Hq Ht Hd] Hu [E Hl Hfl' Hdesc]. 
  remember (vd_desc d') as ds eqn:Eds. remember (vd_free d') as fr eqn:Efr. subst d'. cbn in *. split; try done.
  - destruct Hsh. split; cbn in *; congruence || done.
  - eapply flights_frame; [done|]. intros f Hf Hok. eapply flight_ok_frame; try done. cbn. intros i Hi. apply Hdesc.
    by eapply elem_chain.
Qed.

(** ** Submitting a request *)

(** The first sector of a buffer's block. *)
Definition sector_of (d : vdisk) (b : nat) : Z := u32 (v_blockno (vd_bufs d !!! b) * 2).

Definition submitted (b : nat) (write : bool) (i0 i1 i2 : Z) (d : vdisk) : vdisk :=
  d <| vd_desc := <[Z.to_nat i2 := Desc (StatusAddr i0) 1 VRING_DESC_F_WRITE 0]>
         (<[Z.to_nat i1 := Desc (DataAddr b) 1024 (Z.lor (if write then 0 else VRING_DESC_F_WRITE) VRING_DESC_F_NEXT) i2]>
           (<[Z.to_nat i0 := Desc (OpAddr i0) 16 VRING_DESC_F_NEXT i1]> (vd_desc d))) |>
    <| vd_ops := <[Z.to_nat i0 := Req (if write then VIRTIO_BLK_T_OUT else VIRTIO_BLK_T_IN) 0
                                     (u32 (v_blockno (vd_bufs d !!! b) * 2))]> (vd_ops d) |>
    <| vd_info_status := <[Z.to_nat i0 := 0xff]> (vd_info_status d) |>
    <| vd_bufs := alter (fun x => x <| v_disk := 1 |>) b (vd_bufs d) |>
    <| vd_info_b := <[Z.to_nat i0 := Some b]> (vd_info_b d) |>
    <| vd_avail_ring := <[Z.to_nat (vd_avail_idx d mod NUM) := i0]> (vd_avail_ring d) |>
    <| vd_avail_idx := u16 (vd_avail_idx d + 1) |>
    <| vd_mmio := vd_mmio d ++ [(mmio_offset VIRTIO_MMIO_QUEUE_NOTIFY, 0)] |>.
Lemma submit_spec b write i0 i1 i2 d Q :
  Q tt (submitted b write i0 i1 i2 d) -> wp (submit b write i0 i1 i2) Q d.
Proof. intros HQ. by destruct d. Qed.

(** The buffers other than the one altered. *)
Lemma bufs_alter_ne (g : vbuf -> vbuf) (b c : nat) l : b <> c -> (alter g b l : list vbuf) !!! c = l !!! c.
Proof. intros Hne. rewrite !list_lookup_total_alt. f_equal. by apply list_lookup_alter_ne. Qed.
Lemma bufs_alter_eq (g : vbuf -> vbuf) (b : nat) l : (b < length l)%nat -> (alter g b l : list vbuf) !!! b = g (l !!! b).
Proof.
  intros Hb. destruct (lookup_lt_is_Some_2 l b Hb) as [x Hx].
  rewrite (list_lookup_total_correct _ _ _ Hx). apply list_lookup_total_correct. by rewrite list_lookup_alter_eq, Hx.
Qed.

Section submitting.
Context (d : vdisk) (fl : list flight) (i0 i1 i2 : Z) (b : nat) (write : bool).
Hypothesis Hv : vinv d fl.
Hypothesis Hnd : NoDup [i0; i1; i2].
Hypothesis Hr : Forall (fun i => 0 <= i < NUM /\ i ∉ descs fl) [i0; i1; i2].
Hypothesis Hb : (b < length (vd_bufs d))%nat.

Let d1 := set_free i2 false (set_free i1 false (set_free i0 false d)).
Let new := Flight i0 i1 i2 b write (sector_of d b) Queued.
Let d2 := submitted b write i0 i1 i2 d1.

Lemma new_ok : flight_ok d2 new.
Proof using Hv Hnd Hr Hb.
  destruct Hv as [Hsh _ _ _ _ _ _ _ _ _]. destruct Hsh. apply Forall_cons in Hr as [[H0 _] Hr']. apply Forall_cons in Hr' as [[H1 _] Hr'].
  apply Forall_cons in Hr' as [[H2 _] _]. unfold NUM in *.
  apply NoDup_cons in Hnd as [N0 Hnd']. apply NoDup_cons in Hnd' as [N1 _].
  assert (i0 <> i1 /\ i0 <> i2 /\ i1 <> i2) as (? & ? & ?) by set_solver. split.
  - cbn. rewrite !list_lookup_insert_ne, list_lookup_insert_eq by lia. done.
  - cbn. rewrite list_lookup_insert_ne, list_lookup_insert_eq by (rewrite ?length_insert; lia). done.
  - cbn. rewrite list_lookup_insert_eq by (rewrite ?length_insert; lia). done.
  - cbn. rewrite list_lookup_insert_eq by lia. done.
  - cbn. by rewrite bufs_alter_eq.
  - cbn. rewrite list_lookup_insert_eq by lia. done.
  - intros [|]; done.
  - intros [|]; done.
  - cbn. by rewrite length_alter.
  - cbn. by rewrite bufs_alter_eq.
Qed.

Hypothesis Hbn : b ∉ f_buf <$> fl.
Hypothesis Hsn : sector_of d b ∉ f_sector <$> fl.
Lemma vinv_submitted : vinv d2 (new :: fl).
Proof using Hv Hnd Hr Hb Hbn Hsn.
  destruct Hv as [Hsh Hn Hrg Hfr Hbufs Hsecs Hfl Hq Ht Hd]. pose proof (few _ _ Hv) as Hfew.
  pose proof (Forall_lookup_1 _ _ 0%nat _ Hr eq_refl) as [R0 M0]. pose proof (Forall_lookup_1 _ _ 1%nat _ Hr eq_refl) as [R1 M1].
  pose proof (Forall_lookup_1 _ _ 2%nat _ Hr eq_refl) as [R2 M2]. destruct Hsh.
  assert (i0 <> i1 /\ i0 <> i2 /\ i1 <> i2) as (? & ? & ?).
  { apply NoDup_cons in Hnd as [N0 Hnd']. apply NoDup_cons in Hnd' as [N1 _]. set_solver. }
  split.
  - split; cbn; rewrite ?length_insert; try done. unfold u16. apply Z.mod_pos_bound. lia.
  - rewrite descs_cons. apply NoDup_app. split_and!; [done| |done]. intros i Hi Hi'. unfold chain, new in Hi. cbn in Hi. set_solver.
  - rewrite descs_cons. apply Forall_app. split; [|done]. by apply Forall_cons_2, Forall_cons_2, Forall_cons_2, Forall_nil_2.
  - eapply in_use_ext with (i2 :: i1 :: i0 :: descs fl).
    { intros i. rewrite descs_cons. unfold chain, new. cbn. set_solver. }
    apply (in_use_take (set_free i1 false (set_free i0 false d))); [|cbn; by rewrite !length_insert|done].
    apply (in_use_take (set_free i0 false d)); [|cbn; by rewrite !length_insert|done]. by apply in_use_take.
  - rewrite fmap_cons. by apply NoDup_cons.
  - rewrite fmap_cons. by apply NoDup_cons.
  - constructor; [apply new_ok|]. eapply flights_frame; [done|]. intros f Hf Hok.
    assert (f_head f ∈ descs fl) as Hh by by apply elem_head. assert (b <> f_buf f) by (intros ->; apply Hbn; by apply list_elem_of_fmap_2).
    assert (forall i j, i ∈ descs fl -> j ∉ descs fl -> 0 <= j -> Z.to_nat j <> Z.to_nat i) as Hne.
    { intros i j Hi Hj Hj'. by apply (ranged_ne (descs fl)). }
    eapply (flight_ok_frame d); [done|..]; cbn; rewrite ?length_alter, ?bufs_alter_ne by done; try done;
      try (rewrite !list_lookup_insert_ne; [done|apply Hne; done || lia..]).
    intros i Hi. rewrite !list_lookup_insert_ne; [done|apply Hne; [by eapply elem_chain|done|lia]..].
  - rewrite heads_cons. cbn. unfold queued. cbn. rewrite vring_push; [|done..|].
    + rewrite (Permutation_app_comm _ [i0]). by apply Permutation_cons.
    + assert (length (queued d) = ahead 16 (vd_seen d) (vd_avail_idx d)) as <- by apply rbuf_length.
      rewrite Hq. pose proof (length_heads Queued fl). lia.
  - by rewrite heads_cons.
  - by rewrite heads_cons.
Qed.
End submitting.

Lemma rw_start_spec d fl b write :
  vinv d fl -> (b < length (vd_bufs d))%nat -> b ∉ f_buf <$> fl -> sector_of d b ∉ f_sector <$> fl ->
  wp (rw_start b write) (fun r d' => match r with
    | Some i0 => exists i1 i2, vinv d' (Flight i0 i1 i2 b write (sector_of d b) Queued :: fl)
    | None => vinv d' fl /\ length fl = 2%nat end) d.
Proof.
  intros Hv Hb Hbn Hsn. unfold rw_start. wp_step.
  eapply wp_mono; [apply (alloc3_desc_spec _ (descs fl)); [apply Hv|apply Hv|apply Hv]|].
  intros [[[i0 i1] i2]|] d'.
  - intros (Hnd & Hr & ->). wp_step. apply submit_spec. wp_step. exists i1, i2. by apply vinv_submitted.
  - intros (Hu & Hs & Hl). wp_step. split; [by eapply vinv_same_but|]. rewrite length_descs in Hl. pose proof (few _ _ Hv). lia.
Qed.

(** ** The device *)

Definition set_phase (p : phase) (f : flight) : flight := f <| f_phase := p |>.

Lemma vinv_take d d' fl :
  vinv d fl -> dev_take d = Some d' ->
  exists f rest, fl ≡ₚ f :: rest /\ f_phase f = Queued /\ vinv d' (set_phase Taken f :: rest).
Proof.
  intros Hv. unfold dev_take. destruct (Z.eqb_spec (vd_seen d) (vd_avail_idx d)) as [|Hne]; [done|]. intros [= <-].
  destruct (vi_shape _ _ Hv). pose proof (vring_pop (vd_avail_ring d) _ _ sh_seen0 sh_aidx0 Hne) as Hpop.
  pose proof (vi_queued _ _ Hv) as Hq. unfold queued in Hq. rewrite Hpop in Hq.
  destruct (heads_elem Queued fl (vd_avail_ring d !!! Z.to_nat (vd_seen d mod NUM))) as (f & Hf & Hh & Hp);
    [rewrite <- Hq; by left|].
  destruct (vinv_front _ _ _ Hv Hf) as (rest & Hperm & Hv'). exists f, rest. split_and!; [done|done|].
  rewrite <- Hh in *. destruct Hv' as [Hsh Hn Hrg Hfr Hbufs Hsecs Hfl Hq' Ht Hd]. split; try done.
  - destruct Hsh. split; try done. cbn. unfold u16. apply Z.mod_pos_bound. lia.
  - apply Forall_cons in Hfl as [[] Hfl]. constructor; [|eapply flights_frame; [done|]; intros g _ []; by split].
    split; cbn; try done; try by intros [|]. by rewrite Hp in fo_disk0.
  - rewrite heads_cons in Hq'. rewrite decide_True in Hq' by done. unfold queued in Hq'. rewrite Hpop in Hq'.
    rewrite heads_cons. cbn. unfold queued. cbn. by apply (Permutation_cons_inv (a := f_head f)).
  - rewrite heads_cons in Ht |- *. rewrite decide_False in Ht by (by rewrite Hp). cbn. by rewrite Ht.
  - rewrite heads_cons in Hd |- *. rewrite decide_False in Hd by (by rewrite Hp). cbn. done.
Qed.

(** Carrying out a request: the transfer, the status, the used ring. *)
Definition finished (f : flight) (d : vdisk) : vdisk :=
  (if f_write f then d <| vd_platter := fun s => if s =? f_sector f then v_data (vd_bufs d !!! f_buf f) else vd_platter d s |>
   else d <| vd_bufs := alter (fun x => x <| v_data := vd_platter d (f_sector f) |>) (f_buf f) (vd_bufs d) |>)
    <| vd_info_status := <[Z.to_nat (f_head f) := 0]> (vd_info_status d) |>
    <| vd_used_ring := <[Z.to_nat (vd_used_dev d mod NUM) := f_head f]> (vd_used_ring d) |>
    <| vd_used_dev := u16 (vd_used_dev d + 1) |>
    <| vd_taken := filter (fun k => k <> f_head f) (vd_taken d) |>.

Lemma dev_complete_eq d f : flight_ok d f -> f_head f ∈ vd_taken d -> dev_complete (f_head f) d = Some (finished f d).
Proof.
  intros [] Ht. unfold dev_complete.
  rewrite (list_lookup_total_correct _ _ _ fo_head0); cbn [d_next d_flags d_addr].
  rewrite (list_lookup_total_correct _ _ _ fo_mid0); cbn [d_next d_flags d_addr].
  rewrite (list_lookup_total_correct _ _ _ fo_tail0); cbn [d_next d_flags d_addr].
  rewrite (list_lookup_total_correct _ _ _ fo_op0). rewrite bool_decide_true by done. unfold finished.
  by destruct (f_write f).
Qed.

(** Requests in flight have nothing in common. *)
Lemma vinv_apart d f rest g :
  vinv d (f :: rest) -> g ∈ rest ->
  Z.to_nat (f_head f) <> Z.to_nat (f_head g) /\ f_buf f <> f_buf g /\ f_sector f <> f_sector g.
Proof.
  intros [_ Hn Hrg _ Hb Hs _ _ _ _] Hg. rewrite descs_cons in Hn, Hrg. apply Forall_app in Hrg as [Hr0 Hr1].
  apply Forall_cons in Hr0 as [Hr0 _]. apply NoDup_app in Hn as (_ & Hn & _).
  rewrite fmap_cons in Hb. rewrite fmap_cons in Hs. apply NoDup_cons in Hb as [Hb _]. apply NoDup_cons in Hs as [Hs _]. split_and!.
  - apply (ranged_ne (descs rest)); [done|lia|apply Hn; by left|by apply elem_head].
  - intros E. apply Hb. rewrite E. by apply list_elem_of_fmap_2.
  - intros E. apply Hs. rewrite E. by apply list_elem_of_fmap_2.
Qed.
Lemma heads_nodup d fl p : vinv d fl -> NoDup (heads p fl).
Proof.
  intros [_ Hn _ _ _ _ _ _ _ _]. clear d. unfold descs in Hn.
  induction fl as [|f fl IH]; [apply NoDup_nil_2|]. cbn [map concat] in Hn. apply NoDup_app in Hn as (Hc & Hd & Hn).
  rewrite heads_cons. apply NoDup_app. split_and!; [|intros h Hh Hh'|by apply IH].
  - destruct (decide _); [apply NoDup_singleton|apply NoDup_nil_2].
  - destruct (decide _); [|set_solver]. apply list_elem_of_singleton in Hh as ->. apply (Hd (f_head f)); [by left|].
    apply heads_elem in Hh' as (g & Hg & <- & _). by apply elem_head.
Qed.

Lemma filter_absent (h : Z) (l : list Z) : h ∉ l -> filter (fun k => k <> h) l = l.
Proof.
  induction l as [|k l IH]; [done|]. intros Hn. rewrite filter_cons_True by set_solver. rewrite IH by set_solver. done.
Qed.

Lemma finished_ok d f : shape d -> 0 <= f_head f < NUM -> flight_ok d f -> f_phase f = Taken ->
  flight_ok (finished f d) (set_phase Done f).
Proof.
  intros [] Hr [] Hp. unfold NUM in Hr. rewrite Hp in fo_disk0. unfold finished.
  destruct (f_write f) eqn:Hw; split; cbn; rewrite ?Hw, ?length_alter, ?bufs_alter_eq by done; cbn; try done;
    try (intros _; apply list_lookup_insert_eq; lia). by rewrite Z.eqb_refl.
Qed.

Lemma finished_frame d f g : Z.to_nat (f_head f) <> Z.to_nat (f_head g) -> f_buf f <> f_buf g -> f_sector f <> f_sector g ->
  flight_ok d g -> flight_ok (finished f d) g.
Proof.
  intros Hh Hb Hs Hok. unfold finished.
  destruct (f_write f) eqn:Hw; apply (flight_ok_frame d); try done; cbn; rewrite ?length_alter, ?bufs_alter_ne by done; try done;
    try by apply list_lookup_insert_ne.
  destruct (Z.eqb_spec (f_sector g) (f_sector f)); congruence.
Qed.

Lemma vinv_finished d f rest :
  vinv d (f :: rest) -> f_phase f = Taken -> vinv (finished f d) (set_phase Done f :: rest).
Proof.
  intros Hv Hp. pose proof (few _ _ Hv) as Hfew. pose proof (fun g => vinv_apart _ _ _ g Hv) as Hap. pose proof (heads_nodup _ _ Taken Hv) as Hnd.
  destruct Hv as [Hsh Hn Hrg Hfr Hbufs Hsecs Hfl Hq Ht Hd].
  rewrite heads_miss in Hq by by rewrite Hp. rewrite heads_hit in Ht by done. rewrite heads_hit in Hnd by done.
  rewrite heads_miss in Hd by by rewrite Hp. split; rewrite ?heads_miss, ?heads_hit by done; try done.
  - destruct Hsh. unfold finished. destruct (f_write f); split; cbn; rewrite ?length_insert; try done; apply Z.mod_pos_bound; lia.
  - unfold finished. by destruct (f_write f).
  - apply Forall_cons in Hfl as [Hf Hfl]. constructor.
    + apply finished_ok; try done. rewrite descs_cons in Hrg. by apply Forall_cons in Hrg as [? _].
    + eapply flights_frame; [done|]. intros g Hg. by apply finished_frame; apply Hap.
  - unfold finished. by destruct (f_write f).
  - assert (vd_taken (finished f d) = filter (fun k => k <> f_head f) (vd_taken d)) as -> by by unfold finished; destruct (f_write f).
    cbn. rewrite Ht. rewrite filter_cons_False by tauto. apply NoDup_cons in Hnd as [Hnd _].
    by rewrite filter_absent.
  - assert (completed (finished f d) = completed d ++ [f_head f]) as ->.
    + destruct Hsh. transitivity (rbuf NUM (<[Z.to_nat (vd_used_dev d mod NUM) := f_head f]> (vd_used_ring d)) (vd_used_idx d)
        (ahead 16 (vd_used_idx d) (u16 (vd_used_dev d + 1)))); [by unfold finished; destruct (f_write f)|].
      rewrite vring_push; [done|done|done|].
      assert (length (completed d) = ahead 16 (vd_used_idx d) (vd_used_dev d)) as <- by apply rbuf_length.
      rewrite Hd. cbn. pose proof (length_heads Done rest). cbn in Hfew. lia.
    + cbn. rewrite (Permutation_app_comm _ [f_head f]), Hd. done.
Qed.

(** ** The interrupt handler *)

(** What a process remembers of its request. *)
Definition reqs (fl : list flight) : list (Z * nat * bool) := (fun f => (f_head f, f_buf f, f_write f)) <$> fl.

Definition acked (b : nat) (d : vdisk) : vdisk :=
  d <| vd_bufs := alter (fun x => x <| v_disk := 0 |>) b (vd_bufs d) |> <| vd_used_idx := u16 (vd_used_idx d + 1) |>.

Lemma vinv_acked d f rest h l :
  vinv d (f :: rest) -> f_phase f = Done -> f_head f = h -> vd_used_idx d <> vd_used_dev d ->
  completed d = h :: l -> vinv (acked (f_buf f) d) (set_phase Seen f :: rest).
Proof.
  intros Hv Hp <- Hne Hc. pose proof (fun g => vinv_apart _ _ _ g Hv) as Hap.
  destruct Hv as [Hsh Hn Hrg Hfr Hbufs Hsecs Hfl Hq Ht Hd].
  rewrite heads_miss in Hq by by rewrite Hp. rewrite heads_miss in Ht by by rewrite Hp. rewrite heads_hit in Hd by done.
  split; rewrite ?heads_miss by done; try done.
  - destruct Hsh. split; try done. apply Z.mod_pos_bound. lia.
  - apply Forall_cons in Hfl as [[] Hfl]. constructor.
    + split; cbn; rewrite ?length_alter, ?bufs_alter_eq by done; try done; intros _; cbn; auto.
    + eapply flights_frame; [done|]. intros g Hg Hok. destruct (Hap g Hg) as (_ & Hb & _).
      apply (flight_ok_frame d); cbn; rewrite ?length_alter, ?bufs_alter_ne by done; done.
  - destruct Hsh. unfold completed in Hc, Hd. rewrite vring_pop in Hc, Hd by done. injection Hc as Hh Hl.
    unfold completed. cbn. rewrite Hl. rewrite Hh, Hl in Hd. by apply Permutation_cons_inv in Hd.
Qed.

Lemma vinv_mmio d fl m : vinv d fl -> vinv (d <| vd_mmio := m |>) fl.
Proof.
  intros [[] ? ? ? ? ? Hfl ? ? ?]. split; try done. eapply flights_frame; [done|]. intros f _ []. by split.
Qed.

Section intr.
Context (reg : list (Z * Z) -> Z -> Z).

Lemma virtio_disk_intr_spec d fl :
  vinv d fl ->
  wp (virtio_disk_intr reg) (fun _ d' => exists fl', vinv d' fl' /\ reqs fl' ≡ₚ reqs fl /\ completed d' = []) d.
Proof.
  intros Hv. unfold virtio_disk_intr, r_reg, w_reg. wp_step. wp_step. wp_step. wp_step.
  apply (wp_while _ (fun _ d' => exists fl', vinv d' fl' /\ reqs fl' ≡ₚ reqs fl)
    (fun _ d' => Z.of_nat (ahead 16 (vd_used_idx d') (vd_used_dev d')))).
  - intros [] d1 (fl1 & Hv1 & Hr1). wp_step. wp_step. unfold id.
    destruct (Z.eqb_spec (vd_used_idx d1) (vd_used_dev d1)) as [E|Hne]; cbn [negb].
    + wp_step. exists fl1. split_and!; [done|done|]. unfold completed. by rewrite E, ahead_refl.
    + pose proof (vi_shape _ _ Hv1) as Hsh. destruct Hsh. pose proof (vring_pop (vd_used_ring d1) _ _ sh_uidx0 sh_udev0 Hne) as Hpop.
      set (h := vd_used_ring d1 !!! Z.to_nat (vd_used_idx d1 mod NUM)) in *.
      destruct (heads_elem Done fl1 h) as (f & Hf & Hh & Hp).
      { rewrite <- (vi_done _ _ Hv1). unfold completed. rewrite Hpop. by left. }
      destruct (vinv_front _ _ _ Hv1 Hf) as (rest & Hperm & Hv'). pose proof (vi_flights _ _ Hv') as Hok.
      apply Forall_cons in Hok as [Hok _]. rewrite <- Hh. destruct Hok.
      rewrite (list_lookup_total_correct _ _ _ (fo_status0 (or_introl Hp))), (list_lookup_total_correct _ _ _ fo_info0).
      change (negb (0 =? 0)) with false. cbn match. wp_step. wp_step. wp_step. split.
      * exists (set_phase Seen f :: rest). split; [by apply (vinv_acked d1 f rest h _ Hv' Hp Hh Hne Hpop)|]. rewrite <- Hr1. unfold reqs. by rewrite Hperm.
      * cbn. destruct (ahead 16 (vd_used_idx d1) (vd_used_dev d1)) as [|n] eqn:E.
        { done. }
        unfold u16. rewrite (ahead_pop 16 ltac:(lia) _ _ _ E). lia.
  - exists fl. split; [|done]. by apply vinv_mmio.
  - unfold ahead. pose proof (Z.mod_pos_bound (vd_used_dev d - vd_used_idx d) (2 ^ 16)). cbn. lia.
Qed.
End intr.

(** ** Finishing a request *)

(** The chain of a request, freed from its [k]-th descriptor on. *)
Lemma free_chain_spec d0 d f U :
  flight_ok d0 f -> vd_desc d = vd_desc d0 -> NoDup (chain f ++ U) -> ranged (chain f ++ U) -> in_use d (chain f ++ U) ->
  length (vd_free d) = 8%nat ->
  wp (free_chain (f_head f)) (fun _ d' => in_use d' U /\ same_but U d d') d.
Proof.
  intros Hok Hds Hnd Hr Hu Hl. unfold free_chain.
  apply (wp_while_idx _ (fun n i d' => exists k, (k < 3)%nat /\ n = 3 - Z.of_nat k /\ chain f !! k = Some i /\
    in_use d' (drop k (chain f) ++ U) /\ same_but (drop k (chain f) ++ U) d d')) with 3; [|by exists 0%nat; split_and!; try lia; try apply same_but_refl|lia].
  intros n i d' (k & Hk & -> & Hi & Hu' & Hs). pose proof (drop_S _ _ _ Hi) as Hdrop. rewrite Hdrop in Hu', Hs.
  cbn [app] in Hu', Hs.
  assert (NoDup (i :: drop (S k) (chain f) ++ U) /\ ranged (i :: drop (S k) (chain f) ++ U)) as [Hnd' Hr'].
  { rewrite <- (take_drop k (chain f)), <- app_assoc, Hdrop in Hnd, Hr. apply NoDup_app in Hnd as (_ & _ & Hnd).
    by apply Forall_app in Hr as [_ Hr]. }
  apply NoDup_cons in Hnd' as [Hn _]. apply Forall_cons in Hr' as [Hir Hr'].
  wp_step. wp_step. rewrite list_lookup_total_alt. rewrite (sb_desc _ _ _ Hs i ltac:(by left)), Hds.
  rewrite <- list_lookup_total_alt. wp_step.
  eapply wp_mono; [apply (free_desc_spec _ (drop (S k) (chain f) ++ U)); [done|done| |done|done]|].
  { by rewrite (sb_flen _ _ _ Hs). }
  intros [] d'' [Hu'' Hs'']. assert (same_but (drop (S k) (chain f) ++ U) d d'') as Hs2.
  { eapply same_but_trans; [|done]. eapply same_but_weaken; [|done]. set_solver. }
  destruct Hok. destruct k as [|[|[|k]]]; [..|lia]; injection Hi as <-.
  - rewrite (list_lookup_total_correct _ _ _ fo_head0). cbn [d_flags d_next].
    change (nz (Z.land VRING_DESC_F_NEXT VRING_DESC_F_NEXT)) with true. cbn match. wp_step. exists 2. split; [|lia]. by exists 1%nat; split_and!; try lia.
  - rewrite (list_lookup_total_correct _ _ _ fo_mid0). cbn [d_flags d_next].
    assert (nz (Z.land (Z.lor (if f_write f then 0 else VRING_DESC_F_WRITE) VRING_DESC_F_NEXT) VRING_DESC_F_NEXT) = true)
      as -> by by destruct (f_write f).
    cbn match. wp_step. exists 1. split; [|lia]. by exists 2%nat; split_and!; try lia.
  - rewrite (list_lookup_total_correct _ _ _ fo_tail0). cbn [d_flags d_next].
    change (nz (Z.land VRING_DESC_F_WRITE VRING_DESC_F_NEXT)) with false. cbn match. by wp_step.
Qed.

(** A request that is over leaves the others as they are. *)
Lemma vinv_drop d f rest fr h :
  vinv d (f :: rest) -> f_phase f = Seen -> h = f_head f -> length fr = 8%nat ->
  in_use (d <| vd_info_b := <[Z.to_nat h := None]> (vd_info_b d) |> <| vd_free := fr |>) (descs rest) ->
  vinv (d <| vd_info_b := <[Z.to_nat h := None]> (vd_info_b d) |> <| vd_free := fr |>) rest.
Proof.
  intros Hv Hp -> Hl Hu. pose proof (fun g => vinv_apart _ _ _ g Hv) as Hap.
  destruct Hv as [Hsh Hn Hrg Hfr Hbufs Hsecs Hfl Hq Ht Hd].
  rewrite heads_miss in Hq, Ht, Hd by by rewrite Hp.
  rewrite descs_cons in Hn, Hrg. apply NoDup_app in Hn as (_ & _ & Hn). apply Forall_app in Hrg as [_ Hrg].
  rewrite fmap_cons in Hbufs. rewrite fmap_cons in Hsecs. apply NoDup_cons in Hbufs as [_ Hbufs]. apply NoDup_cons in Hsecs as [_ Hsecs].
  split; try done.
  - destruct Hsh. split; cbn; rewrite ?length_insert; done.
  - apply Forall_cons in Hfl as [_ Hfl]. eapply flights_frame; [done|]. intros g Hg Hok. destruct (Hap g Hg) as (Hh & _ & _).
    apply (flight_ok_frame d); try done. cbn. by apply list_lookup_insert_ne.
Qed.

Lemma rw_finish_spec d f rest :
  vinv d (f :: rest) -> f_phase f = Seen ->
  wp (rw_finish (f_head f)) (fun _ d' => vinv d' rest /\ vd_bufs d' = vd_bufs d /\ vd_platter d' = vd_platter d) d.
Proof.
  intros Hv Hp. unfold rw_finish. wp_step. wp_step. pose proof (vi_flights _ _ Hv) as Hok. apply Forall_cons in Hok as [Hok _].
  eapply wp_mono; [apply (free_chain_spec d _ f (descs rest) Hok);
    [done|exact (vi_nodup _ _ Hv)|exact (vi_range _ _ Hv)|exact (vi_free _ _ Hv)|exact (sh_free _ (vi_shape _ _ Hv))]|].
  intros [] d' [Hu [E Hl Hfl Hds]]. remember (vd_desc d') as ds eqn:Eds. remember (vd_free d') as fr eqn:Efr.
  clear Eds Efr. subst d'. split; [|done].
  apply (vinv_same_but (d <| vd_info_b := <[Z.to_nat (f_head f) := None]> (vd_info_b d) |> <| vd_free := fr |>)); [|done|by split].
  apply (vinv_drop d f); try done. rewrite Hfl. apply Hv.
Qed.

(** Processes change buffers that are not in flight. *)
Lemma vinv_bufs d fl l :
  vinv d fl -> length l = length (vd_bufs d) -> (forall b, b ∈ f_buf <$> fl -> l !!! b = vd_bufs d !!! b) ->
  vinv (d <| vd_bufs := l |>) fl.
Proof.
  intros [[] ? ? ? ? ? Hfl ? ? ?] Hl Hb. split; try done. eapply flights_frame; [done|]. intros f Hf Hok.
  apply (flight_ok_frame d); try done; cbn; by rewrite Hb by by apply list_elem_of_fmap_2.
Qed.

(** ** Initialisation *)

(** The driver's data as the kernel is loaded, and a device that has not started. *)
Record powered_on (d : vdisk) : Prop := {
  po_info : length (vd_info_b d) = 8%nat;
  po_status : length (vd_info_status d) = 8%nat;
  po_ops : length (vd_ops d) = 8%nat;
  po_used : vd_used_idx d = 0;
  po_seen : vd_seen d = 0;
  po_taken : vd_taken d = [];
}.

Section init.
Context (reg : list (Z * Z) -> Z -> Z) (page : nat -> Z).

(** Writing to a register keeps what does not depend on the registers. *)
Lemma safe_w_reg {A} (P : vdisk -> Prop) r v (k : VD A) Q d :
  (forall d m, P d -> P (d <| vd_mmio := m |>)) -> P d ->
  (forall d', P d' -> safe k Q d') -> safe (w_reg r v ;;; k) Q d.
Proof. intros Hst HP Hk. unfold w_reg. safe_step. safe_step. by apply Hk, Hst. Qed.

Lemma powered_on_mmio d m : powered_on d -> powered_on (d <| vd_mmio := m |>).
Proof. intros []. by split. Qed.

Lemma virtio_disk_init_spec d :
  powered_on d -> safe (virtio_disk_init reg page) (fun _ d' => vinv d' []) d.
Proof.
  intros Hd. unfold virtio_disk_init, r_reg.
  do 4 (safe_step; safe_step). destruct (_ || _); [done|].
  do 3 (apply (safe_w_reg powered_on); [apply powered_on_mmio|done|clear Hd; intros ? Hd]).
  safe_step. safe_step.
  do 2 (apply (safe_w_reg powered_on); [apply powered_on_mmio|done|clear Hd; intros ? Hd]).
  safe_step. safe_step. destruct (_ =? 0); [done|].
  apply (safe_w_reg powered_on); [apply powered_on_mmio|done|clear Hd; intros ? Hd].
  safe_step. safe_step. destruct (nz _); [done|]. safe_step. safe_step. destruct (_ =? 0); [done|]. destruct (_ <? _); [done|].
  destruct (_ || _); [done|]. safe_step. safe_step.
  set (P := fun d : vdisk => vinv (d <| vd_free := replicate 8 true |>) []).
  assert (forall d m, P d -> P (d <| vd_mmio := m |>)) as HPm.
  { intros e m HP. exact (vinv_mmio (e <| vd_free := replicate 8 true |>) [] m HP). }
  match goal with |- safe _ _ ?d0 => assert (P d0) as HP; [|revert HP; generalize d0] end.
  { destruct Hd. split; cbn; try done; try apply NoDup_nil_2.
    - split; cbn; lia || done.
    - intros i Hi. cbn. unfold NUM in Hi. rewrite bool_decide_true by set_solver. apply (lookup_replicate_2 8). lia.
    - unfold queued. cbn. by rewrite po_seen0.
    - by rewrite po_taken0.
    - unfold completed. cbn. by rewrite po_used0. }
  clear Hd. intros ? HP.
  do 8 (apply (safe_w_reg P); [done|done|clear HP; intros ? HP]).
  safe_step. safe_step. unfold w_reg. safe_step. by apply vinv_mmio.
Qed.
End init.
