(* ===== verification/VirtioRun.v ===== *)
(** * Interleavings of processes, disk and interrupts (kernel/virtio_disk.c)

    [reach] lets any number of processes start and finish requests, the interrupt
    handler run, and the device take and carry out chains, in any order.  The device
    is a parameter; [documented] is what the virtio specification promises about it,
    and only for chains that have the form it asks for. *)

From stdpp Require Import base list sets strings.
From Stdlib Require Import ZArith Lia.
From S2P Require Import Prelude Ring Safe Virtio VirtioProps.

#[local] Open Scope Z_scope.

(** The device takes a chain, or carries out one it has taken; a malformed chain
    allows it anything. *)
Definition documented (device : vdisk -> vdisk -> Prop) : Prop :=
  forall d d', device d d' ->
    dev_take d = Some d' \/
    exists h, h ∈ vd_taken d /\ (dev_complete h d = Some d' \/ dev_complete h d = None).

(** A process holds the lock of the buffer it transfers, and a block has one buffer. *)
Definition may_start (d : vdisk) (ps : list (Z * nat * bool)) (b : nat) : Prop :=
  (b < length (vd_bufs d))%nat /\ forall i c w, (i, c, w) ∈ ps -> c <> b /\ sector_of d c <> sector_of d b.

Section run.
Context (reg : list (Z * Z) -> Z -> Z) (page : nat -> Z) (device : vdisk -> vdisk -> Prop).

(** The processes that wait in [virtio_disk_rw], with what they asked for. *)
Inductive reach : vdisk -> list (Z * nat * bool) -> Prop :=
| reach_init d d' : powered_on d -> virtio_disk_init reg page d = Ok tt d' -> reach d' []
| reach_start d ps b w i d' :
    reach d ps -> may_start d ps b -> rw_start b w d = Ok (Some i) d' -> reach d' ((i, b, w) :: ps)
| reach_full d ps b w d' :
    reach d ps -> may_start d ps b -> rw_start b w d = Ok None d' -> reach d' ps
| reach_intr d ps d' : reach d ps -> virtio_disk_intr reg d = Ok tt d' -> reach d' ps
| reach_finish d ps qs i b w d' :
    reach d ps -> ps ≡ₚ (i, b, w) :: qs -> v_disk (vd_bufs d !!! b) <> 1 ->
    rw_finish i d = Ok tt d' -> reach d' qs
| reach_device d ps d' : reach d ps -> device d d' -> reach d' ps
| reach_caller d ps l :
    reach d ps -> length l = length (vd_bufs d) ->
    (forall i b w, (i, b, w) ∈ ps -> l !!! b = vd_bufs d !!! b) -> reach (d <| vd_bufs := l |>) ps.

(** The waiting processes and the requests in flight. *)
Definition waits (d : vdisk) (ps : list (Z * nat * bool)) : Prop := exists fl, vinv d fl /\ reqs fl ≡ₚ ps.

Lemma elem_reqs fl i b w :
  (i, b, w) ∈ reqs fl <-> exists f, f ∈ fl /\ f_head f = i /\ f_buf f = b /\ f_write f = w.
Proof.
  unfold reqs. rewrite list_elem_of_fmap. split.
  - intros (f & [= -> -> ->] & Hf). by exists f.
  - intros (f & Hf & <- & <- & <-). by exists f.
Qed.

Lemma flight_in d fl f : vinv d fl -> f ∈ fl -> flight_ok d f.
Proof. intros Hv. apply Forall_forall, Hv. Qed.

Lemma may_start_fresh d fl ps b :
  vinv d fl -> reqs fl ≡ₚ ps -> may_start d ps b ->
  (b < length (vd_bufs d))%nat /\ b ∉ f_buf <$> fl /\ sector_of d b ∉ f_sector <$> fl.
Proof.
  intros Hv Hr [Hb Hps]. split_and!; [done|..]; intros (f & E & Hf)%list_elem_of_fmap;
    destruct (Hps (f_head f) (f_buf f) (f_write f)) as [H1 H2];
    try (rewrite <- Hr; apply elem_reqs; by exists f).
  - done.
  - apply H2. rewrite E. apply (fo_sector _ _ (flight_in _ _ _ Hv Hf)).
Qed.

Lemma waits_start d ps b w :
  waits d ps -> may_start d ps b ->
  wp (rw_start b w) (fun r d' => match r with
    | Some i => waits d' ((i, b, w) :: ps)
    | None => waits d' ps /\ length ps = 2%nat end) d.
Proof.
  intros (fl & Hv & Hr) Hm. destruct (may_start_fresh _ _ _ _ Hv Hr Hm) as (Hb & Hbn & Hs).
  eapply wp_mono; [by apply (rw_start_spec d fl)|]. intros [i|] d'.
  - intros (i1 & i2 & Hv'). eexists. split; [done|]. unfold reqs. cbn. by rewrite <- Hr.
  - intros [Hv' Hl]. split; [by exists fl|]. rewrite <- Hr. unfold reqs. by rewrite length_fmap.
Qed.

Lemma waits_intr d ps : waits d ps -> wp (virtio_disk_intr reg) (fun _ d' => waits d' ps /\ completed d' = []) d.
Proof.
  intros (fl & Hv & Hr). eapply wp_mono; [by apply virtio_disk_intr_spec|]. intros [] d' (fl' & Hv' & Hr' & Hc).
  split; [|done]. exists fl'. by rewrite Hr'.
Qed.

(** A request whose buffer the handler released. *)
Lemma waits_over d ps i b w :
  waits d ps -> (i, b, w) ∈ ps -> v_disk (vd_bufs d !!! b) <> 1 ->
  exists f rest, vinv d (f :: rest) /\ reqs (f :: rest) ≡ₚ ps /\ f_phase f = Seen /\
    f_head f = i /\ f_buf f = b /\ f_write f = w.
Proof.
  intros (fl & Hv & Hr) Hin Hd. rewrite <- Hr in Hin. apply elem_reqs in Hin as (f & Hf & Hi & Hb & Hw).
  destruct (vinv_front _ _ _ Hv Hf) as (rest & Hp & Hv'). exists f, rest. split_and!; try done.
  - rewrite <- Hr. unfold reqs. by rewrite Hp.
  - pose proof (fo_disk _ _ (flight_in _ _ _ Hv Hf)) as E. rewrite Hb in E. by destruct (decide (f_phase f = Seen)).
Qed.

Lemma waits_finish d ps qs i b w :
  waits d ps -> ps ≡ₚ (i, b, w) :: qs -> v_disk (vd_bufs d !!! b) <> 1 -> wp (rw_finish i) (fun _ d' => waits d' qs) d.
Proof.
  intros Hw Hp Hd. destruct (waits_over d ps i b w) as (f & rest & Hv & Hr & Hs & <- & <- & <-); [done|rewrite Hp; by left|done|].
  eapply wp_mono; [by apply rw_finish_spec|]. intros [] d' (Hv' & _). exists rest. split; [done|].
  rewrite Hp in Hr. unfold reqs in Hr. cbn in Hr. by apply Permutation_cons_inv in Hr.
Qed.

(** A chain the device has taken is a request of a process, and well formed. *)
Lemma waits_taken d ps h :
  waits d ps -> h ∈ vd_taken d ->
  exists f rest, vinv d (f :: rest) /\ reqs (f :: rest) ≡ₚ ps /\ f_phase f = Taken /\ f_head f = h /\
    dev_complete h d = Some (finished f d).
Proof.
  intros (fl & Hv & Hr) Hh. pose proof Hh as Ht. rewrite (vi_taken _ _ Hv) in Ht. apply heads_elem in Ht as (f & Hf & <- & Hp).
  destruct (vinv_front _ _ _ Hv Hf) as (rest & Hpm & Hv'). exists f, rest. split_and!; try done.
  - rewrite <- Hr. unfold reqs. by rewrite Hpm.
  - apply dev_complete_eq; [|done]. by apply (flight_in d fl).
Qed.

Lemma waits_device d ps d' : documented device -> waits d ps -> device d d' -> waits d' ps.
Proof.
  intros Hdoc Hw Hd. destruct (Hdoc _ _ Hd) as [Ht|(h & Hh & Hc)].
  - destruct Hw as (fl & Hv & Hr). destruct (vinv_take _ _ _ Hv Ht) as (f & rest & Hp & _ & Hv'). eexists. split; [done|].
    rewrite <- Hr. unfold reqs. by rewrite Hp.
  - destruct (waits_taken _ _ _ Hw Hh) as (f & rest & Hv & Hr & Hp & _ & E). rewrite E in Hc. destruct Hc as [[= <-]|?]; [|done].
    eexists. split; [by apply vinv_finished|done].
Qed.

Lemma reach_waits d ps : documented device -> reach d ps -> waits d ps.
Proof.
  intros Hdoc. induction 1 as [d d' Hpo E|d ps b w i d' _ IH Hm E|d ps b w d' _ IH Hm E|d ps d' _ IH E|d ps qs i b w d' _ IH Hp Hd E
    |d ps d' _ IH E|d ps l _ IH Hl Hb].
  - exists []. split; [|done]. exact (safe_at _ _ _ _ _ (virtio_disk_init_spec reg page d Hpo) E).
  - exact (wp_at _ _ _ _ _ (waits_start d ps b w IH Hm) E).
  - exact (proj1 (wp_at _ _ _ _ _ (waits_start d ps b w IH Hm) E)).
  - exact (proj1 (wp_at _ _ _ _ _ (waits_intr d ps IH) E)).
  - exact (wp_at _ _ _ _ _ (waits_finish d ps qs i b w IH Hp Hd) E).
  - by eapply waits_device.
  - destruct IH as (fl & Hv & Hr). exists fl. split; [|done]. apply vinv_bufs; [done|done|].
    intros b (f & -> & Hf)%list_elem_of_fmap. apply (Hb (f_head f) _ (f_write f)). rewrite <- Hr. apply elem_reqs. by exists f.
Qed.

(** ** The guarantees *)


End run.

(** ** A run *)

(** The registers of a disk with a queue of eight, two buffers, and a device that does
    what the specification asks for. *)
Definition ex_reg (_ : list (Z * Z)) (r : Z) : Z :=
  if r =? VIRTIO_MMIO_MAGIC_VALUE then 0x74726976 else if r =? VIRTIO_MMIO_VERSION then 2
  else if r =? VIRTIO_MMIO_DEVICE_ID then 2 else if r =? VIRTIO_MMIO_VENDOR_ID then 0x554d4551
  else if r =? VIRTIO_MMIO_STATUS then 11 else if r =? VIRTIO_MMIO_QUEUE_NUM_MAX then 8 else 0.
Definition ex_page (k : nat) : Z := 0x87f00000 + Z.of_nat k * 4096.
Definition ex_device (d d' : vdisk) : Prop :=
  dev_take d = Some d' \/ exists h, h ∈ vd_taken d /\ dev_complete h d = Some d'.
Definition ex_on : vdisk :=
  Vdisk [] 0 [] 0 [] [] 0 (replicate 8 None) (replicate 8 0) (replicate 8 (Req 0 0 0))
    [Vbuf 5 (replicate 1024 0) 0; Vbuf 6 (replicate 1024 0) 0] [] 0 [] (fun s => replicate 1024 (s mod 256)).
Definition result {A} (r : res vdisk A) : vdisk := match r with Ok _ d => d | _ => ex_on end.
Definition ex_ready : vdisk := result (virtio_disk_init ex_reg ex_page ex_on).
Definition ex_asked : vdisk := result (rw_start 0 false ex_ready).
Definition ex_taken : vdisk := default ex_on (dev_take ex_asked).
Definition ex_done : vdisk := default ex_on (dev_complete 0 ex_taken).
Definition ex_over : vdisk := result (virtio_disk_intr ex_reg ex_done).

Lemma ex_documented : documented ex_device.
Proof. intros d d' [H|(h & Hh & H)]; [by left|right; exists h; auto]. Qed.
Lemma ex_reach_taken : reach ex_reg ex_page ex_device ex_taken [(0, 0%nat, false)].
Proof.
  apply reach_device with ex_asked; [|left; vm_cast_no_check (eq_refl (Some ex_taken))]. apply reach_start with ex_ready.
  - apply reach_init with ex_on; [by split|]. vm_cast_no_check (eq_refl (Ok tt ex_ready)).
  - split; [vm_compute; lia|]. intros i c w Hin. by apply not_elem_of_nil in Hin.
  - vm_cast_no_check (eq_refl (Ok (Some 0) ex_asked)).
Qed.
Lemma ex_reach_over : reach ex_reg ex_page ex_device ex_over [(0, 0%nat, false)].
Proof.
  apply reach_intr with ex_done; [|vm_cast_no_check (eq_refl (Ok tt ex_over))]. apply reach_device with ex_taken; [apply ex_reach_taken|].
  right. exists 0. split; [refine (bool_decide_unpack _ _); by vm_compute|vm_cast_no_check (eq_refl (Some ex_done))].
Qed.


