(* ===== verification/Spinlock.v ===== *)
(** * Spin locks (kernel/spinlock.c)

    Any number of CPUs run the routines of spinlock.c on shared locks, one memory
    access at a time and interleaved in any order.  The step function follows the
    code; what the callers have to respect (interrupts are turned on, and the saved
    interrupt state is changed, only where the kernel does it) are its guards.  The
    other files treat critical sections as atomic; this one shows why they may. *)

From stdpp Require Import base list sets functions strings.
From Stdlib Require Import ZArith Lia.
From S2P Require Import Prelude.

#[local] Open Scope Z_scope.

(** ** State *)

(** Where a CPU is: outside the routines, or before the named access of one. *)
Inductive point : Type :=
| Outside
| AcquireReadLocked (lk : nat)   (* holding: lk->locked *)
| AcquireReadCpu (lk : nat)      (* holding: lk->cpu *)
| AcquireSwap (lk : nat)         (* the test-and-set loop *)
| AcquireSetCpu (lk : nat)       (* lk->cpu = mycpu() *)
| ReleaseReadLocked (lk : nat)
| ReleaseReadCpu (lk : nat)
| ReleaseClearCpu (lk : nat)     (* lk->cpu = 0 *)
| ReleaseUnlock (lk : nat)       (* __sync_lock_release *)
| ReleasePop.                    (* pop_off *)

(** [c_held] and [c_pushes] are not in the code: the locks the CPU holds, and the
    [push_off]s it made itself and has not undone. *)
Record cpu : Type := Cpu {
  c_intr : bool;     (* sstatus.SIE *)
  c_noff : Z;
  c_intena : bool;
  c_point : point;
  c_held : list nat;
  c_pushes : nat;
}.
#[global] Instance eta_cpu : Eta cpu := fun x =>
  Cpu (c_intr x) (c_noff x) (c_intena x) (c_point x) (c_held x) (c_pushes x).

Record spinlock : Type := Spinlock { l_locked : bool; l_cpu : option nat }.
#[global] Instance eta_spinlock : Eta spinlock := fun x => Spinlock (l_locked x) (l_cpu x).

Record smp : Type := Smp { cpus : nat -> cpu; locks : nat -> spinlock }.
#[global] Instance eta_smp : Eta smp := fun x => Smp (cpus x) (locks x).

Definition initlock : spinlock := Spinlock false None.
(** After boot: locks initialised, interrupts off. *)
Definition smp_init : smp := Smp (fun _ => Cpu false 0 false Outside [] 0) (fun _ => initlock).

(** ** Routines *)

Definition push_off (c : cpu) : cpu :=
  c <| c_intr := false |> <| c_intena := if c_noff c =? 0 then c_intr c else c_intena c |> <| c_noff := c_noff c + 1 |>.

Definition pop_off (c : cpu) : string + cpu :=
  if c_intr c then inl "pop_off - interruptible"%string
  else if c_noff c <? 1 then inl "pop_off"%string
  else
    let c := c <| c_noff := c_noff c - 1 |> in
    inr (if (c_noff c =? 0) && c_intena c then c <| c_intr := true |> else c).

(** What the code around the routines does on a CPU. *)
Inductive action : Type :=
| Acquire (lk : nat)
| Release (lk : nat)
| PushOff
| PopOff
| IntrOn            (* intr_on, with no lock held *)
| IntrOff           (* intr_off *)
| SetIntena (b : bool)  (* sched restores it for another process *)
| Continue.         (* the next access of the routine it is in *)

Definition set_cpu (i : nat) (c : cpu) (s : smp) : smp := s <| cpus := <[i := c]> (cpus s) |>.
Definition set_lock (lk : nat) (l : spinlock) (s : smp) : smp := s <| locks := <[lk := l]> (locks s) |>.
Definition at_point (c : cpu) (p : point) : cpu := c <| c_point := p |>.

(** One step of CPU [i]: not possible, a panic, or the next state. *)
Definition next (i : nat) (a : action) (s : smp) : option (string + smp) :=
  let c := cpus s i in
  match c_point c, a with
  | Outside, Acquire lk => Some (inr (set_cpu i (at_point (push_off c) (AcquireReadLocked lk)) s))
  | Outside, Release lk => Some (inr (set_cpu i (at_point c (ReleaseReadLocked lk)) s))
  | Outside, PushOff => Some (inr (set_cpu i (push_off c <| c_pushes := S (c_pushes c) |>) s))
  | Outside, PopOff =>
      match c_pushes c with
      | O => None
      | S k => match pop_off c with
               | inl msg => Some (inl msg)
               | inr c' => Some (inr (set_cpu i (c' <| c_pushes := k |>) s))
               end
      end
  | Outside, IntrOn => if c_noff c =? 0 then Some (inr (set_cpu i (c <| c_intr := true |>) s)) else None
  | Outside, IntrOff => Some (inr (set_cpu i (c <| c_intr := false |>) s))
  | Outside, SetIntena b => if c_noff c =? 1 then Some (inr (set_cpu i (c <| c_intena := b |>) s)) else None
  | AcquireReadLocked lk, Continue =>
      Some (inr (set_cpu i (at_point c (if l_locked (locks s lk) then AcquireReadCpu lk else AcquireSwap lk)) s))
  | AcquireReadCpu lk, Continue =>
      if decide (l_cpu (locks s lk) = Some i) then Some (inl "acquire"%string)
      else Some (inr (set_cpu i (at_point c (AcquireSwap lk)) s))
  | AcquireSwap lk, Continue =>
      let l := locks s lk in
      Some (inr (set_lock lk (l <| l_locked := true |>)
        (if l_locked l then s else set_cpu i (at_point c (AcquireSetCpu lk)) s)))
  | AcquireSetCpu lk, Continue =>
      Some (inr (set_lock lk (locks s lk <| l_cpu := Some i |>)
        (set_cpu i (at_point c Outside <| c_held := lk :: c_held c |>) s)))
  | ReleaseReadLocked lk, Continue =>
      if l_locked (locks s lk) then Some (inr (set_cpu i (at_point c (ReleaseReadCpu lk)) s))
      else Some (inl "release"%string)
  | ReleaseReadCpu lk, Continue =>
      if decide (l_cpu (locks s lk) = Some i) then Some (inr (set_cpu i (at_point c (ReleaseClearCpu lk)) s))
      else Some (inl "release"%string)
  | ReleaseClearCpu lk, Continue =>
      Some (inr (set_lock lk (locks s lk <| l_cpu := None |>)
        (set_cpu i (at_point c (ReleaseUnlock lk) <| c_held := filter (fun x => x <> lk) (c_held c) |>) s)))
  | ReleaseUnlock lk, Continue =>
      Some (inr (set_lock lk (locks s lk <| l_locked := false |>) (set_cpu i (at_point c ReleasePop) s)))
  | ReleasePop, Continue =>
      match pop_off c with
      | inl msg => Some (inl msg)
      | inr c' => Some (inr (set_cpu i (at_point c' Outside) s))
      end
  | _, _ => None
  end.

(** The states any interleaving reaches. *)
Inductive reachable : smp -> Prop :=
| reach_init : reachable smp_init
| reach_step s i a s' : reachable s -> next i a s = Some (inr s') -> reachable s'.

(** ** Invariant *)

(** A CPU has the lock word to itself. *)
Definition claims (c : cpu) (lk : nat) : Prop :=
  lk ∈ c_held c \/ c_point c = AcquireSetCpu lk \/ c_point c = ReleaseUnlock lk.
(** [push_off]s that [acquire] and [release] have made and not yet undone or turned
    into a held lock. *)
Definition in_routine (p : point) : Z :=
  match p with
  | AcquireReadLocked _ | AcquireReadCpu _ | AcquireSwap _ | AcquireSetCpu _ | ReleaseUnlock _ | ReleasePop => 1
  | _ => 0
  end.

(** What each CPU keeps on its own. *)
Record cpu_ok (c : cpu) : Prop := {
  ok_noff : c_noff c = Z.of_nat (length (c_held c)) + Z.of_nat (c_pushes c) + in_routine (c_point c);
  ok_intr : 0 < c_noff c -> c_intr c = false;
  ok_nodup : NoDup (c_held c);
  ok_spinning : forall lk, c_point c = AcquireSwap lk -> lk ∉ c_held c;
  ok_acquiring : forall lk, c_point c = AcquireSetCpu lk -> lk ∉ c_held c;
  ok_releasing : forall lk, c_point c = ReleaseUnlock lk -> lk ∉ c_held c;
  ok_clearing : forall lk, c_point c = ReleaseClearCpu lk -> lk ∈ c_held c;
}.
Record smp_ok (s : smp) : Prop := {
  ok_cpus : forall i, cpu_ok (cpus s i);
  ok_locked : forall i lk, claims (cpus s i) lk -> l_locked (locks s lk) = true;
  ok_one : forall i j lk, claims (cpus s i) lk -> claims (cpus s j) lk -> i = j;
  ok_owner : forall i lk, l_cpu (locks s lk) = Some i <-> lk ∈ c_held (cpus s i);
  ok_used : forall lk, l_locked (locks s lk) = true -> exists i, claims (cpus s i) lk;
}.

Lemma push_off_ok c lk :
  cpu_ok c -> c_point c = Outside -> cpu_ok (at_point (push_off c) (AcquireReadLocked lk)).
Proof. intros [] Ho. unfold at_point, push_off. split; cbn; try done. rewrite ok_noff0, Ho. cbn. lia. Qed.

(** [pop_off] with something to undo. *)
Lemma pop_off_spec c :
  (0 < c_noff c -> c_intr c = false) -> 0 < c_noff c ->
  exists c', pop_off c = inr c' /\ c_noff c' = c_noff c - 1 /\ c_held c' = c_held c /\ c_point c' = c_point c /\
    c_pushes c' = c_pushes c /\ c_intena c' = c_intena c /\
    c_intr c' = (c_noff c =? 1) && c_intena c.
Proof.
  intros Hi Hn. unfold pop_off. rewrite Hi by done. destruct (Z.ltb_spec (c_noff c) 1); [lia|]. cbn.
  replace (c_noff c =? 1) with (c_noff c - 1 =? 0) by (destruct (Z.eqb_spec (c_noff c) 1), (Z.eqb_spec (c_noff c - 1) 0); lia).
  destruct (c_noff c - 1 =? 0), (c_intena c) eqn:E; cbn; eexists; (split; [done|]); cbn; rewrite ?E, ?Hi by done; done.
Qed.

Section transfer.
Context (s : smp) (i : nat) (c' : cpu).
Hypothesis s_ok : smp_ok s.
Hypothesis c_ok' : cpu_ok c'.

(** A step that changes one CPU and no lock. *)
Lemma set_cpu_ok :
  c_held c' = c_held (cpus s i) -> (forall lk, claims c' lk <-> claims (cpus s i) lk) -> smp_ok (set_cpu i c' s).
Proof using s_ok c_ok'.
  intros Hh Hc. destruct s_ok as [Hcpus Hlocked Hone Howner Hused].
  assert (forall j lk, claims (cpus (set_cpu i c' s) j) lk <-> claims (cpus s j) lk) as Hcl.
  { intros j lk. cbn. unfold insert, fn_insert. by destruct (decide (i = j)) as [<-|]. }
  split.
  - intros j. cbn. unfold insert, fn_insert. by destruct (decide (i = j)).
  - intros j lk. rewrite Hcl. apply Hlocked.
  - intros j k lk. rewrite !Hcl. apply Hone.
  - intros j lk. cbn. rewrite Howner. unfold insert, fn_insert. destruct (decide (i = j)) as [<-|]; [|done]. by rewrite Hh.
  - intros lk Hl. destruct (Hused lk Hl) as [j Hj]. exists j. by apply Hcl.
Qed.

(** A step that changes a CPU and a lock which no other CPU has. *)
Lemma set_both_ok lk l' :
  claims (cpus s i) lk \/ l_locked (locks s lk) = false ->
  (forall lk', lk' <> lk -> (claims c' lk' <-> claims (cpus s i) lk') /\ (lk' ∈ c_held c' <-> lk' ∈ c_held (cpus s i))) ->
  (l_locked l' = true <-> claims c' lk) ->
  (forall j, l_cpu l' = Some j <-> j = i /\ lk ∈ c_held c') ->
  smp_ok (set_lock lk l' (set_cpu i c' s)).
Proof using s_ok c_ok'.
  intros Hmine Hsame Hl' Ho'. destruct s_ok as [Hcpus Hlocked Hone Howner Hused].
  assert (forall j, j <> i -> ~ claims (cpus s j) lk) as Hothers.
  { intros j Hj Hcl. destruct Hmine as [Hi|Hf]; [by apply Hj, (Hone _ _ lk)|]. apply Hlocked in Hcl. congruence. }
  assert (forall j, cpus (set_lock lk l' (set_cpu i c' s)) j = if decide (i = j) then c' else cpus s j) as Hj by done.
  assert (forall k, locks (set_lock lk l' (set_cpu i c' s)) k = if decide (lk = k) then l' else locks s k) as Hk by done.
  split.
  - intros j. rewrite Hj. by destruct (decide (i = j)).
  - intros j k. rewrite Hj, Hk. destruct (decide (i = j)) as [<-|], (decide (lk = k)) as [<-|Hne].
    + by rewrite Hl'.
    + rewrite (proj1 (Hsame k ltac:(done))). apply Hlocked.
    + intros Hcl. exfalso. by eapply (Hothers j).
    + apply Hlocked.
  - intros j j' k. rewrite !Hj. destruct (decide (i = j)) as [<-|], (decide (i = j')) as [<-|]; try done.
    + destruct (decide (lk = k)) as [<-|]; [intros _ Hcl; exfalso; by eapply (Hothers j')|].
      rewrite (proj1 (Hsame k ltac:(done))). apply Hone.
    + destruct (decide (lk = k)) as [<-|]; [intros Hcl; exfalso; by eapply (Hothers j)|].
      rewrite (proj1 (Hsame k ltac:(done))). apply Hone.
    + apply Hone.
  - intros j k. rewrite Hj, Hk. destruct (decide (lk = k)) as [<-|].
    + rewrite Ho'. destruct (decide (i = j)) as [<-|Hne]; [tauto|]. split; [naive_solver|].
      intros Hh. exfalso. eapply (Hothers j); [done|by left].
    + rewrite Howner. destruct (decide (i = j)) as [<-|]; [|done]. symmetry. by apply Hsame.
  - intros k. rewrite Hk. destruct (decide (lk = k)) as [<-|Hne].
    + intros Hl%Hl'. exists i. rewrite Hj. by destruct (decide (i = i)).
    + intros Hl. destruct (Hused k Hl) as [j Hcl]. exists j. rewrite Hj. destruct (decide (i = j)) as [<-|]; [|done].
      by apply Hsame.
Qed.
End transfer.

(** Moving on in a routine without touching a lock. *)
Definition plain (p : point) : Prop := match p with AcquireSetCpu _ | ReleaseUnlock _ => False | _ => True end.
Lemma at_point_ok c p :
  cpu_ok c -> plain p -> in_routine p = in_routine (c_point c) -> (forall lk, p = ReleaseClearCpu lk -> lk ∈ c_held c) ->
  (forall lk, p = AcquireSwap lk -> lk ∉ c_held c) -> cpu_ok (at_point c p).
Proof.
  intros [] Hp Hin. unfold at_point. split; cbn; try done; try (by intros lk ->). by rewrite Hin.
Qed.
Lemma plain_claims c c' lk :
  plain (c_point c) -> plain (c_point c') -> c_held c' = c_held c -> claims c' lk <-> claims c lk.
Proof.
  intros Hp Hp' Hh. unfold claims. rewrite Hh. destruct (c_point c), (c_point c'); try done;
    split; (intros [?|[?|?]]; [by left|done..]).
Qed.
(** Writing a lock word that is already set. *)
Lemma set_lock_same s lk l : smp_ok s -> l = locks s lk -> smp_ok (set_lock lk l s).
Proof.
  intros [Hcpus Hlocked Hone Howner Hused] ->.
  assert (forall k, locks (set_lock lk (locks s lk) s) k = locks s k) as E.
  { intros k. cbn. unfold insert, fn_insert. by destruct (decide (lk = k)) as [<-|]. }
  split; try done; intros *; rewrite E; [apply Hlocked|apply Howner|apply Hused].
Qed.

Lemma filter_keep (x : nat) (l : list nat) : x ∉ l -> filter (fun y => y <> x) l = l.
Proof.
  induction l as [|y l IH]; [done|]. intros [Hne Hl]%not_elem_of_cons. rewrite filter_cons_True by congruence. by rewrite IH.
Qed.
Lemma filter_length_remove (x : nat) (l : list nat) :
  NoDup l -> x ∈ l -> S (length (filter (fun y => y <> x) l)) = length l.
Proof.
  intros Hnd Hx. apply list_elem_of_split in Hx as (l1 & l2 & ->). apply NoDup_app in Hnd as (_ & Hd & Hnd).
  apply NoDup_cons in Hnd as [Hx2 _]. rewrite filter_app, filter_cons_False by naive_solver.
  rewrite !filter_keep by set_solver. rewrite !length_app. cbn. lia.
Qed.

Section steps.
Context (s : smp) (i : nat).
Hypothesis s_ok : smp_ok s.
Notation c := (cpus s i).

Lemma cpu_step_ok c' :
  cpu_ok c' -> plain (c_point c) -> plain (c_point c') -> c_held c' = c_held c -> smp_ok (set_cpu i c' s).
Proof using s_ok. intros Hc Hp Hp' Hh. apply set_cpu_ok; [done..|]. intros lk. by apply plain_claims. Qed.

Lemma outside_ok a s' : c_point c = Outside -> next i a s = Some (inr s') -> smp_ok s'.
Proof using s_ok.
  intros Hout Hn. unfold next in Hn. rewrite Hout in Hn. pose proof (ok_cpus _ s_ok i) as Hc.
  assert (plain (c_point c)) as Hpl by by rewrite Hout.
  destruct a as [lk|lk| | | | |b|]; simplify_eq.
  - apply cpu_step_ok; [by apply push_off_ok|done..].
  - apply cpu_step_ok; [apply at_point_ok; [done|done|by rewrite Hout|done|done]|done..].
  - apply cpu_step_ok; [|done..]. destruct Hc. split; cbn; try done. rewrite ok_noff0. lia.
  - destruct (c_pushes c) as [|k] eqn:Ek; [done|]. assert (0 < c_noff c) as Hpos by (destruct Hc; rewrite ok_noff0, Ek, Hout; cbn; lia).
    destruct (pop_off_spec c (ok_intr _ Hc) Hpos) as (c' & Epop & En & Eh & Ep & Epu & Ein & Eintr). rewrite Epop in Hn.
    simplify_eq. apply cpu_step_ok; [|done|by cbn; rewrite Ep|done]. destruct Hc. split; cbn; rewrite ?Eh, ?Ep, ?Epu; try done.
    + rewrite En, ok_noff0, Ek. lia.
    + rewrite Eintr, En. destruct (Z.eqb_spec (c_noff c) 1); [lia|done].
  - destruct (Z.eqb_spec (c_noff c) 0) as [E0|]; [|done]. simplify_eq. apply cpu_step_ok; [|done..].
    destruct Hc. split; cbn; try done. lia.
  - apply cpu_step_ok; [|done..]. destruct Hc. by split.
  - destruct (Z.eqb_spec (c_noff c) 1) as [E0|]; [|done]. simplify_eq. apply cpu_step_ok; [|done..]. destruct Hc. by split.
Qed.

Lemma acquire_ok lk s' :
  c_point c = AcquireReadLocked lk \/ c_point c = AcquireReadCpu lk \/ c_point c = AcquireSwap lk \/
    c_point c = AcquireSetCpu lk ->
  next i Continue s = Some (inr s') -> smp_ok s'.
Proof using s_ok.
  intros Hpt Hn. unfold next in Hn. pose proof (ok_cpus _ s_ok i) as Hc.
  destruct Hpt as [E|[E|[E|E]]]; rewrite E in Hn.
  - simplify_eq. destruct (l_locked (locks s lk)) eqn:El;
      (apply cpu_step_ok; [apply at_point_ok; [done|done|by rewrite E|done|]|by rewrite E|done..]); [done|].
    intros ? [= <-] Hh. assert (l_locked (locks s lk) = true); [|congruence]. apply (ok_locked _ s_ok i). by left.
  - destruct (decide _) as [|Hno]; simplify_eq.
    apply cpu_step_ok; [apply at_point_ok; [done|done|by rewrite E|done|]|by rewrite E|done..].
    intros ? [= <-] Hh. by apply Hno, (ok_owner _ s_ok).
  - destruct (l_locked (locks s lk)) eqn:El; simplify_eq.
    { apply set_lock_same; [done|]. destruct (locks s lk) as [lkd cp]. cbn in El. by subst lkd. }
    assert (~ claims c lk) as Hno by (intros Hcl%(ok_locked _ s_ok); congruence).
    assert (lk ∉ c_held c) as Hnh by (intros ?; by apply Hno; left).
    apply set_both_ok; [done| |by right| | |].
    + destruct Hc. unfold at_point. split; cbn; try done; [by rewrite ok_noff0, E|]. by intros ? [= <-].
    + intros lk' Hne. split; [|done]. unfold claims. rewrite E. cbn. naive_solver.
    + split; [|done]. intros _. right. by left.
    + intros j. cbn. split; [|by intros []]. intros Ho%(ok_owner _ s_ok). exfalso.
      assert (l_locked (locks s lk) = true); [|congruence]. apply (ok_locked _ s_ok j). by left.
  - simplify_eq. assert (lk ∉ c_held c) as Hnh by by apply (ok_acquiring _ Hc).
    apply set_both_ok; [done| |left; by right; left| | |].
    + destruct Hc. unfold at_point. split; cbn; try done; [rewrite ok_noff0, E; cbn; lia|by constructor].
    + intros lk' Hne. split; [unfold claims; rewrite E; cbn|cbn]; set_solver.
    + cbn. split; [|intros _; apply (ok_locked _ s_ok i); by right; left]. intros _. left. cbn. set_solver.
    + intros j. cbn. set_solver.
Qed.

Lemma release_ok lk s' :
  c_point c = ReleaseReadLocked lk \/ c_point c = ReleaseReadCpu lk \/ c_point c = ReleaseClearCpu lk \/
    c_point c = ReleaseUnlock lk ->
  next i Continue s = Some (inr s') -> smp_ok s'.
Proof using s_ok.
  intros Hpt Hn. unfold next in Hn. pose proof (ok_cpus _ s_ok i) as Hc.
  destruct Hpt as [E|[E|[E|E]]]; rewrite E in Hn.
  - destruct (l_locked _); simplify_eq.
    apply cpu_step_ok; [apply at_point_ok; [done|done|by rewrite E|done|done]|by rewrite E|done..].
  - destruct (decide _) as [Ho|]; simplify_eq. apply (ok_owner _ s_ok) in Ho.
    apply cpu_step_ok; [apply at_point_ok; [done|done|by rewrite E|by intros ? [= <-]|done]|by rewrite E|done..].
  - simplify_eq. assert (lk ∈ c_held c) as Hh by by apply (ok_clearing _ Hc).
    apply set_both_ok; [done| |left; by left| | |].
    + destruct Hc. unfold at_point. split; cbn; try done.
      * rewrite ok_noff0, E. cbn. pose proof (filter_length_remove lk _ ok_nodup0 Hh). lia.
      * by apply NoDup_filter.
      * intros ? [= <-]. rewrite list_elem_of_filter. naive_solver.
    + intros lk' Hne. cbn. split; [unfold claims; rewrite E; cbn|]; rewrite list_elem_of_filter; naive_solver.
    + cbn. split; [|intros _; apply (ok_locked _ s_ok i); by left]. intros _. right. by right.
    + intros j. cbn. rewrite list_elem_of_filter. naive_solver.
  - simplify_eq. assert (lk ∉ c_held c) as Hnh by by apply (ok_releasing _ Hc).
    apply set_both_ok; [done| |left; by right; right| | |].
    + destruct Hc. unfold at_point. split; cbn; try done. by rewrite ok_noff0, E.
    + intros lk' Hne. split; [unfold claims; rewrite E; cbn|done]; naive_solver.
    + cbn. split; [done|]. unfold claims. cbn. naive_solver.
    + intros j. cbn. rewrite (ok_owner _ s_ok). split; [|by intros []]. intros Hj. exfalso.
      assert (j = i) as -> by (apply (ok_one _ s_ok _ _ lk); [by left|by right; right]). done.
Qed.

Lemma pop_ok s' : c_point c = ReleasePop -> next i Continue s = Some (inr s') -> smp_ok s'.
Proof using s_ok.
  intros E Hn. unfold next in Hn. rewrite E in Hn. pose proof (ok_cpus _ s_ok i) as Hc.
  assert (0 < c_noff c) as Hpos by (destruct Hc; rewrite ok_noff0, E; cbn; lia).
  destruct (pop_off_spec c (ok_intr _ Hc) Hpos) as (c' & Epop & En & Eh & Ep & Epu & Ein & Eintr). rewrite Epop in Hn.
  simplify_eq. apply cpu_step_ok; [|by rewrite E|done|done]. destruct Hc. unfold at_point.
  split; cbn; rewrite ?Eh, ?Epu; try done.
  - rewrite En, ok_noff0, E. cbn. lia.
  - rewrite Eintr, En. destruct (Z.eqb_spec (c_noff c) 1); [lia|done].
Qed.

Lemma next_ok a s' : next i a s = Some (inr s') -> smp_ok s'.
Proof using s_ok.
  intros Hn. destruct (c_point c) eqn:E; [by eapply outside_ok| | | | | | | | |];
    (assert (a = Continue) as -> by (unfold next in Hn; rewrite E in Hn; by destruct a)).
  all: first [by eapply acquire_ok; [|done]; rewrite E; eauto | by eapply release_ok; [|done]; rewrite E; eauto | by eapply pop_ok].
Qed.

(** What a panic means. *)
Definition misuse (msg : string) : Prop :=
  (msg = "acquire"%string /\ exists lk, c_point c = AcquireReadCpu lk /\ lk ∈ c_held c) \/
  (msg = "release"%string /\ exists lk, (c_point c = ReleaseReadLocked lk \/ c_point c = ReleaseReadCpu lk) /\ lk ∉ c_held c).
Lemma next_panics a msg : next i a s = Some (inl msg) -> misuse msg.
Proof using s_ok.
  intros Hn. unfold next in Hn. pose proof (ok_cpus _ s_ok i) as Hc.
  assert (forall p, c_point c = p -> (p = ReleasePop \/ exists k, c_pushes c = S k) -> pop_off c <> inl msg) as Hpop.
  { intros p Ep Hp. assert (0 < c_noff c) as Hpos.
    { destruct Hc. rewrite ok_noff0, Ep. destruct Hp as [-> | [k ->]]; [cbn; lia|]. destruct p; cbn; lia. }
    destruct (pop_off_spec c (ok_intr _ Hc) Hpos) as (c' & -> & _). done. }
  destruct (c_point c) as [|lk|lk|lk|lk|lk|lk|lk|lk|] eqn:E, a; try done.
  - destruct (c_pushes c) as [|k] eqn:Ek; [done|]. destruct (pop_off c) eqn:Ep; simplify_eq. exfalso.
    eapply Hpop; [done|by right; exists k|done].
  - by destruct (c_noff c =? 0).
  - by destruct (c_noff c =? 1).
  - destruct (decide _) as [Ho|]; simplify_eq. left. split; [done|]. exists lk. split; [done|]. by apply (ok_owner _ s_ok).
  - destruct (l_locked (locks s lk)) eqn:El; simplify_eq. right. split; [done|]. exists lk. split; [by left|].
    intros Hh. assert (l_locked (locks s lk) = true); [|congruence]. apply (ok_locked _ s_ok i). by left.
  - destruct (decide _) as [|Hno]; simplify_eq. right. split; [done|]. exists lk. split; [by right|].
    intros Hh. by apply Hno, (ok_owner _ s_ok).
  - destruct (pop_off c) eqn:Ep; simplify_eq. exfalso. eapply Hpop; [done|by left|done].
Qed.
End steps.

Lemma smp_init_ok : smp_ok smp_init.
Proof.
  assert (forall i lk, ~ claims (cpus smp_init i) lk) as Hno.
  { intros i lk [H|[H|H]]; [|done..]. by apply elem_of_nil in H. }
  split; try done.
  - intros i. split; try done. constructor.
  - intros i lk H. by apply Hno in H.
  - intros i j lk H. by apply Hno in H.
  - intros i lk. split; [done|]. intros H. by apply elem_of_nil in H.
Qed.
Lemma reachable_ok s : reachable s -> smp_ok s.
Proof. induction 1 as [|s i a s' _ IH Hn]; [apply smp_init_ok|by eapply next_ok]. Qed.

(** ** Claims *)

(** C3: Spin locks exclude.  In every state that any interleaving of any number of
    CPUs reaches, at most one CPU holds a lock, that CPU has interrupts off, and
    [holding] is true on it alone.  A lock whose word is set is in the hands of some
    CPU; no CPU spins on a lock it holds itself.  The panics mean what they say: of
    [acquire], that the CPU already holds the lock; of [release], that it does not;
    and [pop_off] never panics in a routine. *)
Theorem spinlock_exclusive (s : smp) :
  reachable s ->
  (forall i j lk, lk ∈ c_held (cpus s i) -> lk ∈ c_held (cpus s j) -> i = j) /\
  (forall i lk, lk ∈ c_held (cpus s i) -> c_intr (cpus s i) = false) /\
  (forall i lk, l_locked (locks s lk) = true /\ l_cpu (locks s lk) = Some i <-> lk ∈ c_held (cpus s i)) /\
  (forall lk, l_locked (locks s lk) = true -> exists i, claims (cpus s i) lk) /\
  (forall i lk, c_point (cpus s i) = AcquireSwap lk -> lk ∉ c_held (cpus s i)) /\
  (forall i a msg, next i a s = Some (inl msg) -> misuse s i msg).
Proof.
  intros Hs%reachable_ok. split_and!.
  - intros i j lk Hi Hj. apply (ok_one _ Hs _ _ lk); by left.
  - intros i lk Hi. destruct (ok_cpus _ Hs i). apply ok_intr0. rewrite ok_noff0.
    destruct (c_held (cpus s i)); [by apply elem_of_nil in Hi|]. cbn. destruct (c_point _); cbn; lia.
  - intros i lk. rewrite (ok_owner _ Hs). split; [by intros []|]. intros Hh. split; [|done]. apply (ok_locked _ Hs i). by left.
  - apply (ok_used _ Hs).
  - intros i. apply (ok_spinning _ (ok_cpus _ Hs i)).
  - intros i a msg. by apply next_panics.
Qed.

(** Two CPUs that want the same lock: CPU 1 holds it, CPU 0 spins. *)
Definition ex_run : list (nat * action) :=
  [(0%nat, IntrOn); (0%nat, Acquire 7); (1%nat, Acquire 7); (1%nat, Continue); (1%nat, Continue); (0%nat, Continue);
   (1%nat, Continue); (0%nat, Continue); (0%nat, Continue)].
Fixpoint run_actions (l : list (nat * action)) (s : smp) : option smp :=
  match l with
  | [] => Some s
  | (i, a) :: l' => match next i a s with Some (inr s') => run_actions l' s' | _ => None end
  end.
Lemma run_reachable l s s' : reachable s -> run_actions l s = Some s' -> reachable s'.
Proof.
  revert s. induction l as [|[i a] l IH]; intros s Hs; cbn [run_actions]; [by intros [= <-]|].
  destruct (next i a s) as [[|s1]|] eqn:E; [done| |done]. apply IH. by eapply reach_step.
Qed.
Definition ex_smp : smp := default smp_init (run_actions ex_run smp_init).

Example spinlock_exclusive_witness :
  reachable ex_smp /\ c_held (cpus ex_smp 1) = [7%nat] /\ c_point (cpus ex_smp 0) = AcquireSwap 7 /\
  forall lk, lk ∈ c_held (cpus ex_smp 0) -> lk ∈ c_held (cpus ex_smp 1) -> 0%nat = 1%nat.
Proof.
  assert (reachable ex_smp) as Hr by (eapply (run_reachable ex_run smp_init); [apply reach_init|reflexivity]).
  split_and!; [exact Hr|reflexivity|reflexivity|]. intros lk. apply (spinlock_exclusive ex_smp Hr).
Defined.
