(* ===== verification/Sched.v ===== *)
(** * Sleeping, waking and killing (kernel/proc.c)

    The part of proc.c that only changes the states of processes.  The checks of
    [sched] on the locks it is called with belong to [Spinlock]. *)

From stdpp Require Import base list gmap strings.
From Stdlib Require Import ZArith Lia.
From S2P Require Import Prelude Mem Riscv Kalloc Vm Sleeplock Bio Log TxDisk Fs Kernel.

#[local] Open Scope Z_scope.

Definition nproc : nat := Z.to_nat NPROC.

Section sched.
Context `{Platform}.

Definition procinit : M kernel unit :=
  for_ 0 nproc (fun i =>
    updp (Z.to_nat i) (fun p => p <| p_state := UNUSED |> <| p_kstack := KSTACK i |>)).

Definition allocpid : M kernel Z :=
  pid <- getm m_nextpid ;;
  updm (fun m => m <| m_nextpid := pid + 1 |>) ;;;
  ret pid.

(** Give the CPU away and get it back. *)
Definition sched : M kernel unit :=
  i <- myproc ;;
  p <- getp i ;;
  if decide (p_state p = RUNNING) then panic "sched running"
  else
    n <- getm m_now ;;
    updm (fun m => m <| m_now := S n |>) ;;;
    pf_others n ;;;
    i' <- myproc ;;
    p' <- getp i ;;
    if decide (i' = i /\ p_state p' = RUNNING) then ret tt else hang.

Definition yield : M kernel unit :=
  i <- myproc ;;
  updp i (fun p => p <| p_state := RUNNABLE |>) ;;;
  sched.

Definition sleep (ch : chan) : M kernel unit :=
  i <- myproc ;;
  updp i (fun p => p <| p_chan := ch |> <| p_state := SLEEPING |>) ;;;
  sched ;;;
  updp i (fun p => p <| p_chan := ChNone |>).

Definition wakeup (ch : chan) : M kernel unit :=
  cur <- myproc ;;
  for_ 0 nproc (fun i =>
    when (negb (Z.to_nat i =? cur)%nat)
      (updp (Z.to_nat i) (fun p =>
         if decide (p_state p = SLEEPING /\ p_chan p = ch) then p <| p_state := RUNNABLE |> else p))).

Definition kill (pid : Z) : M kernel Z :=
  while_ (fun i =>
    if (i <? nproc)%nat then
      p <- getp i ;;
      if p_pid p =? pid then
        updp i (fun p => p <| p_killed := 1 |>) ;;;
        updp i (fun p => if decide (p_state p = SLEEPING) then p <| p_state := RUNNABLE |> else p) ;;;
        ret (Brk 0)
      else ret (Next (S i))
    else ret (Brk (-1))) 0%nat.

Definition setkilled (i : nat) : M kernel unit := updp i (fun p => p <| p_killed := 1 |>).
Definition killed (i : nat) : M kernel Z := p <- getp i ;; ret (p_killed p).

(** One round of [scheduler] over the table; the CPU has no process when it is not
    running one.  [resume i] is [swtch] to process [i]
    until it switches back.  Returns the processes that ran, last first. *)
Definition scheduler_round (resume : nat -> M kernel unit) : M kernel (list nat) :=
  while_ (fun '(i, ran) =>
    if (i <? nproc)%nat then
      p <- getp i ;;
      if decide (p_state p = RUNNABLE) then
        updp i (fun p => p <| p_state := RUNNING |>) ;;;
        updm (fun m => m <| m_cur := i |>) ;;;
        resume i ;;;
        updm (fun m => m <| m_cur := no_proc |>) ;;;
        ret (Next (S i, i :: ran))
      else ret (Next (S i, ran))
    else ret (Brk ran)) (0%nat, []).

(** The number of processes, as [sysinfo] reports it. *)
Definition unsetprocnum : M kernel Z :=
  while_ (fun '(i, n) =>
    if (i <? nproc)%nat then
      p <- getp i ;;
      ret (Next (S i, if decide (p_state p = UNUSED) then n else u64 (n + 1)))
    else ret (Brk n)) (0%nat, 0).

Definition reparent (p : nat) : M kernel unit :=
  for_ 0 nproc (fun i =>
    pp <- getp (Z.to_nat i) ;;
    when (bool_decide (p_parent pp = Some p))
      (init <- getm m_initproc ;;
       updp (Z.to_nat i) (fun x => x <| p_parent := init |>) ;;;
       wakeup (ChProc init))).
End sched.
