(* ===== verification/SchedProps.v ===== *)
(** * What waking, killing and scheduling guarantee (kernel/proc.c) *)

From stdpp Require Import base list gmap strings.
From Stdlib Require Import ZArith Lia Sorting.Sorted.
From S2P Require Import Prelude Mem Riscv Kalloc Vm Sleeplock Bio Log TxDisk Fs Kernel UserMem Example Sched.

#[local] Open Scope Z_scope.

Lemma alter_imap {A} (f : A -> A) (g : nat -> A -> A) k (l : list A) :
  alter f k (imap g l) = imap (fun i x => if decide (i = k) then f (g i x) else g i x) l.
Proof.
  apply list_eq. intros i. destruct (decide (i = k)) as [->|Hne].
  - rewrite list_lookup_alter_eq, !list_lookup_imap. destruct (l !! k); [|done]. cbn. by rewrite decide_True.
  - rewrite list_lookup_alter_ne, !list_lookup_imap by done. destruct (l !! i); [|done]. cbn. by rewrite decide_False.
Qed.

Lemma imap_id {A} (l : list A) : imap (fun _ x => x) l = l.
Proof. apply list_eq. intros i. rewrite list_lookup_imap. by destruct (l !! i). Qed.

Lemma lookup_total_alter_cases {A} `{!Inhabited A} (f : A -> A) i j (l : list A) :
  alter f i l !!! j = if decide (i = j /\ (j < length l)%nat) then f (l !!! j) else l !!! j.
Proof.
  rewrite !list_lookup_total_alt, list_lookup_alter. destruct (decide (i = j)) as [->|Hne].
  - destruct (l !! j) as [x|] eqn:E; cbn.
    + apply lookup_lt_Some in E. by rewrite decide_True.
    + apply lookup_ge_None in E. rewrite decide_False by lia. done.
  - rewrite decide_False by tauto. done.
Qed.

Section table.
Context `{Platform}.

(** A loop over the table that updates each entry by itself. *)
Lemma for_procs (g : nat -> proc -> proc) (body : Z -> M kernel unit) s :
  (forall i st, (i < nproc)%nat ->
     body (Z.of_nat i) st = Ok tt (with_procs (alter (g i) i (procs st)) st)) ->
  wp (for_ 0 nproc body) (fun _ s' =>
    s' = with_procs (imap (fun i p => if decide (i < nproc)%nat then g i p else p) (procs s)) s) s.
Proof.
  intros Hb.
  eapply wp_mono; [apply (wp_for (fun j st => 0 <= j /\
    st = with_procs (imap (fun i p => if decide (Z.of_nat i < j) then g i p else p) (procs s)) s))|].
  - split; [done|]. rewrite <- (with_procs_id s) at 1. f_equal. rewrite <- (imap_id (procs s)) at 1.
    apply imap_ext. intros i x _. by rewrite decide_False by lia.
  - intros j st Hj [_ ->]. pose proof (Hb (Z.to_nat j) (with_procs
      (imap (fun i p => if decide (Z.of_nat i < j) then g i p else p) (procs s)) s) ltac:(lia)) as E.
    rewrite Z2Nat.id in E by lia. eapply wp_intro; [exact E|]. split; [lia|].
    rewrite with_procs_twice. f_equal. unfold procs at 1, with_procs at 1. cbn. rewrite alter_imap.
    apply imap_ext. intros i x _. repeat case_decide; try done; try lia; by subst.
  - intros [] s' [_ ->]. f_equal. apply imap_ext. intros i x _. repeat case_decide; try done; lia.
Qed.

(** ** wakeup *)

Definition woken (cur : nat) (ch : chan) (i : nat) (p : proc) : proc :=
  if decide (i <> cur /\ p_state p = SLEEPING /\ p_chan p = ch) then p <| p_state := RUNNABLE |> else p.
Definition wake_all (ch : chan) (s : kernel) : kernel :=
  with_procs (imap (fun i p => if decide (i < nproc)%nat then woken (m_cur (fs_disk s)) ch i p else p) (procs s)) s.

Lemma alter_id_ext {A} (f : A -> A) k (l : list A) : (forall x, f x = x) -> alter f k l = l.
Proof.
  intros Hf. apply list_eq. intros i. destruct (decide (i = k)) as [->|Hne].
  - rewrite list_lookup_alter_eq. destruct (l !! k); [|done]. cbn. by rewrite Hf.
  - by rewrite list_lookup_alter_ne.
Qed.

Lemma wakeup_spec ch s : wp (wakeup ch) (fun _ s' => s' = wake_all ch s) s.
Proof.
  unfold wakeup. k_steps. apply for_procs. intros i st Hi. unfold when. rewrite Nat2Z.id.
  destruct (Nat.eqb_spec i (m_cur (fs_disk s))) as [E|Hne]; cbn [negb].
  - unfold ret. rewrite alter_id_ext, with_procs_id; [done|]. intros x. unfold woken. rewrite decide_False; [done|tauto].
  - unfold updp, updm, modify. change (m_procs (fs_disk st)) with (procs st). f_equal. unfold with_procs. do 2 f_equal. apply list_alter_ext; [|done].
    intros x _. unfold woken. repeat case_decide; try done; tauto.
Qed.

Lemma wake_all_lookup ch s i :
  procs (wake_all ch s) !!! i =
    if decide (i < nproc)%nat then
      if decide (i < length (procs s))%nat then woken (m_cur (fs_disk s)) ch i (procs s !!! i) else procs s !!! i
    else procs s !!! i.
Proof.
  unfold wake_all, with_procs, procs. cbn. rewrite !list_lookup_total_alt, list_lookup_imap.
  destruct (m_procs (fs_disk s) !! i) as [p|] eqn:E; cbn.
  - apply lookup_lt_Some in E. repeat case_decide; try done; lia.
  - apply lookup_ge_None in E. repeat case_decide; try done; lia.
Qed.

(** C29: [wakeup] makes runnable exactly the processes other than the caller that
    sleep on the channel, and changes nothing else in the whole kernel state. *)
Theorem wakeup_exact ch s :
  length (procs s) = nproc ->
  wp (wakeup ch) (fun _ s' => s' = with_procs (procs s') s /\ length (procs s') = nproc /\
    forall i, (i < nproc)%nat -> procs s' !!! i =
      if decide (i <> m_cur (fs_disk s) /\ p_state (procs s !!! i) = SLEEPING /\ p_chan (procs s !!! i) = ch)
      then (procs s !!! i) <| p_state := RUNNABLE |> else procs s !!! i) s.
Proof.
  intros Hlen. eapply wp_mono; [apply wakeup_spec|]. intros [] s' ->. split_and!.
  - done.
  - unfold wake_all, procs at 1. cbn. by rewrite length_imap.
  - intros i Hi. rewrite wake_all_lookup, !decide_True by lia. done.
Qed.

(** ** kill *)

(** C30: [kill] finds the first process with the pid: it marks it killed and, if it
    sleeps, makes it runnable, whatever it waits for; without such a process it
    returns -1 and changes nothing. *)
Theorem kill_first pid s :
  wp (kill pid) (fun r s' =>
    r = -1 /\ s' = s /\ (forall i, (i < nproc)%nat -> p_pid (procs s !!! i) <> pid) \/
    exists i, (i < nproc)%nat /\ r = 0 /\ p_pid (procs s !!! i) = pid /\
      (forall j, (j < i)%nat -> p_pid (procs s !!! j) <> pid) /\
      s' = with_procs (alter (fun p =>
        p <| p_killed := 1 |> <| p_state := if decide (p_state p = SLEEPING) then RUNNABLE else p_state p |>)
        i (procs s)) s) s.
Proof.
  unfold kill.
  apply (wp_while _ (fun i st => st = s /\ (i <= nproc)%nat /\ forall j, (j < i)%nat -> p_pid (procs s !!! j) <> pid)
    (fun i _ => Z.of_nat (nproc - i))); [|split_and!; [done|lia|lia]|change (Z.of_nat (nproc - 0)) with 64; lia].
  intros i st (-> & Hi & Hj). destruct (Nat.ltb_spec i nproc) as [Hlt|Hge].
  - k_steps. destruct (Z.eqb_spec (p_pid (procs s !!! i)) pid) as [E|Hne].
    + k_steps. right. exists i. split_and!; [done|done|done|done|]. rewrite with_procs_twice. f_equal.
      cbn. rewrite list_alter_alter_eq. apply list_alter_ext; [|done].
      intros p _. destruct p. cbn. by case_decide.
    + k_steps. split; [|lia]. split_and!; [done|lia|]. intros j Hj'. destruct (decide (j = i)) as [->|]; [done|].
      apply Hj. lia.
  - k_steps. left. split_and!; [done|done|]. intros j Hj'. apply Hj. lia.
Qed.

(** ** Giving up the CPU *)

(** [sched] returns to the process when the rest of the system runs it again. *)
Lemma wp_sched (Q : unit -> kernel -> Prop) s :
  p_state (procs s !!! m_cur (fs_disk s)) <> RUNNING ->
  wp (pf_others (m_now (fs_disk s))) (fun _ s' => m_cur (fs_disk s') = m_cur (fs_disk s) /\
    p_state (procs s' !!! m_cur (fs_disk s)) = RUNNING /\ Q tt s')
    (s <| fs_disk := fs_disk s <| m_now := S (m_now (fs_disk s)) |> |>) ->
  wp sched Q s.
Proof.
  intros Hr Ho. unfold sched. k_steps. rewrite decide_False by done. k_steps.
  eapply wp_mono; [exact Ho|]. intros [] s' (E1 & E2 & HQ). k_steps. rewrite decide_True by done. by k_steps.
Qed.

(** The state in which a process that sleeps leaves the CPU. *)
Definition asleep (ch : chan) (s : kernel) : kernel :=
  (with_procs (alter (fun p => p <| p_chan := ch |> <| p_state := SLEEPING |>) (m_cur (fs_disk s)) (procs s)) s)
    <| fs_disk := fs_disk (with_procs (alter (fun p => p <| p_chan := ch |> <| p_state := SLEEPING |>)
      (m_cur (fs_disk s)) (procs s)) s) <| m_now := S (m_now (fs_disk s)) |> |>.

Lemma wp_sleep ch (Q : unit -> kernel -> Prop) s :
  (m_cur (fs_disk s) < length (procs s))%nat ->
  wp (pf_others (m_now (fs_disk s))) (fun _ s' => m_cur (fs_disk s') = m_cur (fs_disk s) /\
    p_state (procs s' !!! m_cur (fs_disk s)) = RUNNING /\
    Q tt (with_procs (alter (fun p => p <| p_chan := ChNone |>) (m_cur (fs_disk s)) (procs s')) s'))
    (asleep ch s) ->
  wp (sleep ch) Q s.
Proof.
  intros Hl Ho. unfold sleep. k_steps. apply wp_sched.
  - unfold procs. cbn. rewrite lookup_total_alter_cases, decide_True by done. done.
  - cbn. eapply wp_mono; [exact Ho|]. intros [] s' (E1 & E2 & HQ). split_and!; [done|done|]. by k_steps.
Qed.

Context `{!PlatformLaws}.

Lemma at_proc_wake cur u ch s : at_proc cur u s -> at_proc cur u (wake_all ch s).
Proof.
  intros Hs. apply (at_proc_ext cur u s); try done.
  - unfold wake_all, procs at 1. cbn. by rewrite length_imap.
  - rewrite wake_all_lookup. destruct Hs as (-> & _). repeat case_decide; try done.
    unfold woken. by rewrite decide_False by tauto.
Qed.

Lemma at_proc_alter cur u f s :
  (forall p, p_pagetable (f p) = p_pagetable p) ->
  at_proc cur u s -> at_proc cur u (with_procs (alter f cur (procs s)) s).
Proof.
  intros Hf Hs. apply (at_proc_ext cur u s); try done; unfold procs at 1; cbn.
  - by rewrite length_alter.
  - rewrite lookup_total_alter_cases. case_decide; [apply Hf|done].
Qed.

Lemma at_proc_asleep cur u ch s : at_proc cur u s -> at_proc cur u (asleep ch s).
Proof.
  intros Hs. pose proof Hs as (E & _ & _).
  assert (at_proc cur u (with_procs (alter (fun p => p <| p_chan := ch |> <| p_state := SLEEPING |>)
      (m_cur (fs_disk s)) (procs s)) s)) as Hs' by (rewrite E; by apply at_proc_alter).
  unfold asleep. by eapply at_proc_ext.
Qed.

(** ** The scheduler *)


Lemma unsetprocnum_spec s :
  length (procs s) = nproc ->
  wp unsetprocnum (fun r s' => s' = s /\
    r = Z.of_nat (length (filter (fun p => p_state p <> UNUSED) (procs s)))) s.
Proof.
  intros Hlen. unfold unsetprocnum.
  apply (wp_while _ (fun '(i, n) st => st = s /\ (i <= nproc)%nat /\
      n = Z.of_nat (length (filter (fun p => p_state p <> UNUSED) (take i (procs s)))))
    (fun '(i, _) _ => Z.of_nat (nproc - i)));
    [|split_and!; [done|lia|done]|change (Z.of_nat (nproc - 0)) with 64; lia].
  intros [i n] st (-> & Hi & ->). destruct (Nat.ltb_spec i nproc) as [Hn|Hn].
  - k_steps. split; [|lia]. split_and!; [done|lia|].
    assert (procs s !! i = Some (procs s !!! i)) as E by (apply list_lookup_lookup_total_lt; lia).
    rewrite (take_S_r _ _ _ E), filter_app, length_app. set (p := procs s !!! i).
    assert (length (filter (fun p => p_state p <> UNUSED) (take i (procs s))) <= 64)%nat as Hb.
    { rewrite length_filter, length_take. change nproc with 64%nat in *. lia. }
    destruct (decide (p_state p = UNUSED)) as [Hu|Hu].
    + rewrite filter_cons_False by tauto. simpl. lia.
    + rewrite filter_cons_True by done. rewrite u64_small by lia. simpl. lia.
  - k_steps. split; [done|]. rewrite take_ge by lia. done.
Qed.
End table.

(** ** Witnesses *)

Lemma wakeup_exact_witness :
  exists s', @wakeup ChTicks (ex_kernel ChTicks) = Ok tt s' /\ p_state (procs s' !!! 1%nat) = RUNNABLE.
Proof.
  destruct (wp_elim _ _ _ (wakeup_exact ChTicks (ex_kernel ChTicks) eq_refl)) as ([] & s' & E & _ & _ & H).
  exists s'. split; [exact E|]. rewrite (H 1%nat) by (apply Nat.ltb_lt; reflexivity). reflexivity.
Defined.

