(* ===== verification/Uart.v ===== *)
(** * The uart driver (kernel/uart.c) and the console (kernel/console.c)

    The transmit buffer is a ring drained when the device is idle; the console
    buffer is a ring with an edit index.  Kernel messages are sent by polling. *)

From stdpp Require Import base list gmap strings.
From Stdlib Require Import ZArith Lia.
From S2P Require Import Prelude Ring Mem Riscv Kalloc Vm Sleeplock Bio Log TxDisk Fs Printf Kernel Sched.

#[local] Open Scope Z_scope.

Definition IER : Z := 1.
Definition FCR : Z := 2.
Definition LCR : Z := 3.
Definition IER_RX_ENABLE : Z := Z.shiftl 1 0.
Definition IER_TX_ENABLE : Z := Z.shiftl 1 1.
Definition FCR_FIFO_ENABLE : Z := Z.shiftl 1 0.
Definition FCR_FIFO_CLEAR : Z := Z.shiftl 3 1.
Definition LCR_EIGHT_BITS : Z := Z.shiftl 3 0.
Definition LCR_BAUD_LATCH : Z := Z.shiftl 1 7.
Definition BACKSPACE : Z := 0x100.
(** Control-x. *)
Definition ctrl (x : Z) : Z := x - 64.

Section uart.
Context `{Platform}.

Definition getu {A} (f : uart -> A) : M kernel A := getm (fun m => f (m_uart m)).
Definition updu (f : uart -> uart) : M kernel unit :=
  updm (fun m => m <| m_uart := f (m_uart m) |>).

(** [WriteReg] on a control register and on the transmit register; [ReadReg(LSR)]
    for the transmitter's bit. *)
Definition write_reg (reg v : Z) : M kernel unit := updu (fun u => u <| u_regs := u_regs u ++ [(reg, v)] |>).
Definition write_thr (c : Z) : M kernel unit := updu (fun u => u <| u_sent := u_sent u ++ [u8 c] |>).
Definition lsr_tx_idle : M kernel bool :=
  n <- getu u_polls ;;
  updu (fun u => u <| u_polls := S n |>) ;;;
  ret (pf_tx_idle n).

Definition uartinit : M kernel unit :=
  write_reg IER 0 ;;;
  write_reg LCR LCR_BAUD_LATCH ;;;
  write_reg 0 3 ;;;
  write_reg 1 0 ;;;
  write_reg LCR LCR_EIGHT_BITS ;;;
  write_reg FCR (Z.lor FCR_FIFO_ENABLE FCR_FIFO_CLEAR) ;;;
  write_reg IER (Z.lor IER_TX_ENABLE IER_RX_ENABLE).

Definition uartstart : M kernel unit :=
  while_ (fun _ : unit =>
    u <- getu id ;;
    if uart_tx_w u =? uart_tx_r u then ret (Brk tt)
    else
      idle <- lsr_tx_idle ;;
      if negb idle then ret (Brk tt)
      else
        let c := uart_tx_buf u !!! Z.to_nat (uart_tx_r u mod UART_TX_BUF_SIZE) in
        updu (fun u => u <| uart_tx_r := u64 (uart_tx_r u + 1) |>) ;;;
        wakeup ChUart ;;;
        write_thr c ;;;
        ret (Next tt)) tt.

Definition uartputc (c : Z) : M kernel unit :=
  pk <- getu panicked ;;
  if nz pk then hang
  else
    while_ (fun _ : unit =>
      u <- getu id ;;
      if uart_tx_w u =? u64 (uart_tx_r u + UART_TX_BUF_SIZE)
      then sleep ChUart ;;; ret (Next tt) else ret (Brk tt)) tt ;;;
    updu (fun u => u <| uart_tx_buf :=
      <[Z.to_nat (uart_tx_w u mod UART_TX_BUF_SIZE) := u8 c]> (uart_tx_buf u) |>) ;;;
    updu (fun u => u <| uart_tx_w := u64 (uart_tx_w u + 1) |>) ;;;
    uartstart.

Definition uartputc_sync (c : Z) : M kernel unit :=
  pk <- getu panicked ;;
  if nz pk then hang
  else
    while_ (fun _ : unit =>
      idle <- lsr_tx_idle ;;
      if negb idle then ret (Next tt) else ret (Brk tt)) tt ;;;
    write_thr c.

(** The next received character, -1 if none. *)
Definition uartgetc : M kernel Z :=
  rx <- getu u_rx ;;
  match rx with
  | c :: rx' => updu (fun u => u <| u_rx := rx' |>) ;;; ret c
  | [] => ret (-1)
  end.

(** ** The console *)

Definition consputc (c : Z) : M kernel unit :=
  if c =? BACKSPACE then uartputc_sync 8 ;;; uartputc_sync 32 ;;; uartputc_sync 8
  else uartputc_sync c.

Fixpoint put_all (l : list Z) : M kernel unit :=
  match l with
  | [] => ret tt
  | c :: l' => consputc c ;;; put_all l'
  end.

(** [printf] of the kernel. *)
Definition kernel_printf (fmt : string) (ap : list arg) : M kernel unit :=
  match kprintf (chars fmt) ap with
  | Some l => put_all l
  | None => hang
  end.

Definition state_name (st : procstate) : string :=
  match st with
  | UNUSED => "unused" | USED => "used" | SLEEPING => "sleep "
  | RUNNABLE => "runble" | RUNNING => "run   " | ZOMBIE => "zombie"
  end.
Definition newline : string := String (Ascii.ascii_of_nat 10) EmptyString.
Definition procdump : M kernel unit :=
  kernel_printf newline [] ;;;
  for_ 0 nproc (fun i =>
    p <- getp (Z.to_nat i) ;;
    when (negb (bool_decide (p_state p = UNUSED)))
      (kernel_printf "%d %s %s" [AInt (p_pid p); AStr (Some (chars (state_name (p_state p)))); AStr (Some (p_name p))] ;;;
       kernel_printf newline [])).

Definition getc {A} (f : cons -> A) : M kernel A := getm (fun m => f (m_cons m)).
Definition updc (f : cons -> cons) : M kernel unit :=
  updm (fun m => m <| m_cons := f (m_cons m) |>).

(** [cons.buf[i % INPUT_BUF_SIZE]]. *)
Definition c_at (i : Z) (c : cons) : Z := c_buf c !!! Z.to_nat (i mod INPUT_BUF_SIZE).

Definition consoleintr (c : Z) : M kernel unit :=
  if c =? ctrl 80 then procdump
  else if c =? ctrl 85 then
    while_ (fun _ : unit =>
      k <- getc id ;;
      if negb (c_e k =? c_w k) && negb (c_at (u32 (c_e k - 1)) k =? 10) then
        updc (fun k => k <| c_e := u32 (c_e k - 1) |>) ;;;
        consputc BACKSPACE ;;;
        ret (Next tt)
      else ret (Brk tt)) tt
  else if (c =? ctrl 72) || (c =? 127) then
    k <- getc id ;;
    when (negb (c_e k =? c_w k))
      (updc (fun k => k <| c_e := u32 (c_e k - 1) |>) ;;; consputc BACKSPACE)
  else
    k <- getc id ;;
    when (nz c && (u32 (c_e k - c_r k) <? INPUT_BUF_SIZE))
      (let c := if c =? 13 then 10 else c in
       consputc c ;;;
       updc (fun k => k <| c_buf := <[Z.to_nat (c_e k mod INPUT_BUF_SIZE) := u8 c]> (c_buf k) |>) ;;;
       updc (fun k => k <| c_e := u32 (c_e k + 1) |>) ;;;
       k <- getc id ;;
       when ((c =? 10) || (c =? ctrl 68) || (u32 (c_e k - c_r k) =? INPUT_BUF_SIZE))
         (updc (fun k => k <| c_w := c_e k |>) ;;; wakeup ChCons)).

Definition uartintr : M kernel unit :=
  while_ (fun _ : unit =>
    c <- uartgetc ;;
    if c =? -1 then ret (Brk tt) else consoleintr c ;;; ret (Next tt)) tt ;;;
  uartstart.

(** Called with a user address. *)
Definition consolewrite (src n : Z) : M kernel Z :=
  while_ (fun i =>
    if i <? n then
      r <- user_in [0] (u64 (src + i)) ;;
      let '(r, bytes) := r in
      if r =? -1 then ret (Brk i)
      else uartputc (bytes !!! 0%nat) ;;; ret (Next (i + 1))
    else ret (Brk i)) 0.

(** Waiting for input: [false] when the process was killed. *)
Definition await_input : M kernel bool :=
  while_ (fun _ : unit =>
    k <- getc id ;;
    if c_r k =? c_w k then
      p <- me ;;
      if nz (p_killed p) then ret (Brk false) else sleep ChCons ;;; ret (Next tt)
    else ret (Brk true)) tt.

Definition consoleread (dst n : Z) : M kernel Z :=
  let target := n in
  while_ (fun '(dst, n) =>
    if 0 <? n then
      ok <- await_input ;;
      if negb ok then ret (Brk (-1))
      else
        k <- getc id ;;
        let c := c_at (c_r k) k in
        updc (fun k => k <| c_r := u32 (c_r k + 1) |>) ;;;
        if c =? ctrl 68 then
          when (n <? target) (updc (fun k => k <| c_r := u32 (c_r k - 1) |>)) ;;;
          ret (Brk (target - n))
        else
          r <- user_out dst [u8 c] ;;
          if r =? -1 then ret (Brk (target - n))
          else if c =? 10 then ret (Brk (target - (n - 1)))
          else ret (Next (u64 (dst + 1), n - 1))
    else ret (Brk (target - n))) (dst, n).

Definition consoleinit : M kernel unit := uartinit.

(** [devsw[major].read] and [.write], as set by [consoleinit]. *)
Definition CONSOLE : Z := 1.
Definition devsw_read (major : Z) : option (Z -> Z -> M kernel Z) :=
  if major =? CONSOLE then Some consoleread else None.
Definition devsw_write (major : Z) : option (Z -> Z -> M kernel Z) :=
  if major =? CONSOLE then Some consolewrite else None.
End uart.
