(* ===== verification/UartProps.v ===== *)
(** * What the uart driver and the console guarantee (kernel/uart.c, kernel/console.c)

    Output: the bytes accepted by the driver, sent or still buffered, form a stream
    to which writers append.  Input: the console buffer is a queue of bytes that are
    ready to be read followed by the line being edited. *)

From stdpp Require Import base list gmap strings.
From Stdlib Require Import ZArith Lia.
From S2P Require Import Prelude Ring Mem Riscv Kalloc Vm VmProps Sleeplock Bio Log TxDisk Fs Printf Kernel UserMem Example Sched SchedProps Uart.

#[local] Open Scope Z_scope.

Definition the_uart (s : kernel) : uart := m_uart (fs_disk s).
Definition the_cons (s : kernel) : cons := m_cons (fs_disk s).
Definition with_uart (u : uart) (s : kernel) : kernel := s <| fs_disk := fs_disk s <| m_uart := u |> |>.
Definition with_cons (c : cons) (s : kernel) : kernel := s <| fs_disk := fs_disk s <| m_cons := c |> |>.

Lemma wp_getu {A} (f : uart -> A) Q s : Q (f (the_uart s)) s -> wp (getu f) Q s.
Proof. done. Qed.
Lemma wp_updu f (Q : unit -> kernel -> Prop) s : Q tt (with_uart (f (the_uart s)) s) -> wp (updu f) Q s.
Proof. done. Qed.
Lemma wp_getc {A} (f : cons -> A) Q s : Q (f (the_cons s)) s -> wp (getc f) Q s.
Proof. done. Qed.
Lemma wp_updc f (Q : unit -> kernel -> Prop) s : Q tt (with_cons (f (the_cons s)) s) -> wp (updc f) Q s.
Proof. done. Qed.
Ltac u_step :=
  match goal with
  | |- wp (getu _) _ _ => apply wp_getu
  | |- wp (updu _) _ _ => apply wp_updu
  | |- wp (getc _) _ _ => apply wp_getc
  | |- wp (updc _) _ _ => apply wp_updc
  | |- wp (write_thr _) _ _ => apply wp_updu
  | _ => k_step
  end.
Ltac u_steps := repeat u_step; cbv beta delta [id].

(** The transmitter becomes idle after finitely many looks at its status. *)
Class UartLive `{Platform} : Prop := {
  tx_live : forall n, exists k, Z.of_nat k < 2 ^ 63 /\ pf_tx_idle (n + k) = true;
}.

(** ** Polling output *)

(** The state after [l] was sent and the status was read up to [n] times. *)
Definition sent (l : list Z) (n : nat) (s : kernel) : kernel :=
  with_uart ((the_uart s) <| u_sent := u_sent (the_uart s) ++ l |> <| u_polls := n |>) s.

Section polling.
Context `{UartLive}.

Lemma uartputc_sync_spec c s :
  panicked (the_uart s) = 0 -> wp (uartputc_sync c) (fun _ s' => exists n, s' = sent [u8 c] n s) s.
Proof using H0.
  intros Hp. unfold uartputc_sync. u_steps. rewrite Hp. change (nz 0) with false. cbv iota. u_steps.
  destruct (tx_live (u_polls (the_uart s))) as (k & Hk & Hidle).
  eapply wp_mono; [apply (wp_while_idx _ (fun k _ st => 0 <= k /\ exists n, st = sent [] n s /\ pf_tx_idle (n + Z.to_nat k) = true)
    (fun _ st => exists n, st = sent [] n s)) with (Z.of_nat k)|].
  - clear k Hk Hidle. intros k [] st (Hk & n & -> & Hidle). unfold lsr_tx_idle. u_steps.
    change (u_polls (the_uart (sent [] n s))) with n. destruct (pf_tx_idle n) eqn:E; cbn [negb]; u_steps.
    + by exists (S n).
    + destruct (decide (k = 0)) as [->|]; [rewrite Nat.add_0_r in Hidle; congruence|]. exists (k - 1).
      split; [|lia]. split; [lia|]. exists (S n). split; [done|]. rewrite <- Hidle. f_equal. lia.
  - split; [lia|]. exists (u_polls (the_uart s)). rewrite Nat2Z.id. split; [|done].
    unfold sent. rewrite app_nil_r. by destruct s as [[? ? ? ? ? ? ? ? ? ? []]].
  - lia.
  - intros [] st [n ->]. u_steps. exists n. unfold sent, with_uart. cbn. by rewrite app_nil_r.
Qed.

Lemma sent_sent l l' n n' s : sent l' n' (sent l n s) = sent (l ++ l') n' s.
Proof. unfold sent, with_uart. cbn. by rewrite app_assoc. Qed.

(** What [consputc] sends. *)
Definition echo (c : Z) : list Z := if c =? BACKSPACE then [8; 32; 8] else [u8 c].

Lemma consputc_spec c s :
  panicked (the_uart s) = 0 -> wp (consputc c) (fun _ s' => exists n, s' = sent (echo c) n s) s.
Proof using H0.
  intros Hp. unfold consputc, echo. destruct (c =? BACKSPACE); [|by apply uartputc_sync_spec].
  u_steps. eapply wp_mono; [by apply uartputc_sync_spec|]. intros [] s1 [n1 ->].
  u_steps. eapply wp_mono; [by apply uartputc_sync_spec|]. intros [] s2 [n2 ->].
  eapply wp_mono; [by apply uartputc_sync_spec|]. intros [] s3 [n3 ->]. exists n3. by rewrite !sent_sent.
Qed.

Lemma put_all_spec l s :
  panicked (the_uart s) = 0 -> wp (put_all l) (fun _ s' => exists n, s' = sent (l ≫= echo) n s) s.
Proof using H0.
  revert s. induction l as [|c l IH]; intros s Hp; cbn [put_all].
  - u_steps. exists (u_polls (the_uart s)). unfold sent. simpl. rewrite app_nil_r. by destruct s as [[? ? ? ? ? ? ? ? ? ? []]].
  - u_steps. eapply wp_mono; [by apply consputc_spec|]. intros [] s1 [n1 ->].
    eapply wp_mono; [by apply IH|]. intros [] s2 [n2 ->]. exists n2. by rewrite sent_sent.
Qed.
End polling.

(** ** The console buffer *)

Record cons_ok (k : cons) : Prop := {
  ck_buf : length (c_buf k) = Z.to_nat INPUT_BUF_SIZE;
  ck_bytes : Forall (fun c => 0 <= c < 256) (c_buf k);
  ck_r : 0 <= c_r k < 2 ^ 32;
  ck_w : 0 <= c_w k < 2 ^ 32;
  ck_e : 0 <= c_e k < 2 ^ 32;
  ck_full : (ahead 32 (c_r k) (c_w k) + ahead 32 (c_w k) (c_e k) <= Z.to_nat INPUT_BUF_SIZE)%nat;
}.

(** The bytes ready to be read, and the line being edited. *)
Definition ready (k : cons) : list Z := rbuf INPUT_BUF_SIZE (c_buf k) (c_r k) (ahead 32 (c_r k) (c_w k)).
Definition line (k : cons) : list Z := rbuf INPUT_BUF_SIZE (c_buf k) (c_w k) (ahead 32 (c_w k) (c_e k)).

(** What typing a character does to them: erase the line, erase a character, or
    append it, which completes the line on newline, end-of-file or a full buffer. *)
Definition edit (r l : list Z) (c : Z) : list Z * list Z :=
  if c =? ctrl 85 then (r, [])
  else if (c =? ctrl 72) || (c =? 127) then (r, take (length l - 1) l)
  else if (c =? 0) || (Z.to_nat INPUT_BUF_SIZE <=? length r + length l)%nat then (r, l)
  else
    let c := if c =? 13 then 10 else c in
    if (c =? 10) || (c =? ctrl 68) || (length r + length l + 1 =? Z.to_nat INPUT_BUF_SIZE)%nat
    then (r ++ l ++ [c], []) else (r, l ++ [c]).

Lemma input_div : (INPUT_BUF_SIZE | 2 ^ 32).
Proof. exists (2 ^ 25). done. Qed.
Lemma ready_length k : length (ready k) = ahead 32 (c_r k) (c_w k).
Proof. apply rbuf_length. Qed.
Lemma line_length k : length (line k) = ahead 32 (c_w k) (c_e k).
Proof. apply rbuf_length. Qed.

(** Distances along the ring add up. *)
Lemma ahead_trans k :
  cons_ok k -> ahead 32 (c_r k) (c_e k) = (ahead 32 (c_r k) (c_w k) + ahead 32 (c_w k) (c_e k))%nat.
Proof.
  intros [_ _ Hr Hw He Hf]. change (Z.to_nat INPUT_BUF_SIZE) with 128%nat in Hf. unfold ahead in *.
  replace (c_e k - c_r k) with ((c_w k - c_r k) + (c_e k - c_w k)) by lia. rewrite Z.add_mod by lia.
  pose proof (Z.mod_pos_bound (c_w k - c_r k) (2 ^ 32) ltac:(lia)).
  pose proof (Z.mod_pos_bound (c_e k - c_w k) (2 ^ 32) ltac:(lia)). rewrite Z.mod_small; lia.
Qed.

(** The two parts are consecutive. *)
Lemma rbuf_app data r n m :
  rbuf INPUT_BUF_SIZE data r (n + m) = rbuf INPUT_BUF_SIZE data r n ++ rbuf INPUT_BUF_SIZE data (r + Z.of_nat n) m.
Proof.
  revert r. induction n as [|n IH]; intros r; [by rewrite Z.add_0_r|].
  cbn [Nat.add]. rewrite !rbuf_pop. cbn [app]. f_equal. rewrite IH. do 2 f_equal. lia.
Qed.

Lemma ready_line k :
  cons_ok k -> ready k ++ line k = rbuf INPUT_BUF_SIZE (c_buf k) (c_r k) (ahead 32 (c_r k) (c_e k)).
Proof.
  intros Hok. rewrite (ahead_trans k Hok), rbuf_app. unfold ready, line. f_equal.
  rewrite <- (rbuf_mod INPUT_BUF_SIZE ltac:(done) _ (2 ^ 32) (c_r k + _)) by (apply input_div || done).
  f_equal. apply ahead_eq; [lia|]. apply Hok.
Qed.

(** A line is complete when a newline is stored, so the edited line has none. *)
Definition cons_inv (k : cons) : Prop := cons_ok k /\ Forall (fun c => c <> 10) (line k).

(** Moving the edit index back removes the last character. *)
Lemma cons_back k :
  cons_inv k -> line k <> [] ->
  let k' := k <| c_e := u32 (c_e k - 1) |> in
  cons_inv k' /\ ready k' = ready k /\ line k' = take (length (line k) - 1) (line k) /\
  c_at (u32 (c_e k - 1)) k <> 10.
Proof.
  intros [Hok Hnl] Hne k'. pose proof Hok as [Hb Hby Hr Hw He Hf].
  destruct (ahead 32 (c_w k) (c_e k)) as [|n] eqn:Ea.
  { destruct Hne. apply nil_length_inv. by rewrite line_length. }
  pose proof (ahead_back 32 ltac:(lia) _ _ _ Ea) as Ea'.
  assert (ahead 32 (c_w k) (u32 (c_e k - 1)) = n) as Eb by exact Ea'.
  assert (line k = line k' ++ [c_at (u32 (c_e k - 1)) k]) as El.
  { unfold line, k'. cbn. rewrite Ea, Eb, rbuf_snoc. do 2 f_equal. unfold c_at. f_equal. f_equal.
    rewrite <- (mod_slot INPUT_BUF_SIZE ltac:(done) (2 ^ 32) (c_w k + _) input_div) by lia. f_equal.
    rewrite <- Eb. symmetry. apply ahead_eq; [lia|apply u32_range]. }
  assert (length (line k') = n) as Ln by (rewrite line_length; exact Eb).
  rewrite El in Hnl. apply Forall_app in Hnl as [Hnl Hlast]. split_and!.
  - split; [|done]. constructor; cbn; try done; [apply u32_range|]. rewrite Eb. lia.
  - done.
  - rewrite El, length_app. cbn [length]. by rewrite Nat.add_sub, take_app_length.
  - exact (proj1 (Forall_singleton _ _) Hlast).
Qed.

(** Storing at the edit index appends to the line. *)
Lemma cons_push k c :
  cons_ok k -> 0 <= c < 256 -> (length (ready k) + length (line k) < Z.to_nat INPUT_BUF_SIZE)%nat ->
  let k' := k <| c_buf := <[Z.to_nat (c_e k mod INPUT_BUF_SIZE) := c]> (c_buf k) |> <| c_e := u32 (c_e k + 1) |> in
  cons_ok k' /\ ready k' = ready k /\ line k' = line k ++ [c].
Proof.
  intros Hok Hc Hlen k'. pose proof (ahead_trans k Hok) as Ht. pose proof Hok as [Hb Hby Hr Hw He Hf].
  rewrite ready_length, line_length in Hlen. change (Z.to_nat INPUT_BUF_SIZE) with 128%nat in *.
  assert (ahead 32 (c_w k) (u32 (c_e k + 1)) = S (ahead 32 (c_w k) (c_e k))) as Ea by (apply ahead_push; lia).
  assert (cons_ok k') as Hok'.
  { constructor; cbn; try done; [by rewrite length_insert|by apply Forall_insert|apply u32_range|].
    change (Z.to_nat INPUT_BUF_SIZE) with 128%nat. rewrite Ea. lia. }
  assert (ready k' ++ line k' = (ready k ++ line k) ++ [c]) as E.
  { rewrite !ready_line by done. unfold k'. cbn.
    assert (ahead 32 (c_r k) (u32 (c_e k + 1)) = S (ahead 32 (c_r k) (c_e k))) as -> by (apply ahead_push; lia).
    rewrite <- (rbuf_push INPUT_BUF_SIZE ltac:(done) (c_buf k) (c_r k) _ c Hb) by (change INPUT_BUF_SIZE with 128; lia).
    do 3 f_equal. rewrite (ahead_eq 32 ltac:(lia) (c_r k) _ He) at 1.
    apply mod_slot; [done|apply input_div|lia]. }
  rewrite <- app_assoc in E. split; [done|]. apply app_inj_1 in E; [done|]. by rewrite !ready_length.
Qed.

(** Completing the line makes it ready. *)
Lemma cons_commit k :
  cons_ok k -> cons_inv (k <| c_w := c_e k |>) /\
  ready (k <| c_w := c_e k |>) = ready k ++ line k /\ line (k <| c_w := c_e k |>) = [].
Proof.
  intros Hok. assert (line (k <| c_w := c_e k |>) = []) as El by (unfold line; cbn; by rewrite ahead_refl).
  split_and!; [|by rewrite (ready_line k Hok)|done]. split; [|by rewrite El].
  pose proof (ahead_trans k Hok). destruct Hok. constructor; cbn; try done. rewrite ahead_refl. lia.
Qed.

(** The counters tell how full the buffer is. *)
Lemma cons_used k : cons_ok k -> u32 (c_e k - c_r k) = Z.of_nat (length (ready k) + length (line k)).
Proof.
  intros Hok. rewrite ready_length, line_length, <- (ahead_trans k Hok). unfold ahead.
  rewrite Z2Nat.id; [done|]. by apply Z.mod_pos_bound.
Qed.
Lemma cons_editing k : cons_ok k -> (c_e k =? c_w k) = bool_decide (line k = []).
Proof.
  intros [_ _ _ Hw He _]. destruct (Z.eqb_spec (c_e k) (c_w k)) as [E|E]; symmetry.
  - apply bool_decide_eq_true, nil_length_inv. rewrite line_length, E. apply ahead_refl.
  - apply bool_decide_eq_false. intros Hq. apply E. apply (f_equal length) in Hq. rewrite line_length in Hq.
    by apply (ahead_zero 32).
Qed.

(** The echo of a typed character: each erased character is overwritten by a blank. *)
Definition erase_seq : list Z := [8; 32; 8].
Definition edit_echo (r l : list Z) (c : Z) : list Z :=
  if c =? ctrl 85 then concat (replicate (length l) erase_seq)
  else if (c =? ctrl 72) || (c =? 127) then (if decide (l = []) then [] else erase_seq)
  else if (c =? 0) || (Z.to_nat INPUT_BUF_SIZE <=? length r + length l)%nat then []
  else [if c =? 13 then 10 else c].

Section console.
Context `{UartLive}.

(** The state of the console and what has been echoed. *)
Definition edited (s : kernel) (r l out : list Z) (s' : kernel) : Prop :=
  cons_inv (the_cons s') /\ ready (the_cons s') = r /\ line (the_cons s') = l /\
  u_sent (the_uart s') = u_sent (the_uart s) ++ out /\ panicked (the_uart s') = 0 /\
  procs s' = procs s /\ m_cur (fs_disk s') = m_cur (fs_disk s).

(** Erasing one character. *)
Lemma erase_char s r l out st :
  edited s r l out st -> l <> [] ->
  wp (updc (fun k => k <| c_e := u32 (c_e k - 1) |>) ;;; consputc BACKSPACE)
    (fun _ st' => edited s r (take (length l - 1) l) (out ++ erase_seq) st') st.
Proof using H0.
  intros (Hi & Er & El & Eo & Hp & Epr & Ecur) Hne. u_steps.
  destruct (cons_back (the_cons st) Hi) as (Hi' & Er' & El' & _); [by rewrite El|].
  eapply wp_mono; [by apply consputc_spec|]. intros [] s1 [n ->].
  split; [exact Hi'|]. split; [exact (eq_trans Er' Er)|]. split; [rewrite El in El'; exact El'|].
  split; [|by split_and!]. change (u_sent (the_uart st) ++ erase_seq = u_sent (the_uart s) ++ out ++ erase_seq).
  by rewrite Eo, app_assoc.
Qed.

Lemma kill_line s r l out st :
  edited s r l out st ->
  wp (while_ (fun _ : unit =>
      k <- getc id ;;
      if negb (c_e k =? c_w k) && negb (c_at (u32 (c_e k - 1)) k =? 10) then
        updc (fun k => k <| c_e := u32 (c_e k - 1) |>) ;;;
        consputc BACKSPACE ;;;
        ret (Next tt)
      else ret (Brk tt)) tt)
    (fun _ st' => edited s r [] (out ++ concat (replicate (length l) erase_seq)) st') st.
Proof using H0.
  intros Hed. pose proof Hed as ([Hok _] & _ & El & _).
  assert (Z.of_nat (length l) < 2 ^ 64) as Hb.
  { rewrite <- El, line_length. unfold ahead. pose proof (Z.mod_pos_bound (c_e (the_cons st) - c_w (the_cons st)) (2 ^ 32)). lia. }
  apply (wp_while_idx _ (fun n _ st' => exists l' out', n = Z.of_nat (length l') /\ edited s r l' out' st' /\
    out' ++ concat (replicate (length l') erase_seq) = out ++ concat (replicate (length l) erase_seq)))
    with (Z.of_nat (length l)); [|by exists l, out|lia].
  clear Hok El Hb Hed st. intros n [] st (l' & out' & -> & Hed & Eout). pose proof Hed as (Hi & _ & El & _). u_steps.
  rewrite (cons_editing _ (proj1 Hi)), El. destruct (bool_decide_reflect (l' = [])) as [->|Hne]; cbn [negb andb].
  { u_steps. by rewrite app_nil_r in Eout; subst. }
  destruct (cons_back (the_cons st) Hi) as (_ & _ & _ & Hc); [by rewrite El|].
  destruct (Z.eqb_spec (c_at (u32 (c_e (the_cons st) - 1)) (the_cons st)) 10) as [|_]; [done|]. cbn [negb].
  apply wp_seq2. eapply wp_mono; [by apply erase_char|]. intros [] st' Hed'. u_steps.
  destruct l' as [|x l'] using rev_ind; [done|]. rewrite length_app in *. cbn [length] in *.
  rewrite Nat.add_sub, take_app_length in Hed'.
  exists (Z.of_nat (length l')). split; [|lia]. exists l', (out' ++ erase_seq). split_and!; [done|done|].
  rewrite <- Eout, <- app_assoc. f_equal. by rewrite Nat.add_comm.
Qed.

(** Storing one character. *)
Lemma store_char s c :
  cons_inv (the_cons s) -> panicked (the_uart s) = 0 -> 0 < c < 256 ->
  (length (ready (the_cons s)) + length (line (the_cons s)) < Z.to_nat INPUT_BUF_SIZE)%nat ->
  let full := (c =? 10) || (c =? ctrl 68) ||
    (length (ready (the_cons s)) + length (line (the_cons s)) + 1 =? Z.to_nat INPUT_BUF_SIZE)%nat in
  wp (consputc c ;;;
      updc (fun k => k <| c_buf := <[Z.to_nat (c_e k mod INPUT_BUF_SIZE) := u8 c]> (c_buf k) |>) ;;;
      updc (fun k => k <| c_e := u32 (c_e k + 1) |>) ;;;
      k <- getc id ;;
      when ((c =? 10) || (c =? ctrl 68) || (u32 (c_e k - c_r k) =? INPUT_BUF_SIZE))
        (updc (fun k => k <| c_w := c_e k |>) ;;; wakeup ChCons))
    (fun _ s' => cons_inv (the_cons s') /\
      (ready (the_cons s'), line (the_cons s')) =
        (if full then (ready (the_cons s) ++ line (the_cons s) ++ [c], [])
         else (ready (the_cons s), line (the_cons s) ++ [c])) /\
      u_sent (the_uart s') = u_sent (the_uart s) ++ [c] /\
      procs s' = if full then procs (wake_all ChCons s) else procs s) s.
Proof using H0.
  intros [Hok Hnl] Hp Hc Hlen full. u_steps.
  eapply wp_mono; [by apply consputc_spec|]. intros [] s1 [n ->]. u_steps.
  assert (echo c = [c]) as ->.
  { unfold echo. destruct (Z.eqb_spec c BACKSPACE); [unfold BACKSPACE in *; lia|]. by rewrite u8_small by lia. }
  rewrite (u8_small c) by lia. set (k1 := (the_cons s) <| c_buf := <[Z.to_nat (c_e (the_cons s) mod INPUT_BUF_SIZE) := c]> (c_buf (the_cons s)) |>
    <| c_e := u32 (c_e (the_cons s) + 1) |>).
  destruct (cons_push (the_cons s) c Hok ltac:(lia) Hlen) as (Hok1 & Er1 & El1). fold k1 in Hok1, Er1, El1.
  change (the_cons (with_cons _ (with_cons _ (sent [c] n s)))) with k1.
  assert (((c =? 10) || (c =? ctrl 68) || (u32 (c_e k1 - c_r k1) =? INPUT_BUF_SIZE)) = full) as ->.
  { unfold full. f_equal. rewrite (cons_used k1 Hok1), Er1, El1, length_app. cbn [length].
    rewrite Nat.add_assoc. change INPUT_BUF_SIZE with 128. change (Z.to_nat 128) with 128%nat.
    destruct (Nat.eqb_spec (length (ready (the_cons s)) + length (line (the_cons s)) + 1) 128);
      destruct (Z.eqb_spec (Z.of_nat (length (ready (the_cons s)) + length (line (the_cons s)) + 1)) 128); lia || done. }
  destruct full eqn:Ef; u_steps.
  - destruct (cons_commit k1 Hok1) as (Hi2 & Er2 & El2).
    eapply wp_mono; [apply wakeup_spec|]. intros [] s' ->. split; [exact Hi2|]. split; [|done].
    change (the_cons (wake_all _ _)) with (k1 <| c_w := c_e k1 |>). by rewrite Er2, El2, Er1, El1.
  - split; [|split; [by rewrite <- Er1, <- El1|done]]. split; [exact Hok1|]. fold k1. change (the_cons _) with k1.
    rewrite El1. apply Forall_app. split; [exact Hnl|]. apply Forall_singleton. intros ->. by unfold full in Ef.
Qed.

(** C26: each character typed at the console (other than control-P, which prints the
    process table) edits the pending line as [edit] says: erase a line or a
    character, or append; a newline, an end-of-file or a full buffer makes the line
    ready and wakes the readers.  Bytes that are ready are never touched, nothing is
    stored in a full buffer, and the terminal shows the edit. *)
Theorem consoleintr_edits s c :
  cons_inv (the_cons s) -> panicked (the_uart s) = 0 -> 0 <= c < 256 -> c <> ctrl 80 ->
  wp (consoleintr c) (fun _ s' =>
    cons_inv (the_cons s') /\
    (ready (the_cons s'), line (the_cons s')) = edit (ready (the_cons s)) (line (the_cons s)) c /\
    u_sent (the_uart s') = u_sent (the_uart s) ++ edit_echo (ready (the_cons s)) (line (the_cons s)) c /\
    procs s' = if decide (ready (the_cons s') = ready (the_cons s)) then procs s else procs (wake_all ChCons s)) s.
Proof using H0.
  intros Hi Hp Hc HP. set (r := ready (the_cons s)). set (l := line (the_cons s)).
  assert (edited s r l [] s) as Hed by (split_and!; try done; by rewrite app_nil_r).
  unfold consoleintr, edit, edit_echo.
  destruct (Z.eqb_spec c (ctrl 80)) as [|_]; [done|]. destruct (Z.eqb_spec c (ctrl 85)) as [_|HU].
  { eapply wp_mono; [by apply (kill_line s r l [])|]. intros [] s' (Hi' & Er & El & Eo & _ & Epr & _).
    rewrite Er, El. by rewrite decide_True. }
  destruct ((c =? ctrl 72) || (c =? 127)).
  { u_steps. rewrite (cons_editing _ (proj1 Hi)). fold l. destruct (bool_decide_reflect (l = [])) as [E|Hne]; cbn [negb]; u_steps.
    - fold r l. rewrite !decide_True by done. rewrite E, app_nil_r. done.
    - rewrite (decide_False (P := l = [])) by done. eapply wp_mono; [by apply (erase_char s r l [])|].
      intros [] s' (Hi' & Er & El & Eo & _ & Epr & _). rewrite Er, El. by rewrite decide_True. }
  u_steps. rewrite (cons_used _ (proj1 Hi)). fold r l.
  assert ((nz c && (Z.of_nat (length r + length l) <? INPUT_BUF_SIZE)) =
    negb ((c =? 0) || (Z.to_nat INPUT_BUF_SIZE <=? length r + length l)%nat)) as ->.
  { rewrite negb_orb. f_equal. change INPUT_BUF_SIZE with 128. change (Z.to_nat 128) with 128%nat.
    destruct (Z.ltb_spec (Z.of_nat (length r + length l)) 128), (Nat.leb_spec 128 (length r + length l)); lia || done. }
  destruct ((c =? 0) || (Z.to_nat INPUT_BUF_SIZE <=? length r + length l)%nat) eqn:Eskip; cbn [negb]; unfold when.
  { u_steps. fold r l. rewrite app_nil_r. by rewrite decide_True. }
  apply orb_false_iff in Eskip as [Hc0 Hroom]. apply Z.eqb_neq in Hc0. apply Nat.leb_gt in Hroom.
  set (c' := if c =? 13 then 10 else c). assert (0 < c' < 256) as Hc' by (unfold c'; destruct (c =? 13); lia).
  eapply wp_mono; [by apply (store_char s c')|]. cbv zeta. fold r l. intros [] s' (Hi' & Erl & Eo & Epr).
  split_and!; [done|done|done|]. rewrite Epr. destruct ((c' =? 10) || _ || _); injection Erl as -> _.
  - rewrite decide_False; [done|]. intros E. apply (f_equal length) in E. rewrite !length_app in E. simpl in E. lia.
  - by rewrite decide_True.
Qed.
End console.

(** ** Buffered output *)

Record uart_ok (u : uart) : Prop := {
  uo_buf : length (uart_tx_buf u) = Z.to_nat UART_TX_BUF_SIZE;
  uo_w : 0 <= uart_tx_w u < 2 ^ 64;
  uo_r : 0 <= uart_tx_r u < 2 ^ 64;
  uo_full : (ahead 64 (uart_tx_r u) (uart_tx_w u) <= Z.to_nat UART_TX_BUF_SIZE)%nat;
  uo_bytes : Forall (fun c => 0 <= c < 256) (uart_tx_buf u);
  uo_panicked : panicked u = 0;
}.

(** The bytes waiting for the transmitter, and all output accepted so far. *)
Definition pending (u : uart) : list Z :=
  rbuf UART_TX_BUF_SIZE (uart_tx_buf u) (uart_tx_r u) (ahead 64 (uart_tx_r u) (uart_tx_w u)).
Definition output (u : uart) : list Z := u_sent u ++ pending u.

Lemma tx_div : (UART_TX_BUF_SIZE | 2 ^ 64).
Proof. exists (2 ^ 59). done. Qed.
Lemma pending_length u : length (pending u) = ahead 64 (uart_tx_r u) (uart_tx_w u).
Proof. apply rbuf_length. Qed.

Lemma tx_empty u : uart_ok u -> (uart_tx_w u =? uart_tx_r u) = bool_decide (pending u = []).
Proof.
  intros [_ Hw Hr _ _ _]. destruct (Z.eqb_spec (uart_tx_w u) (uart_tx_r u)) as [E|E]; symmetry.
  - apply bool_decide_eq_true, nil_length_inv. rewrite pending_length, E. apply ahead_refl.
  - apply bool_decide_eq_false. intros Hq. apply E. apply (f_equal length) in Hq. rewrite pending_length in Hq.
    by apply (ahead_zero 64).
Qed.

Lemma tx_full u :
  uart_ok u -> (uart_tx_w u =? u64 (uart_tx_r u + UART_TX_BUF_SIZE)) = bool_decide (length (pending u) = 32%nat).
Proof.
  intros [_ Hw Hr Hf _ _]. rewrite pending_length. pose proof (ahead_eq 64 ltac:(lia) (uart_tx_r u) _ Hw) as E.
  destruct (Z.eqb_spec (uart_tx_w u) (u64 (uart_tx_r u + UART_TX_BUF_SIZE))) as [Ew|Ew]; symmetry.
  - apply bool_decide_eq_true. rewrite Ew. by apply (ahead_add 64 ltac:(lia) _ 32%nat).
  - apply bool_decide_eq_false. intros Hl. apply Ew. rewrite Hl in E. exact E.
Qed.

(** Sending the first pending byte keeps the output. *)
Definition tx_send (u : uart) : uart :=
  u <| uart_tx_r := u64 (uart_tx_r u + 1) |>
    <| u_sent := u_sent u ++ [u8 (uart_tx_buf u !!! Z.to_nat (uart_tx_r u mod UART_TX_BUF_SIZE))] |>.
Lemma tx_send_ok u :
  uart_ok u -> pending u <> [] ->
  uart_ok (tx_send u) /\ output (tx_send u) = output u /\ length (pending u) = S (length (pending (tx_send u))).
Proof.
  intros [Hb Hw Hr Hf Hby Hp] Hne. destruct (ahead 64 (uart_tx_r u) (uart_tx_w u)) as [|n] eqn:Ea.
  { destruct Hne. apply nil_length_inv. by rewrite pending_length. }
  pose proof (ahead_pop 64 ltac:(lia) _ _ _ Ea) as Ea'.
  assert (ahead 64 (u64 (uart_tx_r u + 1)) (uart_tx_w u) = n) as Eb by exact Ea'.
  split; [|split].
  - constructor; cbn; try done; [apply u64_range|]. rewrite Eb. lia.
  - unfold output, pending. cbn. rewrite Ea, Eb, rbuf_pop, <- app_assoc. cbn [app]. do 2 f_equal.
    + apply u8_small. apply (Forall_lookup_1 _ _ (Z.to_nat (uart_tx_r u mod UART_TX_BUF_SIZE)) _ Hby).
      apply list_lookup_lookup_total_lt. rewrite Hb. by apply slot_lt.
    + apply rbuf_mod; [done|apply tx_div|done].
  - rewrite !pending_length. unfold tx_send. cbn. by rewrite Ea, Eb.
Qed.

(** Storing a byte extends the output. *)
Definition tx_store (c : Z) (u : uart) : uart :=
  u <| uart_tx_buf := <[Z.to_nat (uart_tx_w u mod UART_TX_BUF_SIZE) := u8 c]> (uart_tx_buf u) |>
    <| uart_tx_w := u64 (uart_tx_w u + 1) |>.
Lemma tx_store_ok c u :
  uart_ok u -> length (pending u) <> 32%nat -> uart_ok (tx_store c u) /\ output (tx_store c u) = output u ++ [u8 c].
Proof.
  intros [Hb Hw Hr Hf Hby Hp] Hq. rewrite pending_length in Hq. change (Z.to_nat UART_TX_BUF_SIZE) with 32%nat in Hf.
  assert (ahead 64 (uart_tx_r u) (u64 (uart_tx_w u + 1)) = S (ahead 64 (uart_tx_r u) (uart_tx_w u))) as Ea
    by (apply ahead_push; lia).
  split.
  - constructor; cbn; try done; [by rewrite length_insert|apply u64_range| |].
    + change (Z.to_nat UART_TX_BUF_SIZE) with 32%nat. rewrite Ea. lia.
    + apply Forall_insert; [done|apply u8_range].
  - unfold output, pending. cbn. rewrite Ea, <- app_assoc. f_equal.
    rewrite <- (rbuf_push UART_TX_BUF_SIZE ltac:(done) (uart_tx_buf u) (uart_tx_r u) _ (u8 c) Hb) by (change UART_TX_BUF_SIZE with 32; lia).
    do 3 f_equal. rewrite (ahead_eq 64 ltac:(lia) (uart_tx_r u) _ Hw) at 1. apply mod_slot; [done|apply tx_div|done].
Qed.

Section output.
Context `{PlatformLaws} (cur : nat).

Lemma uartstart_spec u s :
  at_proc cur u s -> uart_ok (the_uart s) ->
  wp uartstart (fun _ s' => at_proc cur u s' /\ uart_ok (the_uart s') /\ output (the_uart s') = output (the_uart s)) s.
Proof.
  intros Hs Hok. unfold uartstart.
  apply (wp_while _ (fun _ st => at_proc cur u st /\ uart_ok (the_uart st) /\ output (the_uart st) = output (the_uart s))
    (fun _ st => Z.of_nat (length (pending (the_uart st))))); [|done|].
  2: { destruct Hok. rewrite pending_length. change (Z.to_nat UART_TX_BUF_SIZE) with 32%nat in *. lia. }
  intros [] st (Hst & Hok' & Eo). u_steps. rewrite (tx_empty _ Hok').
  destruct (bool_decide_reflect (pending (the_uart st) = [])) as [|Hne]; u_steps; [done|].
  unfold lsr_tx_idle. u_steps. destruct (pf_tx_idle _); cbn [negb]; u_steps.
  2: { split; [by apply (at_proc_ext cur u st)|]. split; [|exact Eo]. by destruct Hok'. }
  eapply wp_mono; [apply wakeup_spec|]. intros [] s1 ->. u_steps.
  destruct (tx_send_ok _ Hok' Hne) as (Hok2 & Eo2 & El2).
  split; [split; [|split; [|exact (eq_trans Eo2 Eo)]]|].
  - eapply at_proc_ext; [apply (at_proc_wake cur u ChUart st Hst)|done..].
  - by destruct Hok2.
  - change (pending (the_uart (with_uart _ _))) with (pending (tx_send (the_uart st))). lia.
Qed.

(** While the process sleeps on a full buffer, the rest of the system makes room and
    may add output of its own. *)
Definition others_drain : Prop :=
  forall n s u, at_proc cur u s -> uart_ok (the_uart s) ->
    wp (pf_others n) (fun _ s' => at_proc cur u s' /\ p_state (procs s' !!! cur) = RUNNING /\
      uart_ok (the_uart s') /\ (length (pending (the_uart s')) < 32)%nat /\
      exists w, output (the_uart s') = output (the_uart s) ++ w) s.

Lemma uartputc_spec c u s :
  others_drain -> at_proc cur u s -> uart_ok (the_uart s) ->
  wp (uartputc c) (fun _ s' => at_proc cur u s' /\ uart_ok (the_uart s') /\
    exists w, output (the_uart s') = output (the_uart s) ++ w ++ [u8 c]) s.
Proof.
  intros Ho Hs Hok. unfold uartputc. u_steps. rewrite (uo_panicked _ Hok). change (nz 0) with false. cbv iota. u_steps.
  eapply wp_mono; [apply (wp_while_idx _ (fun k _ st => at_proc cur u st /\ uart_ok (the_uart st) /\
      (exists w, output (the_uart st) = output (the_uart s) ++ w) /\ (k = 1 \/ k = 0 /\ (length (pending (the_uart st)) < 32)%nat))
    (fun _ st => at_proc cur u st /\ uart_ok (the_uart st) /\ (exists w, output (the_uart st) = output (the_uart s) ++ w) /\
      length (pending (the_uart st)) <> 32%nat)) with 1|].
  - intros k [] st (Hst & Hok' & [w Ew] & Hk). u_steps. rewrite (tx_full _ Hok').
    destruct (bool_decide_reflect (length (pending (the_uart st)) = 32%nat)) as [Hf|Hf]; u_steps.
    2: { split_and!; try done. by exists w. }
    destruct Hk as [->|[_ ?]]; [|lia]. pose proof Hst as (Ec & Hl & _). apply wp_sleep; [by rewrite Ec|].
    eapply wp_mono; [apply (Ho _ (asleep ChUart st) u); [by apply at_proc_asleep|done]|].
    intros [] s' (Hs' & Hr & Hok2 & Hlt & w' & Ew'). rewrite Ec. split_and!; [by destruct Hs' as (-> & _)|done|].
    u_steps. exists 0. split; [|lia]. split_and!; [by apply at_proc_alter|done| |by right].
    exists (w ++ w'). change (the_uart (with_procs _ s')) with (the_uart s'). rewrite Ew'.
    change (the_uart (asleep ChUart st)) with (the_uart st). by rewrite Ew, app_assoc.
  - split_and!; try done; [by exists []; rewrite app_nil_r|by left].
  - lia.
  - intros [] st (Hst & Hok' & [w Ew] & Hnf). u_steps. destruct (tx_store_ok c _ Hok' Hnf) as [Hok2 Eo2].
    eapply wp_mono; [apply (uartstart_spec u); [by eapply at_proc_ext|exact Hok2]|].
    intros [] s' (Hs' & Hok3 & Eo3). split_and!; [done|done|]. exists w. rewrite Eo3.
    change (the_uart (with_uart _ _)) with (tx_store c (the_uart st)). by rewrite Eo2, Ew, app_assoc.
Qed.

End output.

(** ** Reading a line *)

(** What a read of [n] bytes returns from a queue and what it leaves there: up to and
    including a newline; an end-of-file ends it, and stays in the queue unless it is
    the first character.  [None] when the reader has to wait for more input. *)
Fixpoint line_of (first : bool) (n : nat) (q : list Z) : option (list Z * list Z) :=
  match n, q with
  | O, _ => Some ([], q)
  | S _, [] => None
  | S n', c :: q' =>
      if c =? ctrl 68 then Some ([], if first then q' else q)
      else if c =? 10 then Some ([c], q')
      else (fun '(l, r) => (c :: l, r)) <$> line_of false n' q'
  end.

Lemma cons_pop k :
  cons_inv k -> ready k <> [] ->
  let k' := k <| c_r := u32 (c_r k + 1) |> in
  cons_inv k' /\ ready k = c_at (c_r k) k :: ready k' /\ line k' = line k /\ 0 <= c_at (c_r k) k < 256 /\
  k' <| c_r := u32 (c_r k' - 1) |> = k.
Proof.
  intros [Hok Hnl] Hne k'. pose proof Hok as [Hb Hby Hr Hw He Hf].
  destruct (ahead 32 (c_r k) (c_w k)) as [|n] eqn:Ea.
  { destruct Hne. apply nil_length_inv. by rewrite ready_length. }
  pose proof (ahead_pop 32 ltac:(lia) _ _ _ Ea) as Ea'.
  assert (ahead 32 (u32 (c_r k + 1)) (c_w k) = n) as Eb by exact Ea'.
  split; [|split; [|split; [done|split]]].
  - split; [|exact Hnl]. constructor; cbn; try done; [apply u32_range|]. rewrite Eb. lia.
  - unfold ready, k'. cbn. rewrite Ea, Eb, rbuf_pop. f_equal. symmetry. apply rbuf_mod; [done|apply input_div|done].
  - apply (Forall_lookup_1 _ _ (Z.to_nat (c_r k mod INPUT_BUF_SIZE)) _ Hby).
    apply list_lookup_lookup_total_lt. rewrite Hb. by apply slot_lt.
  - unfold k'. destruct k as [b r w e]. cbn in *. f_equal. unfold u32. rewrite Zminus_mod_idemp_l.
    replace (r + 1 - 1) with r by lia. by rewrite (Z.mod_small r).
Qed.

Lemma cons_waiting k : cons_ok k -> (c_r k =? c_w k) = bool_decide (ready k = []).
Proof.
  intros [_ _ Hr Hw _ _]. destruct (Z.eqb_spec (c_r k) (c_w k)) as [E|E]; symmetry.
  - apply bool_decide_eq_true, nil_length_inv. rewrite ready_length, E. apply ahead_refl.
  - apply bool_decide_eq_false. intros Hq. apply E. apply (f_equal length) in Hq. rewrite ready_length in Hq.
    symmetry. by apply (ahead_zero 32).
Qed.

Section reading.
Context `{PlatformLaws} (cur : nat).

Lemma await_input_ready (Q : bool -> kernel -> Prop) s :
  cons_ok (the_cons s) -> ready (the_cons s) <> [] -> Q true s -> wp await_input Q s.
Proof.
  intros Hok Hne HQ. unfold await_input. eapply wp_mono; [apply (wp_while _ (fun _ st => st = s) (fun _ _ => 0) (fun b st => b = true /\ st = s));
    [|done|lia]|by intros b st [-> ->]].
  intros [] st ->. u_steps. rewrite (cons_waiting _ Hok), bool_decide_eq_false_2 by done. by u_steps.
Qed.

(** What the loop has still to do: [got] is in the user's buffer. *)
Definition reading (u : umem) (dst n : Z) (bytes rest l got : list Z) (d m : Z) (st : kernel) : Prop :=
  at_proc cur (u_write u dst got (Z.of_nat (length got))) st /\ cons_inv (the_cons st) /\ line (the_cons st) = l /\
  m = n - Z.of_nat (length got) /\ 0 <= m /\ d = u64 (dst + Z.of_nat (length got)) /\
  exists more, bytes = got ++ more /\
    line_of (bool_decide (got = [])) (Z.to_nat m) (ready (the_cons st)) = Some (more, rest).

(** Storing the next character behind [got]. *)
Lemma read_char u dst got c s :
  at_proc cur (u_write u dst got (Z.of_nat (length got))) s -> 0 <= dst < 2 ^ 64 -> 0 <= c < 256 ->
  u (dst + Z.of_nat (length got)) <> None ->
  wp (user_out (u64 (dst + Z.of_nat (length got))) [u8 c]) (fun r s' => r = 0 /\
    at_proc cur (u_write u dst (got ++ [c]) (Z.of_nat (length (got ++ [c])))) s' /\
    exists m, s' = with_mem m s) s.
Proof.
  intros Hs Hdst Hc Hm. pose proof Hs as (_ & _ & Hu). pose proof (user_addr_written s u dst got Hu Hdst) as Ea.
  rewrite (u8_small c Hc). eapply wp_mono; [apply (user_out_spec s (u_write u dst got (Z.of_nat (length got))) [c]);
    [exact Hu|apply u64_range|simpl; lia|by apply Forall_singleton]|].
  intros r s' ((m & ->) & k & Hu' & Hk & _ & Hres). rewrite Ea in *. cbn [length] in *.
  destruct Hres as [[-> ->]|(_ & Hk1 & Hun)].
  - split_and!; [done| |by exists m]. apply (at_proc_mem cur _ _ s m Hs). eapply user_view_eq; [|exact Hu'].
    intros a. apply u_write_snoc.
  - replace k with 0 in Hun by lia. unfold u_write in Hun. rewrite Z.add_0_r, decide_False in Hun by lia. done.
Qed.

(** C27: when a line, an end-of-file or enough input is ready, [consoleread] returns
    without waiting: it stores in the user's buffer, and nowhere else in user memory,
    what [line_of] says (at most one line and at most [n] bytes), returns its length,
    and leaves the rest of the input and the line being edited for later. *)
Theorem consoleread_line u s dst n bytes rest :
  at_proc cur u s -> cons_inv (the_cons s) -> 0 <= dst < 2 ^ 64 -> 0 <= n < 2 ^ 31 ->
  line_of true (Z.to_nat n) (ready (the_cons s)) = Some (bytes, rest) ->
  (forall i, 0 <= i < Z.of_nat (length bytes) -> u (dst + i) <> None) ->
  wp (consoleread dst n) (fun r s' => r = Z.of_nat (length bytes) /\ at_proc cur (u_write u dst bytes r) s' /\
    cons_inv (the_cons s') /\ ready (the_cons s') = rest /\ line (the_cons s') = line (the_cons s)) s.
Proof.
  intros Hs Hi Hdst Hn Hline Hmap. unfold consoleread.
  apply (wp_while _ (fun '(d, m) st => exists got, reading u dst n bytes rest (line (the_cons s)) got d m st)
    (fun '(_, m) _ => m)); [| |lia].
  2: { exists []. split_and!; try done; [|simpl; lia|lia|rewrite Z.add_0_r; symmetry; by apply u64_small|by exists bytes].
       destruct Hs as (? & ? & Hu). split_and!; [done|done|]. eapply user_view_eq; [|exact Hu].
       intros va. unfold u_write. by rewrite decide_False by (simpl; lia). }
  intros [d m] st (got & Hst & Hi' & El & Em & Hm & Ed & more & Eb & Hlo).
  destruct (Z.ltb_spec 0 m) as [Hpos|Hz].
  2: { u_steps. replace m with 0 in * by lia. injection Hlo as <- <-. rewrite app_nil_r in Eb. subst bytes.
       replace (n - 0) with (Z.of_nat (length got)) by lia. done. }
  replace (Z.to_nat m) with (S (Z.to_nat (m - 1))) in Hlo by lia.
  destruct (ready (the_cons st)) as [|c q] eqn:Er; [done|].
  assert (ready (the_cons st) <> []) as Hne by (by rewrite Er).
  u_steps. apply await_input_ready; [apply Hi'|done|]. cbn [negb]. u_steps.
  destruct (cons_pop _ Hi' Hne) as (Hi2 & Er2 & El2 & Hc & Eback). rewrite Er in Er2. injection Er2 as Ec Eq.
  rewrite <- Ec in *. cbn [line_of] in Hlo. set (st1 := with_cons _ st).
  assert (at_proc cur (u_write u dst got (Z.of_nat (length got))) st1) as Hst1 by (by eapply at_proc_ext).
  destruct (c =? ctrl 68).
  { injection Hlo as <- <-. rewrite app_nil_r in Eb. subst bytes. replace (n - m) with (Z.of_nat (length got)) by lia.
    destruct (bool_decide_reflect (got = [])) as [Eg|Eg].
    - subst got. simpl in Em. destruct (Z.ltb_spec m n); [lia|]. u_steps. split_and!; try done; by rewrite El2.
    - destruct got; [done|]. simpl in Em. destruct (Z.ltb_spec m n); [|lia]. u_steps.
      split; [done|]. split; [by eapply at_proc_ext|].
      change (the_cons (with_cons _ st1)) with ((the_cons st) <| c_r := u32 (c_r (the_cons st) + 1) |> <| c_r
        := u32 (c_r ((the_cons st) <| c_r := u32 (c_r (the_cons st) + 1) |>) - 1) |>). rewrite Eback. done. }
  assert (u (dst + Z.of_nat (length got)) <> None) as Hnext.
  { apply Hmap. rewrite Eb, length_app. destruct more; [|simpl; lia].
    destruct (c =? 10); [done|]. by destruct (line_of _ _ q) as [[]|]. }
  u_steps. rewrite Ed. eapply wp_mono; [by apply (read_char u dst got c st1)|].
  intros r s2 (-> & Hs2 & mm & Es2). cbn [Z.eqb].
  assert (the_cons s2 = (the_cons st) <| c_r := u32 (c_r (the_cons st) + 1) |>) as Ecs by (by rewrite Es2).
  assert (n - (m - 1) = Z.of_nat (length (got ++ [c]))) as En by (rewrite length_app; simpl; lia).
  destruct (c =? 10).
  - injection Hlo as <- <-. subst bytes. u_steps. rewrite En, Ecs. split_and!; try done; congruence.
  - destruct (line_of false (Z.to_nat (m - 1)) q) as [[l' r']|] eqn:El'; [|done]. injection Hlo as <- <-.
    u_steps. split; [|lia]. exists (got ++ [c]). unfold reading. rewrite <- Ed, Ecs. split_and!; try done; try lia.
    + rewrite Ed, length_app. unfold u64. rewrite Z.add_mod_idemp_l by lia. f_equal. simpl. lia.
    + exists l'. rewrite bool_decide_eq_false_2 by (by destruct got). rewrite <- Eq, Eb, <- app_assoc. done.
Qed.
End reading.

(** ** Witnesses *)

#[global] Instance ex_uart_live others : @UartLive (ex_platform others).
Proof. constructor. intros n. exists 0%nat. split; [lia|reflexivity]. Qed.

Lemma ex_cons_inv : cons_inv ex_cons.
Proof.
  split; [|constructor]. constructor; cbn; try done; [apply Forall_replicate; lia|].
  change (ahead 32 0 0) with 0%nat. lia.
Qed.
Lemma ex_uart_ok : uart_ok ex_uart.
Proof.
  constructor; cbn; try done; [|apply Forall_replicate; lia]. change (ahead 64 0 0) with 0%nat. lia.
Qed.

Lemma consoleintr_edits_witness :
  wp (@consoleintr (ex_platform (fun _ => hang)) 13) (fun _ s' =>
    ready (the_cons s') = [10] /\ line (the_cons s') = [] /\ u_sent (the_uart s') = [10]) (ex_kernel ChCons).
Proof.
  eapply wp_mono.
  - apply (@consoleintr_edits (ex_platform (fun _ => hang)) _ (ex_kernel ChCons) 13);
      [exact ex_cons_inv|reflexivity|lia|discriminate].
  - intros [] s' (_ & Erl & Eo & _). injection Erl as Er El. rewrite Er, El, Eo. done.
Defined.

Definition ex_drain (_ : nat) : M kernel unit :=
  updu (fun u => u <| u_sent := u_sent u ++ pending u |> <| uart_tx_r := uart_tx_w u |>) ;;;
  updp 0 (fun p => p <| p_state := RUNNING |>).

Lemma ex_drain_obeys : @others_drain (ex_platform ex_drain) 0.
Proof.
  intros n s u Hs Hok. unfold pf_others, ex_platform, ex_drain. u_steps. set (s1 := with_uart _ s).
  assert (@at_proc (ex_platform ex_drain) 0 u s1) as Hs1 by (by eapply at_proc_ext).
  set (u1 := the_uart s1).
  assert (pending u1 = []) as Hpd by (unfold pending; cbn; by rewrite ahead_refl).
  split; [by apply at_proc_alter|]. split_and!.
  - destruct Hs as (_ & Hl & _). unfold procs. cbn. rewrite lookup_total_alter_cases. fold (procs s). by rewrite decide_True.
  - change (uart_ok u1). destruct Hok. constructor; cbn; try done. rewrite ahead_refl. lia.
  - change (length (pending u1) < 32)%nat. rewrite Hpd. simpl. lia.
  - exists []. change (output u1 = output (the_uart s) ++ []). unfold output. by rewrite Hpd, !app_nil_r.
Qed.

Lemma ex_at_proc others ch :
  exists u, @at_proc (ex_platform others) 0 u (ex_kernel ch) /\ forall va, 0 <= va < 8192 -> u va <> None.
Proof.
  destruct (ex_view others ch) as (u & Hu & Hm). exists u. split; [|exact Hm]. split_and!; [done|cbn; lia|done].
Qed.


Definition ex_typed : cons := Cons ([108; 115; 10] ++ replicate 125 0) 0 3 3.
Lemma ex_typed_inv : cons_inv ex_typed.
Proof.
  split; [|constructor]. constructor; cbn; try done.
  - repeat (apply Forall_cons; split; [lia|]). apply Forall_nil_2.
  - change (ahead 32 0 3) with 3%nat. change (ahead 32 3 3) with 0%nat. change (Z.to_nat INPUT_BUF_SIZE) with 128%nat. lia.
Qed.

Lemma consoleread_line_witness :
  exists u, wp (@consoleread (ex_platform (fun _ => hang)) 100 50) (fun r s' => r = 3 /\
    @at_proc (ex_platform (fun _ => hang)) 0 (u_write u 100 [108; 115; 10] r) s' /\
    ready (the_cons s') = []) (with_cons ex_typed (ex_kernel ChCons)).
Proof.
  destruct (ex_at_proc (fun _ => hang) ChCons) as (u & Hu & Hm). exists u. eapply wp_mono.
  - apply (@consoleread_line (ex_platform (fun _ => hang)) (ex_laws _) 0 u (with_cons ex_typed (ex_kernel ChCons))
      100 50 [108; 115; 10] []); [by eapply at_proc_ext|exact ex_typed_inv|lia|lia|reflexivity|].
    intros i Hi. cbn in Hi. apply Hm. lia.
  - intros r s' (Er & Hs' & _ & Hr & _). exact (conj Er (conj Hs' Hr)).
Defined.
