(* ===== verification/Pipe.v ===== *)
(** * Pipes (kernel/pipe.c)

    A pipe is a ring of [PIPESIZE] bytes with free-running 32-bit counters.  The
    reader and the writer give up the CPU when it is empty or full. *)

From stdpp Require Import base list gmap strings.
From Stdlib Require Import ZArith Lia.
From S2P Require Import Prelude Ring Mem Riscv Kalloc Vm Sleeplock Bio Log TxDisk Fs Kernel Sched.

#[local] Open Scope Z_scope.

Section pipe.
Context `{Platform}.

(** The fields set by [pipealloc]; [kalloc] has filled the page with 5. *)
Definition new_pipe : pipe := Pipe (replicate (Z.to_nat PIPESIZE) 5) 0 0 1 1.

Definition pipeclose (pi : Z) (writable : bool) : M kernel unit :=
  (if writable then
     updpipe pi (fun p => p <| pi_writeopen := 0 |>) ;;;
     wakeup (ChNread pi)
   else
     updpipe pi (fun p => p <| pi_readopen := 0 |>) ;;;
     wakeup (ChNwrite pi)) ;;;
  p <- getpipe pi ;;
  when ((pi_readopen p =? 0) && (pi_writeopen p =? 0))
    (updm (fun m => m <| m_pipes := delete pi (m_pipes m) |>) ;;;
     memory (kfree pf_kend pi)).

(** [pi->data[pi->nwrite++ % PIPESIZE] = ch]. *)
Definition pipe_put (ch : Z) (p : pipe) : pipe :=
  p <| pi_data := <[Z.to_nat (pi_nwrite p mod PIPESIZE) := ch]> (pi_data p) |>
    <| pi_nwrite := u32 (pi_nwrite p + 1) |>.
(** [pi->data[pi->nread % PIPESIZE]] and [pi->nread++]. *)
Definition pipe_front (p : pipe) : Z := pi_data p !!! Z.to_nat (pi_nread p mod PIPESIZE).
Definition pipe_skip (p : pipe) : pipe := p <| pi_nread := u32 (pi_nread p + 1) |>.

Definition pipewrite (pi addr n : Z) : M kernel Z :=
  pr <- myproc ;;
  r <- while_ (fun i =>
    if i <? n then
      p <- getpipe pi ;;
      k <- killed pr ;;
      if (pi_readopen p =? 0) || nz k then ret (Brk (inl (-1)))
      else if pi_nwrite p =? u32 (pi_nread p + PIPESIZE) then
        wakeup (ChNread pi) ;;;
        sleep (ChNwrite pi) ;;;
        ret (Next i)
      else
        r <- user_in [0] (u64 (addr + i)) ;;
        let '(r, bytes) := r in
        if r =? -1 then ret (Brk (inr i))
        else
          updpipe pi (pipe_put (bytes !!! 0%nat)) ;;;
          ret (Next (i + 1))
    else ret (Brk (inr i))) 0 ;;
  match r with
  | inl e => ret e
  | inr i => wakeup (ChNread pi) ;;; ret i
  end.

(** The waiting loop of [piperead]: [false] when the process was killed. *)
Definition pipe_wait (pi : Z) (pr : nat) : M kernel bool :=
  while_ (fun _ : unit =>
    p <- getpipe pi ;;
    if (pi_nread p =? pi_nwrite p) && nz (pi_writeopen p) then
      k <- killed pr ;;
      if nz k then ret (Brk false)
      else sleep (ChNread pi) ;;; ret (Next tt)
    else ret (Brk true)) tt.

(** The copying loop of [piperead]. *)
Definition pipe_copy (pi addr n : Z) : M kernel Z :=
  while_ (fun i =>
    if i <? n then
      p <- getpipe pi ;;
      if pi_nread p =? pi_nwrite p then ret (Brk i)
      else
        let ch := pipe_front p in
        updpipe pi pipe_skip ;;;
        r <- user_out (u64 (addr + i)) [ch] ;;
        if r =? -1 then ret (Brk i) else ret (Next (i + 1))
    else ret (Brk i)) 0.

Definition piperead (pi addr n : Z) : M kernel Z :=
  pr <- myproc ;;
  ok <- pipe_wait pi pr ;;
  if negb ok then ret (-1)
  else
    i <- pipe_copy pi addr n ;;
    wakeup (ChNwrite pi) ;;;
    ret i.
End pipe.
