(* ===== verification/PipeProps.v ===== *)
(** * What pipes guarantee (kernel/pipe.c)

    A pipe is a bounded queue of bytes ([queue], of at most PIPESIZE).  While
    [pipewrite] or [piperead] sleeps the rest of the system runs; the other end of
    the pipe is an assumption about what it does to this queue. *)

From stdpp Require Import base list gmap strings.
From Stdlib Require Import ZArith Lia.
From S2P Require Import Prelude Ring Mem Riscv Kalloc Vm VmProps Sleeplock Bio Log TxDisk Fs Kernel UserMem Example Sched SchedProps Pipe.

#[local] Open Scope Z_scope.

(** ** The queue *)

Definition queue (p : pipe) : list Z :=
  rbuf PIPESIZE (pi_data p) (pi_nread p) (ahead 32 (pi_nread p) (pi_nwrite p)).

Record pipe_ok (p : pipe) : Prop := {
  po_data : length (pi_data p) = Z.to_nat PIPESIZE;
  po_bytes : Forall (fun c => 0 <= c < 256) (pi_data p);
  po_nread : 0 <= pi_nread p < 2 ^ 32;
  po_nwrite : 0 <= pi_nwrite p < 2 ^ 32;
  po_full : (ahead 32 (pi_nread p) (pi_nwrite p) <= Z.to_nat PIPESIZE)%nat;
}.

Lemma pipesize_div : (PIPESIZE | 2 ^ 32).
Proof. exists (2 ^ 23). done. Qed.

Lemma queue_length p : length (queue p) = ahead 32 (pi_nread p) (pi_nwrite p).
Proof. apply rbuf_length. Qed.

Lemma new_pipe_ok : pipe_ok new_pipe /\ queue new_pipe = [].
Proof.
  split; [|done]. constructor; cbn; try done; try lia.
  - apply Forall_replicate. lia.
  - unfold ahead. change ((0 - 0) mod 2 ^ 32) with 0. lia.
Qed.

(** The tests the code makes on the counters. *)
Lemma pipe_empty p : pipe_ok p -> (pi_nread p =? pi_nwrite p) = bool_decide (queue p = []).
Proof.
  intros [_ _ Hr Hw _]. destruct (Z.eqb_spec (pi_nread p) (pi_nwrite p)) as [E|E]; symmetry.
  - apply bool_decide_eq_true. apply nil_length_inv. rewrite queue_length, E. apply ahead_refl.
  - apply bool_decide_eq_false. intros Hq. apply E. apply (f_equal length) in Hq. rewrite queue_length in Hq.
    symmetry. by apply (ahead_zero 32).
Qed.

Lemma pipe_full p :
  pipe_ok p -> (pi_nwrite p =? u32 (pi_nread p + PIPESIZE)) = bool_decide (length (queue p) = Z.to_nat PIPESIZE).
Proof.
  intros [_ _ Hr Hw Hf]. rewrite queue_length. pose proof (ahead_eq 32 ltac:(lia) (pi_nread p) _ Hw) as E.
  destruct (Z.eqb_spec (pi_nwrite p) (u32 (pi_nread p + PIPESIZE))) as [Ew|Ew]; symmetry.
  - apply bool_decide_eq_true. rewrite Ew. apply (ahead_add 32 ltac:(lia) _ (Z.to_nat PIPESIZE)). done.
  - apply bool_decide_eq_false. intros Hl. apply Ew. rewrite Hl in E. exact E.
Qed.

(** Storing appends; reading removes the first byte. *)
Lemma pipe_put_queue c p :
  pipe_ok p -> 0 <= c < 256 -> length (queue p) <> Z.to_nat PIPESIZE ->
  pipe_ok (pipe_put c p) /\ queue (pipe_put c p) = queue p ++ [c].
Proof.
  intros [Hd Hb Hr Hw Hf] Hc Hq. rewrite queue_length in Hq.
  assert (ahead 32 (pi_nread p) (u32 (pi_nwrite p + 1)) = S (ahead 32 (pi_nread p) (pi_nwrite p))) as Ea.
  { apply ahead_push; [lia|]. change PIPESIZE with 512 in Hf. lia. }
  split.
  - constructor; cbn.
    + by rewrite length_insert.
    + by apply Forall_insert.
    + done.
    + apply u32_range.
    + rewrite Ea. lia.
  - unfold queue. cbn. rewrite Ea.
    rewrite <- (rbuf_push PIPESIZE ltac:(done) (pi_data p) (pi_nread p) _ c Hd); [|change PIPESIZE with 512 in *; lia].
    f_equal. f_equal. f_equal. rewrite (ahead_eq 32 ltac:(lia) (pi_nread p) _ Hw) at 1.
    apply mod_slot; [done|apply pipesize_div|done].
Qed.

Lemma pipe_skip_queue p :
  pipe_ok p -> queue p <> [] ->
  pipe_ok (pipe_skip p) /\ queue p = pipe_front p :: queue (pipe_skip p) /\ 0 <= pipe_front p < 256.
Proof.
  intros [Hd Hb Hr Hw Hf] Hq.
  destruct (ahead 32 (pi_nread p) (pi_nwrite p)) as [|n] eqn:Ea.
  { destruct Hq. unfold queue. by rewrite Ea. }
  pose proof (ahead_pop 32 ltac:(lia) _ _ _ Ea) as Ea'.
  assert (ahead 32 (u32 (pi_nread p + 1)) (pi_nwrite p) = n) as Ea2 by exact Ea'.
  split; [|split].
  - constructor; cbn; [done|done|apply u32_range|done|]. rewrite Ea2. lia.
  - unfold queue. cbn. rewrite Ea, Ea2, rbuf_pop. f_equal. symmetry.
    apply rbuf_mod; [done|apply pipesize_div|done].
  - apply (Forall_lookup_1 _ _ (Z.to_nat (pi_nread p mod PIPESIZE)) (pipe_front p) Hb).
    apply list_lookup_lookup_total_lt. rewrite Hd. by apply slot_lt.
Qed.

(** ** Blocking writers and readers *)

Section ends.
Context `{PlatformLaws} (pi : Z) (cur : nat).

Definition pipe_at (s : kernel) (p : pipe) : Prop := m_pipes (fs_disk s) !! pi = Some p /\ pipe_ok p.

(** While the process sleeps, the system does to the pipe what its other end may
    do ([R]) and wakes the process only for a reason ([why]). *)
Definition others_obey (ch : chan) (R : pipe -> pipe -> Prop) (why : pipe -> pipe -> Prop) : Prop :=
  forall n s p u, at_proc cur u s -> pipe_at s p -> p_chan (procs s !!! cur) = ch ->
    wp (pf_others n) (fun _ s' => at_proc cur u s' /\ p_state (procs s' !!! cur) = RUNNING /\
      exists p', pipe_at s' p' /\ R p p' /\ (why p p' \/ p_killed (procs s' !!! cur) <> 0)) s.

(** A reader takes bytes off the queue. *)
Definition reads (p p' : pipe) : Prop := exists d, queue p = d ++ queue p'.
Definition room_or_closed (p p' : pipe) : Prop :=
  (length (queue p') < Z.to_nat PIPESIZE)%nat \/ pi_readopen p' = 0.
(** A writer appends bytes. *)
Definition writes (p p' : pipe) : Prop := exists w, queue p' = queue p ++ w.
Definition data_or_closed (p p' : pipe) : Prop := queue p' <> [] \/ pi_writeopen p' = 0.

Lemma getpipe_at s p : pipe_at s p -> m_pipes (fs_disk s) !!! pi = p.
Proof. intros [E _]. by rewrite lookup_total_alt, E. Qed.

Lemma pipe_at_upd s p f :
  pipe_at s p -> pipe_ok (f p) ->
  pipe_at (s <| fs_disk := fs_disk s <| m_pipes := alter f pi (m_pipes (fs_disk s)) |> |>) (f p).
Proof. intros [E _] Hf. split; [|done]. cbn. by rewrite lookup_alter_eq, E. Qed.

(** One sleep of an end of the pipe. *)
Lemma sleep_obey ch R why s p u Q :
  others_obey ch R why -> at_proc cur u s -> pipe_at s p ->
  (forall s' p', at_proc cur u s' -> pipe_at s' p' -> R p p' ->
     (why p p' \/ p_killed (procs s' !!! cur) <> 0) -> Q tt s') ->
  wp (sleep ch) Q s.
Proof.
  intros Ho Hs Hp HQ. pose proof Hs as (E & Hl & _). apply wp_sleep; [by rewrite E|].
  eapply wp_mono; [apply (Ho _ (asleep ch s) p u); [by apply at_proc_asleep|exact Hp|]|].
  - unfold asleep, procs. cbn. rewrite E, lookup_total_alter_cases, decide_True by done. done.
  - intros [] s' (Hs' & Hr & p' & Hp' & HR & Hw). rewrite E. split_and!; [by destruct Hs' as (-> & _)|done|].
    apply (HQ _ p'); [by apply at_proc_alter|exact Hp'|done|]. destruct Hw as [Hw|Hk]; [by left|right].
    unfold procs at 1. cbn. rewrite lookup_total_alter_cases. by case_decide.
Qed.


(** ** Writing *)

(** After [i] bytes: they are a prefix of the user's buffer and have gone through the
    queue, of which the reader has taken [d]. *)
Definition written (u : umem) (p0 : pipe) (addr : Z) (i : Z) (s : kernel) (p : pipe) : Prop :=
  at_proc cur u s /\ pipe_at s p /\ exists w d, queue p0 ++ w = d ++ queue p /\
    Z.of_nat (length w) = i /\ u_read u addr (length w) = Some w.

Definition stopped (s : kernel) (p : pipe) : Prop :=
  pi_readopen p = 0 \/ p_killed (procs s !!! cur) <> 0.
#[local] Instance stopped_dec s p : Decision (stopped s p).
Proof. unfold stopped. apply _. Defined.

Definition write_bound (n i : Z) (s : kernel) (p : pipe) : Z :=
  1024 * (n - i) + Z.of_nat (length (queue p)) + (if decide (stopped s p) then 0 else 1).

Lemma queue_bound p : pipe_ok p -> (length (queue p) <= 512)%nat.
Proof. intros [_ _ _ _ Hf]. by rewrite queue_length. Qed.

(** The byte at the next user address goes to the end of the queue. *)
Lemma written_put u p0 addr i s p c m :
  written u p0 addr i s p -> user_view (with_mem m s) u -> u (addr + i) = Some c ->
  length (queue p) <> 512%nat ->
  written u p0 addr (i + 1) ((with_mem m s) <| fs_disk := fs_disk (with_mem m s) <| m_pipes :=
    alter (pipe_put c) pi (m_pipes (fs_disk (with_mem m s))) |> |>) (pipe_put c p).
Proof.
  intros (Hs & Hp & w & d & Eq & Ew & Hr) Hu Hc Hlen.
  pose proof (user_view_range _ _ _ _ Hu Hc) as [_ Hcr].
  destruct (pipe_put_queue c p (proj2 Hp) Hcr Hlen) as [Hok Hq]. split_and!.
  - apply (at_proc_ext cur u (with_mem m s)); try done. by apply (at_proc_mem cur u).
  - by apply pipe_at_upd.
  - exists (w ++ [c]), d. rewrite Hq, !app_assoc, Eq, length_app. simpl. split_and!; [done|lia|].
    rewrite Nat.add_1_r. apply u_read_snoc; [done|]. by rewrite Ew.
Qed.

(** One pass of the loop when the queue is full. *)
Lemma written_wait u p0 addr n i s p :
  others_obey (ChNwrite pi) reads room_or_closed ->
  written u p0 addr i s p -> ~ stopped s p -> length (queue p) = 512%nat -> 0 <= i < n ->
  wp (wakeup (ChNread pi) ;;; sleep (ChNwrite pi)) (fun _ s' => exists p', written u p0 addr i s' p' /\
    0 <= write_bound n i s' p' < write_bound n i s p) s.
Proof.
  intros Ho (Hs & Hp & w & d & Eq & Ew & Hr) Hns Hfull Hi. k_steps.
  eapply wp_mono; [apply wakeup_spec|]. intros [] s1 ->.
  eapply (sleep_obey _ _ _ (wake_all (ChNread pi) s) p u); [exact Ho|by apply at_proc_wake|exact Hp|].
  intros s' p' Hs' Hp' [d' E] Hw. exists p'. split.
  - split_and!; [done|done|]. exists w, (d ++ d'). by rewrite Eq, E, app_assoc.
  - unfold write_bound. rewrite (decide_False (P := stopped s p)) by done.
    assert (length (queue p) = length d' + length (queue p'))%nat as El by (by rewrite E, length_app).
    unfold room_or_closed in Hw. change (Z.to_nat PIPESIZE) with 512%nat in Hw. destruct (decide (stopped s' p')) as [Hst|Hst]; [lia|].
    unfold stopped in Hst. split; [lia|]. lia.
Qed.

(** C6: a writer that blocks on a full pipe delivers its bytes in order: if the
    other end only takes bytes off the queue, and wakes the writer when it has made
    room or the write is pointless, then [pipewrite] returns, and what it wrote, a
    prefix of the user's buffer, followed the earlier contents of the pipe through
    the queue without loss, duplication or reordering.  It returns the length of
    that prefix, which is all of the buffer up to the first unmapped byte, or -1 when
    no reader is left or the process was killed. *)
Theorem pipewrite_in_order s p0 u addr n :
  others_obey (ChNwrite pi) reads room_or_closed ->
  at_proc cur u s -> pipe_at s p0 -> 0 <= addr < 2 ^ 64 -> 0 <= n < 2 ^ 31 ->
  wp (pipewrite pi addr n) (fun r s' => exists p' w d,
    pipe_at s' p' /\ queue p0 ++ w = d ++ queue p' /\
    u_read u addr (length w) = Some w /\ Z.of_nat (length w) <= n /\
    (r = Z.of_nat (length w) /\ (r = n \/ u (addr + r) = None) \/ r = -1 /\ stopped s' p')) s.
Proof.
  intros Ho Hs Hp Ha Hn. unfold pipewrite. pose proof Hs as (Ecur & _). k_steps. rewrite Ecur.
  eapply wp_mono; [apply (wp_while_idx _ (fun k i st => exists p, 0 <= i <= n /\ written u p0 addr i st p /\ k = write_bound n i st p)
    (fun r st => exists p w d, at_proc cur u st /\ pipe_at st p /\ queue p0 ++ w = d ++ queue p /\
       u_read u addr (length w) = Some w /\ Z.of_nat (length w) <= n /\
       match r with inl e => e = -1 /\ stopped st p
       | inr i => i = Z.of_nat (length w) /\ (i = n \/ u (addr + i) = None) end)
    ) with (write_bound n 0 s p0)|].
  3: { unfold write_bound. pose proof (queue_bound _ (proj2 Hp)). destruct (decide _); lia. }
  2: { exists p0. split_and!; [lia|lia| |done]. split_and!; [done|done|]. exists [], []. by rewrite app_nil_r. }
  2: { intros r s' (p' & w & d & Hs' & Hp' & Eq & Hr & Hlen & Hend). destruct r as [e|i].
    - k_steps. exists p', w, d. split_and!; try done. by right.
    - k_steps. eapply wp_mono; [apply wakeup_spec|]. intros [] s2 ->. k_steps. exists p', w, d.
      split_and!; try done. by left. }
  intros k i st (p & Hi & Hw & ->). pose proof Hw as (Hst & Hpst & w & d & Eq & Ew & Hr).
  destruct (Z.ltb_spec i n) as [Hlt|Hge].
  2: { k_steps. exists p, w, d. split_and!; try done; try lia. }
  unfold killed, getpipe. k_steps. rewrite (getpipe_at _ _ Hpst).
  destruct (decide (stopped st p)) as [Hstop|Hgo].
  { assert ((pi_readopen p =? 0) || nz (p_killed (procs st !!! cur)) = true) as ->.
    { destruct Hstop as [->|Hk]; [done|]. unfold nz. rewrite orb_true_iff, negb_true_iff. right. by apply Z.eqb_neq. }
    k_steps. exists p, w, d. split_and!; try done; lia. }
  assert ((pi_readopen p =? 0) || nz (p_killed (procs st !!! cur)) = false) as ->.
  { unfold stopped in Hgo. unfold nz. rewrite orb_false_iff, negb_false_iff, Z.eqb_neq, Z.eqb_eq. lia. }
  rewrite (pipe_full p (proj2 Hpst)). destruct (bool_decide_reflect (length (queue p) = Z.to_nat PIPESIZE)) as [Hfull|Hroom].
  { apply wp_seq2. eapply wp_mono; [apply (written_wait u p0 addr n i st p); [done..|lia]|].
    intros [] st' (p' & Hw' & Hb). k_steps. exists (write_bound n i st' p'). split; [by exists p'|lia]. }
  k_steps. pose proof Hst as (_ & _ & Hu). pose proof (user_addr st u addr _ _ Hu Ha Hr) as Eaddr. rewrite Ew in Eaddr.
  rewrite Eaddr. eapply wp_mono; [apply (user_in_spec st u [0]); [done| |simpl; lia]|].
  { rewrite <- Eaddr. apply u64_range. }
  intros [r bytes] st' ((m & ->) & Hu' & Hres). cbn [fst snd length] in Hres.
  destruct Hres as [[-> Hone]|[-> Hnone]].
  - cbn [Z.eqb]. apply u_read_one in Hone. unfold updpipe. k_steps.
    exists (write_bound n (i + 1) ((with_mem m st) <| fs_disk := fs_disk (with_mem m st) <| m_pipes :=
      alter (pipe_put (bytes !!! 0%nat)) pi (m_pipes (fs_disk (with_mem m st))) |> |>) (pipe_put (bytes !!! 0%nat) p)).
    split; [exists (pipe_put (bytes !!! 0%nat) p); split_and!; [lia|lia|by apply written_put|done]|].
    pose proof (user_view_range _ _ _ _ Hu' Hone) as [_ Hc].
    destruct (pipe_put_queue _ p (proj2 Hpst) Hc Hroom) as [_ Hq].
    unfold write_bound. rewrite Hq, length_app, (decide_False (P := stopped st p)) by done.
    destruct (decide _); simpl; lia.
  - apply u_read_one_None in Hnone. change (-1 =? -1) with true. cbv iota. k_steps.
    exists p, w, d. split_and!; try done; [|lia|right; congruence]. by apply (at_proc_mem cur u).
Qed.

(** ** Reading *)

Lemma pipe_wait_spec s p0 u :
  others_obey (ChNread pi) writes data_or_closed -> at_proc cur u s -> pipe_at s p0 ->
  wp (pipe_wait pi cur) (fun ok s' => exists p, at_proc cur u s' /\ pipe_at s' p /\ writes p0 p /\
    if ok : bool then queue p <> [] \/ pi_writeopen p = 0 else p_killed (procs s' !!! cur) <> 0) s.
Proof.
  intros Ho Hs Hp. unfold pipe_wait.
  eapply wp_mono; [apply (wp_while_idx _ (fun k _ st => exists p, at_proc cur u st /\ pipe_at st p /\ writes p0 p /\
      (k = 1 \/ k = 0 /\ (data_or_closed p p \/ p_killed (procs st !!! cur) <> 0)))
    (fun ok s' => exists p, at_proc cur u s' /\ pipe_at s' p /\ writes p0 p /\
      if ok : bool then queue p <> [] \/ pi_writeopen p = 0 else p_killed (procs s' !!! cur) <> 0)) with 1|done].
  3: lia.
  2: { exists p0. split_and!; try done; [|by left]. exists []. by rewrite app_nil_r. }
  intros k _ st (p & Hst & Hpst & Hw & Hk). unfold getpipe, killed. k_steps.
  rewrite (getpipe_at _ _ Hpst), (pipe_empty p (proj2 Hpst)).
  destruct (bool_decide_reflect (queue p = [])) as [Hq|Hq]; cbn [andb].
  2: { k_steps. exists p. split_and!; try done. by left. }
  destruct (nz (pi_writeopen p)) eqn:Eo; unfold nz in Eo.
  2: { apply negb_false_iff, Z.eqb_eq in Eo. k_steps. exists p. split_and!; try done. by right. }
  apply negb_true_iff, Z.eqb_neq in Eo. k_steps. destruct (nz (p_killed (procs st !!! cur))) eqn:Ek; unfold nz in Ek.
  { apply negb_true_iff, Z.eqb_neq in Ek. k_steps. by exists p. }
  apply negb_false_iff, Z.eqb_eq in Ek. k_steps.
  assert (k = 1) as -> by (destruct Hk as [?|[_ [[?|?]|?]]]; [done|contradiction..]).
  eapply (sleep_obey _ _ _ st p u); [exact Ho|done|done|].
  intros s' p' Hs' Hp' [w' E'] Hwhy. k_steps. exists 0. split; [|lia]. exists p'. split_and!; try done.
  - destruct Hw as [w E]. exists (w ++ w'). by rewrite E', E, app_assoc.
  - right. split; [done|]. destruct Hwhy; [by left|by right].
Qed.

(** The bytes [got] have gone from the front of the queue to the user's buffer. *)
Definition delivered (u : umem) (p0 : pipe) (addr : Z) (got : list Z) (s : kernel) (p : pipe) : Prop :=
  at_proc cur (u_write u addr got (Z.of_nat (length got))) s /\ pipe_at s p /\ queue p0 = got ++ queue p /\
  forall j, 0 <= j < Z.of_nat (length got) -> u (addr + j) <> None.

(** What is left when the copy stops: nothing to read, the buffer full, or a byte
    taken off the queue that could not be stored. *)
Definition copy_stop (u : umem) (p0 : pipe) (addr n r : Z) (s : kernel) : Prop :=
  exists got p, r = Z.of_nat (length got) /\ r <= n /\
    ((r = n \/ queue p = []) /\ delivered u p0 addr got s p \/
     r < n /\ u (addr + r) = None /\ pipe_at s p /\ at_proc cur (u_write u addr got r) s /\
       exists c, queue p0 = got ++ c :: queue p).

Lemma pipe_copy_spec s p0 u addr n :
  at_proc cur u s -> pipe_at s p0 -> 0 <= addr < 2 ^ 64 -> 0 <= n < 2 ^ 31 ->
  wp (pipe_copy pi addr n) (fun r s' => copy_stop u p0 addr n r s') s.
Proof.
  intros Hs Hp Ha Hn. unfold pipe_copy.
  apply (wp_while _ (fun i st => 0 <= i <= n /\ exists got p, i = Z.of_nat (length got) /\ delivered u p0 addr got st p)
    (fun i _ => n - i)); [| |lia].
  2: { split; [lia|]. exists [], p0. split; [done|]. split_and!; [|done|done|simpl; lia].
       destruct Hs as (? & ? & Hu). split_and!; [done|done|]. eapply user_view_eq; [|exact Hu].
       intros va. unfold u_write. by rewrite decide_False by (simpl; lia). }
  intros i st (Hi & got & p & -> & Hdel). destruct (Z.ltb_spec (Z.of_nat (length got)) n) as [Hlt|Hge].
  2: { k_steps. exists got, p. split_and!; [done|lia|]. left. split; [left; lia|done]. }
  pose proof Hdel as (Hst & Hpst & Eq & Hm). unfold getpipe. k_steps.
  rewrite (getpipe_at _ _ Hpst), (pipe_empty p (proj2 Hpst)).
  destruct (bool_decide_reflect (queue p = [])) as [Hq|Hq].
  { k_steps. exists got, p. split_and!; [done|lia|]. left. split; [by right|done]. }
  destruct (pipe_skip_queue p (proj2 Hpst) Hq) as (Hok & Eq' & Hc). unfold updpipe. k_steps.
  set (st1 := st <| fs_disk := _ |>).
  assert (at_proc cur (u_write u addr got (Z.of_nat (length got))) st1) as Hst1 by (by apply (at_proc_ext cur _ st)).
  assert (pipe_at st1 (pipe_skip p)) as Hp1 by (by apply pipe_at_upd).
  pose proof Hst1 as (_ & _ & Hu1). rewrite (user_addr_written st1 u addr got Hu1 Ha).
  eapply wp_mono; [apply (user_out_spec st1 (u_write u addr got (Z.of_nat (length got))) [pipe_front p]); [exact Hu1| |simpl; lia|by apply Forall_singleton]|].
  { rewrite <- (user_addr_written st1 u addr got Hu1 Ha). apply u64_range. }
  intros r st2 ((m & ->) & k & Hu2 & Hk & Hmk & Hres). cbn [length] in *.
  assert (u_write u addr got (Z.of_nat (length got)) (addr + Z.of_nat (length got)) = u (addr + Z.of_nat (length got)))
    as Eu by (unfold u_write; by rewrite decide_False by lia).
  destruct Hres as [[-> ->]|(-> & Hk1 & Hun)].
  - cbn [Z.eqb]. k_steps. split; [|lia]. split; [lia|]. exists (got ++ [pipe_front p]), (pipe_skip p).
    rewrite length_app. cbn [length]. split; [lia|]. split_and!; [|exact Hp1|by rewrite <- app_assoc, Eq, Eq'|].
    + apply (at_proc_mem cur _ _ st1 m Hst1). eapply user_view_eq; [|exact Hu2].
      intros a. apply u_write_snoc.
    + intros j Hj. rewrite length_app in Hj. cbn [length] in Hj.
      destruct (decide (j < Z.of_nat (length got))); [apply Hm; lia|].
      replace j with (Z.of_nat (length got)) by lia. rewrite <- Eu.
      specialize (Hmk 0 ltac:(lia)). by rewrite Z.add_0_r in Hmk.
  - change (-1 =? -1) with true. cbv iota. k_steps. assert (k = 0) as -> by lia. rewrite Z.add_0_r, Eu in Hun.
    exists got, (pipe_skip p). split_and!; [done|lia|]. right. split_and!; [done|done|exact Hp1| |].
    + apply (at_proc_mem cur _ _ st1 m Hst1). eapply user_view_eq; [|exact Hu2].
      intros a. unfold u_write at 1. by rewrite decide_False by lia.
    + exists (pipe_front p). by rewrite Eq, Eq'.
Qed.

(** C7: a reader gets the bytes of the pipe in order: if the other end only appends
    to the queue, and wakes the reader when there is data, or no writer is left, then
    [piperead] returns, having stored in the user's buffer, and nowhere else in user
    memory, the [r] bytes at the front of what was and came into the queue, and taken
    them off it.  It reads less than asked only when the pipe is empty or the user's
    buffer ends, in which case one more byte is taken off the queue and lost.  It
    returns -1 exactly when the process was killed while the pipe was empty. *)
Theorem piperead_in_order s p0 u addr n :
  others_obey (ChNread pi) writes data_or_closed ->
  at_proc cur u s -> pipe_at s p0 -> 0 <= addr < 2 ^ 64 -> 0 <= n < 2 ^ 31 ->
  wp (piperead pi addr n) (fun r s' => exists p' w,
    pipe_at s' p' /\
    (r = -1 /\ p_killed (procs s' !!! cur) <> 0 /\ queue p0 ++ w = queue p' /\ at_proc cur u s' \/
     exists got, r = Z.of_nat (length got) /\ r <= n /\ at_proc cur (u_write u addr got r) s' /\
       ((r = n \/ queue p' = []) /\ queue p0 ++ w = got ++ queue p' \/
        r < n /\ u (addr + r) = None /\ exists lost, queue p0 ++ w = got ++ lost :: queue p'))) s.
Proof.
  intros Ho Hs Hp Ha Hn. unfold piperead. pose proof Hs as (Ecur & _). k_steps. rewrite Ecur.
  eapply wp_mono; [by apply (pipe_wait_spec s p0 u)|].
  intros ok s1 (p & Hs1 & Hp1 & [w Ew] & Hok). destruct ok; cbn [negb].
  - k_steps. eapply wp_mono; [by apply (pipe_copy_spec s1 p u)|].
    intros r s2 (got & p' & -> & Hrn & Hend). k_steps. eapply wp_mono; [apply wakeup_spec|].
    intros [] s3 ->. k_steps. exists p', w. destruct Hend as [(Hwhy & Hs2 & Hp2 & Eq & _)|(Hlt & Hun & Hp2 & Hs2 & c & Eq)].
    + split; [exact Hp2|]. right. exists got. split_and!; [done|done|by apply at_proc_wake|]. left.
      split; [done|]. by rewrite <- Ew.
    + split; [exact Hp2|]. right. exists got. split_and!; [done|done|by apply at_proc_wake|]. right.
      split_and!; [done|done|]. exists c. by rewrite <- Ew.
  - k_steps. exists p, w. split; [done|]. left. split_and!; try done.
Qed.
End ends.

(** ** A reader and a writer that take turns *)

(** The other end, when this process sleeps: a reader that empties the pipe, or a
    writer that closes it. *)
Definition ex_pi : Z := ex_end.
Definition drain (p : pipe) : pipe := p <| pi_nread := pi_nwrite p |>.
Definition ex_run_again : M kernel unit := updp 0 (fun p => p <| p_state := RUNNING |>).
Definition ex_reader (_ : nat) : M kernel unit := updpipe ex_pi drain ;;; ex_run_again.
Definition ex_writer (_ : nat) : M kernel unit :=
  updpipe ex_pi (fun p => p <| pi_writeopen := 0 |>) ;;; ex_run_again.
Definition ex_pipe_kernel (p : pipe) : kernel :=
  (ex_kernel ChTicks) <| fs_disk := fs_disk (ex_kernel ChTicks) <| m_pipes := {[ ex_pi := p ]} |> |>.

Lemma ex_again others u s s' :
  @at_proc (ex_platform others) 0 u s -> procs s' = procs s -> m_cur (fs_disk s') = m_cur (fs_disk s) ->
  m_mem (fs_disk s') = m_mem (fs_disk s) ->
  @at_proc (ex_platform others) 0 u (run ex_run_again s') /\ p_state (procs (run ex_run_again s') !!! 0%nat) = RUNNING.
Proof.
  intros Hs Ep Ec Em. assert (@at_proc (ex_platform others) 0 u s') as Hs'.
  { apply (@at_proc_ext (ex_platform others) 0 u s); try done; by rewrite Ep. }
  split; [by apply (@at_proc_alter (ex_platform others))|]. destruct Hs' as (_ & Hl & _).
  unfold procs. cbn. rewrite lookup_total_alter_cases. fold (procs s'). by rewrite decide_True.
Qed.

Lemma drain_ok p : pipe_ok p -> pipe_ok (drain p) /\ queue (drain p) = [].
Proof.
  intros [Hd Hb Hr Hw Hf]. split.
  - constructor; cbn; try done. rewrite ahead_refl. lia.
  - unfold queue. cbn. by rewrite ahead_refl.
Qed.

Lemma ex_reader_obeys : @others_obey (ex_platform ex_reader) ex_pi 0 (ChNwrite ex_pi) reads room_or_closed.
Proof.
  intros n s p u Hs Hp Hch. unfold pf_others, ex_platform, ex_reader, updpipe. k_steps.
  set (s1 := s <| fs_disk := _ |>). destruct (ex_again ex_reader u s s1 Hs eq_refl eq_refl eq_refl) as [Hs2 Hr2].
  eapply wp_intro; [reflexivity|]. split_and!; [done|done|]. destruct (drain_ok p (proj2 Hp)) as [Hok Hq].
  exists (drain p). split; [exact (pipe_at_upd ex_pi s p drain Hp Hok)|]. split; [exists (queue p); by rewrite Hq, app_nil_r|].
  left. left. rewrite Hq. vm_compute. lia.
Qed.

Lemma ex_writer_obeys : @others_obey (ex_platform ex_writer) ex_pi 0 (ChNread ex_pi) writes data_or_closed.
Proof.
  intros n s p u Hs Hp Hch. unfold pf_others, ex_platform, ex_writer, updpipe. k_steps.
  set (s1 := s <| fs_disk := _ |>). destruct (ex_again ex_writer u s s1 Hs eq_refl eq_refl eq_refl) as [Hs2 Hr2].
  eapply wp_intro; [reflexivity|]. split_and!; [done|done|].
  exists (p <| pi_writeopen := 0 |>). split; [|split; [exists []; by rewrite app_nil_r|left; by right]].
  apply (pipe_at_upd ex_pi s p (fun p => p <| pi_writeopen := 0 |>) Hp). by destruct Hp as [_ [? ? ? ? ?]].
Qed.

Lemma ex_pipe_proc others p :
  exists u, @at_proc (ex_platform others) 0 u (ex_pipe_kernel p) /\ forall va, 0 <= va < 8192 -> u va <> None.
Proof.
  destruct (ex_view others ChTicks) as (u & Hu & Hm). exists u. split; [|done].
  apply (@at_proc_ext (ex_platform others) 0 u (ex_kernel ChTicks)); try done.
  split_and!; [done|cbn; lia|done].
Qed.

Lemma ex_pipe_at p : pipe_ok p -> pipe_at ex_pi (ex_pipe_kernel p) p.
Proof. intros Hok. split; [|done]. cbn. by rewrite lookup_singleton_eq. Qed.

Lemma pipewrite_in_order_witness :
  exists u, wp (@pipewrite (ex_platform ex_reader) ex_pi 100 4000) (fun r s' => exists p' w d,
    pipe_at ex_pi s' p' /\ queue new_pipe ++ w = d ++ queue p' /\
    u_read u 100 (length w) = Some w /\ Z.of_nat (length w) <= 4000 /\
    (r = Z.of_nat (length w) /\ (r = 4000 \/ u (100 + r) = None) \/ r = -1 /\ stopped 0 s' p'))
    (ex_pipe_kernel new_pipe).
Proof.
  destruct (ex_pipe_proc ex_reader new_pipe) as (u & Hu & _). exists u.
  apply (@pipewrite_in_order (ex_platform ex_reader) (ex_laws ex_reader) ex_pi 0 (ex_pipe_kernel new_pipe) new_pipe u 100 4000);
    [exact ex_reader_obeys|exact Hu|apply ex_pipe_at, new_pipe_ok|lia|lia].
Defined.

Lemma piperead_in_order_witness :
  exists u, wp (@piperead (ex_platform ex_writer) ex_pi 100 10) (fun r s' => exists p' w,
    pipe_at ex_pi s' p' /\
    (r = -1 /\ p_killed (procs s' !!! 0%nat) <> 0 /\ queue (pipe_put 65 new_pipe) ++ w = queue p' /\
       @at_proc (ex_platform ex_writer) 0 u s' \/
     exists got, r = Z.of_nat (length got) /\ r <= 10 /\ @at_proc (ex_platform ex_writer) 0 (u_write u 100 got r) s' /\
       ((r = 10 \/ queue p' = []) /\ queue (pipe_put 65 new_pipe) ++ w = got ++ queue p' \/
        r < 10 /\ u (100 + r) = None /\ exists lost, queue (pipe_put 65 new_pipe) ++ w = got ++ lost :: queue p')))
    (ex_pipe_kernel (pipe_put 65 new_pipe)).
Proof.
  destruct (ex_pipe_proc ex_writer (pipe_put 65 new_pipe)) as (u & Hu & _). exists u.
  apply (@piperead_in_order (ex_platform ex_writer) (ex_laws ex_writer) ex_pi 0 _ (pipe_put 65 new_pipe) u 100 10);
    [exact ex_writer_obeys|exact Hu|apply ex_pipe_at|lia|lia].
  apply pipe_put_queue; [apply new_pipe_ok|lia|]. rewrite (proj2 new_pipe_ok). vm_compute. discriminate.
Defined.
