(* ===== verification/File.v ===== *)
(** * Open files (kernel/file.c) and [pipealloc] (kernel/pipe.c)

    The table of open files with reference counts, and reading and writing through
    them. *)

From stdpp Require Import base list gmap strings.
From Stdlib Require Import ZArith Lia.
From S2P Require Import Prelude Mem Riscv Kalloc Vm Sleeplock Bio BioInv Log TxDisk Fs Kernel Sched Uart Pipe.

#[local] Open Scope Z_scope.

Section file.
Context `{Platform}.

(** A free slot of [ftable]; [None] is the null pointer. *)
Definition filealloc : M kernel (option nat) :=
  while_ (fun f =>
    if (f <? NFILE)%nat then
      x <- getf f ;;
      if f_ref x =? 0 then
        updf f (fun x => x <| f_ref := 1 |>) ;;; ret (Brk (Some f))
      else ret (Next (S f))
    else ret (Brk None)) 0%nat.

Definition filedup (f : nat) : M kernel nat :=
  x <- getf f ;;
  if f_ref x <? 1 then panic "filedup"
  else updf f (fun x => x <| f_ref := f_ref x + 1 |>) ;;; ret f.

Definition fileclose (f : nat) : M kernel unit :=
  x <- getf f ;;
  if f_ref x <? 1 then panic "fileclose"
  else
    updf f (fun x => x <| f_ref := f_ref x - 1 |>) ;;;
    ff <- getf f ;;
    if 0 <? f_ref ff then ret tt
    else
      updf f (fun x => x <| f_ref := 0 |> <| f_type := FD_NONE |>) ;;;
      match f_type ff with
      | FD_PIPE => pipeclose (f_pipe ff) (nz (f_writable ff))
      | FD_INODE | FD_DEVICE =>
          logged begin_op ;;;
          iput (f_ip ff) ;;;
          logged end_op
      | FD_NONE => ret tt
      end.

(** [struct stat] in memory: dev, ino, type, nlink, padding, size. *)
Definition stat_bytes (st : stat) : list Z :=
  le_bytes 4 (u32 (st_dev st)) ++ le_bytes 4 (st_ino st) ++ le_bytes 2 (u16 (st_type st)) ++
  le_bytes 2 (u16 (st_nlink st)) ++ le_bytes 4 0 ++ le_bytes 8 (st_size st).

Definition filestat (f : nat) (addr : Z) : M kernel Z :=
  x <- getf f ;;
  match f_type x with
  | FD_INODE | FD_DEVICE =>
      ilock (f_ip x) ;;;
      st <- stati (f_ip x) ;;
      iunlock (f_ip x) ;;;
      r <- user_out addr (stat_bytes st) ;;
      if r <? 0 then ret (-1) else ret 0
  | _ => ret (-1)
  end.

Definition fileread (f : nat) (addr n : Z) : M kernel Z :=
  x <- getf f ;;
  if f_readable x =? 0 then ret (-1)
  else
    match f_type x with
    | FD_PIPE => piperead (f_pipe x) addr n
    | FD_DEVICE =>
        if (f_major x <? 0) || (NDEV <=? f_major x) then ret (-1)
        else match devsw_read (f_major x) with
             | None => ret (-1)
             | Some read => read addr n
             end
    | FD_INODE =>
        ilock (f_ip x) ;;;
        r <- readi (f_ip x) (ToUser addr) (f_off x) (u32 n) ;;
        let '(r, _) := r in
        when (0 <? r) (updf f (fun x => x <| f_off := u32 (f_off x + r) |>)) ;;;
        iunlock (f_ip x) ;;;
        ret r
    | FD_NONE => panic "fileread"
    end.

(** What one transaction of [filewrite] may write. *)
Definition write_max : Z := (MAXOPBLOCKS - 1 - 1 - 2) / 2 * BSIZE.

Definition filewrite (f : nat) (addr n : Z) : M kernel Z :=
  x <- getf f ;;
  if f_writable x =? 0 then ret (-1)
  else
    match f_type x with
    | FD_PIPE => pipewrite (f_pipe x) addr n
    | FD_DEVICE =>
        if (f_major x <? 0) || (NDEV <=? f_major x) then ret (-1)
        else match devsw_write (f_major x) with
             | None => ret (-1)
             | Some write => write addr n
             end
    | FD_INODE =>
        i <- while_ (fun i =>
          if i <? n then
            let n1 := if write_max <? n - i then write_max else n - i in
            logged begin_op ;;;
            ilock (f_ip x) ;;;
            y <- getf f ;;
            r <- writei (f_ip x) (FromUser (u64 (addr + i))) (f_off y) (u32 n1) ;;
            when (0 <? r) (updf f (fun x => x <| f_off := u32 (f_off x + r) |>)) ;;;
            iunlock (f_ip x) ;;;
            logged end_op ;;;
            if negb (r =? n1) then ret (Brk i) else ret (Next (i + r))
          else ret (Brk i)) 0 ;;
        ret (if i =? n then n else -1)
    | FD_NONE => panic "filewrite"
    end.

(** The two ends of a new pipe; [None] for -1. *)
Definition pipealloc : M kernel (option (nat * nat)) :=
  let bad f0 f1 :=
    (match f0 with Some f => fileclose f | None => ret tt end) ;;;
    (match f1 with Some f => fileclose f | None => ret tt end) ;;;
    ret None in
  f0 <- filealloc ;;
  match f0 with
  | None => bad None None
  | Some r =>
      f1 <- filealloc ;;
      match f1 with
      | None => bad f0 None
      | Some w =>
          pi <- memory kalloc ;;
          if pi =? 0 then bad f0 f1
          else
            updm (fun m => m <| m_pipes := <[pi := new_pipe]> (m_pipes m) |>) ;;;
            updf r (fun x => x <| f_type := FD_PIPE |> <| f_readable := 1 |> <| f_writable := 0 |>
              <| f_pipe := pi |>) ;;;
            updf w (fun x => x <| f_type := FD_PIPE |> <| f_readable := 0 |> <| f_writable := 1 |>
              <| f_pipe := pi |>) ;;;
            ret (Some (r, w))
      end
  end.
End file.
