(* ===== verification/Proc.v ===== *)
(** * Processes (kernel/proc.c)

    Creating, growing, copying, ending and collecting processes.  A trapframe is a
    page of physical memory; its fields are the words at the offsets of
    [struct trapframe]. *)

From stdpp Require Import base list gmap strings.
From Stdlib Require Import ZArith Lia.
From S2P Require Import Prelude Mem Str Riscv Kalloc Vm Sleeplock Bio BioInv Log TxDisk Fs Printf Kernel Sched Uart Pipe File.

#[local] Open Scope Z_scope.

(** Offsets in [struct trapframe]. *)
Definition tf_kernel_satp : Z := 0.
Definition tf_kernel_sp : Z := 8.
Definition tf_kernel_trap : Z := 16.
Definition tf_epc : Z := 24.
Definition tf_kernel_hartid : Z := 32.
Definition tf_sp : Z := 48.
Definition tf_a (n : Z) : Z := 112 + 8 * n.
Definition sizeof_trapframe : Z := 288.

(** [initcode]. *)
Definition initcode : list Z := [
  0x17; 0x05; 0x00; 0x00; 0x13; 0x05; 0x45; 0x02;
  0x97; 0x05; 0x00; 0x00; 0x93; 0x85; 0x35; 0x02;
  0x93; 0x08; 0x70; 0x00; 0x73; 0x00; 0x00; 0x00;
  0x93; 0x08; 0x20; 0x00; 0x73; 0x00; 0x00; 0x00;
  0xef; 0xf0; 0x9f; 0xff; 0x2f; 0x69; 0x6e; 0x69;
  0x74; 0x00; 0x00; 0x24; 0x00; 0x00; 0x00; 0x00;
  0x00; 0x00; 0x00; 0x00 ].

(** [safestrcpy(p->name, s, sizeof(p->name))]: the string in the 16-byte array. *)
Definition proc_name (s : list Z) : list Z := take 15 (to_nul s).

Section proc.
Context `{Platform}.

Definition proc_pagetable (trapframe : Z) : M kst Z :=
  pagetable <- uvmcreate ;;
  if pagetable =? 0 then ret 0
  else
    r <- mappages pagetable TRAMPOLINE PGSIZE pf_trampoline (Z.lor PTE_R PTE_X) ;;
    if r <? 0 then uvmfree pf_kend pagetable 0 ;;; ret 0
    else
      r <- mappages pagetable TRAPFRAME PGSIZE trapframe (Z.lor PTE_R PTE_W) ;;
      if r <? 0 then
        uvmunmap pf_kend pagetable TRAMPOLINE 1 false ;;;
        uvmfree pf_kend pagetable 0 ;;;
        ret 0
      else ret pagetable.

Definition proc_freepagetable (pagetable sz : Z) : M kst unit :=
  uvmunmap pf_kend pagetable TRAMPOLINE 1 false ;;;
  uvmunmap pf_kend pagetable TRAPFRAME 1 false ;;;
  uvmfree pf_kend pagetable sz.

Definition freeproc (i : nat) : M kernel unit :=
  p <- getp i ;;
  when (nz (p_trapframe p)) (memory (kfree pf_kend (p_trapframe p))) ;;;
  updp i (fun p => p <| p_trapframe := 0 |>) ;;;
  when (nz (p_pagetable p)) (memory (proc_freepagetable (p_pagetable p) (p_sz p))) ;;;
  updp i (fun p => p <| p_pagetable := 0 |> <| p_sz := 0 |> <| p_pid := 0 |> <| p_parent := None |>
    <| p_name := [] |> <| p_chan := ChNone |> <| p_killed := 0 |> <| p_xstate := 0 |>
    <| p_state := UNUSED |>).

(** The search of [allocproc] for an UNUSED slot. *)
Definition find_unused : M kernel (option nat) :=
  while_ (fun i =>
    if (i <? nproc)%nat then
      p <- getp i ;;
      if decide (p_state p = UNUSED) then ret (Brk (Some i)) else ret (Next (S i))
    else ret (Brk None)) 0%nat.

Definition new_context (kstack : Z) : list Z :=
  <[1%nat := kstack + PGSIZE]> (<[0%nat := pf_forkret]> (replicate 14 0)).

Definition allocproc : M kernel (option nat) :=
  o <- find_unused ;;
  match o with
  | None => ret None
  | Some i =>
      pid <- allocpid ;;
      updp i (fun p => p <| p_pid := pid |> <| p_state := USED |>) ;;;
      tf <- memory kalloc ;;
      updp i (fun p => p <| p_trapframe := tf |>) ;;;
      if tf =? 0 then freeproc i ;;; ret None
      else
        pt <- memory (proc_pagetable tf) ;;
        updp i (fun p => p <| p_pagetable := pt |>) ;;;
        if pt =? 0 then freeproc i ;;; ret None
        else
          updp i (fun p => p <| p_context := new_context (p_kstack p) |>) ;;;
          ret (Some i)
  end.

Definition store_tf (tf o v : Z) : M kernel unit := memory (store64 (tf + o) v).
Definition load_tf (tf o : Z) : M kernel Z := memory (load64 (tf + o)).

(** [namei("/")] is called without a current directory. *)
Definition userinit : M kernel unit :=
  o <- allocproc ;;
  match o with
  | None => hang
  | Some i =>
      updm (fun m => m <| m_initproc := Some i |>) ;;;
      p <- getp i ;;
      memory (update_mem (fun m => store_bytes m pf_local initcode)) ;;;
      memory (uvmfirst (p_pagetable p) pf_local (Z.of_nat (length initcode))) ;;;
      updp i (fun p => p <| p_sz := PGSIZE |>) ;;;
      store_tf (p_trapframe p) tf_epc 0 ;;;
      store_tf (p_trapframe p) tf_sp PGSIZE ;;;
      updp i (fun p => p <| p_name := proc_name (chars "initcode") |>) ;;;
      ip <- namei 0 (chars "/") ;;
      updp i (fun p => p <| p_cwd := ip |>) ;;;
      updp i (fun p => p <| p_state := RUNNABLE |>)
  end.

Definition growproc (n : Z) : M kernel Z :=
  i <- myproc ;;
  p <- getp i ;;
  let sz := p_sz p in
  if 0 <? n then
    sz <- memory (uvmalloc pf_kend (p_pagetable p) sz (u64 (sz + n)) PTE_W) ;;
    if sz =? 0 then ret (-1)
    else updp i (fun p => p <| p_sz := sz |>) ;;; ret 0
  else
    sz <- (if n <? 0 then memory (uvmdealloc pf_kend (p_pagetable p) sz (u64 (sz + n))) else ret sz) ;;
    updp i (fun p => p <| p_sz := sz |>) ;;;
    ret 0.

Definition fork : M kernel Z :=
  i <- myproc ;;
  p <- getp i ;;
  o <- allocproc ;;
  match o with
  | None => ret (-1)
  | Some c =>
      np <- getp c ;;
      r <- memory (uvmcopy pf_kend (p_pagetable p) (p_pagetable np) (p_sz p)) ;;
      if r <? 0 then freeproc c ;;; ret (-1)
      else
        updp c (fun q => q <| p_sz := p_sz p |>) ;;;
        updp c (fun q => q <| p_mask := p_mask p |>) ;;;
        memory (update_mem (fun m => memmove m (p_trapframe np) (p_trapframe p) sizeof_trapframe)) ;;;
        store_tf (p_trapframe np) (tf_a 0) 0 ;;;
        for_ 0 NOFILE (fun fd =>
          match p_ofile p !!! Z.to_nat fd with
          | Some f =>
              g <- filedup f ;;
              updp c (fun q => q <| p_ofile := <[Z.to_nat fd := Some g]> (p_ofile q) |>)
          | None => ret tt
          end) ;;;
        cwd <- (match p_cwd p with Some ip => ip' <- idup ip ;; ret (Some ip') | None => hang end) ;;
        updp c (fun q => q <| p_cwd := cwd |>) ;;;
        updp c (fun q => q <| p_name := proc_name (p_name p) |>) ;;;
        q <- getp c ;;
        let pid := p_pid q in
        updp c (fun q => q <| p_parent := Some i |>) ;;;
        updp c (fun q => q <| p_state := RUNNABLE |>) ;;;
        ret pid
  end.

(** [exit] up to the call of [sched], which does not return. *)
Definition exit_to_zombie (status : Z) : M kernel unit :=
  i <- myproc ;;
  init <- getm m_initproc ;;
  if decide (Some i = init) then panic "init exiting"
  else
    for_ 0 NOFILE (fun fd =>
      p <- getp i ;;
      match p_ofile p !!! Z.to_nat fd with
      | Some f =>
          fileclose f ;;;
          updp i (fun p => p <| p_ofile := <[Z.to_nat fd := None]> (p_ofile p) |>)
      | None => ret tt
      end) ;;;
    logged begin_op ;;;
    p <- getp i ;;
    (match p_cwd p with Some ip => iput ip | None => hang end) ;;;
    logged end_op ;;;
    updp i (fun p => p <| p_cwd := None |>) ;;;
    reparent i ;;;
    p <- getp i ;;
    wakeup (ChProc (p_parent p)) ;;;
    updp i (fun p => p <| p_xstate := status |> <| p_state := ZOMBIE |>).
Definition exit {A} (status : Z) : M kernel A :=
  exit_to_zombie status ;;;
  sched ;;;
  panic "zombie exit".

(** The scan of [wait] for an exited child: whether there are children, and the
    first zombie among them. *)
Definition wait_scan (i : nat) : M kernel (bool * option nat) :=
  while_ (fun '(c, havekids) =>
    if (c <? nproc)%nat then
      pp <- getp c ;;
      if decide (p_parent pp = Some i) then
        if decide (p_state pp = ZOMBIE) then ret (Brk (true, Some c)) else ret (Next (S c, true))
      else ret (Next (S c, havekids))
    else ret (Brk (havekids, None))) (0%nat, false).

Definition wait (addr : Z) : M kernel Z :=
  i <- myproc ;;
  while_ (fun _ : unit =>
    r <- wait_scan i ;;
    match r with
    | (_, Some c) =>
        pp <- getp c ;;
        let pid := p_pid pp in
        r <- (if nz addr then user_out addr (le_bytes 4 (u32 (p_xstate pp))) else ret 0) ;;
        if r <? 0 then ret (Brk (-1))
        else freeproc c ;;; ret (Brk pid)
    | (havekids, None) =>
        k <- killed i ;;
        if negb havekids || nz k then ret (Brk (-1))
        else sleep (ChProc (Some i)) ;;; ret (Next tt)
    end) tt.
End proc.
