(* ===== verification/ProcProps.v ===== *)
(** * What process management guarantees (kernel/proc.c)

    [proc_pagetable] makes an address space with the trampoline and the trapframe, or
    fails and leaks nothing; [proc_freepagetable] gives every page of a process and of
    its page table back. *)

From stdpp Require Import base list gmap strings.
From Stdlib Require Import ZArith Lia.
From S2P Require Import Prelude Mem Str Riscv Kalloc Vm VmInv VmUser VmCopy VmFork VmFree Sleeplock Bio BioInv Log TxDisk Fs Printf Kernel UserMem Sched SchedProps Uart Pipe File Proc.

#[local] Open Scope Z_scope.

(** The trampoline is a page of the kernel's image. *)
Class ImageLaws `{Platform} : Prop := {
  il_laws :: PlatformLaws;
  il_trampoline : 0 <= pf_trampoline < PHYSTOP;
}.

(** A leaf entry. *)
Definition entry (pa perm : Z) : Z := Z.lor (Z.lor (PA2PTE pa) perm) PTE_V.

Section space.
Context `{ImageLaws}.
Abbreviation free_inv := (free_inv pf_kend).
Abbreviation vm_inv := (vm_inv pf_kend).
Abbreviation uspace := (uspace pf_kend).
Abbreviation nodes := (gmap (list Z) Z).

(** The address space of a process with the trapframe [tf]. *)
Record pspace (s : kst) (root : Z) (N : nodes) (l D : list Z) (tf : Z) : Prop := {
  ps_user : uspace s root N l D;
  ps_trampoline : leaf (kmem s) N TRAMPOLINE = entry pf_trampoline (Z.lor PTE_R PTE_X);
  ps_trapframe : leaf (kmem s) N TRAPFRAME = entry tf (Z.lor PTE_R PTE_W);
}.

Lemma entry_leaf pa perm : 0 <= pa < 2 ^ 50 -> 0 <= perm < 1024 -> has perm PTE_R = true -> is_leaf (entry pa perm).
Proof.
  intros Hpa Hp HR. unfold entry. split; [rewrite entry_has by (done || lia); by rewrite orb_true_r|].
  rewrite entry_flags by lia. intros E. apply (f_equal (fun z => has z PTE_R)) in E. rewrite has_lor, HR in E. done.
Qed.

(** The pages above the trapframe. *)
Lemma top_page va : TRAPFRAME <= va < MAXVA -> PGROUNDDOWN va = TRAPFRAME \/ PGROUNDDOWN va = TRAMPOLINE.
Proof.
  intros Hva. destruct (PGROUNDDOWN_spec va) as [Hm Hb]. pose proof (aligned_mul _ Hm) as E. change TRAMPOLINE with (2 ^ 38 - 4096).
  rewrite TRAPFRAME_val, MAXVA_val in *. lia.
Qed.
Lemma below_top va : 0 <= va < TRAPFRAME -> PGROUNDDOWN va <> TRAPFRAME /\ PGROUNDDOWN va <> TRAMPOLINE.
Proof.
  intros Hva. destruct (PGROUNDDOWN_spec va) as [Hm Hb]. change TRAMPOLINE with (2 ^ 38 - 4096). rewrite TRAPFRAME_val in *. lia.
Qed.

(** Mapping one of them. *)
Lemma map_top s root N l va pa perm :
  vm_inv s root N l -> va = TRAMPOLINE \/ va = TRAPFRAME -> has (leaf (kmem s) N va) PTE_V = false ->
  0 <= pa < 2 ^ 50 -> 0 <= perm < 1024 ->
  wp (mappages root va PGSIZE pa perm) (fun r s' => exists N' l', vm_inv s' root N' l' /\ ext s N l [] s' N' l' /\
    (r = 0 /\ (forall va', 0 <= va' < MAXVA -> leaf (kmem s') N' va' = if decide (PGROUNDDOWN va' = va) then entry pa perm else leaf (kmem s) N va') \/
     r = -1 /\ forall va', 0 <= va' < MAXVA -> leaf (kmem s') N' va' = leaf (kmem s) N va')) s.
Proof using H0.
  intros Hvm Hva Hnone Hpa Hperm. unfold PGSIZE.
  assert (aligned va /\ 0 <= va /\ va + 4096 <= 2 ^ 38) as (Ha & Hva0 & Hmax) by (destruct Hva as [-> | ->]; done).
  assert (PGROUNDDOWN va = va) as Ea by (by apply PGROUNDDOWN_id).
  assert (PGROUNDDOWN (va + 4096 - 1) = va) as Ez.
  { apply page_of_mul; [done|]. destruct (PGROUNDDOWN_spec (va + 4096 - 1)) as [Hm Hb]. pose proof (aligned_mul _ Hm). pose proof (aligned_mul _ Ha). lia. }
  eapply wp_mono; [apply (mappages_spec pf_kend pl_kend s root N l va 4096 pa perm 1 Hvm); rewrite ?MAXVA_val, ?Ea, ?Ez; try lia|].
  - rewrite Z.sub_diag. done.
  - intros va' _ Hr. rewrite <- (leaf_page _ _ va'). replace (PGROUNDDOWN va') with va; [done|]. symmetry. apply page_of_mul; [done|].
    destruct (PGROUNDDOWN_spec va') as [Hm Hb]. pose proof (aligned_mul _ Hm). pose proof (aligned_mul _ Ha). lia.
  - rewrite Ea. intros r s' (N' & l' & k & Hvm' & Hext & Hr & Hl). exists N', l'. split_and!; [done|done|].
    destruct Hr as [[-> ->]|(-> & _ & Hk)]; [left|right]; (split; [done|]); intros va' Hva'; rewrite Hl by done; unfold mapped.
    + destruct (decide (PGROUNDDOWN va' = va)) as [->|Hne].
      * rewrite decide_True by lia. unfold entry. do 3 f_equal. lia.
      * rewrite decide_False; [done|]. intros Hr. apply Hne. by apply page_of_mul.
    + rewrite decide_False by lia. done.
Qed.

Lemma unmap_top s root N l va :
  vm_inv s root N l -> va = TRAMPOLINE \/ va = TRAPFRAME -> is_leaf (leaf (kmem s) N va) ->
  wp (uvmunmap pf_kend root va 1 false) (fun _ s' => vm_inv s' root N l /\ frame (is_node N) (kmem s) (kmem s') /\
    forall va', 0 <= va' < MAXVA -> leaf (kmem s') N va' = if decide (PGROUNDDOWN va' = va) then 0 else leaf (kmem s) N va') s.
Proof using H0.
  intros Hvm Hva Hlf. assert (aligned va /\ 0 <= va /\ va + 4096 * Z.of_nat 1 <= MAXVA) as (Ha & Hva0 & Hmax) by (destruct Hva as [-> | ->]; done).
  eapply wp_mono; [apply (uvmunmap_spec pf_kend pl_kend s root N l va 1 false [] Hvm Ha Hva0 Hmax); [|done]|].
  - intros j Hj. replace (va + 4096 * Z.of_nat j) with va by lia. done.
  - intros [] s' (Hvm' & Hf & Hl). split_and!; [exact Hvm'| |].
    + eapply frame_mono; [|exact Hf]. intros p [?|?%elem_of_nil]; done.
    + intros va' Hva'. rewrite Hl by done. unfold cleared. destruct (decide (PGROUNDDOWN va' = va)) as [->|Hne]; [by rewrite decide_True by lia|].
      rewrite decide_False; [done|]. intros Hr. apply Hne. by apply page_of_mul; [|lia].
Qed.

(** What is below the trapframe does not depend on the entries above. *)
Lemma uspace_below s s' root N N' l l' D :
  uspace s root N l D -> vm_inv s' root N' l' -> owned pf_kend N' l' D ->
  (forall va, 0 <= va < TRAPFRAME -> leaf (kmem s') N' va = leaf (kmem s) N va) ->
  (forall va, TRAPFRAME <= va < MAXVA -> has (leaf (kmem s') N' va) PTE_U = false) -> uspace s' root N' l' D.
Proof.
  intros [Hvm Hown Hlen Hmap Hfree _] Hvm' Hown' Hl Ht. split; [done|done|done| | |done].
  - intros j p Hj. pose proof (lookup_lt_Some _ _ _ Hj). rewrite Hl by (rewrite TRAPFRAME_val in *; lia). by apply Hmap.
  - intros va Hva. rewrite Hl by lia. by apply Hfree.
Qed.

Lemma proc_freepagetable_spec s root N l D tf sz :
  pspace s root N l D tf -> 0 <= tf < 2 ^ 50 -> 0 <= sz < 2 ^ 63 -> PGROUNDUP sz = 4096 * Z.of_nat (length D) ->
  gives_back pf_kend (all_of N D) (proc_freepagetable root sz) s l.
Proof using H0.
  intros [Hus Htr Htf] Htfr Hsz HP. pose proof il_trampoline as Hpt. unfold PHYSTOP, KERNBASE in Hpt. unfold proc_freepagetable, gives_back.
  assert (is_leaf (leaf (kmem s) N TRAMPOLINE)) as L1 by (rewrite Htr; apply entry_leaf; done || lia).
  assert (is_leaf (leaf (kmem s) N TRAPFRAME)) as L2 by (rewrite Htf; by apply entry_leaf).
  apply wp_bind. eapply wp_mono; [exact (unmap_top s root N l TRAMPOLINE (us_vm _ _ _ _ _ _ Hus) ltac:(by left) L1)|].
  intros [] s1 (Hvm1 & Hf1 & Hl1). apply wp_bind.
  eapply wp_mono; [apply (unmap_top s1 root N l TRAPFRAME Hvm1); [by right|]|].
  { rewrite Hl1 by done. rewrite PGROUNDDOWN_id, decide_False by done. exact L2. }
  intros [] s2 (Hvm2 & Hf2 & Hl2).
  assert (forall va, TRAPFRAME <= va < MAXVA -> leaf (kmem s2) N va = 0) as Htop.
  { intros va Hva. rewrite Hl2, Hl1 by (rewrite TRAPFRAME_val in Hva; lia). destruct (top_page va Hva) as [-> | ->]; [done|]. by rewrite decide_False by done. }
  assert (uspace s2 root N l D) as Hus2.
  { apply (uspace_below s s2 root N N l l D Hus Hvm2); [apply Hus| |].
    - intros va Hva. destruct (below_top va Hva). rewrite Hl2, Hl1 by (rewrite TRAPFRAME_val, ?MAXVA_val in *; lia). by rewrite !decide_False.
    - intros va Hva. by rewrite Htop. }
  eapply wp_mono; [apply (uvmfree_spec pf_kend pl_kend s2 root N l D sz Hus2 Hsz HP)|].
  - intros va Hva. by rewrite Htop.
  - intros [] s3 [Hfree3 Hf3]. split; [done|].
    assert (forall x, is_node N x -> x ∈ all_of N D) as Hin by (intros x Hx; apply (elem_all_of pf_kend _ _ _ _ _ x Hus); by right).
    eapply frame_trans; [eapply frame_mono; [exact Hin|exact Hf1]|]. eapply frame_trans; [eapply frame_mono; [exact Hin|exact Hf2]|done].
Qed.

(** The pages of [l] are in the table [N] or still free, and only they were written. *)
Definition took (l : list Z) (s : kst) (N : nodes) (l' : list Z) (s' : kst) : Prop :=
  (forall x, x ∈ l <-> is_node N x \/ x ∈ l') /\ frame (fun p => p ∈ l) (kmem s) (kmem s').

Lemma took_ext l s N l1 s1 N2 l2 s2 : took l s N l1 s1 -> ext s1 N l1 [] s2 N2 l2 -> took l s N2 l2 s2.
Proof.
  intros [Hl Hf] (t & -> & _ & Hn & Hf2). split.
  - intros x. rewrite Hl, elem_of_app. specialize (Hn x). rewrite elem_of_nil in Hn. tauto.
  - apply (frame_then _ _ _ _ _ Hf Hf2). intros x [Hx|Hx]; apply Hl; rewrite elem_of_app; auto.
Qed.
Lemma took_pages l s N l' s' root : NoDup l -> took l s N l' s' -> vm_inv s' root N l' -> l ≡ₚ pages N 2 [] ++ l'.
Proof.
  intros Hnd [Hl _] (Hpt & Hfree & Hu). apply NoDup_Permutation; [done| |].
  - apply NoDup_app. split_and!; [by eapply NoDup_pages| |apply Hfree]. intros x Hx. apply Hu. by eapply pages_nodes.
  - intros x. rewrite Hl, elem_of_app. by rewrite (pages_nodes _ _ _ _ Hpt).
Qed.

(** Giving up: the table has no entries left. *)
Lemma abandon s l root N l1 s1 :
  NoDup l -> took l s N l1 s1 -> vm_inv s1 root N l1 -> (forall va, 0 <= va < MAXVA -> has (leaf (kmem s1) N va) PTE_V = false) ->
  wp (uvmfree pf_kend root 0 ;;; ret 0) (fun r s' => r = 0 /\ (exists l', free_inv s' l' /\ l' ≡ₚ l) /\ frame (fun p => p ∈ l) (kmem s) (kmem s')) s1.
Proof using H0.
  intros Hnd Ht Hvm Hl. apply wp_bind. unfold uvmfree. change (0 <? 0) with false. cbv iota. apply wp_bind, wp_ret.
  eapply wp_mono; [exact (freewalk_spec pf_kend pl_kend s1 root N l1 Hvm Hl)|]. intros [] s2 [Hfree Hf]. apply wp_ret. split_and!; [done| |].
  - exists (reverse (pages N 2 []) ++ l1). split; [done|]. rewrite reverse_Permutation. symmetry. by eapply took_pages.
  - apply (frame_then _ _ _ _ _ (proj2 Ht) Hf). intros x Hx. apply Ht. left. by eapply (pages_nodes _ _ _ _ (proj1 Hvm)).
Qed.

Lemma proc_pagetable_spec s l tf :
  free_inv s l -> 0 <= tf < 2 ^ 50 ->
  wp (proc_pagetable tf) (fun r s' =>
    ((r = 0 /\ exists l', free_inv s' l' /\ l' ≡ₚ l) \/
     (r <> 0 /\ exists N l', pspace s' r N l' [] tf /\ l ≡ₚ pages N 2 [] ++ l')) /\
    frame (fun p => p ∈ l) (kmem s) (kmem s')) s.
Proof using H0.
  intros Hfree Htf. pose proof il_trampoline as Hpt. unfold PHYSTOP, KERNBASE in Hpt. pose proof Hfree as (_ & Hnd & _).
  unfold proc_pagetable. apply wp_bind. eapply wp_mono; [exact (uvmcreate_spec pf_kend pl_kend s l Hfree)|]. intros root s1.
  destruct l as [|p l]; [intros [-> ->]; apply wp_ret; split; [left; split; [done|]; by exists []|apply frame_refl]|].
  intros (-> & Hp & Hus1 & Hl1 & Hf1). pose proof (page_ok_pos pf_kend pl_kend p Hp) as Hpos. destruct (Z.eqb_spec p 0) as [->|_]; [lia|].
  assert (took (p :: l) s {[ [] := p ]} l s1) as Ht1.
  { split; [|eapply frame_mono; [|exact Hf1]; intros q ->; by left]. intros x. rewrite elem_of_cons. unfold is_node. split.
    - intros [->|?]; [left; exists []; by rewrite lookup_singleton_eq|by right].
    - intros [[q [_ <-]%lookup_singleton_Some]|?]; [by left|by right]. }
  apply wp_bind. eapply wp_mono; [apply (map_top s1 p _ l TRAMPOLINE pf_trampoline (Z.lor PTE_R PTE_X) (us_vm _ _ _ _ _ _ Hus1)); [by left|by rewrite Hl1|lia|done]|].
  intros r s2 (N2 & l2 & Hvm2 & Hext2 & Hr2). pose proof (took_ext _ _ _ _ _ _ _ _ Ht1 Hext2) as Ht2.
  destruct Hr2 as [[-> Hl2]|[-> Hl2]]; [change (0 <? 0) with false|change (-1 <? 0) with true]; cbv iota.
  2: { eapply wp_mono; [apply (abandon s (p :: l) p N2 l2 s2 Hnd Ht2 Hvm2)|]; [intros va Hva; by rewrite Hl2, Hl1|].
       intros r s3 (-> & Hx & Hf). split; [by left|done]. }
  apply wp_bind. eapply wp_mono; [apply (map_top s2 p N2 l2 TRAPFRAME tf (Z.lor PTE_R PTE_W) Hvm2); [by right| |done|done]|].
  { rewrite Hl2 by done. rewrite PGROUNDDOWN_id, decide_False by done. by rewrite Hl1. }
  intros r s3 (N3 & l3 & Hvm3 & Hext3 & Hr3). pose proof (took_ext _ _ _ _ _ _ _ _ Ht2 Hext3) as Ht3.
  destruct Hr3 as [[-> Hl3]|[-> Hl3]]; [change (0 <? 0) with false|change (-1 <? 0) with true]; cbv iota.
  - apply wp_ret. split; [|apply Ht3]. right. split; [lia|]. exists N3, l3. split; [|by eapply took_pages]. split.
    + apply (uspace_below s1 s3 p {[ [] := p ]} N3 l l3 []); [done|done| | |].
      * split_and!; [constructor|constructor|]. intros q Hq. by apply elem_of_nil in Hq.
      * intros va Hva. destruct (below_top va Hva). rewrite Hl3, Hl2 by (rewrite TRAPFRAME_val, ?MAXVA_val in *; lia). by rewrite !decide_False.
      * intros va Hva. rewrite Hl3, Hl2 by (rewrite TRAPFRAME_val in Hva; lia). destruct (top_page va Hva) as [-> | ->].
        -- rewrite decide_True by done. unfold entry. by rewrite entry_has by (done || lia).
        -- rewrite decide_False, decide_True by done. unfold entry. by rewrite entry_has by (done || lia).
    + rewrite Hl3, Hl2 by done. rewrite PGROUNDDOWN_id, decide_False, decide_True by done. done.
    + rewrite Hl3 by done. by rewrite PGROUNDDOWN_id, decide_True by done.
  - assert (leaf (kmem s3) N3 TRAMPOLINE = entry pf_trampoline (Z.lor PTE_R PTE_X)) as Htr.
    { rewrite Hl3, Hl2 by done. by rewrite PGROUNDDOWN_id, decide_True by done. }
    apply wp_bind. eapply wp_mono; [apply (unmap_top s3 p N3 l3 TRAMPOLINE Hvm3); [by left|rewrite Htr; apply entry_leaf; done || lia]|].
    intros [] s4 (Hvm4 & Hf4 & Hl4). eapply wp_mono; [apply (abandon s (p :: l) p N3 l3 s4 Hnd)|].
    + destruct Ht3 as [Hx Hf]. split; [done|]. apply (frame_then _ _ _ _ _ Hf Hf4). intros x ?. apply Hx. by left.
    + done.
    + intros va Hva. rewrite Hl4 by done. case_decide as Hc; [done|]. rewrite Hl3, Hl2 by done. rewrite decide_False by done. by rewrite Hl1.
    + intros r s5 (-> & Hx & Hf). split; [by left|done].
Qed.
End space.

(** ** Trapframes *)

Lemma wp_load_tf tf o (Q : Z -> kernel -> Prop) s : Q (rd64 (kmem (the_mem s)) (tf + o)) s -> wp (load_tf tf o) Q s.
Proof. by destruct s as [[]]. Qed.
Lemma wp_store_tf tf o v (Q : unit -> kernel -> Prop) s :
  Q tt (with_mem (Kst (wr64 (kmem (the_mem s)) (tf + o) v) (freelist (the_mem s))) s) -> wp (store_tf tf o v) Q s.
Proof. done. Qed.

(** ** The process table *)

(** The kernel with another memory, process table and next pid. *)
Definition with_pmp (m : kst) (ps : list proc) (n : Z) (s : kernel) : kernel :=
  s <| fs_disk := fs_disk s <| m_mem := m |> <| m_procs := ps |> <| m_nextpid := n |> |>.

Lemma alter_insert {A} (f : A -> A) i x (l : list A) : l !! i = Some x -> alter f i l = <[i := f x]> l.
Proof. revert i. induction l as [|y l IH]; intros [|i] E; try done; cbn in *; [congruence|]. f_equal. by apply IH. Qed.
Lemma with_pmp_id s : with_pmp (the_mem s) (procs s) (m_nextpid (fs_disk s)) s = s.
Proof. by destruct s as [[]]. Qed.
Lemma wp_getp_at c q m ps n (Q : proc -> kernel -> Prop) s :
  ps !! c = Some q -> Q q (with_pmp m ps n s) -> wp (getp c) Q (with_pmp m ps n s).
Proof. intros Hc HQ. apply wp_getp. change (procs (with_pmp m ps n s)) with ps. by rewrite (list_lookup_total_correct _ _ _ Hc). Qed.
Lemma wp_updp_at c q f m ps n (Q : unit -> kernel -> Prop) s :
  ps !! c = Some q -> Q tt (with_pmp m (<[c := f q]> ps) n s) -> wp (updp c f) Q (with_pmp m ps n s).
Proof. intros Hc HQ. apply wp_updp. change (procs (with_pmp m ps n s)) with ps. by rewrite (alter_insert _ _ _ _ Hc). Qed.
Lemma wp_memory_at {A} (c : M kst A) m ps n (Q : A -> kernel -> Prop) s :
  wp c (fun a m' => Q a (with_pmp m' ps n s)) m -> wp (memory c) Q (with_pmp m ps n s).
Proof. intros Hw. by apply wp_memory. Qed.

(** An unused entry has no memory and no open files. *)
Definition slots_ok (ps : list proc) : Prop := forall i p, ps !! i = Some p -> p_state p = UNUSED ->
  p_pagetable p = 0 /\ p_sz p = 0 /\ p_ofile p = replicate NOFILE None.

Lemma find_unused_spec s :
  length (procs s) = nproc ->
  wp find_unused (fun o s' => s' = s /\ match o with
    | Some i => exists p, procs s !! i = Some p /\ p_state p = UNUSED
    | None => forall i p, procs s !! i = Some p -> p_state p <> UNUSED end) s.
Proof.
  intros Hlen. unfold find_unused. apply (wp_while _ (fun i st => st = s /\ (i <= nproc)%nat /\
    forall j p, (j < i)%nat -> procs s !! j = Some p -> p_state p <> UNUSED) (fun i _ => Z.of_nat nproc - Z.of_nat i)).
  - intros i st (-> & Hi & Hu). destruct (Nat.ltb_spec i nproc) as [Hlt|Hge].
    + k_steps. assert (procs s !! i = Some (procs s !!! i)) as E by (apply list_lookup_lookup_total_lt; lia).
      destruct (decide _) as [Eu|Eu]; k_steps; [split; [done|]; by eexists|]. split; [|lia]. split_and!; [done|lia|].
      intros j p Hj Hp. destruct (decide (j = i)) as [->|]; [congruence|]. apply (Hu j p); [lia|done].
    + k_steps. split; [done|]. intros j p Hp. apply (Hu j p); [|done]. apply lookup_lt_Some in Hp. lia.
  - split_and!; [done|lia|lia].
  - change (Z.of_nat nproc) with 64. lia.
Qed.

(** ** freeproc *)

Definition freed_proc (p : proc) : proc :=
  p <| p_trapframe := 0 |> <| p_pagetable := 0 |> <| p_sz := 0 |> <| p_pid := 0 |> <| p_parent := None |>
    <| p_name := [] |> <| p_chan := ChNone |> <| p_killed := 0 |> <| p_xstate := 0 |> <| p_state := UNUSED |>.

Section procs.
Context `{ImageLaws}.
Abbreviation free_inv := (free_inv pf_kend).
Abbreviation page_ok := (page_ok pf_kend).

(** The pages an entry of the table owns: its trapframe [T], and its memory and page
    table [L]. *)
Definition tf_pages (p : proc) (l T : list Z) : Prop :=
  p_trapframe p = 0 /\ T = [] \/ T = [p_trapframe p] /\ page_ok (p_trapframe p) /\ ~ (p_trapframe p ∈ l).
Definition pt_pages (m : kst) (p : proc) (l L : list Z) : Prop :=
  p_pagetable p = 0 /\ L = [] \/
  p_pagetable p <> 0 /\ exists N D, pspace m (p_pagetable p) N l D (p_trapframe p) /\ L = all_of N D /\
    page_ok (p_trapframe p) /\ ~ (p_trapframe p ∈ L) /\ 0 <= p_sz p < 2 ^ 63 /\ PGROUNDUP (p_sz p) = 4096 * Z.of_nat (length D).

Lemma pspace_free m m' root N l D tf :
  pspace m root N l D tf -> page_ok tf -> ~ (tf ∈ all_of N D) -> free_inv m' (tf :: l) -> frame (fun q => q = tf) (kmem m) (kmem m') ->
  pspace m' root N (tf :: l) D tf.
Proof using H0.
  intros [Hus Htr Htf] Hp Hn Hfree Hf. assert (~ (tf ∈ D) /\ ~ is_node N tf) as [HD HN].
  { split; intros Hx; apply Hn, (elem_all_of pf_kend _ _ _ _ _ _ Hus); auto. }
  destruct (vm_inv_other pf_kend (m) m' root N l (tf :: l) tf) as [Hvm Hl]; [apply Hus|done|done|done|done|done|].
  split; [|by rewrite Hl|by rewrite Hl]. by apply (uspace_other pf_kend m m' root N l (tf :: l) D tf).
Qed.

(** The two halves of [freeproc]. *)
Lemma free_tf_spec m ps n s p l T L :
  free_inv m l -> tf_pages p l T -> pt_pages m p l L ->
  wp (when (nz (p_trapframe p)) (memory (kfree pf_kend (p_trapframe p)))) (fun _ s' => exists m', s' = with_pmp m' ps n s /\
    free_inv m' (T ++ l) /\ frame (fun q => q ∈ T) (kmem m) (kmem m') /\ pt_pages m' p (T ++ l) L) (with_pmp m ps n s).
Proof using H0.
  intros Hfree [[E ->]|(-> & Hp & Hpl)] HL.
  - rewrite E. change (nz 0) with false. unfold when. apply wp_ret. exists m. split_and!; [done|done|apply frame_refl|done].
  - pose proof (page_ok_pos pf_kend pl_kend _ Hp). unfold nz. destruct (Z.eqb_spec (p_trapframe p) 0) as [|_]; [lia|]. cbn [negb when].
    apply wp_memory_at. eapply wp_mono; [by apply (kfree_spec pf_kend pl_kend _ l)|]. intros [] m' (Hfree' & Hs & _).
    assert (frame (fun q => q = p_trapframe p) (kmem m) (kmem m')) as Hf.
    { intros a Ha. apply Hs. intros q ->%list_elem_of_singleton. by apply Ha. }
    exists m'. split_and!; [done|done|by apply frame_same_outside|].
    destruct HL as [?|(Hne & N & D & Hps & -> & _ & HnL & Hsz)]; [by left|right]. split; [done|]. exists N, D.
    split_and!; try done; [|apply Hsz..]. by apply (pspace_free m).
Qed.

Lemma free_pt_spec m ps n s p l L :
  free_inv m l -> pt_pages m p l L ->
  wp (when (nz (p_pagetable p)) (memory (proc_freepagetable (p_pagetable p) (p_sz p)))) (fun _ s' => exists m', s' = with_pmp m' ps n s /\
    free_inv m' (reverse L ++ l) /\ frame (fun q => q ∈ L) (kmem m) (kmem m')) (with_pmp m ps n s).
Proof using H0.
  intros Hfree [[E ->]|(Hne & N & D & Hps & -> & Htf & HnL & Hsz & HP)].
  - rewrite E. change (nz 0) with false. unfold when. apply wp_ret. exists m. split_and!; [done|done|apply frame_refl].
  - unfold nz. destruct (Z.eqb_spec (p_pagetable p) 0); [done|]. cbn [negb when]. apply wp_memory_at.
    pose proof (page_ok_pos pf_kend pl_kend _ Htf). assert (p_trapframe p < 2 ^ 50) by (destruct Htf as (_ & _ & ?); unfold PHYSTOP, KERNBASE in *; lia).
    pose proof (proc_freepagetable_spec _ _ N l D (p_trapframe p) (p_sz p) Hps ltac:(lia) Hsz HP) as Hw%gives_back_wp.
    apply (wp_mono _ _ _ _ Hw). intros [] m' [Hfree' Hf']. exists m'. split; [reflexivity|]. split; [exact Hfree'|exact Hf'].
Qed.

(** [freeproc] gives every page of the entry back and empties it. *)
Lemma freeproc_spec c q m ps n s l T L :
  ps !! c = Some q -> free_inv m l -> tf_pages q l T -> pt_pages m q l L ->
  wp (freeproc c) (fun _ s' => exists m', s' = with_pmp m' (<[c := freed_proc q]> ps) n s /\
    free_inv m' (reverse L ++ T ++ l) /\ frame (fun x => x ∈ L ++ T) (kmem m) (kmem m')) (with_pmp m ps n s).
Proof using H0.
  intros Hc Hfree HT HL. pose proof (lookup_lt_Some _ _ _ Hc) as Hlt. unfold freeproc. k_step. apply (wp_getp_at _ _ _ _ _ _ _ Hc).
  k_step. apply (wp_mono _ _ _ _ (free_tf_spec m ps n s q l T L Hfree HT HL)). intros [] s1 (m1 & -> & Hfree1 & Hf1 & HL1).
  k_step. apply (wp_updp_at _ _ _ _ _ _ _ _ Hc). k_step.
  apply (wp_mono _ _ _ _ (free_pt_spec m1 _ n s q (T ++ l) L Hfree1 HL1)). intros [] s2 (m2 & -> & Hfree2 & Hf2).
  eapply wp_updp_at; [by apply list_lookup_insert_eq|]. exists m2. split_and!; [by rewrite list_insert_insert_eq|exact Hfree2|].
  eapply frame_trans; eapply frame_mono; [|exact Hf1| |exact Hf2]; intros x Hx; apply elem_of_app; auto.
Qed.

(** ** allocproc *)

(** The entry of a new process. *)
Definition new_proc (pid tf pt : Z) (q : proc) : proc :=
  q <| p_pid := pid |> <| p_state := USED |> <| p_trapframe := tf |> <| p_pagetable := pt |>
    <| p_context := new_context (p_kstack q) |>.

(** Nothing but unused entries changed. *)
Definition same_used (ps ps' : list proc) : Prop :=
  length ps' = length ps /\ slots_ok ps' /\
  forall i p, ps !! i = Some p -> ps' !! i = Some p \/ p_state p = UNUSED /\ exists p', ps' !! i = Some p' /\ p_state p' = UNUSED.

Lemma same_used_refl ps : slots_ok ps -> same_used ps ps.
Proof. intros Hok. split_and!; [done|done|]. auto. Qed.
Lemma same_used_freed ps c q q' :
  slots_ok ps -> ps !! c = Some q -> p_state q = UNUSED -> p_ofile q' = p_ofile q -> same_used ps (<[c := freed_proc q']> ps).
Proof.
  intros Hok Hc Hq Ho. pose proof (lookup_lt_Some _ _ _ Hc) as Hlt. destruct (Hok c q Hc Hq) as (_ & _ & E). split_and!; [by rewrite length_insert| |].
  - intros i p. rewrite list_lookup_insert. case_decide as Hd; [|apply Hok]. intros [= <-] _. cbn. by rewrite Ho.
  - intros i p Hi. rewrite list_lookup_insert. case_decide as Hd; [|by left]. right. destruct Hd as [-> _].
    assert (p = q) as -> by congruence. split; [done|]. by eexists.
Qed.

(** [allocproc] takes an unused entry and gives it a trapframe and a page table, all from
    free pages; if it fails, every page is free again. *)
Definition alloc_failed (m : kst) (ps : list proc) (l : list Z) (s s' : kernel) : Prop :=
  exists m' ps' n' l', s' = with_pmp m' ps' n' s /\ same_used ps ps' /\ free_inv m' l' /\ l' ≡ₚ l /\
    frame (fun x => x ∈ l) (kmem m) (kmem m').
Definition allocated (m : kst) (ps : list proc) (n : Z) (l : list Z) (s s' : kernel) (c : nat) : Prop :=
  exists q m' tf pt N l', s' = with_pmp m' (<[c := new_proc n tf pt q]> ps) (n + 1) s /\ ps !! c = Some q /\ p_state q = UNUSED /\
    pt <> 0 /\ pspace m' pt N l' [] tf /\ page_ok tf /\ l ≡ₚ tf :: pages N 2 [] ++ l' /\ frame (fun x => x ∈ l) (kmem m) (kmem m').

(** After the entry is found. *)
Lemma allocproc_at c q m ps n s l :
  slots_ok ps -> ps !! c = Some q -> p_state q = UNUSED -> free_inv m l ->
  wp (tf <- memory kalloc ;; updp c (fun p => p <| p_trapframe := tf |>) ;;;
      if tf =? 0 then freeproc c ;;; ret None
      else pt <- memory (proc_pagetable tf) ;; updp c (fun p => p <| p_pagetable := pt |>) ;;;
        if pt =? 0 then freeproc c ;;; ret None
        else updp c (fun p => p <| p_context := new_context (p_kstack p) |>) ;;; ret (Some c))
    (fun o s' => match o with None => alloc_failed m ps l s s' | Some c' => allocated m ps n l s s' c' end)
    (with_pmp m (<[c := q <| p_pid := n |> <| p_state := USED |>]> ps) (n + 1) s).
Proof using H0.
  intros Hok Hc Hq Hfree. pose proof (lookup_lt_Some _ _ _ Hc) as Hlt. destruct (Hok c q Hc Hq) as (Hpt0 & _ & _).
  assert (forall x, <[c := x]> ps !! c = Some x) as Hin by (intros; by apply list_lookup_insert_eq).
  k_step. apply wp_memory_at. eapply wp_mono; [exact (kalloc_spec pf_kend pl_kend m l Hfree)|]. intros tf m1 Hk.
  k_step. apply (wp_updp_at _ _ _ _ _ _ _ _ (Hin _)). rewrite list_insert_insert_eq. destruct l as [|p l].
  { destruct Hk as [-> ->]. change (0 =? 0) with true. cbv iota. k_step.
    eapply wp_mono; [apply (freeproc_spec _ _ m _ _ s [] [] [] (Hin _) Hfree); by left|].
    intros [] s2 (m2 & -> & Hfree2 & Hf2). k_step. rewrite list_insert_insert_eq. eexists m2, _, (n + 1), []. split_and!; [reflexivity| |exact Hfree2|done|exact Hf2].
    by apply (same_used_freed ps c q). }
  destruct Hk as (-> & Hfree1 & Hf1 & _). pose proof Hfree as (_ & Hnd & Hall). apply NoDup_cons in Hnd as [Hpl _]. apply Forall_cons in Hall as [Hp _].
  pose proof (page_ok_pos pf_kend pl_kend p Hp) as Hpos. destruct (Z.eqb_spec p 0) as [->|_]; [lia|].
  assert (p < 2 ^ 50) as Hp50 by (destruct Hp as (_ & _ & ?); unfold PHYSTOP, KERNBASE in *; lia).
  assert (frame (fun x => x ∈ p :: l) (kmem m) (kmem m1)) as Hf1'.
  { eapply frame_mono; [|exact (proj1 (frame_same_outside _ _ _) Hf1)]. intros x ->%list_elem_of_singleton. by left. }
  k_step. apply wp_memory_at. eapply wp_mono; [apply (proc_pagetable_spec m1 l p Hfree1); lia|]. intros pt m2 [Hr Hf2].
  assert (frame (fun x => x ∈ p :: l) (kmem m) (kmem m2)) as Hf2'.
  { apply (frame_then _ _ _ _ _ Hf1' Hf2). intros x ?. by right. }
  k_step. apply (wp_updp_at _ _ _ _ _ _ _ _ (Hin _)). rewrite list_insert_insert_eq.
  destruct Hr as [[-> (l2 & Hfree2 & Hl2)]|[Hpt (N & l2 & Hps & Hl2)]].
  - change (0 =? 0) with true. cbv iota. k_step.
    eapply wp_mono; [apply (freeproc_spec _ _ m2 _ _ s l2 [p] [] (Hin _) Hfree2); [right|by left]|].
    { cbn. split_and!; [done|done|]. by rewrite Hl2. }
    intros [] s3 (m3 & -> & Hfree3 & Hf3). k_step. rewrite list_insert_insert_eq. eexists m3, _, (n + 1), (p :: l2).
    split_and!; [reflexivity|by apply (same_used_freed ps c q)|exact Hfree3|by rewrite Hl2|].
    apply (frame_then _ _ _ _ _ Hf2' Hf3). intros x [Hx%elem_of_nil|Hx%list_elem_of_singleton]%elem_of_app; [done|]. subst. by left.
  - destruct (Z.eqb_spec pt 0); [done|]. k_step. apply (wp_updp_at _ _ _ _ _ _ _ _ (Hin _)). rewrite list_insert_insert_eq. k_step.
    exists q, m2, p, pt, N, l2. split_and!; try done. by rewrite Hl2.
Qed.

Lemma allocproc_spec m ps n s l :
  length ps = nproc -> slots_ok ps -> free_inv m l ->
  wp allocproc (fun o s' => match o with None => alloc_failed m ps l s s' | Some c => allocated m ps n l s s' c end) (with_pmp m ps n s).
Proof using H0.
  intros Hlen Hok Hfree. unfold allocproc. k_step. eapply wp_mono; [exact (find_unused_spec (with_pmp m ps n s) Hlen)|].
  intros [c|] s1 [-> Hc].
  - destruct Hc as (q & Hc & Hq). k_step. unfold allocpid. k_step. k_step. k_step. k_step. k_step. k_step.
    change (wp (updp c (fun p => p <| p_pid := n |> <| p_state := USED |>)) (fun _ s' => wp (tf <- memory kalloc ;; updp c (fun p => p <| p_trapframe := tf |>) ;;;
      if tf =? 0 then freeproc c ;;; ret None
      else pt <- memory (proc_pagetable tf) ;; updp c (fun p => p <| p_pagetable := pt |>) ;;;
        if pt =? 0 then freeproc c ;;; ret None
        else updp c (fun p => p <| p_context := new_context (p_kstack p) |>) ;;; ret (Some c)) (fun o s' => match o with None => alloc_failed m ps l s s' | Some c => allocated m ps n l s s' c end) s') (with_pmp m ps (n + 1) s)).
    apply (wp_updp_at _ _ _ _ _ _ _ _ Hc). by apply allocproc_at.
  - k_step. exists m, ps, n, l. split_and!; [done|by apply same_used_refl|done|done|apply frame_refl].
Qed.
End procs.
