(* ===== verification/ForkProps.v ===== *)
(** * What fork guarantees (kernel/proc.c)

    A successful [fork] makes a child with its own copy of the parent's memory and
    trapframe, sharing its open files and directory; a failed one leaks nothing. *)

From stdpp Require Import base list gmap strings.
From Stdlib Require Import ZArith Lia.
From S2P Require Import Prelude Mem Str Riscv Kalloc Vm VmInv VmUser VmCopy VmFork VmFree VmProps Sleeplock Bio BioInv Log TxDisk Fs Printf Kernel UserMem Example Sched SchedProps Uart Pipe File Proc ProcProps.

#[local] Open Scope Z_scope.

(** ** Memory *)

Section memory.
Context `{ImageLaws}.
Abbreviation free_inv := (free_inv pf_kend).
Abbreviation page_ok := (page_ok pf_kend).
Abbreviation uspace := (uspace pf_kend).

(** An address space is unaffected by work on free pages. *)
Lemma uspace_kept m m' root N l D l' :
  uspace m root N l D -> free_inv m' l' -> (forall x, x ∈ l' -> x ∈ l) -> frame (fun x => x ∈ l) (kmem m) (kmem m') ->
  uspace m' root N l' D /\ (forall va, leaf (kmem m') N va = leaf (kmem m) N va) /\
  (forall p a, p ∈ D -> in_page p a -> rd8 (kmem m') a = rd8 (kmem m) a).
Proof.
  intros Hus Hfree Hsub Hf. apply (uspace_shrunk pf_kend m m' root N l D ∅ l' Hus Hfree Hsub).
  - intros x [q Hq]. by rewrite lookup_empty in Hq.
  - eapply frame_mono; [|exact Hf]. intros x Hx. by right.
Qed.

(** Writing the trapframe. *)
Lemma pspace_tf m m' root N l D tf :
  pspace m root N l D tf -> page_ok tf -> ~ (tf ∈ all_of N D) -> ~ (tf ∈ l) -> freelist m' = freelist m ->
  frame (fun q => q = tf) (kmem m) (kmem m') ->
  pspace m' root N l D tf /\ (forall va, leaf (kmem m') N va = leaf (kmem m) N va).
Proof using H0.
  intros [Hus Htr Htf] Hp Hn Hl Hfl Hf. assert (~ (tf ∈ D) /\ ~ is_node N tf) as [HD HN].
  { split; intros Hx; apply Hn, (elem_all_of pf_kend _ _ _ _ _ _ Hus); auto. }
  assert (free_inv m' l) as Hfree.
  { destruct (us_vm _ _ _ _ _ _ Hus) as (_ & (Hc & Hrest) & _). split; [|done]. rewrite Hfl.
    apply (chain_other_page pf_kend tf (kmem m)); [apply Hrest|apply Hp|done| |done]. intros a Ha. apply Hf. intros q ->. apply Ha. by left. }
  destruct (vm_inv_other pf_kend m m' root N l l tf) as [Hvm Hlf]; [apply Hus|done|intros; by right|done|done|done|].
  split; [|done]. split; [|by rewrite Hlf|by rewrite Hlf].
  apply (uspace_other pf_kend m m' root N l l D tf); [done|done|intros; by right|done|done].
Qed.

(** Where the pages of a new process come from. *)
Lemma pages_split m root N l l' D tf :
  uspace m root N l' D -> NoDup l -> ~ (tf ∈ all_of N D) -> ~ (tf ∈ l') ->
  (forall x, x ∈ l <-> x = tf \/ is_node N x \/ x ∈ D \/ x ∈ l') -> l ≡ₚ tf :: all_of N D ++ l'.
Proof.
  intros Hus Hnd Htf Htl Hl. pose proof Hus as [(Hpt & (_ & Hndl & _) & Hu) (HndD & _ & Hd) _ _ _ _].
  apply NoDup_Permutation; [done| |].
  - apply NoDup_cons. split; [rewrite elem_of_app; tauto|]. unfold all_of. rewrite <- app_assoc. rewrite !NoDup_app. split_and!; [done| |by eapply NoDup_pages| |done].
    + intros x Hx. rewrite elem_of_app, (pages_nodes _ _ _ _ Hpt). destruct (Hd x Hx). tauto.
    + intros x Hx. apply Hu. by eapply pages_nodes.
  - intros x. rewrite Hl, elem_of_cons, elem_of_app, (elem_all_of pf_kend _ _ _ _ _ _ Hus). tauto.
Qed.

(** A flag of a leaf entry is one of its flag bits. *)
Lemma flags_has e e' k : PTE_FLAGS e = PTE_FLAGS e' -> 0 <= k < 10 -> has e (2 ^ k) = has e' (2 ^ k).
Proof.
  intros E Hk. enough (forall x, has x (2 ^ k) = has (PTE_FLAGS x) (2 ^ k)) as Hx by (by rewrite (Hx e), (Hx e'), E).
  intros x. unfold has, PTE_FLAGS. rewrite <- Z.land_assoc. do 3 f_equal.
  assert (k = 0 \/ k = 1 \/ k = 2 \/ k = 3 \/ k = 4 \/ k = 5 \/ k = 6 \/ k = 7 \/ k = 8 \/ k = 9) as Hc by lia.
  repeat destruct Hc as [->|Hc]; [done..|]. by subst.
Qed.

(** Two address spaces with the same pages look the same to user code. *)
Lemma same_view m m' root root' N N' l l' D D' :
  uspace m root N l D -> uspace m' root' N' l' D' -> length D' = length D -> same_page_as m N D m' N' D' ->
  forall va, view_of (kmem m') N' va = view_of (kmem m) N va.
Proof.
  intros Hus Hus' Hlen Hsame va. unfold view_of. destruct (decide (0 <= va < 4096 * Z.of_nat (length D))) as [Hva|Hva].
  - set (j := Z.to_nat (va / 4096)). assert (va = 4096 * Z.of_nat j + va mod 4096) as Eva by (unfold j; pose proof (Z.div_mod va 4096); rewrite Z2Nat.id; [lia|apply Z.div_pos; lia]).
    pose proof (Z.mod_pos_bound va 4096 ltac:(lia)) as Hmod. assert (j < length D)%nat as Hj by lia.
    destruct (lookup_lt_is_Some_2 D j Hj) as [p Hp]. destruct (lookup_lt_is_Some_2 D' j ltac:(lia)) as [p' Hp'].
    assert (PGROUNDDOWN va = 4096 * Z.of_nat j) as EP by (apply page_of_mul; [apply page_4096|destruct (PGROUNDDOWN_spec va) as [Hm ?]; pose proof (aligned_mul _ Hm); lia]).
    destruct (us_map _ _ _ _ _ _ Hus j p Hp) as [_ Epa]. destruct (us_map _ _ _ _ _ _ Hus' j p' Hp') as [_ Epa'].
    destruct (Hsame j p' p Hp' Hp) as [Hfl Hb].
    assert (umapped (kmem m') N' va <-> umapped (kmem m) N va) as Hiff.
    { unfold umapped. rewrite <- (leaf_page _ N va), <- (leaf_page _ N' va), EP.
      change PTE_V with (2 ^ 0). change PTE_U with (2 ^ 4). by rewrite !(flags_has _ _ _ Hfl) by lia. }
    assert (ubyte (kmem m') N' va = ubyte (kmem m) N va) as Hby.
    { unfold ubyte. rewrite <- (leaf_page _ N va), <- (leaf_page _ N' va), EP, Epa, Epa'. by apply Hb. }
    rewrite Hby. destruct (decide (umapped (kmem m') N' va)), (decide (umapped (kmem m) N va)); tauto.
  - assert (forall m0 r0 N0 l0 D0, uspace m0 r0 N0 l0 D0 -> length D0 = length D -> ~ umapped (kmem m0) N0 va) as Hno.
    { intros m0 r0 N0 l0 D0 Hu E (Hr & HV & HU). destruct (Z.lt_ge_cases va TRAPFRAME).
      - rewrite (us_free _ _ _ _ _ _ Hu) in HV; [done|]. lia.
      - by rewrite (us_top _ _ _ _ _ _ Hu) in HU by lia. }
    rewrite !decide_False; [done|by eapply Hno|by eapply Hno].
Qed.
End memory.

(** ** Open files *)

(** How many of the descriptors [os] refer to the file [f]. *)
Definition count_refs (f : nat) (os : list (option nat)) : Z := Z.of_nat (length (filter (fun o => o = Some f) os)).
(** The file table after duplicating the descriptors [os]. *)
Definition dup_files (os : list (option nat)) (F : list file) : list file :=
  imap (fun f x => x <| f_ref := f_ref x + count_refs f os |>) F.

Definition with_refs (F : list file) (I : list inode) (s : kernel) : kernel :=
  (s <| fs_disk := fs_disk s <| m_files := F |> |>) <| fs_itable := I |>.
Lemma with_refs_id s : with_refs (m_files (fs_disk s)) (fs_itable s) s = s.
Proof. by destruct s as [[]]. Qed.

Lemma count_refs_snoc f os o : count_refs f (os ++ [o]) = count_refs f os + (if decide (o = Some f) then 1 else 0).
Proof. unfold count_refs. rewrite filter_app, length_app, filter_cons. destruct (decide _); cbn [length filter list_filter]; lia. Qed.
Lemma dup_files_nil F : dup_files [] F = F.
Proof.
  apply list_eq. intros i. unfold dup_files. rewrite list_lookup_imap. destruct (F !! i) as [[]|]; [|done]. cbn. by rewrite Z.add_0_r.
Qed.
Lemma dup_files_none os F : dup_files (os ++ [None]) F = dup_files os F.
Proof. unfold dup_files. apply imap_ext. intros i x _. rewrite count_refs_snoc, decide_False by done. by rewrite Z.add_0_r. Qed.
Lemma dup_files_some os f F : dup_files (os ++ [Some f]) F = alter (fun x => x <| f_ref := f_ref x + 1 |>) f (dup_files os F).
Proof.
  unfold dup_files. rewrite alter_imap. apply imap_ext. intros i x _. rewrite count_refs_snoc.
  destruct (decide (i = f)) as [->|Hne]; [rewrite decide_True by done|rewrite decide_False by congruence].
  - rewrite Z.add_assoc. by destruct x.
  - by rewrite Z.add_0_r.
Qed.

Section files.
Context `{Platform}.

Lemma wp_filedup_at f x m ps n F I s (Q : nat -> kernel -> Prop) :
  F !! f = Some x -> 1 <= f_ref x -> Q f (with_pmp m ps n (with_refs (alter (fun x => x <| f_ref := f_ref x + 1 |>) f F) I s)) ->
  wp (filedup f) Q (with_pmp m ps n (with_refs F I s)).
Proof.
  intros Hf Hx HQ. unfold filedup, getf. k_step. k_step. change (m_files (fs_disk (with_pmp m ps n (with_refs F I s)))) with F.
  rewrite (list_lookup_total_correct _ _ _ Hf). destruct (Z.ltb_spec (f_ref x) 1); [lia|]. k_step. unfold updf. k_step. k_step. exact HQ.
Qed.

(** The loop of [fork] over the descriptors. *)
Lemma fork_files c p q m ps n F I s :
  ps !! c = Some q -> p_ofile q = replicate NOFILE None -> length (p_ofile p) = NOFILE ->
  (forall f, Some f ∈ p_ofile p -> exists x, F !! f = Some x /\ 1 <= f_ref x) ->
  wp (for_ 0 NOFILE (fun fd =>
        match p_ofile p !!! Z.to_nat fd with
        | Some f => g <- filedup f ;; updp c (fun q => q <| p_ofile := <[Z.to_nat fd := Some g]> (p_ofile q) |>)
        | None => ret tt
        end))
    (fun _ s' => s' = with_pmp m (<[c := q <| p_ofile := p_ofile p |>]> ps) n (with_refs (dup_files (p_ofile p) F) I s))
    (with_pmp m ps n (with_refs F I s)).
Proof.
  intros Hc Hq Hlen Hrefs. pose proof (lookup_lt_Some _ _ _ Hc) as Hlt. set (os := p_ofile p) in *.
  set (upto j := with_pmp m (<[c := q <| p_ofile := take j os ++ replicate (NOFILE - j) None |>]> ps) n (with_refs (dup_files (take j os) F) I s)).
  eapply wp_mono; [apply (wp_for (fun j st => st = upto (Z.to_nat j)))|].
  - unfold upto. cbn [Z.to_nat take app]. rewrite dup_files_nil, Nat.sub_0_r, <- Hq. rewrite list_insert_id; [done|]. rewrite Hc. by destruct q.
  - intros j st Hj ->. set (k := Z.to_nat j). assert (k < length os)%nat as Hk by (unfold k; lia).
    replace (Z.to_nat (j + 1)) with (S k) by (unfold k; lia).
    destruct (lookup_lt_is_Some_2 os k Hk) as [o Ho]. rewrite (list_lookup_total_correct _ _ _ Ho). unfold upto.
    rewrite (take_S_r _ _ _ Ho), <- app_assoc. assert (NOFILE - k = S (NOFILE - S k))%nat as E by lia. rewrite E. cbn [replicate app].
    destruct o as [f|]; [|apply wp_ret; by rewrite dup_files_none].
    destruct (Hrefs f) as (x & Hf & Hx); [by eapply list_elem_of_lookup_2|]. k_step. eapply wp_filedup_at.
    { unfold dup_files. rewrite list_lookup_imap, Hf. reflexivity. }
    { cbn. unfold count_refs. lia. }
    eapply wp_updp_at; [by apply list_lookup_insert_eq|]. rewrite list_insert_insert_eq, dup_files_some.
    set (R := replicate (NOFILE - S k) None). assert (<[k := Some f]> (take k os ++ None :: R) = take k os ++ Some f :: R) as EI.
    { rewrite insert_app_r_alt by (rewrite length_take; lia). by rewrite length_take, Nat.min_l, Nat.sub_diag by lia. }
    rewrite <- EI. by destruct q.
  - intros [] st ->. unfold upto. change (Z.to_nat (0 + Z.of_nat NOFILE)) with NOFILE. rewrite Nat.sub_diag, <- Hlen, firstn_all. cbn [replicate]. by rewrite app_nil_r.
Qed.
End files.

(** ** fork *)

(** The entry of the child. *)
Definition child_of (parent : nat) (p np : proc) : proc :=
  np <| p_sz := p_sz p |> <| p_mask := p_mask p |> <| p_ofile := p_ofile p |> <| p_cwd := p_cwd p |>
    <| p_name := proc_name (p_name p) |> <| p_parent := Some parent |> <| p_state := RUNNABLE |>.

Section fork.
Context `{ImageLaws}.
Abbreviation free_inv := (free_inv pf_kend).
Abbreviation page_ok := (page_ok pf_kend).
Abbreviation uspace := (uspace pf_kend).

Lemma same_page_kept m m' N D :
  (forall va, leaf (kmem m') N va = leaf (kmem m) N va) -> (forall p a, p ∈ D -> in_page p a -> rd8 (kmem m') a = rd8 (kmem m) a) ->
  same_page_as m N D m' N D.
Proof.
  intros Hl Hb j p q Hj Hj'. rewrite Hl. split; [done|]. intros o Ho. assert (p = q) as -> by congruence.
  apply (Hb q); [by eapply list_elem_of_lookup_2|unfold in_page; lia].
Qed.

(** Pages taken from the free list of an address space are not its own. *)
Lemma fresh_apart m root N l D x : uspace m root N l D -> x ∈ l -> ~ is_node N x /\ ~ (x ∈ D).
Proof.
  intros Hus Hx. split.
  - intros Hn. by apply (proj2 (proj2 (us_vm _ _ _ _ _ _ Hus)) x Hn).
  - intros HD. destruct (us_own _ _ _ _ _ _ Hus) as (_ & _ & Hd). by destruct (Hd x HD).
Qed.

(** The address space of a child: its own pages, all from the free list [l], with the
    contents of the parent's pages [D]. *)
Definition child_space (m : kst) (N : gmap (list Z) Z) (l D : list Z) (m' : kst) (pt : Z) (N' : gmap (list Z) Z) (l' D' : list Z) (tf : Z) : Prop :=
  pspace m' pt N' l' D' tf /\ l ≡ₚ tf :: all_of N' D' ++ l' /\ length D' = length D /\
  same_page_as m N D m' N' D' /\ frame (fun x => x ∈ l) (kmem m) (kmem m').

Lemma child_space_tf m N l D m' pt N' l' D' tf :
  NoDup l -> child_space m N l D m' pt N' l' D' tf -> ~ (tf ∈ all_of N' D') /\ ~ (tf ∈ l') /\ tf ∈ l.
Proof. intros Hnd (_ & HP & _). rewrite HP in Hnd. apply NoDup_cons in Hnd as [Hn _]. rewrite elem_of_app in Hn. rewrite HP. split_and!; [tauto|tauto|by left]. Qed.

(** Filling in the trapframe. *)
Lemma child_space_fill m N l D m1 pt N' l' D' tf m' :
  NoDup l -> page_ok tf -> child_space m N l D m1 pt N' l' D' tf -> freelist m' = freelist m1 -> frame (fun q => q = tf) (kmem m1) (kmem m') ->
  child_space m N l D m' pt N' l' D' tf.
Proof using H0.
  intros Hnd Hp Hcs Hfl Hf. destruct (child_space_tf _ _ _ _ _ _ _ _ _ _ Hnd Hcs) as (Ha & Hl & Hin). destruct Hcs as (Hps & HP & Hlen & Hsame & Hfr).
  destruct (pspace_tf m1 m' pt N' l' D' tf Hps Hp Ha Hl Hfl Hf) as [Hps' Hlf]. split_and!; [done|done|done| |].
  - intros j x y Hx Hy. rewrite Hlf. destruct (Hsame j x y Hx Hy) as [? Hb]. split; [done|]. intros o Ho. rewrite <- Hb by done.
    assert (x ∈ D') as HxD by (by eapply list_elem_of_lookup_2). destruct (us_own _ _ _ _ _ _ (ps_user _ _ _ _ _ _ Hps)) as (_ & Hok & _).
    apply (frame_rd8 (fun q => q = tf) _ _ x); [done|intros ? ->; apply Hp|by apply (proj1 (Forall_forall _ _) Hok x)| |unfold in_page; lia].
    intros ->. apply Ha. apply elem_of_app. by left.
  - apply (frame_then _ _ _ _ _ Hfr Hf). by intros ? ->.
Qed.

(** The two outcomes of [uvmcopy] for the table of a new process. *)
Section copied.
Context (m0 m1 : kst) (root : Z) (N : gmap (list Z) Z) (l D : list Z) (pt : Z) (N1 : gmap (list Z) Z) (l1 : list Z) (tf : Z).
Hypothesis parent : uspace m0 root N l D.
Hypothesis changed : frame (fun x => x ∈ l) (kmem m0) (kmem m1).
Hypothesis space : pspace m1 pt N1 l1 [] tf.
Hypothesis taken : l ≡ₚ tf :: pages N1 2 [] ++ l1.

Lemma taken_nodup : NoDup l.
Proof using parent. destruct (us_vm _ _ _ _ _ _ parent) as (_ & (_ & Hnd & _) & _). done. Qed.
Lemma taken_elem x : x ∈ l <-> x = tf \/ is_node N1 x \/ x ∈ l1.
Proof using space taken.
  rewrite taken, elem_of_cons, elem_of_app, (pages_nodes pf_kend (kmem m1) pt N1); [done|]. apply (ps_user _ _ _ _ _ _ space).
Qed.
Lemma taken_tf : ~ is_node N1 tf /\ ~ (tf ∈ l1).
Proof using parent space taken.
  pose proof taken_nodup as Hnd. rewrite taken in Hnd. apply NoDup_cons in Hnd as [Hn _].
  rewrite elem_of_app, (pages_nodes pf_kend (kmem m1) pt N1) in Hn by apply (ps_user _ _ _ _ _ _ space). tauto.
Qed.
Lemma parent_kept : uspace m1 root N l1 D /\ (forall va, leaf (kmem m1) N va = leaf (kmem m0) N va) /\
  (forall p a, p ∈ D -> in_page p a -> rd8 (kmem m1) a = rd8 (kmem m0) a).
Proof using parent changed space taken.
  apply (uspace_kept m0 m1 root N l D l1); [done|apply (ps_user _ _ _ _ _ _ space)| |done]. intros x Hx. apply taken_elem. auto.
Qed.
Lemma child_apart x : is_node N1 x -> ~ is_node N x /\ x ∉ D.
Proof using parent space taken. intros Hx. eapply fresh_apart; [exact parent|]. apply taken_elem. auto. Qed.

Lemma copy_done m2 D2 N2 l2 :
  copy_state pf_kend m1 N D pt N1 l1 m2 D2 N2 l2 -> length D2 = length D -> child_space m0 N l D m2 pt N2 l2 D2 tf.
Proof using All.
  intros (Hus & (t & E & _ & Hiff & Hf) & Hsame & Htop) Hlen. destruct parent_kept as (_ & Hlf & Hby). destruct taken_tf as [Ht1 Ht2].
  rewrite E, elem_of_app in Ht2. assert (~ (tf ∈ all_of N2 D2)) as Ht.
  { rewrite (elem_all_of pf_kend _ _ _ _ _ _ Hus). intros Hx. specialize (Hiff tf). tauto. }
  split_and!; [|apply (pages_split m2 pt); [done|apply taken_nodup|done|tauto|]|done| |].
  - destruct space as [_ Htr Htf]. split; [done|by rewrite Htop|by rewrite Htop].
  - intros x. rewrite taken_elem, E, elem_of_app. specialize (Hiff x). tauto.
  - intros j x y Hx Hy. destruct (Hsame j x y Hx Hy) as [Hfl Hb]. split; [by rewrite Hfl, Hlf|]. intros o Ho. rewrite Hb by done.
    apply (Hby y); [by eapply list_elem_of_lookup_2|unfold in_page; lia].
  - apply (frame_then _ _ _ _ _ changed Hf). intros x [Hx|Hx]; apply taken_elem; rewrite E, elem_of_app; tauto.
Qed.

Lemma copy_undone m2 N2 l2 :
  copy_failed pf_kend m1 pt N1 l1 m2 N2 l2 -> pspace m2 pt N2 l2 [] tf /\ ~ (tf ∈ all_of N2 []) /\ ~ (tf ∈ l2) /\
  l ≡ₚ tf :: all_of N2 [] ++ l2 /\ frame (fun x => x ∈ l) (kmem m0) (kmem m2).
Proof using All.
  intros (Hus & Hl2 & Hl1 & Hn1 & Hn2 & Hf & Htop). destruct taken_tf as [Ht1 Ht2].
  assert (~ (tf ∈ all_of N2 [])) as Ht.
  { rewrite (elem_all_of pf_kend _ _ _ _ _ _ Hus). intros [Hx%elem_of_nil|Hx]; [done|]. destruct (Hn2 _ Hx); tauto. }
  assert (~ (tf ∈ l2)) as Ht' by (intros Hx; by apply Ht2, Hl2). split_and!; [|done|done|apply (pages_split m2 pt); [done|apply taken_nodup|done|done|]|].
  - destruct space as [_ Htr Htf]. split; [done|by rewrite Htop|by rewrite Htop].
  - intros x. rewrite taken_elem, elem_of_nil. specialize (Hl2 x). specialize (Hl1 x). specialize (Hn1 x). specialize (Hn2 x). tauto.
  - apply (frame_then _ _ _ _ _ changed Hf). intros x [Hx|Hx]; apply taken_elem; tauto.
Qed.
End copied.

(** The trapframe of the child. *)
Definition fill_tf (m : kst) (tf ptf : Z) : kst :=
  Kst (wr64 (memmove (kmem m) tf ptf sizeof_trapframe) (tf + tf_a 0) 0) (freelist m).

Lemma rd_moved m m' a b n :
  (forall i, 0 <= i < Z.of_nat n -> rd8 m (a + i) = rd8 m' (b + i)) -> rd m a n = rd m' b n.
Proof.
  revert a b. induction n as [|n IH]; intros a b E; cbn [rd]; [done|]. f_equal.
  - rewrite <- (Z.add_0_r a), <- (Z.add_0_r b). apply E. lia.
  - f_equal. apply IH. intros i Hi. rewrite <- !Z.add_assoc. apply E. lia.
Qed.
Lemma fill_frame m tf ptf : frame (fun q => q = tf) (kmem m) (kmem (fill_tf m tf ptf)).
Proof.
  intros a Ha. specialize (Ha tf eq_refl). unfold in_page in Ha. cbn. unfold tf_a, sizeof_trapframe.
  rewrite rd8_wr64_ne by lia. apply rd8_memmove_out; lia.
Qed.
Lemma fill_words m m0 tf ptf k :
  (forall a, ptf <= a < ptf + sizeof_trapframe -> rd8 (kmem m) a = rd8 (kmem m0) a) -> 0 <= k < 36 ->
  rd64 (kmem (fill_tf m tf ptf)) (tf + 8 * k) = if decide (8 * k = tf_a 0) then 0 else rd64 (kmem m0) (ptf + 8 * k).
Proof.
  intros E Hk. unfold sizeof_trapframe in *. cbn [fill_tf kmem]. destruct (decide (8 * k = tf_a 0)) as [->|Hne]; [by apply rd64_wr64_eq|].
  unfold tf_a in *. rewrite rd64_wr64_ne by lia. apply rd_moved. intros i Hi. unfold sizeof_trapframe. rewrite rd8_memmove, decide_True by lia.
  replace (ptf + (tf + 8 * k + i - tf)) with (ptf + 8 * k + i) by lia. apply E. lia.
Qed.

(** When [fork] may be called: a process runs, with its memory, its files and its directory;
    its trapframe is not in free memory. *)
Record can_fork (s : kernel) (p : proc) (N : gmap (list Z) Z) (l D : list Z) : Prop := {
  cf_len : length (procs s) = nproc;
  cf_slots : slots_ok (procs s);
  cf_cur : procs s !! m_cur (fs_disk s) = Some p;
  cf_used : p_state p <> UNUSED;
  cf_space : uspace (the_mem s) (p_pagetable p) N l D;
  cf_size : 0 <= p_sz p < 2 ^ 63;
  cf_pages : PGROUNDUP (p_sz p) = 4096 * Z.of_nat (length D);
  cf_trapframe : forall a x, p_trapframe p <= a < p_trapframe p + sizeof_trapframe -> x ∈ l -> ~ in_page x a;
  cf_descriptors : length (p_ofile p) = NOFILE;
  cf_files : forall f, Some f ∈ p_ofile p -> exists x, m_files (fs_disk s) !! f = Some x /\ 1 <= f_ref x;
  cf_cwd : is_Some (p_cwd p);
}.

(** The parent still has its memory. *)
Definition parent_same (s : kernel) (p : proc) (N : gmap (list Z) Z) (D : list Z) (m' : kst) (l' : list Z) : Prop :=
  uspace m' (p_pagetable p) N l' D /\ forall va, view_of (kmem m') N va = view_of (kmem (the_mem s)) N va.

Definition fork_failed (s : kernel) (p : proc) (N : gmap (list Z) Z) (l D : list Z) (s' : kernel) : Prop :=
  exists m' ps' n' l', s' = with_pmp m' ps' n' s /\ same_used (procs s) ps' /\ l' ≡ₚ l /\ parent_same s p N D m' l'.

Definition fork_done (s : kernel) (p : proc) (N : gmap (list Z) Z) (l D : list Z) (s' : kernel) : Prop :=
  exists c q m' tf pt N' l' D' ip, let n := m_nextpid (fs_disk s) in
    procs s !! c = Some q /\ p_state q = UNUSED /\ c <> m_cur (fs_disk s) /\ p_cwd p = Some ip /\
    s' = with_pmp m' (<[c := child_of (m_cur (fs_disk s)) p (new_proc n tf pt q)]> (procs s)) (n + 1)
           (with_refs (dup_files (p_ofile p) (m_files (fs_disk s))) (alter (fun x => i_set_ref (i_ref x + 1) x) ip (fs_itable s)) s) /\
    pspace m' pt N' l' D' tf /\ l ≡ₚ tf :: all_of N' D' ++ l' /\
    (forall va, view_of (kmem m') N' va = view_of (kmem (the_mem s)) N va) /\
    (forall k, 0 <= k < 36 -> rd64 (kmem m') (tf + 8 * k) =
       if decide (8 * k = tf_a 0) then 0 else rd64 (kmem (the_mem s)) (p_trapframe p + 8 * k)) /\
    parent_same s p N D m' l'.

Lemma parent_same_kept s p N l D m' l' :
  can_fork s p N l D -> free_inv m' l' -> (forall x, x ∈ l' -> x ∈ l) -> frame (fun x => x ∈ l) (kmem (the_mem s)) (kmem m') ->
  parent_same s p N D m' l'.
Proof using H0.
  intros Hcf Hfree Hsub Hf. pose proof (cf_space _ _ _ _ _ Hcf) as Hus.
  destruct (uspace_kept _ m' _ N l D l' Hus Hfree Hsub Hf) as (Hus' & Hl & Hb). split; [done|].
  eapply same_view; [exact Hus|exact Hus'|done|by apply same_page_kept].
Qed.

(** From the successful copy on. *)
Definition fork_rest (i c : nat) (p np : proc) : M kernel Z :=
  updp c (fun q => q <| p_sz := p_sz p |>) ;;;
  updp c (fun q => q <| p_mask := p_mask p |>) ;;;
  memory (update_mem (fun m => memmove m (p_trapframe np) (p_trapframe p) sizeof_trapframe)) ;;;
  store_tf (p_trapframe np) (tf_a 0) 0 ;;;
  for_ 0 NOFILE (fun fd =>
    match p_ofile p !!! Z.to_nat fd with
    | Some f =>
        g <- filedup f ;;
        updp c (fun q => q <| p_ofile := <[Z.to_nat fd := Some g]> (p_ofile q) |>)
    | None => ret tt
    end) ;;;
  cwd <- (match p_cwd p with Some ip => ip' <- idup ip ;; ret (Some ip') | None => hang end) ;;
  updp c (fun q => q <| p_cwd := cwd |>) ;;;
  updp c (fun q => q <| p_name := proc_name (p_name p) |>) ;;;
  q <- getp c ;;
  let pid := p_pid q in
  updp c (fun q => q <| p_parent := Some i |>) ;;;
  updp c (fun q => q <| p_state := RUNNABLE |>) ;;;
  ret pid.

Lemma fork_rest_spec i c p np m ps n s ip :
  ps !! c = Some np -> p_ofile np = replicate NOFILE None -> length (p_ofile p) = NOFILE ->
  (forall f, Some f ∈ p_ofile p -> exists x, m_files (fs_disk s) !! f = Some x /\ 1 <= f_ref x) -> p_cwd p = Some ip ->
  wp (fork_rest i c p np) (fun r s' => r = p_pid np /\
    s' = with_pmp (fill_tf m (p_trapframe np) (p_trapframe p)) (<[c := child_of i p np]> ps) n
      (with_refs (dup_files (p_ofile p) (m_files (fs_disk s))) (alter (fun x => i_set_ref (i_ref x + 1) x) ip (fs_itable s)) s))
    (with_pmp m ps n s).
Proof.
  intros Hc Ho Hlen Hfiles Hcwd. pose proof (lookup_lt_Some _ _ _ Hc) as Hlt.
  assert (forall x, <[c := x]> ps !! c = Some x) as Hin by (intros; by apply list_lookup_insert_eq).
  unfold fork_rest. rewrite Hcwd. do 2 (k_step; eapply wp_updp_at; [first [exact Hc|apply Hin]|]; rewrite ?list_insert_insert_eq).
  k_step. apply wp_memory_at, wp_update_mem. k_step. apply wp_memory_at, wp_store64.
  change (Kst _ _) with (fill_tf m (p_trapframe np) (p_trapframe p)). rewrite <- (with_refs_id s) at 1.
  k_step. eapply wp_mono; [apply (fork_files c p); [apply Hin|exact Ho|exact Hlen|exact Hfiles]|]. intros [] st ->. rewrite list_insert_insert_eq.
  k_step. k_step. unfold idup. k_step. unfold updi. apply wp_modify. k_step. k_step.
  change (Fsst _ _ _ _) with (with_pmp (fill_tf m (p_trapframe np) (p_trapframe p))
    (<[c := np <| p_sz := p_sz p |> <| p_mask := p_mask p |> <| p_ofile := p_ofile p |>]> ps) n
    (with_refs (dup_files (p_ofile p) (m_files (fs_disk s))) (alter (fun x => i_set_ref (i_ref x + 1) x) ip (fs_itable s)) s)).
  do 2 (k_step; eapply wp_updp_at; [apply Hin|]; rewrite list_insert_insert_eq). k_step. eapply wp_getp_at; [apply Hin|]. cbv zeta.
  do 2 (k_step; eapply wp_updp_at; [apply Hin|]; rewrite list_insert_insert_eq). k_step. split; [done|]. unfold child_of. by rewrite Hcwd.
Qed.

(** Giving the new entry back after a failed copy. *)
Lemma fork_undo c q m ps n s p N l D pt N2 l2 tf :
  can_fork s p N l D -> procs s !! c = Some q -> p_state q = UNUSED -> ps = <[c := new_proc (m_nextpid (fs_disk s)) tf pt q]> (procs s) -> pt <> 0 -> page_ok tf ->
  pspace m pt N2 l2 [] tf -> ~ (tf ∈ all_of N2 []) -> ~ (tf ∈ l2) -> l ≡ₚ tf :: all_of N2 [] ++ l2 ->
  frame (fun x => x ∈ l) (kmem (the_mem s)) (kmem m) ->
  wp (freeproc c ;;; ret (-1)) (fun r s' => r = -1 /\ fork_failed s p N l D s') (with_pmp m ps n s).
Proof using H0.
  intros Hcf Hc Hq -> Hpt Hp Hps Ht Ht2 HP Hf. pose proof (lookup_lt_Some _ _ _ Hc) as Hlt.
  destruct (cf_slots _ _ _ _ _ Hcf c q Hc Hq) as (_ & Hsz & _). k_step.
  eapply wp_mono; [apply (freeproc_spec c (new_proc (m_nextpid (fs_disk s)) tf pt q) m _ n s l2 [tf] (all_of N2 []))|].
  - by apply list_lookup_insert_eq.
  - apply (us_vm _ _ _ _ _ _ (ps_user _ _ _ _ _ _ Hps)).
  - by right.
  - right. split; [done|]. exists N2, []. cbn [new_proc p_sz p_trapframe p_pagetable]. change (p_sz (new_proc (m_nextpid (fs_disk s)) tf pt q)) with (p_sz q). rewrite Hsz. by split_and!.
  - intros [] s' (m' & -> & Hfree & Hf'). k_step. split; [done|]. rewrite list_insert_insert_eq.
    assert (reverse (all_of N2 []) ++ [tf] ++ l2 ≡ₚ l) as HP' by (rewrite HP, reverse_Permutation; symmetry; apply Permutation_middle).
    eexists m', _, n, _. split_and!; [reflexivity|apply (same_used_freed _ c q); [apply Hcf|done|done|done]|exact HP'|].
    apply (parent_same_kept s p N l D); [done|done|intros x; by rewrite HP'|].
    apply (frame_then _ _ _ _ _ Hf Hf'). intros x Hx. rewrite HP, elem_of_cons, elem_of_app. apply elem_of_app in Hx as [Hx|Hx%list_elem_of_singleton]; auto.
Qed.

(** C5: [fork] either fails, returning -1, and then no page is lost, no entry of the
    process table that is in use, no open file and no inode is touched and the parent's memory
    is as it was; or it returns the pid of a child, whose entry was unused and is
    runnable, whose address space shows the same bytes at the same addresses as the
    parent's but lies in pages that were free, whose trapframe is the parent's with 0
    as the result, and which shares the parent's open files and directory, with one
    reference more for each. *)
Theorem fork_copies s p N l D :
  can_fork s p N l D ->
  wp fork (fun r s' => r = -1 /\ fork_failed s p N l D s' \/ r = m_nextpid (fs_disk s) /\ fork_done s p N l D s') s.
Proof using H0.
  intros Hcf. pose proof Hcf as [Hlen Hslots Hcur Hused Hus Hsz HP Htf Hdesc Hfiles [ip Hcwd]].
  assert (free_inv (the_mem s) l) as Hfree by apply Hus.
  assert (NoDup l) as Hnd by apply Hfree.
  unfold fork. k_step. k_step. k_step. k_step. rewrite (list_lookup_total_correct _ _ _ Hcur). k_step.
  pose proof (allocproc_spec (the_mem s) (procs s) (m_nextpid (fs_disk s)) s l Hlen Hslots Hfree) as Ha. rewrite with_pmp_id in Ha.
  apply (wp_mono _ _ _ _ Ha). intros [c|] s1.
  2: { intros (m1 & ps1 & n1 & l1 & -> & Hsame & Hfree1 & Hl1 & Hf1). k_step. left. split; [done|].
       exists m1, ps1, n1, l1. split_and!; [done|done|done|]. apply (parent_same_kept s p N l D); [done|done|intros x; by rewrite Hl1|done]. }
  intros (q & m1 & tf & pt & N1 & l1 & -> & Hc & Hq & Hpt & Hps1 & Hp & Hl1 & Hf1). pose proof (lookup_lt_Some _ _ _ Hc) as Hlt.
  destruct (parent_kept (the_mem s) m1 _ N l D pt N1 l1 tf Hus Hf1 Hps1 Hl1) as (Huo & _ & _).
  k_step. eapply wp_getp_at; [by apply list_lookup_insert_eq|]. k_step. apply wp_memory_at.
  eapply wp_mono; [apply (uvmcopy_spec pf_kend pl_kend m1 (p_pagetable p) N D pt N1 l1 Huo (ps_user _ _ _ _ _ _ Hps1)); [|done|done]|].
  { intros x. by apply (child_apart (the_mem s) m1 (p_pagetable p) N l D pt N1 l1 tf). }
  intros r m2 [(-> & D2 & N2 & l2 & HD & Hcopy)|(-> & N2 & l2 & Hcopy)].
  - change (0 <? 0) with false. cbv iota. change (wp (fork_rest (m_cur (fs_disk s)) c p (new_proc (m_nextpid (fs_disk s)) tf pt q)) (fun r s' => r = -1 /\ fork_failed s p N l D s' \/ r = m_nextpid (fs_disk s) /\ fork_done s p N l D s')
      (with_pmp m2 (<[c := new_proc (m_nextpid (fs_disk s)) tf pt q]> (procs s)) (m_nextpid (fs_disk s) + 1) s)).
    pose proof (copy_done (the_mem s) m1 _ N l D pt N1 l1 tf Hus Hf1 Hps1 Hl1 m2 D2 N2 l2 Hcopy HD) as Hcs2.
    destruct (Hslots c q Hc Hq) as (_ & _ & Ho).
    eapply wp_mono; [apply (fork_rest_spec _ c p _ m2 _ _ s ip); [by apply list_lookup_insert_eq|exact Ho|exact Hdesc|exact Hfiles|exact Hcwd]|].
    intros r s' [-> ->]. rewrite list_insert_insert_eq. right. split; [done|]. set (m3 := fill_tf m2 _ _).
    pose proof (child_space_fill _ _ _ _ _ _ _ _ _ _ m3 Hnd Hp Hcs2 eq_refl (fill_frame m2 tf (p_trapframe p))) as (Hps3 & HP3 & HD3 & Hsame3 & Hf3).
    exists c, q, m3, tf, pt, N2, l2, D2, ip. cbv zeta. split_and!; try done.
    + intros ->. congruence.
    + eapply same_view; [exact Hus|apply Hps3|done|done].
    + intros k Hk. apply (fill_words m2 (the_mem s)); [|done]. intros a Hra. destruct Hcs2 as (_ & _ & _ & _ & Hf2). apply Hf2. intros x Hx. by apply Htf.
    + apply (parent_same_kept s p N l D); [done|apply Hps3| |done]. intros x Hx. rewrite HP3, elem_of_cons, elem_of_app. auto.
  - change (-1 <? 0) with true. cbv iota.
    destruct (copy_undone (the_mem s) m1 _ N l D pt N1 l1 tf Hus Hf1 Hps1 Hl1 m2 N2 l2 Hcopy) as (Hps2 & Ht & Ht2 & HP2 & Hf2).
    eapply wp_mono; [by apply (fork_undo c q m2 _ _ s p N l D pt N2 l2 tf)|]. intros r s'. by left.
Qed.
End fork.

(** ** An example *)

#[global] Instance ex_image others : @ImageLaws (ex_platform others).
Proof. constructor; [apply ex_laws|]. vm_compute. split; [discriminate|reflexivity]. Qed.

(** The running process has its input open and a directory. *)
Definition ex_parent : proc := ex_proc <| p_cwd := Some 0%nat |> <| p_ofile := Some 0%nat :: replicate 15 None |>.
Definition ex_forking : kernel :=
  with_pmp ex_s2 (<[0%nat := ex_parent]> (ex_procs ChCons)) 3
    (with_refs (<[0%nat := inhabitant <| f_ref := 1 |>]> (replicate NFILE inhabitant)) (replicate NINODE inhabitant) (ex_kernel ChCons)).

Lemma ex_slots : slots_ok (<[0%nat := ex_parent]> (ex_procs ChCons)).
Proof.
  intros i p Hi Hp. destruct i as [|[|i]].
  - injection Hi as <-. discriminate Hp.
  - injection Hi as <-. discriminate Hp.
  - change (replicate 62 (inhabitant : proc) !! i = Some p) in Hi. apply lookup_replicate in Hi as [-> _]. done.
Qed.

Lemma ex_can_fork others : exists N l D, @can_fork (ex_platform others) ex_forking ex_parent N l D.
Proof.
  destruct ex_space2 as (N & l & D & Hus & HD). exists N, l, D. split; [done|exact ex_slots|done|done|exact Hus| | | |done| |by exists 0%nat].
  - change (p_sz ex_parent) with 5000. lia.
  - rewrite HD. reflexivity.
  - intros a x Ha Hx Hin. change (p_trapframe ex_parent) with (KERNBASE + 4096) in Ha.
    destruct (us_vm _ _ _ _ _ _ Hus) as (_ & (_ & _ & Hok) & _). pose proof (proj1 (Forall_forall _ _) Hok x Hx) as (_ & Hlo & _).
    assert (KERNBASE + 8192 <= ex_end) by (vm_compute; discriminate). unfold in_page, sizeof_trapframe in *. lia.
  - intros f Hf. change (Some f ∈ Some 0%nat :: replicate 15 None) in Hf. apply elem_of_cons in Hf as [[= ->]|Hf]; [by eexists|].
    apply elem_of_replicate in Hf as [? _]. done.
Qed.

Lemma fork_copies_witness : exists N l D,
  wp (@fork (ex_platform (fun _ => hang))) (fun r s' =>
    r = -1 /\ @fork_failed (ex_platform (fun _ => hang)) ex_forking ex_parent N l D s' \/
    r = 3 /\ @fork_done (ex_platform (fun _ => hang)) ex_forking ex_parent N l D s') ex_forking.
Proof.
  destruct (ex_can_fork (fun _ => hang)) as (N & l & D & Hcf). exists N, l, D.
  exact (@fork_copies (ex_platform (fun _ => hang)) (ex_image _) ex_forking ex_parent N l D Hcf).
Defined.
