(* ===== verification/Exec.v ===== *)
(** * System-call arguments (kernel/syscall.c) and [exec] (kernel/exec.c)

    Strings fetched from user space land in kernel memory; [exec] parses an ELF file,
    builds a page table with the program, a guard page and a stack with the
    arguments, and switches the process to it. *)

From stdpp Require Import base list gmap strings.
From Stdlib Require Import ZArith Lia.
From S2P Require Import Prelude Mem Str Riscv Kalloc Vm Sleeplock Bio BioInv Log TxDisk Fs Printf Kernel Sched Uart Pipe File Proc.

#[local] Open Scope Z_scope.

Section args.
Context `{Platform}.

(** The string length of a buffer in kernel memory. *)
Definition kstrlen (a : Z) : M kernel Z :=
  m <- memory (gets kmem) ;;
  match strlen m a with Some n => ret n | None => hang end.

(** Returns the code and the word. *)
Definition fetchaddr (addr : Z) : M kernel (Z * Z) :=
  p <- me ;;
  if (p_sz p <=? addr) || (p_sz p <? u64 (addr + 8)) then ret (-1, 0)
  else
    r <- user_in (replicate 8 0) addr ;;
    let '(r, bytes) := r in
    if nz r then ret (-1, 0) else ret (0, le_val bytes).

Definition fetchstr (addr buf max : Z) : M kernel Z :=
  p <- me ;;
  r <- memory (copyinstr (p_pagetable p) buf addr max) ;;
  if r <? 0 then ret (-1) else kstrlen buf.

Definition argraw (n : Z) : M kernel Z :=
  p <- me ;;
  if (0 <=? n) && (n <=? 5) then load_tf (p_trapframe p) (tf_a n) else panic "argraw".
Definition argint (n : Z) : M kernel Z := v <- argraw n ;; ret (s32 v).
Definition argaddr (n : Z) : M kernel Z := argraw n.

(** [argstr] into a local array; the string, or [None] for -1. *)
Definition argstr (n max : Z) : M kernel (option (list Z)) :=
  addr <- argaddr n ;;
  r <- fetchstr addr pf_local max ;;
  if r <? 0 then ret None
  else s <- memory (gets (fun k => bytes_at (kmem k) pf_local (Z.to_nat r))) ;; ret (Some s).
End args.

(** ** exec *)

Definition ELF_MAGIC : Z := 0x464C457F.
Definition ELF_PROG_LOAD : Z := 1.
Definition sizeof_elfhdr : Z := 64.
Definition sizeof_proghdr : Z := 56.

(** The field of [n] bytes at offset [o] of a structure. *)
Definition field (l : list Z) (o n : nat) : Z := le_val (take n (drop o l)).

Record elfhdr : Type := Elf { e_magic : Z; e_entry : Z; e_phoff : Z; e_phnum : Z }.
Definition parse_elfhdr (l : list Z) : elfhdr :=
  Elf (field l 0 4) (field l 24 8) (field l 32 8) (field l 56 2).
Record proghdr : Type := Ph {
  ph_type : Z; ph_flags : Z; ph_off : Z; ph_vaddr : Z; ph_filesz : Z; ph_memsz : Z }.
Definition parse_proghdr (l : list Z) : proghdr :=
  Ph (field l 0 4) (field l 4 4) (field l 8 8) (field l 16 8) (field l 32 8) (field l 40 8).

Definition flags2perm (flags : Z) : Z :=
  let perm := if nz (Z.land flags 1) then PTE_X else 0 in
  if nz (Z.land flags 2) then Z.lor perm PTE_W else perm.

(** The part of the path after its last slash. *)
Fixpoint last_elem (last s : list Z) : list Z :=
  match s with
  | [] => last
  | c :: s' => last_elem (if c =? SLASH then s' else last) s'
  end.

Section exec.
Context `{Platform}.

Definition loadseg (pagetable va : Z) (ip : nat) (offset sz : Z) : M kernel Z :=
  while_ (fun i =>
    if i <? sz then
      pa <- memory (walkaddr pagetable (u64 (va + i))) ;;
      if pa =? 0 then panic "loadseg: address should exist"
      else
        let n := if sz - i <? PGSIZE then sz - i else PGSIZE in
        r <- readi ip ToKernel (u32 (offset + i)) n ;;
        let '(r, bytes) := r in
        memory (update_mem (fun m => store_bytes m pa bytes)) ;;;
        if negb (r =? n) then ret (Brk (-1)) else ret (Next (u32 (i + PGSIZE)))
    else ret (Brk 0)) 0.

(** The loop over the program headers: [inl sz] on an error, with the size mapped
    so far, [inr sz] at the end. *)
Definition load_segments (pagetable : Z) (ip : nat) (elf : elfhdr) : M kernel (Z + Z) :=
  while_ (fun '(i, off, sz) =>
    if i <? e_phnum elf then
      let next sz := ret (Next (i + 1, s32 (off + sizeof_proghdr), sz)) in
      r <- readi ip ToKernel (u32 off) sizeof_proghdr ;;
      let '(r, bytes) := r in
      if negb (r =? sizeof_proghdr) then ret (Brk (inl sz))
      else
        let ph := parse_proghdr bytes in
        if negb (ph_type ph =? ELF_PROG_LOAD) then next sz
        else if ph_memsz ph <? ph_filesz ph then ret (Brk (inl sz))
        else if u64 (ph_vaddr ph + ph_memsz ph) <? ph_vaddr ph then ret (Brk (inl sz))
        else if nz (ph_vaddr ph mod PGSIZE) then ret (Brk (inl sz))
        else
          sz1 <- memory (uvmalloc pf_kend pagetable sz (u64 (ph_vaddr ph + ph_memsz ph))
                   (flags2perm (ph_flags ph))) ;;
          if sz1 =? 0 then ret (Brk (inl sz))
          else
            r <- loadseg pagetable (ph_vaddr ph) ip (u32 (ph_off ph)) (u32 (ph_filesz ph)) ;;
            if r <? 0 then ret (Brk (inl sz1)) else next sz1
    else ret (Brk (inr sz))) (0, s32 (e_phoff elf), 0).

(** Pushing the argument strings: [None] on an error, else the stack pointer and
    the addresses pushed, in order. *)
Fixpoint push_args (pagetable stackbase : Z) (argv : list Z) (argc sp : Z) (ustack : list Z)
  : M kernel (option (Z * list Z)) :=
  match argv with
  | [] => ret (Some (sp, ustack))
  | a :: argv' =>
      if MAXARG <=? argc then ret None
      else
        n <- kstrlen a ;;
        let sp := u64 (sp - (n + 1)) in
        let sp := sp - sp mod 16 in
        if sp <? stackbase then ret None
        else
          r <- memory (copyout pagetable sp a (n + 1)) ;;
          if r <? 0 then ret None
          else push_args pagetable stackbase argv' (argc + 1) sp (ustack ++ [sp])
  end.

(** [argv] lists the addresses of the argument strings, without the final null. *)
Definition exec (path : list Z) (argv : list Z) : M kernel Z :=
  i <- myproc ;;
  p <- getp i ;;
  logged begin_op ;;;
  o <- (match p_cwd p with Some cwd => namei cwd path | None => hang end) ;;
  match o with
  | None => logged end_op ;;; ret (-1)
  | Some ip =>
      let bad_ip pagetable sz :=
        when (nz pagetable) (memory (proc_freepagetable pagetable sz)) ;;;
        iunlockput ip ;;;
        logged end_op ;;;
        ret (-1) in
      ilock ip ;;;
      r <- readi ip ToKernel 0 sizeof_elfhdr ;;
      let '(r, bytes) := r in
      if negb (r =? sizeof_elfhdr) then bad_ip 0 0
      else
        let elf := parse_elfhdr bytes in
        if negb (e_magic elf =? ELF_MAGIC) then bad_ip 0 0
        else
          pagetable <- memory (proc_pagetable (p_trapframe p)) ;;
          if pagetable =? 0 then bad_ip 0 0
          else
            r <- load_segments pagetable ip elf ;;
            match r with
            | inl sz => bad_ip pagetable sz
            | inr sz =>
                iunlockput ip ;;;
                logged end_op ;;;
                let bad sz := memory (proc_freepagetable pagetable sz) ;;; ret (-1) in
                let sz := PGROUNDUP sz in
                sz1 <- memory (uvmalloc pf_kend pagetable sz (u64 (sz + 2 * PGSIZE)) PTE_W) ;;
                if sz1 =? 0 then bad sz
                else
                  let sz := sz1 in
                  memory (uvmclear pagetable (u64 (sz - 2 * PGSIZE))) ;;;
                  let stackbase := u64 (sz - PGSIZE) in
                  o <- push_args pagetable stackbase argv 0 sz [] ;;
                  match o with
                  | None => bad sz
                  | Some (sp, ustack) =>
                      let argc := Z.of_nat (length ustack) in
                      let sp := u64 (sp - (argc + 1) * 8) in
                      let sp := sp - sp mod 16 in
                      if sp <? stackbase then bad sz
                      else
                        r <- memory (copyout_var pagetable sp (concat (le_bytes 8 <$> ustack ++ [0]))) ;;
                        if r <? 0 then bad sz
                        else
                          store_tf (p_trapframe p) (tf_a 1) sp ;;;
                          updp i (fun p => p <| p_name := proc_name (last_elem path path) |>) ;;;
                          updp i (fun p => p <| p_pagetable := pagetable |> <| p_sz := sz |>) ;;;
                          store_tf (p_trapframe p) tf_epc (e_entry elf) ;;;
                          store_tf (p_trapframe p) tf_sp sp ;;;
                          memory (proc_freepagetable (p_pagetable p) (p_sz p)) ;;;
                          ret argc
                  end
            end
  end.
End exec.
