(* ===== verification/Sysfile.v ===== *)
(** * File-system calls (kernel/sysfile.c)

    Each system call fetches its arguments from the trapframe and works on the open
    files and the file system, with the error paths of the code. *)

From stdpp Require Import base list gmap strings.
From Stdlib Require Import ZArith Lia.
From S2P Require Import Prelude Mem Str Riscv Kalloc Vm Sleeplock Bio BioInv Log TxDisk Fs Printf Kernel Sched Uart Pipe File Proc Exec.

#[local] Open Scope Z_scope.

Definition O_RDONLY : Z := 0x000.
Definition O_WRONLY : Z := 0x001.
Definition O_RDWR : Z := 0x002.
Definition O_CREATE : Z := 0x200.
Definition O_TRUNC : Z := 0x400.

Section sysfile.
Context `{Platform}.

(** The descriptor and its file, [None] for -1. *)
Definition argfd (n : Z) : M kernel (option (Z * nat)) :=
  fd <- argint n ;;
  if (fd <? 0) || (Z.of_nat NOFILE <=? fd) then ret None
  else
    p <- me ;;
    match p_ofile p !!! Z.to_nat fd with
    | Some f => ret (Some (fd, f))
    | None => ret None
    end.

Definition set_ofile (fd : Z) (f : option nat) : M kernel unit :=
  i <- myproc ;; updp i (fun p => p <| p_ofile := <[Z.to_nat fd := f]> (p_ofile p) |>).

Definition fdalloc (f : nat) : M kernel Z :=
  while_ (fun fd =>
    if fd <? Z.of_nat NOFILE then
      p <- me ;;
      match p_ofile p !!! Z.to_nat fd with
      | None => set_ofile fd (Some f) ;;; ret (Brk fd)
      | Some _ => ret (Next (fd + 1))
      end
    else ret (Brk (-1))) 0.

Definition sys_dup : M kernel Z :=
  o <- argfd 0 ;;
  match o with
  | None => ret (-1)
  | Some (_, f) =>
      fd <- fdalloc f ;;
      if fd <? 0 then ret (-1) else filedup f ;;; ret fd
  end.

Definition sys_read : M kernel Z :=
  p <- argaddr 1 ;;
  n <- argint 2 ;;
  o <- argfd 0 ;;
  match o with
  | None => ret (-1)
  | Some (_, f) => fileread f p n
  end.

Definition sys_write : M kernel Z :=
  p <- argaddr 1 ;;
  n <- argint 2 ;;
  o <- argfd 0 ;;
  match o with
  | None => ret (-1)
  | Some (_, f) => filewrite f p n
  end.

Definition sys_close : M kernel Z :=
  o <- argfd 0 ;;
  match o with
  | None => ret (-1)
  | Some (fd, f) => set_ofile fd None ;;; fileclose f ;;; ret 0
  end.

Definition sys_fstat : M kernel Z :=
  st <- argaddr 1 ;;
  o <- argfd 0 ;;
  match o with
  | None => ret (-1)
  | Some (_, f) => filestat f st
  end.

(** The current directory of the process; it always has one. *)
Definition mycwd : M kernel nat :=
  p <- me ;; match p_cwd p with Some ip => ret ip | None => hang end.

Definition sys_link : M kernel Z :=
  o <- argstr 0 MAXPATH ;;
  match o with
  | None => ret (-1)
  | Some old =>
      o <- argstr 1 MAXPATH ;;
      match o with
      | None => ret (-1)
      | Some new =>
          logged begin_op ;;;
          cwd <- mycwd ;;
          o <- namei cwd old ;;
          match o with
          | None => logged end_op ;;; ret (-1)
          | Some ip =>
              ilock ip ;;;
              x <- geti ip ;;
              if i_type x =? T_DIR then iunlockput ip ;;; logged end_op ;;; ret (-1)
              else
                updi ip (fun x => i_set_nlink (s16 (i_nlink x + 1)) x) ;;;
                iupdate ip ;;;
                iunlock ip ;;;
                let bad :=
                  ilock ip ;;;
                  updi ip (fun x => i_set_nlink (s16 (i_nlink x - 1)) x) ;;;
                  iupdate ip ;;;
                  iunlockput ip ;;;
                  logged end_op ;;;
                  ret (-1) in
                o <- nameiparent cwd new ;;
                match o with
                | None => bad
                | Some (dp, name) =>
                    ilock dp ;;;
                    d <- geti dp ;;
                    x <- geti ip ;;
                    r <- (if negb (i_dev d =? i_dev x) then ret (-1) else dirlink dp name (i_inum x)) ;;
                    if r <? 0 then iunlockput dp ;;; bad
                    else
                      iunlockput dp ;;;
                      iput ip ;;;
                      logged end_op ;;;
                      ret 0
                end
          end
      end
  end.

Definition isdirempty (dp : nat) : M kernel bool :=
  while_ (fun off =>
    x <- geti dp ;;
    if off <? i_size x then
      r <- readi dp ToKernel off sizeof_dirent ;;
      let '(n, de) := r in
      if negb (n =? sizeof_dirent) then panic "isdirempty: readi"
      else if nz (de_inum de) then ret (Brk false)
      else ret (Next (off + sizeof_dirent))
    else ret (Brk true)) (2 * sizeof_dirent).

Definition sys_unlink : M kernel Z :=
  o <- argstr 0 MAXPATH ;;
  match o with
  | None => ret (-1)
  | Some path =>
      logged begin_op ;;;
      cwd <- mycwd ;;
      o <- nameiparent cwd path ;;
      match o with
      | None => logged end_op ;;; ret (-1)
      | Some (dp, name) =>
          ilock dp ;;;
          let bad := iunlockput dp ;;; logged end_op ;;; ret (-1) in
          if (namecmp name (chars ".") =? 0) || (namecmp name (chars "..") =? 0) then bad
          else
            o <- dirlookup dp name ;;
            match o with
            | None => bad
            | Some (ip, off) =>
                ilock ip ;;;
                x <- geti ip ;;
                if i_nlink x <? 1 then panic "unlink: nlink < 1"
                else
                  empty <- (if i_type x =? T_DIR then isdirempty ip else ret true) ;;
                  if negb empty then iunlockput ip ;;; bad
                  else
                    n <- writei dp (FromKernel (replicate 16 0)) off sizeof_dirent ;;
                    if negb (n =? sizeof_dirent) then panic "unlink: writei"
                    else
                      when (i_type x =? T_DIR)
                        (updi dp (fun x => i_set_nlink (s16 (i_nlink x - 1)) x) ;;; iupdate dp) ;;;
                      iunlockput dp ;;;
                      updi ip (fun x => i_set_nlink (s16 (i_nlink x - 1)) x) ;;;
                      iupdate ip ;;;
                      iunlockput ip ;;;
                      logged end_op ;;;
                      ret 0
            end
      end
  end.

(** Returns the inode locked. *)
Definition create (path : list Z) (type major minor : Z) : M kernel (option nat) :=
  cwd <- mycwd ;;
  o <- nameiparent cwd path ;;
  match o with
  | None => ret None
  | Some (dp, name) =>
      ilock dp ;;;
      o <- dirlookup dp name ;;
      match o with
      | Some (ip, _) =>
          iunlockput dp ;;;
          ilock ip ;;;
          x <- geti ip ;;
          if (type =? T_FILE) && ((i_type x =? T_FILE) || (i_type x =? T_DEVICE)) then ret (Some ip)
          else iunlockput ip ;;; ret None
      | None =>
          d <- geti dp ;;
          o <- ialloc (i_dev d) type ;;
          match o with
          | None => iunlockput dp ;;; ret None
          | Some ip =>
              ilock ip ;;;
              updi ip (fun x => i_set_nlink 1 (i_set_mm major minor x)) ;;;
              iupdate ip ;;;
              x <- geti ip ;;
              let fail :=
                updi ip (i_set_nlink 0) ;;;
                iupdate ip ;;;
                iunlockput ip ;;;
                iunlockput dp ;;;
                ret None in
              ok <- (if type =? T_DIR then
                       r <- dirlink ip (chars ".") (i_inum x) ;;
                       if r <? 0 then ret false
                       else r <- dirlink ip (chars "..") (i_inum d) ;; ret (negb (r <? 0))
                     else ret true) ;;
              if negb ok then fail
              else
                r <- dirlink dp name (i_inum x) ;;
                if r <? 0 then fail
                else
                  when (type =? T_DIR)
                    (updi dp (fun x => i_set_nlink (s16 (i_nlink x + 1)) x) ;;; iupdate dp) ;;;
                  iunlockput dp ;;;
                  ret (Some ip)
          end
      end
  end.

(** [iunlockput(ip); end_op(); return -1]. *)
Definition put_fail (ip : nat) : M kernel Z := iunlockput ip ;;; logged end_op ;;; ret (-1).

(** The inode [sys_open] works on, locked. *)
Definition open_inode (path : list Z) (omode : Z) : M kernel (option nat) :=
  if nz (Z.land omode O_CREATE) then create path T_FILE 0 0
  else
    cwd <- mycwd ;;
    o <- namei cwd path ;;
    match o with
    | None => ret None
    | Some ip =>
        ilock ip ;;;
        x <- geti ip ;;
        if (i_type x =? T_DIR) && negb (omode =? O_RDONLY) then iunlockput ip ;;; ret None
        else ret (Some ip)
    end.

(** Filling in the new file structure. *)
Definition open_file (x : inode) (ip : nat) (omode : Z) (f : file) : file :=
  let f := if i_type x =? T_DEVICE then f <| f_type := FD_DEVICE |> <| f_major := i_major x |>
           else f <| f_type := FD_INODE |> <| f_off := 0 |> in
  f <| f_ip := ip |>
    <| f_readable := if nz (Z.land omode O_WRONLY) then 0 else 1 |>
    <| f_writable := if nz (Z.land omode O_WRONLY) || nz (Z.land omode O_RDWR) then 1 else 0 |>.

Definition sys_open : M kernel Z :=
  omode <- argint 1 ;;
  o <- argstr 0 MAXPATH ;;
  match o with
  | None => ret (-1)
  | Some path =>
      logged begin_op ;;;
      o <- open_inode path omode ;;
      match o with
      | None => logged end_op ;;; ret (-1)
      | Some ip =>
          x <- geti ip ;;
          if (i_type x =? T_DEVICE) && ((i_major x <? 0) || (NDEV <=? i_major x)) then put_fail ip
          else
            o <- filealloc ;;
            match o with
            | None => put_fail ip
            | Some f =>
                fd <- fdalloc f ;;
                if fd <? 0 then fileclose f ;;; put_fail ip
                else
                  updf f (open_file x ip omode) ;;;
                  when (nz (Z.land omode O_TRUNC) && (i_type x =? T_FILE)) (itrunc ip) ;;;
                  iunlock ip ;;;
                  logged end_op ;;;
                  ret fd
            end
      end
  end.

Definition sys_mkdir : M kernel Z :=
  logged begin_op ;;;
  o <- argstr 0 MAXPATH ;;
  o <- (match o with Some path => create path T_DIR 0 0 | None => ret None end) ;;
  match o with
  | None => logged end_op ;;; ret (-1)
  | Some ip => iunlockput ip ;;; logged end_op ;;; ret 0
  end.

Definition sys_mknod : M kernel Z :=
  logged begin_op ;;;
  major <- argint 1 ;;
  minor <- argint 2 ;;
  o <- argstr 0 MAXPATH ;;
  o <- (match o with Some path => create path T_DEVICE (s16 major) (s16 minor) | None => ret None end) ;;
  match o with
  | None => logged end_op ;;; ret (-1)
  | Some ip => iunlockput ip ;;; logged end_op ;;; ret 0
  end.

Definition sys_chdir : M kernel Z :=
  i <- myproc ;;
  logged begin_op ;;;
  o <- argstr 0 MAXPATH ;;
  cwd <- mycwd ;;
  o <- (match o with Some path => namei cwd path | None => ret None end) ;;
  match o with
  | None => logged end_op ;;; ret (-1)
  | Some ip =>
      ilock ip ;;;
      x <- geti ip ;;
      if negb (i_type x =? T_DIR) then put_fail ip
      else
        iunlock ip ;;;
        iput cwd ;;;
        logged end_op ;;;
        updp i (fun p => p <| p_cwd := Some ip |>) ;;;
        ret 0
  end.

(** Freeing the pages of [argv]. *)
Fixpoint free_args (argv : list Z) : M kernel unit :=
  match argv with
  | [] => ret tt
  | a :: argv' => memory (kfree pf_kend a) ;;; free_args argv'
  end.

(** The loop fetching the arguments: the pages allocated, and whether it ended at a
    null pointer. *)
Definition fetch_args (uargv : Z) : M kernel (bool * list Z) :=
  while_ (fun '(i, argv) =>
    if MAXARG <=? i then ret (Brk (false, argv))
    else
      r <- fetchaddr (u64 (uargv + 8 * i)) ;;
      let '(r, uarg) := r in
      if r <? 0 then ret (Brk (false, argv))
      else if uarg =? 0 then ret (Brk (true, argv))
      else
        a <- memory kalloc ;;
        if a =? 0 then ret (Brk (false, argv))
        else
          r <- fetchstr uarg a PGSIZE ;;
          if r <? 0 then ret (Brk (false, argv ++ [a])) else ret (Next (i + 1, argv ++ [a]))) (0, []).

Definition sys_exec : M kernel Z :=
  uargv <- argaddr 1 ;;
  o <- argstr 0 MAXPATH ;;
  match o with
  | None => ret (-1)
  | Some path =>
      r <- fetch_args uargv ;;
      let '(ok, argv) := r in
      if negb ok then free_args argv ;;; ret (-1)
      else
        ret_ <- exec path argv ;;
        free_args argv ;;;
        ret ret_
  end.

Definition sys_pipe : M kernel Z :=
  fdarray <- argaddr 0 ;;
  o <- pipealloc ;;
  match o with
  | None => ret (-1)
  | Some (rf, wf) =>
      fd0 <- fdalloc rf ;;
      fd1 <- (if fd0 <? 0 then ret (-1) else fdalloc wf) ;;
      if (fd0 <? 0) || (fd1 <? 0) then
        when (0 <=? fd0) (set_ofile fd0 None) ;;;
        fileclose rf ;;;
        fileclose wf ;;;
        ret (-1)
      else
        r <- user_out fdarray (le_bytes 4 (u32 fd0)) ;;
        r <- (if r <? 0 then ret r else user_out (u64 (fdarray + 4)) (le_bytes 4 (u32 fd1))) ;;
        if r <? 0 then
          set_ofile fd0 None ;;;
          set_ofile fd1 None ;;;
          fileclose rf ;;;
          fileclose wf ;;;
          ret (-1)
        else ret 0
  end.
End sysfile.
