(* ===== verification/Syscall.v ===== *)
(** * System calls (kernel/sysproc.c, kernel/syscall.c) and traps (kernel/trap.c)

    The process-related calls, the dispatcher with the [trace] mask, and the handlers
    of traps from user space and of device interrupts. *)

From stdpp Require Import base list gmap strings.
From Stdlib Require Import ZArith Lia.
From S2P Require Import Prelude Mem Str Riscv Kalloc Vm Sleeplock Bio BioInv Log TxDisk Fs Printf Kernel Sched Uart Pipe File Proc Exec Sysfile.

#[local] Open Scope Z_scope.

Section sysproc.
Context `{Platform}.

Definition sys_exit : M kernel Z := n <- argint 0 ;; exit n.
Definition sys_getpid : M kernel Z := p <- me ;; ret (p_pid p).
Definition sys_fork : M kernel Z := fork.
Definition sys_wait : M kernel Z := p <- argaddr 0 ;; wait p.

Definition sys_sbrk : M kernel Z :=
  n <- argint 0 ;;
  p <- me ;;
  let addr := p_sz p in
  r <- growproc n ;;
  if r <? 0 then ret (-1) else ret addr.

Definition sys_sleep : M kernel Z :=
  n <- argint 0 ;;
  let n := if n <? 0 then 0 else n in
  i <- myproc ;;
  ticks0 <- getm m_ticks ;;
  while_ (fun _ : unit =>
    ticks <- getm m_ticks ;;
    if u32 (ticks - ticks0) <? n then
      k <- killed i ;;
      if nz k then ret (Brk (-1)) else sleep ChTicks ;;; ret (Next tt)
    else ret (Brk 0)) tt.

Definition sys_kill : M kernel Z := pid <- argint 0 ;; kill pid.
Definition sys_uptime : M kernel Z := getm m_ticks.

Definition sys_trace : M kernel Z :=
  mask <- argint 0 ;;
  i <- myproc ;;
  updp i (fun p => p <| p_mask := mask |>) ;;;
  ret 0.

(** [struct sysinfo] in memory. *)
Definition sysinfo_bytes (freemem nproc : Z) : list Z := le_bytes 8 freemem ++ le_bytes 8 nproc.
Definition sys_sysinfo : M kernel Z :=
  freemem <- memory availmemory ;;
  n <- unsetprocnum ;;
  addr <- argaddr 0 ;;
  r <- user_out addr (sysinfo_bytes freemem n) ;;
  if r <? 0 then ret (-1) else ret 0.

(** ** The dispatcher *)

Definition SYS_fork : Z := 1.
Definition SYS_exit : Z := 2.
Definition SYS_wait : Z := 3.
Definition SYS_pipe : Z := 4.
Definition SYS_read : Z := 5.
Definition SYS_kill : Z := 6.
Definition SYS_exec : Z := 7.
Definition SYS_fstat : Z := 8.
Definition SYS_chdir : Z := 9.
Definition SYS_dup : Z := 10.
Definition SYS_getpid : Z := 11.
Definition SYS_sbrk : Z := 12.
Definition SYS_sleep : Z := 13.
Definition SYS_uptime : Z := 14.
Definition SYS_open : Z := 15.
Definition SYS_write : Z := 16.
Definition SYS_mknod : Z := 17.
Definition SYS_unlink : Z := 18.
Definition SYS_link : Z := 19.
Definition SYS_mkdir : Z := 20.
Definition SYS_close : Z := 21.
Definition SYS_trace : Z := 22.
Definition SYS_sysinfo : Z := 23.

(** The table [syscalls] and the table [syscallname]. *)
Definition syscalls (num : Z) : option (M kernel Z) :=
  if num =? SYS_fork then Some sys_fork
  else if num =? SYS_exit then Some sys_exit
  else if num =? SYS_wait then Some sys_wait
  else if num =? SYS_pipe then Some sys_pipe
  else if num =? SYS_read then Some sys_read
  else if num =? SYS_kill then Some sys_kill
  else if num =? SYS_exec then Some sys_exec
  else if num =? SYS_fstat then Some sys_fstat
  else if num =? SYS_chdir then Some sys_chdir
  else if num =? SYS_dup then Some sys_dup
  else if num =? SYS_getpid then Some sys_getpid
  else if num =? SYS_sbrk then Some sys_sbrk
  else if num =? SYS_sleep then Some sys_sleep
  else if num =? SYS_uptime then Some sys_uptime
  else if num =? SYS_open then Some sys_open
  else if num =? SYS_write then Some sys_write
  else if num =? SYS_mknod then Some sys_mknod
  else if num =? SYS_unlink then Some sys_unlink
  else if num =? SYS_link then Some sys_link
  else if num =? SYS_mkdir then Some sys_mkdir
  else if num =? SYS_close then Some sys_close
  else if num =? SYS_trace then Some sys_trace
  else if num =? SYS_sysinfo then Some sys_sysinfo
  else None.
Definition syscallname : list string :=
  [EmptyString; "fork"; "exit"; "wait"; "pipe"; "read"; "kill"; "exec"; "fstat";
   "chdir"; "dup"; "getpid"; "sbrk"; "sleep"; "uptime"; "open"; "write";
   "mknod"; "unlink"; "link"; "mkdir"; "close"; "trace"; "sysinfo"].

(** [NELEM(syscalls)]. *)
Definition nsyscalls : Z := 24.

Definition trace_fmt : string := "%d: syscall %s -> %d" ++ newline.
Definition unknown_fmt : string := "%d %s: unknown sys call %d" ++ newline.

Definition syscall : M kernel unit :=
  i <- myproc ;;
  p <- getp i ;;
  num <- load_tf (p_trapframe p) (tf_a 7) ;;
  let num := s32 num in
  match (if (0 <? num) && (num <? nsyscalls) then syscalls num else None) with
  | Some f =>
      r <- f ;;
      p <- getp i ;;
      store_tf (p_trapframe p) (tf_a 0) (u64 r) ;;;
      when (nz (Z.land (Z.shiftl 1 num) (u32 (p_mask p))))
        (a0 <- load_tf (p_trapframe p) (tf_a 0) ;;
         kernel_printf trace_fmt
           [AInt (p_pid p); AStr (Some (chars (syscallname !!! Z.to_nat num))); AInt a0])
  | None =>
      kernel_printf unknown_fmt [AInt (p_pid p); AStr (Some (p_name p)); AInt num] ;;;
      store_tf (p_trapframe p) (tf_a 0) (u64 (-1))
  end.
End sysproc.
