(* ===== verification/SyscallProps.v ===== *)
(** * What system calls guarantee (kernel/syscall.c, kernel/sysproc.c)

    The dispatcher: the result of a call reaches the process, and the calls selected
    by the mask of [trace], and no others, are reported on the console.  [sysinfo]:
    the process gets the number of free bytes and of processes. *)

From stdpp Require Import base list gmap strings.
From Stdlib Require Import ZArith Lia.
From S2P Require Import Prelude Mem Str Riscv Kalloc Vm VmInv VmUser VmCopy VmProps Sleeplock Bio BioInv Log TxDisk Fs Printf Kernel UserMem Example Sched SchedProps Uart UartProps Pipe File Proc ProcProps Exec Sysfile Syscall.

#[local] Open Scope Z_scope.

(** ** Printing on the console *)

Lemma echo_bytes l : Forall (fun c => 0 <= c < 256) l -> l ≫= echo = l.
Proof.
  induction 1 as [|c l Hc _ IH]; [done|]. cbn. rewrite IH. unfold echo, BACKSPACE.
  destruct (Z.eqb_spec c 256); [lia|]. by rewrite u8_small.
Qed.
Lemma chars_bytes s : Forall (fun c => 0 <= c < 256) (chars s).
Proof.
  unfold chars. apply Forall_fmap, Forall_forall. intros a _. cbn. pose proof (Ascii.N_ascii_bounded a). lia.
Qed.
Lemma to_nul_bytes l : Forall (fun c => 0 <= c < 256) l -> Forall (fun c => 0 <= c < 256) (to_nul l).
Proof. induction 1 as [|c l Hc _ IH]; cbn; [constructor|]. destruct (c =? 0); [constructor|by constructor]. Qed.
Lemma kprintint_bytes x : Forall (fun c => 0 <= c < 256) (kprintint (s32 x) 10 true).
Proof.
  destruct (printint_with_decimal kdigits (s32 x) ltac:(by left) (s32_range x)) as (l & E & Hl & _). unfold kprintint. rewrite E.
  apply Forall_app. split; [destruct (s32 x <? 0); repeat constructor; lia|]. eapply Forall_impl; [exact Hl|]. cbn. lia.
Qed.

#[local] Opaque kprintint.

(** A decimal integer and the two messages of [syscall]. *)
Definition decimal (x : Z) : list Z := kprintint (s32 x) 10 true.
Definition trace_line (pid num r : Z) : list Z :=
  decimal pid ++ chars ": syscall " ++ chars (syscallname !!! Z.to_nat num) ++ chars " -> " ++ decimal r ++ [10].
Definition unknown_line (pid : Z) (name : list Z) (num : Z) : list Z :=
  decimal pid ++ chars " " ++ to_nul name ++ chars ": unknown sys call " ++ decimal num ++ [10].

Lemma to_nul_name num : 0 < num < nsyscalls -> to_nul (chars (syscallname !!! Z.to_nat num)) = chars (syscallname !!! Z.to_nat num).
Proof.
  intros Hn. unfold nsyscalls in Hn. replace num with (Z.of_nat (Z.to_nat num)) in Hn by lia.
  destruct (Z.to_nat num) as [|n]; [done|]. do 23 (destruct n as [|n]; [reflexivity|]). lia.
Qed.
Lemma kprintf_trace pid num r :
  0 < num < nsyscalls ->
  kprintf (chars trace_fmt) [AInt pid; AStr (Some (chars (syscallname !!! Z.to_nat num))); AInt r] = Some (trace_line pid num r).
Proof.
  intros Hn. unfold trace_line. rewrite <- (to_nul_name num Hn) at 2. unfold decimal. generalize (chars (syscallname !!! Z.to_nat num)) as nm. intros nm.
  reflexivity.
Qed.
Lemma kprintf_unknown pid name num : kprintf (chars unknown_fmt) [AInt pid; AStr (Some name); AInt num] = Some (unknown_line pid name num).
Proof. reflexivity. Qed.

(** ** The dispatcher *)

Lemma mask_bit num mask : 0 <= num < 32 -> nz (Z.land (Z.shiftl 1 num) (u32 mask)) = Z.testbit mask num.
Proof.
  intros Hn. rewrite Z.shiftl_1_l, Z.land_comm. unfold u32. destruct (Z.testbit mask num) eqn:E.
  - apply negb_true_iff, Z.eqb_neq. intros H0. apply (f_equal (fun x => Z.testbit x num)) in H0.
    rewrite Z.land_spec, Z.mod_pow2_bits_low, E, Z.pow2_bits_true, Z.testbit_0_l in H0 by lia. done.
  - apply negb_false_iff, Z.eqb_eq. apply Z.bits_inj'. intros k Hk. rewrite Z.land_spec, Z.pow2_bits_eqb, Z.testbit_0_l by lia.
    destruct (Z.eqb_spec num k) as [->|]; [|by rewrite andb_false_r]. by rewrite Z.mod_pow2_bits_low, E by lia.
Qed.
Lemma s32_u64 x : s32 (u64 x) = s32 x.
Proof.
  apply s32_congr. unfold u64. rewrite <- Znumtheory.Zmod_div_mod; [done|lia|lia|]. exists (2 ^ 32). reflexivity.
Qed.

(** The state with [r] in register [a0] of the trapframe. *)
Definition result_at (tf r : Z) (s : kernel) : kernel :=
  with_mem (Kst (wr64 (kmem (the_mem s)) (tf + tf_a 0) (u64 r)) (freelist (the_mem s))) s.

Section dispatch.
Context `{UartLive}.

Lemma wp_kernel_printf fmt ap out s :
  kprintf (chars fmt) ap = Some out -> Forall (fun c => 0 <= c < 256) out -> panicked (the_uart s) = 0 ->
  wp (kernel_printf fmt ap) (fun _ s' => exists n, s' = sent out n s) s.
Proof using H0.
  intros E Hb Hp. unfold kernel_printf. rewrite E. eapply wp_mono; [by apply put_all_spec|]. by rewrite echo_bytes.
Qed.
Lemma sent_nil s : exists n, s = sent [] n s.
Proof. exists (u_polls (the_uart s)). unfold sent. rewrite app_nil_r. by destruct s as [[? ? ? ? ? ? ? ? ? ? []]]. Qed.

Lemma trace_line_bytes pid num r : Forall (fun c => 0 <= c < 256) (trace_line pid num r).
Proof. unfold trace_line. rewrite !Forall_app. split_and!; try apply chars_bytes; try apply kprintint_bytes. by repeat constructor. Qed.

Lemma trace_line_u64 pid num r : trace_line pid num (u64 r) = trace_line pid num r.
Proof. unfold trace_line, decimal. by rewrite s32_u64. Qed.

(** The running process, and the number of its system call. *)
Definition cur_proc (s : kernel) : proc := procs s !!! m_cur (fs_disk s).
Definition call_number (s : kernel) : Z := s32 (rd64 (kmem (the_mem s)) (p_trapframe (cur_proc s) + tf_a 7)).

Lemma syscalls_range num : is_Some (syscalls num) <-> 0 < num < nsyscalls.
Proof.
  unfold nsyscalls. split.
  - intros [f E]. unfold syscalls in E. 
    repeat (match type of E with (if ?a =? ?c then _ else _) = _ => destruct (Z.eqb_spec a c) as [->|_] end; [split; reflexivity|]).
    discriminate E.
  - intros Hn. replace num with (Z.of_nat (Z.to_nat num)) in Hn |- * by lia.
    destruct (Z.to_nat num) as [|n]; [lia|]. do 23 (destruct n as [|n]; [by eexists|]). lia.
Qed.

(** C19: every system call leaves its result in register a0 of the calling process; if the bit of the call is
    set in the process's trace mask when the call is over, exactly one line "pid: syscall name -> result" appears
    on the console, and otherwise nothing; an unknown number is reported and gives -1. *)
Theorem syscall_traces s :
  let num := call_number s in let cur := m_cur (fs_disk s) in
  (forall f r s1, syscalls num = Some f -> f s = Ok r s1 -> panicked (the_uart s1) = 0 ->
    let p := procs s1 !!! cur in
    wp syscall (fun _ s2 => exists n,
      s2 = sent (if Z.testbit (p_mask p) num then trace_line (p_pid p) num r else []) n (result_at (p_trapframe p) r s1)) s) /\
  (~ 0 < num < nsyscalls -> panicked (the_uart s) = 0 ->
    let p := cur_proc s in
    Forall (fun c => 0 <= c < 256) (p_name p) ->
    wp syscall (fun _ s2 => exists n,
      s2 = result_at (p_trapframe p) (-1) (sent (unknown_line (p_pid p) (p_name p) num) n s)) s).
Proof using H0.
  intros num cur. split.
  - intros f r s1 Ef Er Hp p. pose proof (proj1 (syscalls_range num) (ex_intro _ f Ef)) as Hn.
    unfold syscall. k_steps. apply wp_load_tf.
    change (s32 (rd64 (kmem (the_mem s)) (p_trapframe (procs s !!! m_cur (fs_disk s)) + tf_a 7))) with num.
    rewrite (proj2 (Z.ltb_lt 0 num)), (proj2 (Z.ltb_lt num nsyscalls)) by lia. cbn [andb]. rewrite Ef.
    k_step. apply (wp_intro _ _ _ _ _ Er). k_steps. apply wp_store_tf. change (procs s1 !!! m_cur (fs_disk s)) with p.
    fold (result_at (p_trapframe p) r s1). rewrite mask_bit by (unfold nsyscalls in Hn; lia).
    destruct (Z.testbit (p_mask p) num); cbn [when]; [|apply wp_ret, sent_nil]. k_step. apply wp_load_tf.
    cbn [result_at with_mem the_mem]. cbn. rewrite rd64_wr64_eq by apply u64_range.
    rewrite <- (trace_line_u64 (p_pid p) num r).
    apply wp_kernel_printf; [by apply kprintf_trace|apply trace_line_bytes|exact Hp].
  - intros Hn Hp p Hname. unfold syscall. k_steps. apply wp_load_tf.
    change (s32 (rd64 (kmem (the_mem s)) (p_trapframe (procs s !!! m_cur (fs_disk s)) + tf_a 7))) with num. fold (cur_proc s). fold p.
    assert ((0 <? num) && (num <? nsyscalls) = false) as -> by lia. k_step.
    eapply wp_mono; [apply (wp_kernel_printf _ _ (unknown_line (p_pid p) (p_name p) num)); [apply kprintf_unknown| |exact Hp]|].
    { unfold unknown_line. rewrite !Forall_app. split_and!; try apply chars_bytes; try apply kprintint_bytes; [by apply to_nul_bytes|by repeat constructor]. }
    intros [] s1 [n ->]. apply wp_store_tf. by exists n.
Qed.
End dispatch.

(** ** sysinfo *)

Lemma length_le_bytes n v : length (le_bytes n v) = n.
Proof. revert v. induction n as [|n IH]; intros v; cbn; [done|by rewrite IH]. Qed.
Lemma le_bytes_range n v : Forall (fun c => 0 <= c < 256) (le_bytes n v).
Proof. revert v. induction n as [|n IH]; intros v; cbn; constructor; [by apply Z.mod_pos_bound|apply IH]. Qed.
Lemma le_val_bytes n v : 0 <= v < 256 ^ Z.of_nat n -> le_val (le_bytes n v) = v.
Proof.
  revert v. induction n as [|n IH]; intros v Hv; [change (256 ^ Z.of_nat 0) with 1 in Hv; cbn; lia|]. cbn [le_bytes le_val].
  rewrite Nat2Z.inj_succ, Z.pow_succ_r in Hv by lia. rewrite IH; [pose proof (Z.div_mod v 256 ltac:(lia)); lia|].
  split; [apply Z.div_pos; lia|apply Z.div_lt_upper_bound; lia].
Qed.

(** A 64-bit integer of user memory. *)
Definition u_val (u : umem) (va : Z) : option Z := le_val <$> u_read u va 8.
Lemma u_val_write u va pre v suf k :
  0 <= v < 2 ^ 64 -> k = Z.of_nat (length (pre ++ le_bytes 8 v ++ suf)) ->
  u_val (u_write u va (pre ++ le_bytes 8 v ++ suf) k) (va + Z.of_nat (length pre)) = Some v.
Proof.
  intros Hv ->. unfold u_val. assert (u_read (u_write u va (pre ++ le_bytes 8 v ++ suf) (Z.of_nat (length (pre ++ le_bytes 8 v ++ suf))))
    (va + Z.of_nat (length pre)) 8 = Some (le_bytes 8 v)) as ->; [|cbn [fmap option_fmap option_map]; by rewrite le_val_bytes].
  apply u_read_Some. split; [apply length_le_bytes|]. intros i Hi. unfold u_write. rewrite !length_app, length_le_bytes, decide_True by lia. f_equal.
  replace (Z.to_nat (va + Z.of_nat (length pre) + Z.of_nat i - va)) with (length pre + i)%nat by lia.
  rewrite lookup_total_app_r by lia. replace (length pre + i - length pre)%nat with i by lia. apply lookup_total_app_l. by rewrite length_le_bytes.
Qed.

Section sysinfo.
Context `{PlatformLaws}.

Lemma wp_memory_read {A} (c : M kst A) (Q : A -> kernel -> Prop) s :
  wp c (fun a m => m = the_mem s /\ Q a s) (the_mem s) -> wp (memory c) Q s.
Proof. intros Hc. unfold memory. apply wp_zoom. eapply wp_mono; [exact Hc|]. intros a m [-> HQ]. by destruct s as [[]]. Qed.

(** C20: [sysinfo] stores in the structure of the process the number of bytes in the free pages of the allocator
    and the number of entries of the process table in use, changes nothing else the process can see, and fails
    exactly when the structure is not mapped. *)
Theorem sysinfo_reports cur u s l :
  at_proc cur u s -> length (procs s) = nproc -> free_inv pf_kend (the_mem s) l ->
  let addr := rd64 (kmem (the_mem s)) (p_trapframe (cur_proc s) + tf_a 0) in
  wp sys_sysinfo (fun r s' => (exists m, s' = with_mem m s) /\
    ((r = 0 /\ exists u', user_view s' u' /\ u_val u' addr = Some (4096 * Z.of_nat (length l)) /\
       u_val u' (addr + 8) = Some (Z.of_nat (length (filter (fun p => p_state p <> UNUSED) (procs s)))) /\
       forall a, ~ addr <= a < addr + 16 -> u' a = u a) \/
     (r = -1 /\ exists i, 0 <= i < 16 /\ u (addr + i) = None))) s.
Proof using H0.
  intros Hat Hlen Hinv addr. pose proof (free_inv_bound pf_kend pl_kend _ _ Hinv) as Hb. unfold PHYSTOP, KERNBASE in Hb. pose proof pl_kend as Hk.
  assert (4096 * Z.of_nat (length l) < 2 ^ 64) as Hl by (unfold PHYSTOP, KERNBASE in *; lia).
  unfold sys_sysinfo. k_step. apply wp_memory_read. unfold availmemory. apply wp_bind, wp_gets.
  eapply wp_mono; [apply (chain_loop_avail (the_mem s) l); [apply Hinv|lia..]|]. intros free m [-> ->]. split; [done|].
  k_step. eapply wp_mono; [by apply unsetprocnum_spec|]. intros n st [-> ->].
  set (np := length (filter _ _)). assert (np <= 64)%nat as Hnp by (unfold np; rewrite length_filter, Hlen; done).
  k_step. unfold argaddr, argraw, me. k_steps. cbn [Z.leb andb]. apply wp_load_tf. fold (cur_proc s). fold addr.
  rewrite Z.add_0_l. set (bytes := sysinfo_bytes _ _). assert (length bytes = 16%nat) as Hbl by (unfold bytes, sysinfo_bytes; by rewrite length_app, !length_le_bytes).
  assert (Forall (fun c => 0 <= c < 256) bytes) as Hby by (apply Forall_app; split; apply le_bytes_range).
  assert (length bytes <= 4096)%nat as Hbl' by (rewrite Hbl; apply Nat.leb_le; reflexivity).
  destruct Hat as (Ec & Hc & Hu). k_step. eapply wp_mono; [exact (user_out_spec s u bytes addr Hu (rd64_range _ _) Hbl' Hby)|].
  intros r s' (Hs' & k & Hu' & Hk' & Hm & Hr). rewrite Hbl in Hk', Hr. destruct Hr as [[-> ->]|(-> & Hlt & Hun)];
    [change (0 <? 0) with false|change (-1 <? 0) with true]; cbv iota; k_step.
  - split; [exact Hs'|left]. split; [done|]. exists (u_write u addr bytes (Z.of_nat 16)). split; [exact Hu'|]. split_and!.
    + rewrite <- (Z.add_0_r addr) at 2. apply (u_val_write u addr [] _ (le_bytes 8 (Z.of_nat np))); [lia|]. by rewrite <- Hbl.
    + pose proof (u_val_write u addr (le_bytes 8 (4096 * Z.of_nat (length l))) (Z.of_nat np) [] (Z.of_nat 16) ltac:(lia)) as Hv.
      rewrite length_le_bytes, app_nil_r in Hv. apply Hv. by rewrite <- Hbl.
    + intros a Ha. unfold u_write. by rewrite decide_False.
  - split; [exact Hs'|right]. split; [done|]. exists k. split; [lia|exact Hun].
Qed.
End sysinfo.

(** ** Witnesses *)

(** The running process calls [getpid] and traces it. *)
Definition ex_calling : kernel :=
  with_mem (Kst (wr64 (kmem ex_s2) (KERNBASE + 4096 + tf_a 7) SYS_getpid) (freelist ex_s2))
    (with_procs (alter (fun p => p <| p_mask := 2 ^ SYS_getpid |>) 0%nat (ex_procs ChCons)) (ex_kernel ChCons)).

Lemma syscall_traces_witness :
  wp (@syscall (ex_platform (fun _ => hang))) (fun _ s2 =>
    u_sent (the_uart s2) = chars "1: syscall getpid -> 1" ++ [10] /\ rd64 (kmem (the_mem s2)) (KERNBASE + 4096 + tf_a 0) = 1) ex_calling.
Proof.
  assert (call_number ex_calling = SYS_getpid) as En.
  { unfold call_number. change (s32 (rd64 (wr64 (kmem ex_s2) (KERNBASE + 4096 + tf_a 7) SYS_getpid) (KERNBASE + 4096 + tf_a 7)) = SYS_getpid).
    by rewrite rd64_wr64_eq. }
  destruct (@syscall_traces (ex_platform (fun _ => hang)) _ ex_calling) as [Ht _]. rewrite En in Ht.
  pose proof (Ht sys_getpid 1 ex_calling eq_refl eq_refl eq_refl) as Hw. cbv zeta in Hw.
  assert (procs ex_calling !!! m_cur (fs_disk ex_calling) = ex_proc <| p_mask := 2 ^ SYS_getpid |>) as Ep by reflexivity. rewrite Ep in Hw.
  change (Z.testbit (p_mask (ex_proc <| p_mask := 2 ^ SYS_getpid |>)) SYS_getpid) with true in Hw. cbv iota in Hw.
  assert (trace_line 1 SYS_getpid 1 = chars "1: syscall getpid -> 1" ++ [10]) as El by (vm_compute; reflexivity).
  change (p_pid (ex_proc <| p_mask := 2 ^ SYS_getpid |>)) with 1 in Hw. rewrite El in Hw.
  change (p_trapframe (ex_proc <| p_mask := 2 ^ SYS_getpid |>)) with (KERNBASE + 4096) in Hw.
  eapply wp_mono; [exact Hw|]. intros [] s2 [n ->]. split; [reflexivity|]. unfold result_at, the_mem, sent, with_uart, with_mem. cbn.
  rewrite rd64_wr64_eq; [reflexivity|apply u64_range].
Defined.

Lemma sysinfo_reports_witness :
  exists l, free_inv ex_end ex_s2 l /\ wp (@sys_sysinfo (ex_platform (fun _ => hang))) (fun r s' => r = 0 /\
    exists u', @user_view (ex_platform (fun _ => hang)) s' u' /\ u_val u' 0 = Some (4096 * Z.of_nat (length l)) /\ u_val u' 8 = Some 2)
    (ex_kernel ChCons).
Proof.
  destruct ex_space2 as (N & l & D & Hus & _). exists l. assert (free_inv ex_end ex_s2 l) as Hinv by apply Hus. split; [exact Hinv|].
  destruct (ex_at_proc (fun _ => hang) ChCons) as (u & Hat & Hm).
  pose proof (@sysinfo_reports (ex_platform (fun _ => hang)) _ 0 u (ex_kernel ChCons) l Hat eq_refl Hinv) as Hw. cbv zeta in Hw.
  change (rd64 (kmem (the_mem (ex_kernel ChCons))) (p_trapframe (cur_proc (ex_kernel ChCons)) + tf_a 0)) with (rd64 (kmem ex_s2) (KERNBASE + 4096 + 112)) in Hw.
  rewrite ex_trapframe in Hw. apply (wp_mono _ _ _ _ Hw).
  intros r s' (_ & [(-> & u' & Hu & H1 & H2 & _)|(_ & i & Hi & Hn)]).
  - split; [reflexivity|]. exists u'. split; [exact Hu|]. split; [exact H1|exact H2].
  - destruct (Hm (0 + i)); [lia|exact Hn].
Defined.
