(* ===== verification/Trap.v ===== *)
(** * Traps and interrupts (kernel/trap.c, kernel/plic.c, part of kernel/riscv.h)

    The handlers reached from trampoline.S and kernelvec.S, on a record of the
    supervisor registers.  Disk requests complete inside [Bio.virtio_disk_rw], so
    the disk's interrupt has nothing left to do here. *)

From stdpp Require Import base list gmap strings.
From Stdlib Require Import ZArith Lia.
From S2P Require Import Prelude Mem Str Riscv Kalloc Vm Sleeplock Bio BioInv Log TxDisk Fs Printf Kernel Sched Uart Pipe File Proc Exec Sysfile Syscall.

#[local] Open Scope Z_scope.

Definition SSTATUS_SPP : Z := Z.shiftl 1 8.
Definition SSTATUS_SPIE : Z := Z.shiftl 1 5.
Definition SSTATUS_SIE : Z := Z.shiftl 1 1.
Definition UART0_IRQ : Z := 10.
Definition VIRTIO0_IRQ : Z := 1.
Definition PLIC_SENABLE (hart : Z) : Z := PLIC + 0x2080 + hart * 0x100.
Definition PLIC_SPRIORITY (hart : Z) : Z := PLIC + 0x201000 + hart * 0x2000.
Definition PLIC_SCLAIM (hart : Z) : Z := PLIC + 0x201004 + hart * 0x2000.

Section trap.
Context `{Platform}.

Definition csr {A} (f : csrs -> A) : M kernel A := getm (fun m => f (m_csrs m)).
Definition updcsr (f : csrs -> csrs) : M kernel unit :=
  updm (fun m => m <| m_csrs := f (m_csrs m) |>).

Definition w_stvec (x : Z) : M kernel unit := updcsr (fun c => c <| r_stvec := x |>).
Definition w_sepc (x : Z) : M kernel unit := updcsr (fun c => c <| r_sepc := x |>).
Definition w_sstatus (x : Z) : M kernel unit := updcsr (fun c => c <| r_sstatus := x |>).
Definition w_satp (x : Z) : M kernel unit := updcsr (fun c => c <| r_satp := x |>).
Definition w_sip (x : Z) : M kernel unit := updcsr (fun c => c <| r_sip := x |>).
Definition intr_on : M kernel unit := s <- csr r_sstatus ;; w_sstatus (Z.lor s SSTATUS_SIE).
Definition intr_off : M kernel unit := s <- csr r_sstatus ;; w_sstatus (Z.land s (Z.lnot SSTATUS_SIE)).
Definition intr_get : M kernel bool := s <- csr r_sstatus ;; ret (nz (Z.land s SSTATUS_SIE)).
Definition cpuid : M kernel Z := tp <- csr r_tp ;; ret (s32 tp).

(** ** The interrupt controller *)

Definition plic_store (a v : Z) : M kernel unit :=
  updcsr (fun c => c <| plic_writes := plic_writes c ++ [(a, v)] |>).
Definition plicinit : M kernel unit :=
  plic_store (PLIC + UART0_IRQ * 4) 1 ;;;
  plic_store (PLIC + VIRTIO0_IRQ * 4) 1.
Definition plicinithart : M kernel unit :=
  hart <- cpuid ;;
  plic_store (PLIC_SENABLE hart) (Z.lor (Z.shiftl 1 UART0_IRQ) (Z.shiftl 1 VIRTIO0_IRQ)) ;;;
  plic_store (PLIC_SPRIORITY hart) 0.
Definition plic_claim : M kernel Z :=
  n <- csr plic_claims ;;
  updcsr (fun c => c <| plic_claims := S n |>) ;;;
  ret (s32 (pf_claim n)).
Definition plic_complete (irq : Z) : M kernel unit :=
  hart <- cpuid ;;
  plic_store (PLIC_SCLAIM hart) (u32 irq).

(** ** Handlers *)

Definition trapinithart : M kernel unit := w_stvec pf_kernelvec.
Definition kvminithart (kernel_pagetable : Z) : M kernel unit := w_satp (MAKE_SATP kernel_pagetable).

Definition clockintr : M kernel unit :=
  updm (fun m => m <| m_ticks := u32 (m_ticks m + 1) |>) ;;;
  wakeup ChTicks.

Definition virtio_disk_intr : M kernel unit := ret tt.

Definition irq_fmt : string := "unexpected interrupt irq=%d" ++ newline.
Definition devintr : M kernel Z :=
  scause <- csr r_scause ;;
  if nz (Z.land scause (2 ^ 63)) && (Z.land scause 0xff =? 9) then
    irq <- plic_claim ;;
    (if irq =? UART0_IRQ then uartintr
     else if irq =? VIRTIO0_IRQ then virtio_disk_intr
     else when (nz irq) (kernel_printf irq_fmt [AInt irq])) ;;;
    when (nz irq) (plic_complete irq) ;;;
    ret 1
  else if scause =? 2 ^ 63 + 1 then
    id <- cpuid ;;
    when (id =? 0) clockintr ;;;
    sip <- csr r_sip ;;
    w_sip (Z.land sip (Z.lnot 2)) ;;;
    ret 2
  else ret 0.

(** [usertrapret] up to the jump to [userret]; returns the address jumped to and the
    page table passed to it. *)
Definition usertrapret : M kernel (Z * Z) :=
  p <- me ;;
  intr_off ;;;
  w_stvec (TRAMPOLINE + (pf_uservec - pf_trampoline)) ;;;
  satp <- csr r_satp ;;
  store_tf (p_trapframe p) tf_kernel_satp satp ;;;
  store_tf (p_trapframe p) tf_kernel_sp (p_kstack p + PGSIZE) ;;;
  store_tf (p_trapframe p) tf_kernel_trap pf_usertrap ;;;
  tp <- csr r_tp ;;
  store_tf (p_trapframe p) tf_kernel_hartid tp ;;;
  x <- csr r_sstatus ;;
  let x := Z.land x (Z.lnot SSTATUS_SPP) in
  let x := Z.lor x SSTATUS_SPIE in
  w_sstatus x ;;;
  epc <- load_tf (p_trapframe p) tf_epc ;;
  w_sepc epc ;;;
  ret (TRAMPOLINE + (pf_userret - pf_trampoline), MAKE_SATP (p_pagetable p)).

Definition scause_fmt : string := "usertrap(): unexpected scause %p pid=%d" ++ newline.
Definition sepc_fmt : string := "            sepc=%p stval=%p" ++ newline.

Definition usertrap : M kernel (Z * Z) :=
  sstatus <- csr r_sstatus ;;
  if nz (Z.land sstatus SSTATUS_SPP) then panic "usertrap: not from user mode"
  else
    w_stvec pf_kernelvec ;;;
    i <- myproc ;;
    p <- getp i ;;
    sepc <- csr r_sepc ;;
    store_tf (p_trapframe p) tf_epc sepc ;;;
    scause <- csr r_scause ;;
    which_dev <-
      (if scause =? 8 then
         k <- killed i ;;
         (if nz k then exit (-1) else ret tt) ;;;
         epc <- load_tf (p_trapframe p) tf_epc ;;
         store_tf (p_trapframe p) tf_epc (u64 (epc + 4)) ;;;
         intr_on ;;;
         syscall ;;;
         ret 0
       else
         which_dev <- devintr ;;
         (if nz which_dev then ret tt
          else
            stval <- csr r_stval ;;
            kernel_printf scause_fmt [AInt scause; AInt (p_pid p)] ;;;
            kernel_printf sepc_fmt [AInt sepc; AInt stval] ;;;
            setkilled i) ;;;
         ret which_dev) ;;
    k <- killed i ;;
    (if nz k then exit (-1) else ret tt) ;;;
    when (which_dev =? 2) yield ;;;
    usertrapret.

Definition kscause_fmt : string := "scause %p" ++ newline.
Definition ksepc_fmt : string := "sepc=%p stval=%p" ++ newline.
Definition kerneltrap : M kernel unit :=
  sepc <- csr r_sepc ;;
  sstatus <- csr r_sstatus ;;
  scause <- csr r_scause ;;
  if Z.land sstatus SSTATUS_SPP =? 0 then panic "kerneltrap: not from supervisor mode"
  else
    on <- intr_get ;;
    if on : bool then panic "kerneltrap: interrupts enabled"
    else
      which_dev <- devintr ;;
      if which_dev =? 0 then
        stval <- csr r_stval ;;
        kernel_printf kscause_fmt [AInt scause] ;;;
        kernel_printf ksepc_fmt [AInt sepc; AInt stval] ;;;
        panic "kerneltrap"
      else
        i <- myproc ;;
        p <- getp i ;;
        when ((which_dev =? 2) && negb (i =? no_proc)%nat && bool_decide (p_state p = RUNNING)) yield ;;;
        w_sepc sepc ;;;
        w_sstatus sstatus.

(** [forkret]: the first process initialises the file system. *)
Definition forkret : M kernel (Z * Z) :=
  first <- getm m_first ;;
  when (nz first)
    (updm (fun m => m <| m_first := 0 |>) ;;;
     fsinit (fun dev start n => zoom m_log (fun l m => m <| m_log := l |>) (initlog dev start n)) ROOTDEV) ;;;
  usertrapret.
End trap.
