(* ===== verification/UserSys.v ===== *)
(** * System calls as user programs see them (user/user.h)

    [UserSys W] is the contract between a user program and the kernel for the calls
    the utilities use: [W] is the state of the system outside the program, [s_rest]
    what is still to be read from a descriptor, [s_out] what has been written to one.
    Programs are written against the operations and verified against the laws; a
    small world with in-memory files implements it. *)

From stdpp Require Import base list gmap strings.
From Stdlib Require Import ZArith Lia.
From S2P Require Import Prelude.

#[local] Open Scope Z_scope.

(** A program either exits with a status or goes on with a value. *)
Definition U (W A : Type) : Type := M W (Z + A).
Definition uret {W A} (a : A) : U W A := ret (inr a).
Definition uexit {W A} (status : Z) : U W A := ret (inl status).
Definition ubind {W A B} (c : U W A) (k : A -> U W B) : U W B :=
  r <- c ;; match r with inl status => ret (inl status) | inr a => k a end.
Definition sys {W A} (c : M W A) : U W A := a <- c ;; uret a.
(** A loop whose body may exit. *)
Definition uwhile {W S R} (body : S -> U W (ctl S R)) (s : S) : U W R :=
  while_ (fun s => r <- body s ;; match r with
                   | inl status => ret (Brk (inl status))
                   | inr (Next s') => ret (Next s')
                   | inr (Brk x) => ret (Brk (inr x))
                   end) s.
Notation "x <~ c ;; k" := (ubind c (fun x => k))
  (at level 89, c at next level, right associativity) : xv6_scope.
Notation "c ~;; k" := (ubind c (fun _ => k))
  (at level 89, right associativity) : xv6_scope.

Class UserSys (W : Type) : Type := {
  s_read : Z -> Z -> M W (Z * list Z);   (* read(fd, buf, n); the result and the bytes stored *)
  s_write : Z -> list Z -> M W Z;        (* write(fd, buf, n) *)
  s_open : list Z -> M W Z;              (* open(path, O_RDONLY) *)
  s_close : Z -> M W Z;
  s_rest : W -> Z -> list Z;
  s_out : W -> Z -> list Z;
  s_good : W -> Z -> bool;               (* whether reads of the descriptor work *)
  s_file : W -> list Z -> option (list Z);  (* contents of the file at a path *)
  (* A read returns some of what is left, and nothing only at the end or when
     nothing is asked for; it fails on a bad descriptor. *)
  s_read_ok : forall w fd n, 0 <= n ->
    wp (s_read fd n) (fun r w' => (forall fd', s_out w' fd' = s_out w fd') /\ (forall path', s_file w' path' = s_file w path') /\
      (forall fd', s_good w' fd' = s_good w fd') /\
      (forall fd', fd' <> fd -> s_rest w' fd' = s_rest w fd') /\
      if s_good w fd then
        r.1 = Z.of_nat (length r.2) /\ r.1 <= n /\ s_rest w fd = r.2 ++ s_rest w' fd /\
        (0 < n -> r.2 = [] -> s_rest w fd = [])
      else r = (-1, []) /\ s_rest w' fd = s_rest w fd) w;
  (* A write is complete. *)
  s_write_ok : forall w fd bytes,
    wp (s_write fd bytes) (fun r w' => r = Z.of_nat (length bytes) /\ s_out w' fd = s_out w fd ++ bytes /\
      (forall fd', fd' <> fd -> s_out w' fd' = s_out w fd') /\ (forall path', s_file w' path' = s_file w path') /\
      (forall fd', s_good w' fd' = s_good w fd') /\
      (forall fd', s_rest w' fd' = s_rest w fd')) w;
  (* Opening a file gives a descriptor at its start; it fails when there is none. *)
  s_open_ok : forall w path,
    wp (s_open path) (fun fd w' => (forall path', s_file w' path' = s_file w path') /\ (forall fd', s_out w' fd' = s_out w fd') /\
      match s_file w path with
      | Some bytes => 0 <= fd /\ s_good w' fd = true /\ s_rest w' fd = bytes
      | None => fd = -1
      end) w;
  s_close_ok : forall w fd,
    wp (s_close fd) (fun _ w' => (forall path', s_file w' path' = s_file w path') /\ (forall fd', s_out w' fd' = s_out w fd')) w;
}.

(** ** Rules *)

Lemma wp_ubind {W A B} (c : U W A) (k : A -> U W B) Q w :
  wp c (fun r w' => match r with inl st => Q (inl st) w' | inr a => wp (k a) Q w' end) w ->
  wp (ubind c k) Q w.
Proof. intros H. apply wp_bind. eapply wp_mono; [exact H|]. by intros [] w'. Qed.

Lemma wp_sys {W A} (c : M W A) (Q : Z + A -> W -> Prop) w : wp c (fun a w' => Q (inr a) w') w -> wp (sys c) Q w.
Proof. intros H. apply wp_bind. eapply wp_mono; [exact H|]. done. Qed.

Lemma wp_uwhile {W S R} (body : S -> U W (ctl S R)) (I : S -> W -> Prop) (m : S -> W -> Z)
  (Q : Z + R -> W -> Prop) :
  (forall s w, I s w -> wp (body s) (fun c w' => match c with
      | inl st => Q (inl st) w'
      | inr (Next s') => I s' w' /\ 0 <= m s' w' < m s w
      | inr (Brk r) => Q (inr r) w'
      end) w) ->
  forall s w, I s w -> 0 <= m s w < 2 ^ 64 -> wp (uwhile body s) Q w.
Proof.
  intros Hb s w HI Hm. apply (wp_while _ I m); [|done|done].
  intros s' w' HI'. apply wp_bind. eapply wp_mono; [by apply Hb|]. intros [st|[s''|r]] w''; by intros.
Qed.

Ltac usr_step :=
  match goal with
  | |- wp (ubind _ _) _ _ => apply wp_ubind
  | |- wp (uret _) _ _ => apply wp_ret
  | |- wp (uexit _) _ _ => apply wp_ret
  | |- wp (sys _) _ _ => apply wp_sys
  end.
Ltac usr_steps := repeat usr_step; cbv beta iota.

(** ** A world of in-memory files *)

(** [w_short k n] is how much the [k]-th read returns when [n] bytes are left; it is
    cut to what is left and asked for, and is not 0 when both are not. *)
Record world : Type := World {
  w_files : gmap (list Z) (list Z);
  w_open : gmap Z (list Z);
  w_written : gmap Z (list Z);
  w_reads : nat;
  w_short : nat -> nat -> nat;
}.
#[global] Instance eta_world : Eta world := fun x =>
  World (w_files x) (w_open x) (w_written x) (w_reads x) (w_short x).

Definition read_len (w : world) (left want : nat) : nat :=
  Nat.min (Nat.min left want) (S (w_short w (w_reads w) left)).
Definition world_read (fd n : Z) : M world (Z * list Z) :=
  w <- gets id ;;
  match w_open w !! fd with
  | None => ret (-1, [])
  | Some l =>
      let k := read_len w (length l) (Z.to_nat n) in
      modify (fun w => w <| w_open := <[fd := drop k l]> (w_open w) |> <| w_reads := S (w_reads w) |>) ;;;
      ret (Z.of_nat (length (take k l)), take k l)
  end.
Definition written_to (w : world) (fd : Z) : list Z := default [] (w_written w !! fd).
Definition world_write (fd : Z) (bytes : list Z) : M world Z :=
  modify (fun w => w <| w_written := <[fd := written_to w fd ++ bytes]> (w_written w) |>) ;;;
  ret (Z.of_nat (length bytes)).
Definition world_open (path : list Z) : M world Z :=
  w <- gets id ;;
  match w_files w !! path with
  | None => ret (-1)
  | Some l =>
      let fd := Z.of_nat (3 + size (w_open w)) in
      modify (fun w => w <| w_open := <[fd := l]> (w_open w) |>) ;;;
      ret fd
  end.

Lemma world_read_ok w fd n : 0 <= n ->
  wp (world_read fd n) (fun r w' => (forall fd', written_to w' fd' = written_to w fd') /\
    (forall path', w_files w' !! path' = w_files w !! path') /\ (forall fd', bool_decide (is_Some (w_open w' !! fd')) = bool_decide (is_Some (w_open w !! fd'))) /\
    (forall fd', fd' <> fd -> default [] (w_open w' !! fd') = default [] (w_open w !! fd')) /\
    if bool_decide (is_Some (w_open w !! fd)) then
      r.1 = Z.of_nat (length r.2) /\ r.1 <= n /\ default [] (w_open w !! fd) = r.2 ++ default [] (w_open w' !! fd) /\
      (0 < n -> r.2 = [] -> default [] (w_open w !! fd) = [])
    else r = (-1, []) /\ default [] (w_open w' !! fd) = default [] (w_open w !! fd)) w.
Proof.
  intros Hn. unfold world_read. wp_steps. unfold id. destruct (w_open w !! fd) as [l|] eqn:E; cbv zeta; wp_steps.
  - cbn [fst snd]. set (k := read_len _ _ _). split_and!; try done.
    + intros fd'. cbn. apply bool_decide_ext. destruct (decide (fd' = fd)) as [->|Hne].
      * rewrite lookup_insert_eq, E. done.
      * by rewrite lookup_insert_ne.
    + intros fd' Hne. cbn. by rewrite lookup_insert_ne.
    + rewrite bool_decide_eq_true_2 by done. cbn. rewrite lookup_insert_eq. cbn.
      assert (k <= length l)%nat as Hk by (unfold k, read_len; lia).
      split_and!; [done| |by rewrite take_drop|].
      * rewrite length_take. unfold k, read_len. lia.
      * intros Hpos Hnil. apply (f_equal length) in Hnil. rewrite length_take in Hnil. unfold k, read_len in Hnil.
        destruct l; [done|]. simpl in Hnil. destruct (Z.to_nat n) eqn:En; simpl in Hnil; lia.
  - split_and!; try done. rewrite bool_decide_eq_false_2, E; [done|]. by intros [? ?].
Qed.

Lemma world_write_ok w fd bytes :
  wp (world_write fd bytes) (fun r w' => r = Z.of_nat (length bytes) /\ written_to w' fd = written_to w fd ++ bytes /\
    (forall fd', fd' <> fd -> written_to w' fd' = written_to w fd') /\ (forall path', w_files w' !! path' = w_files w !! path') /\
    (forall fd', bool_decide (is_Some (w_open w' !! fd')) = bool_decide (is_Some (w_open w !! fd'))) /\
    (forall fd', default [] (w_open w' !! fd') = default [] (w_open w !! fd'))) w.
Proof.
  unfold world_write. wp_steps. split_and!; try done.
  - unfold written_to at 1. cbn. by rewrite lookup_insert_eq.
  - intros fd' Hne. unfold written_to at 1. cbn. by rewrite lookup_insert_ne.
Qed.

Lemma world_open_ok w path :
  wp (world_open path) (fun fd w' => (forall path', w_files w' !! path' = w_files w !! path') /\ (forall fd', written_to w' fd' = written_to w fd') /\
    match w_files w !! path with
    | Some bytes => 0 <= fd /\ bool_decide (is_Some (w_open w' !! fd)) = true /\ default [] (w_open w' !! fd) = bytes
    | None => fd = -1
    end) w.
Proof.
  unfold world_open. wp_steps. unfold id. destruct (w_files w !! path) as [l|]; cbv zeta; wp_steps; split_and!; try done;
    cbn; by rewrite lookup_insert_eq.
Qed.

#[global] Instance world_sys : UserSys world := {|
  s_read := world_read;
  s_write := world_write;
  s_open := world_open;
  s_close fd := modify (fun w => w <| w_open := delete fd (w_open w) |>) ;;; ret 0;
  s_rest w fd := default [] (w_open w !! fd);
  s_out := written_to;
  s_good w fd := bool_decide (is_Some (w_open w !! fd));
  s_file w path := w_files w !! path;
  s_read_ok := world_read_ok;
  s_write_ok := world_write_ok;
  s_open_ok := world_open_ok;
  s_close_ok := ltac:(done);
|}.
