(* ===== verification/Umalloc.v ===== *)
(** * The memory allocator of user programs (user/umalloc.c)

    The free blocks form a ring through their headers, in the order of their
    addresses, that starts at the static header [base].  [malloc] takes the first
    block that is large enough, from its end, and asks the kernel for more when the
    ring has none; [free] puts a block back at its place and joins it with its
    neighbours. *)

From stdpp Require Import base list sorting.
From Stdlib Require Import ZArith Lia.
From S2P Require Import Prelude.

#[local] Open Scope Z_scope.

(** [union header]: 16 bytes. *)
Record header : Type := Header { s_ptr : Z; s_size : Z }.
#[global] Instance eta_header : Eta header := fun x => Header (s_ptr x) (s_size x).
Definition sizeof_Header : Z := 16.

(** The headers in the program's memory, [freep] and the end of the memory.  Blocks do
    not overlap, so headers at different addresses are different. *)
Record heap : Type := Heap { hdr : Z -> header; freep : Z; brk : Z }.
#[global] Instance eta_heap : Eta heap := fun x => Heap (hdr x) (freep x) (brk x).

Definition UM (A : Type) : Type := M heap A.
Definition set_hdr (a : Z) (x : header) (h : heap) : heap :=
  h <| hdr := fun b => if b =? a then x else hdr h b |>.
Definition set_ptr (a v : Z) : UM unit := modify (fun h => set_hdr a (hdr h a <| s_ptr := v |>) h).
Definition set_size (a v : Z) : UM unit := modify (fun h => set_hdr a (hdr h a <| s_size := v |>) h).
Definition get (a : Z) : UM header := gets (fun h => hdr h a).
Definition set_freep (a : Z) : UM unit := modify (fun h => h <| freep := a |>).
(** [p + n] for a [Header *p]. *)
Definition plus (p n : Z) : Z := p + sizeof_Header * n.

(** The address of [base], and which requests for memory the kernel grants. *)
Section malloc.
Context (base : Z) (grants : Z -> Z -> bool).

(** [sbrk]: the old end of the memory, or -1. *)
Definition sbrk (n : Z) : UM Z :=
  b <- gets brk ;;
  if grants b n then modify (fun h => h <| brk := b + n |>) ;;; ret b else ret (-1).

(** Joining the block [bp] with the free block behind it, and linking it. *)
Definition join_next (bp p : Z) : UM unit :=
  b <- get bp ;;
  x <- get p ;;
  if plus bp (s_size b) =? s_ptr x then
    y <- get (s_ptr x) ;;
    set_size bp (u32 (s_size b + s_size y)) ;;;
    x' <- get p ;;
    y' <- get (s_ptr x') ;;
    set_ptr bp (s_ptr y')
  else set_ptr bp (s_ptr x).
(** And with the free block [p] before it. *)
Definition join_prev (bp p : Z) : UM unit :=
  x <- get p ;;
  if plus p (s_size x) =? bp then
    b <- get bp ;;
    set_size p (u32 (s_size x + s_size b)) ;;;
    b' <- get bp ;;
    set_ptr p (s_ptr b')
  else set_ptr p bp.

Definition free (ap : Z) : UM unit :=
  let bp := ap - sizeof_Header in
  f <- gets freep ;;
  p <- while_ (fun p =>
    x <- get p ;;
    if (p <? bp) && (bp <? s_ptr x) then ret (Brk p)
    else if (s_ptr x <=? p) && ((p <? bp) || (bp <? s_ptr x)) then ret (Brk p)
    else ret (Next (s_ptr x))) f ;;
  join_next bp p ;;;
  join_prev bp p ;;;
  set_freep p.

(** The argument of [sbrk] is an [int]. *)
Definition morecore (nu : Z) : UM Z :=
  let nu := if nu <? 4096 then 4096 else nu in
  p <- sbrk (s32 (nu * sizeof_Header)) ;;
  if p =? -1 then ret 0
  else
    set_size p nu ;;;
    free (plus p 1) ;;;
    gets freep.

Definition units (nbytes : Z) : Z := (nbytes + sizeof_Header - 1) / sizeof_Header + 1.

(** Handing out [nunits] from the end of the block [p], which follows [prevp]. *)
Definition take_block (nunits prevp p : Z) : UM Z :=
  x <- get p ;;
  p' <- (if s_size x =? nunits then set_ptr prevp (s_ptr x) ;;; ret p
         else
           set_size p (u32 (s_size x - nunits)) ;;;
           y <- get p ;;
           let p' := plus p (s_size y) in
           set_size p' nunits ;;;
           ret p') ;;
  set_freep prevp ;;;
  ret (plus p' 1).

Definition malloc (nbytes : Z) : UM Z :=
  let nunits := units nbytes in
  f <- gets freep ;;
  (if f =? 0 then set_freep base ;;; set_ptr base base ;;; set_size base 0 else ret tt) ;;;
  prevp <- gets freep ;;
  x <- get prevp ;;
  while_ (fun '(prevp, p) =>
    x <- get p ;;
    if nunits <=? s_size x then
      r <- take_block nunits prevp p ;;
      ret (Brk r)
    else
      f <- gets freep ;;
      if p =? f then
        p' <- morecore nunits ;;
        if p' =? 0 then ret (Brk 0)
        else y <- get p' ;; ret (Next (p', s_ptr y))
      else ret (Next (p, s_ptr x))) (prevp, s_ptr x).
End malloc.
