(* ===== verification/UmallocProps.v ===== *)
(** * The allocator never hands out memory twice (user/umalloc.c)

    [heap_ok] ties the ring of free blocks and the blocks handed out to a heap.
    [malloc] and [free] keep it; the block [malloc] returns is large enough and
    disjoint from all others, and no memory is lost. *)

From stdpp Require Import base list sets sorting.
From Stdlib Require Import ZArith Lia.
From S2P Require Import Prelude Umalloc.

#[local] Open Scope Z_scope.

(** ** Blocks *)

(** A block: its address and its size in units of 16 bytes, header included. *)
Notation block := (Z * Z)%type.
Definition bend (b : block) : Z := b.1 + 16 * b.2.
Definition gap (x y : block) : Prop := bend x < y.1.
Definition apart (x y : block) : Prop := bend x <= y.1 \/ bend y <= x.1.
Definition covers (l : list block) (a : Z) : Prop := exists b, b ∈ l /\ b.1 <= a < bend b.

Lemma covers_app l1 l2 a : covers (l1 ++ l2) a <-> covers l1 a \/ covers l2 a.
Proof. unfold covers. set_solver. Qed.
Lemma covers_cons b l a : covers (b :: l) a <-> b.1 <= a < bend b \/ covers l a.
Proof.
  unfold covers. split.
  - intros (c & Hc & Ha). apply elem_of_cons in Hc as [->|Hc]; [by left|right; by exists c].
  - intros [Ha|(c & Hc & Ha)]; [exists b|exists c]; (split; [set_solver|done]).
Qed.
Lemma covers_nil a : ~ covers [] a.
Proof. intros (c & Hc & _). by apply not_elem_of_nil in Hc. Qed.

(** ** The ring *)

Definition first (l : list block) (fin : Z) : Z := match l with [] => fin | b :: _ => b.1 end.
Fixpoint chain (h : Z -> header) (l : list block) (fin : Z) : Prop :=
  match l with
  | [] => True
  | b :: r => h b.1 = Header (first r fin) b.2 /\ chain h r fin
  end.

Lemma first_app l1 l2 fin : first (l1 ++ l2) fin = first l1 (first l2 fin).
Proof. by destruct l1. Qed.
Lemma chain_app h l1 l2 fin : chain h (l1 ++ l2) fin <-> chain h l1 (first l2 fin) /\ chain h l2 fin.
Proof. induction l1 as [|b l1 IH]; cbn; [tauto|]. rewrite IH, first_app. tauto. Qed.
Lemma links_ext h h' l fin : (forall b, b ∈ l -> h' b.1 = h b.1) -> chain h l fin -> chain h' l fin.
Proof.
  induction l as [|b l IH]; [done|]. intros He [Hb Hc]. split; [rewrite He by set_solver; done|]. apply IH; set_solver.
Qed.
Lemma chain_at h l fin i b : chain h l fin -> l !! i = Some b -> h b.1 = Header (first (drop (S i) l) fin) b.2.
Proof.
  revert i. induction l as [|c l IH]; [done|]. intros [|i] [Hb Hc] Hi; cbn in *; [by simplify_eq|]. by apply IH.
Qed.

Record heap_ok (base : Z) (h : heap) (fr al : list block) : Prop := {
  ho_sorted : StronglySorted gap ((base, 0) :: fr);
  ho_in : Forall (fun b => base + 16 <= b.1 /\ 1 <= b.2 /\ bend b <= brk h) (fr ++ al);
  ho_ring : chain (hdr h) ((base, 0) :: fr) base;
  ho_al : Forall (fun b => s_size (hdr h b.1) = b.2) al;
  ho_apart : Forall (fun x => Forall (apart x) al) fr;
  ho_disjoint : ForallOrdPairs apart al;
  ho_freep : freep h ∈ ((base, 0) :: fr).*1;
  ho_brk : 0 < base /\ base + 16 <= brk h <= 2 ^ 36;
}.

(** The place of an address in a sorted list. *)
Lemma place (R : list block) (x : Z) :
  StronglySorted gap R -> Forall (fun b => 0 <= b.2 /\ b.1 <> x) R -> first R x < x ->
  exists l1 p l2, R = l1 ++ p :: l2 /\ (forall b, b ∈ l1 -> b.1 < x) /\ p.1 < x /\ (forall b, b ∈ l2 -> x < b.1).
Proof.
  induction R as [|b R IH]; [cbn; lia|]. intros Hs Hf Hx. cbn in Hx. apply Forall_cons in Hf as [Hb Hf].
  apply StronglySorted_inv in Hs as [Hs Hg]. destruct (decide (first R x < x)) as [Hlt|Hge].
  - destruct (IH Hs Hf Hlt) as (l1 & p & l2 & -> & H1 & H2 & H3). exists (b :: l1), p, l2. split_and!; try done.
    intros c [->|Hc]%elem_of_cons; auto.
  - exists [], b, R. split_and!; try done; [set_solver|]. intros c Hc. destruct R as [|d R]; [set_solver|]. cbn in Hge.
    rewrite Forall_forall in Hf. pose proof (Hf d ltac:(set_solver)). apply elem_of_cons in Hc as [->|Hc]; [lia|].
    apply StronglySorted_inv in Hs as [_ Hs]. rewrite Forall_forall in Hs. specialize (Hs c Hc). unfold gap, bend in Hs. lia.
Qed.

(** ** Searching the ring *)

(** Positions of a sorted ring follow the addresses. *)
Lemma sorted_lookup (R : list block) i j x y :
  StronglySorted gap R -> Forall (fun b => 0 <= b.2) R -> R !! i = Some x -> R !! j = Some y -> (i < j)%nat -> x.1 < y.1.
Proof.
  intros Hs Hp Hi Hj Hlt. rewrite <- (take_drop (S i) R) in Hs. apply StronglySorted_app in Hs as (Hs & _ & _).
  specialize (Hs x y). rewrite Forall_forall in Hp. pose proof (Hp x (list_elem_of_lookup_2 _ _ _ Hi)). unfold gap, bend in Hs.
  assert (x.1 + 16 * x.2 < y.1); [|lia]. apply Hs.
  - apply list_elem_of_lookup. exists i. rewrite lookup_take_lt by lia. done.
  - apply list_elem_of_lookup. exists (j - S i)%nat. rewrite lookup_drop. by replace (S i + (j - S i))%nat with j by lia.
Qed.

Lemma first_drop (R : list block) i fin : first (drop i R) fin = match R !! i with Some b => b.1 | None => fin end.
Proof.
  destruct (R !! i) as [b|] eqn:E; [by rewrite (drop_S _ _ _ E)|]. apply lookup_ge_None_1 in E. by rewrite drop_ge.
Qed.

Section search.
Context (h : heap) (R : list block) (base bp j : Z) (p : block).
Hypothesis R_ring : chain (hdr h) R base.
Hypothesis R_sorted : StronglySorted gap R.
Hypothesis R_sizes : Forall (fun b => 0 <= b.2) R.
Hypothesis R_first : exists s, R !! 0%nat = Some (base, s).
Hypothesis p_at : 0 <= j /\ R !! Z.to_nat j = Some p.
Hypothesis p_before : p.1 < bp.
Hypothesis p_last : forall i b, R !! i = Some b -> j < Z.of_nat i -> bp < b.1.

(** How many headers there are from position [i] to [j]. *)
Let dist (i : nat) : Z := if Z.of_nat i <=? j then j - Z.of_nat i else Z.of_nat (length R) - Z.of_nat i + j.

Lemma base_first i b : R !! i = Some b -> base <= b.1.
Proof using R_sorted R_sizes R_first.
  intros Hi. destruct R_first as [s0 H0]. destruct i as [|i].
  - assert (b = (base, s0)) as -> by congruence. done.
  - apply Z.lt_le_incl. by apply (sorted_lookup R 0 (S i) _ _ R_sorted R_sizes H0 Hi ltac:(lia)).
Qed.

Lemma search_spec f :
  (exists i b, R !! i = Some b /\ f = b.1) -> Z.of_nat (length R) < 2 ^ 60 ->
  wp (while_ (fun q =>
    x <- get q ;;
    if (q <? bp) && (bp <? s_ptr x) then ret (Brk q)
    else if (s_ptr x <=? q) && ((q <? bp) || (bp <? s_ptr x)) then ret (Brk q)
    else ret (Next (s_ptr x))) f) (fun r h' => r = p.1 /\ h' = h) h.
Proof using R_ring R_sorted R_sizes R_first p_at p_before p_last.
  intros (i & b & Hi & ->) Hlen. destruct p_at as [Hj Hp]. pose proof (lookup_lt_Some _ _ _ Hp) as Hjl.
  apply (wp_while_idx _ (fun n q h' => h' = h /\ exists i b, R !! i = Some b /\ q = b.1 /\ n = dist i)) with (dist i).
  2:{ split; [done|]. by exists i, b. }
  2:{ pose proof (lookup_lt_Some _ _ _ Hi). unfold dist. destruct (Z.leb_spec (Z.of_nat i) j); lia. }
  clear i b Hi. intros n q h' (-> & i & b & Hi & -> & ->). unfold get. wp_step. wp_step.
  rewrite (chain_at _ _ _ _ _ R_ring Hi). cbn [s_ptr]. rewrite first_drop. pose proof (lookup_lt_Some _ _ _ Hi) as Hil.
  destruct R_first as [s0 H0]. destruct (Z.lt_trichotomy (Z.of_nat i) j) as [Hlt|[Heq|Hgt]].
  - assert (b.1 < p.1) by (eapply (sorted_lookup R); try done; lia).
    destruct (lookup_lt_is_Some_2 R (S i)) as [c Hc]; [lia|]. rewrite Hc. assert (b.1 < c.1) by (eapply (sorted_lookup R); try done; lia).
    assert (c.1 <= p.1). { destruct (decide (Z.of_nat (S i) = j)) as [E|]; [|apply Z.lt_le_incl; eapply (sorted_lookup R); try done; lia].
      rewrite <- E, Nat2Z.id in Hp. rewrite Hc in Hp. by simplify_eq. }
    rewrite (proj2 (Z.ltb_ge bp c.1)), andb_false_r, (proj2 (Z.leb_gt c.1 b.1)) by lia. cbn [andb]. wp_step.
    exists (dist (S i)). split; [split; [done|]; by exists (S i), c|]. unfold dist. rewrite !(proj2 (Z.leb_le _ _)) by lia. lia.
  - assert (b = p) as -> by (rewrite <- Heq, Nat2Z.id in Hp; congruence). rewrite (proj2 (Z.ltb_lt p.1 bp)) by done. cbn [andb orb].
    destruct (R !! S i) as [c|] eqn:Hc.
    + rewrite (proj2 (Z.ltb_lt bp c.1)) by (apply (p_last (S i)); [done|lia]). by wp_step.
    + pose proof (base_first _ _ Hp).
      rewrite (proj2 (Z.leb_le base p.1)) by done. cbn [andb orb]. destruct (bp <? base); by wp_step.
  - assert (bp < b.1) by by apply (p_last i). rewrite (proj2 (Z.ltb_ge b.1 bp)) by lia. cbn [andb orb].
    destruct (R !! S i) as [c|] eqn:Hc.
    + assert (b.1 < c.1) by (eapply (sorted_lookup R); try done; lia). rewrite (proj2 (Z.leb_gt c.1 b.1)) by lia. cbn [andb]. wp_step.
      exists (dist (S i)). split; [split; [done|]; by exists (S i), c|]. unfold dist.
      pose proof (lookup_lt_Some _ _ _ Hc). rewrite !(proj2 (Z.leb_gt _ _)) by lia. lia.
    + apply lookup_ge_None_1 in Hc. pose proof (base_first _ _ Hp).
      rewrite (proj2 (Z.ltb_ge bp base)) by lia. rewrite andb_false_r. wp_step. exists (dist 0).
      split; [split; [done|]; by exists 0%nat, (base, s0)|]. unfold dist. rewrite (proj2 (Z.leb_le _ _)), (proj2 (Z.leb_gt _ _)) by lia. lia.
Qed.
End search.

(** ** Joining blocks *)

Lemma hdr_set a x h : hdr (set_hdr a x h) a = x.
Proof. cbn. by rewrite Z.eqb_refl. Qed.
Lemma hdr_set_ne a b x h : b <> a -> hdr (set_hdr a x h) b = hdr h b.
Proof. cbn. intros Hne. by rewrite (proj2 (Z.eqb_neq b a)). Qed.

(** [h'] differs from [h] in the header at [a], which is [x]. *)
Record header_set (a : Z) (x : header) (h h' : heap) : Prop := {
  hs_at : hdr h' a = x;
  hs_ne : forall b, b <> a -> hdr h' b = hdr h b;
  hs_freep : freep h' = freep h;
  hs_brk : brk h' = brk h;
}.
Lemma set_ptr_spec a v h (Q : unit -> heap -> Prop) :
  (forall h', header_set a (Header v (s_size (hdr h a))) h h' -> Q tt h') -> wp (set_ptr a v) Q h.
Proof. intros HQ. apply HQ. split; cbn; try done; [by rewrite Z.eqb_refl|]. intros b Hb. by rewrite (proj2 (Z.eqb_neq b a)). Qed.
Lemma set_size_spec a v h (Q : unit -> heap -> Prop) :
  (forall h', header_set a (Header (s_ptr (hdr h a)) v) h h' -> Q tt h') -> wp (set_size a v) Q h.
Proof. intros HQ. apply HQ. split; cbn; try done; [by rewrite Z.eqb_refl|]. intros b Hb. by rewrite (proj2 (Z.eqb_neq b a)). Qed.
Lemma header_set_twice a x y h h1 h2 : header_set a x h h1 -> header_set a y h1 h2 -> header_set a y h h2.
Proof. intros [A1 N1 F1 B1] [A2 N2 F2 B2]. split; [done| |congruence|congruence]. intros b Hb. by rewrite N2, N1. Qed.

(** What [join_next] makes of a block of [s] units at [bp] and the free blocks [l] behind it. *)
Definition joined_next (bp s : Z) (l : list block) (s' : Z) (l' : list block) : Prop :=
  s' = s /\ l' = l /\ (forall b, b ∈ l -> gap (bp, s) b) \/
  exists sq, l = (bp + 16 * s, sq) :: l' /\ s' = s + sq.

Lemma join_next_spec base h bp p sp s l :
  hdr h p = Header (first l base) sp -> s_size (hdr h bp) = s -> chain (hdr h) l base -> p <> bp ->
  base <= p < bp -> 1 <= s -> StronglySorted gap l -> (forall b, b ∈ l -> 1 <= b.2 /\ bp + 16 * s <= b.1 /\ bend b <= 2 ^ 36) ->
  0 < bp ->
  wp (join_next bp p) (fun _ h' => exists s' l', joined_next bp s l s' l' /\
    header_set bp (Header (first l' base) s') h h') h.
Proof.
  intros Hp Hs Hc Hne Hbp Hs1 Hsort Hl Hbp0. unfold join_next, get, plus, sizeof_Header. do 4 wp_step. rewrite Hp, Hs. cbn [s_ptr s_size].
  destruct (Z.eqb_spec (bp + 16 * s) (first l base)) as [E|E].
  - destruct l as [|[q sq] l]; cbn [first] in E; [lia|]. cbn [first fst] in *. cbn in Hc. destruct Hc as [Hq Hc]. cbn in E. subst q.
    pose proof (Hl (bp + 16 * s, sq) ltac:(set_solver)) as (Hsq & _ & Hend). unfold bend in Hend. cbn in Hend, Hsq.
    wp_step. wp_step. rewrite Hq. cbn [s_size]. wp_step. apply set_size_spec. intros h1 Hh1.
    wp_step. wp_step. rewrite (hs_ne _ _ _ _ Hh1 p Hne), Hp. cbn [s_ptr]. wp_step. wp_step.
    rewrite (hs_ne _ _ _ _ Hh1) by lia. rewrite Hq. cbn [s_ptr]. apply set_ptr_spec. intros h2 Hh2.
    rewrite (hs_at _ _ _ _ Hh1) in Hh2. cbn [s_size] in Hh2. unfold u32 in Hh2. rewrite Z.mod_small in Hh2 by lia.
    exists (s + sq), l. split; [right; by exists sq|]. by eapply header_set_twice.
  - apply set_ptr_spec. intros h1 Hh1. rewrite Hs in Hh1. exists s, l. split; [|done]. left. split_and!; [done|done|].
    intros b Hb. unfold gap, bend. cbn. destruct l as [|c l]; [set_solver|]. cbn in E.
    pose proof (Hl c ltac:(set_solver)) as (Hc2 & Hc1 & _). apply elem_of_cons in Hb as [->|Hb]; [lia|].
    apply StronglySorted_cons in Hsort as [Hf _]. rewrite Forall_forall in Hf. specialize (Hf b Hb). unfold gap, bend in Hf. lia.
Qed.

(** The ring around [p] once [join_prev] has put the block of [s] units at [bp] there. *)
Definition joined_prev (p bp s : Z) (sp : Z) (l' : list block) : Prop :=
  gap (p, sp) (bp, s) /\ l' = [(p, sp); (bp, s)] \/ p + 16 * sp = bp /\ l' = [(p, sp + s)].

Lemma join_prev_spec h bp p sp s q :
  s_size (hdr h p) = sp -> hdr h bp = Header q s -> p <> bp -> 0 < p -> 0 <= sp -> 1 <= s -> p + 16 * sp <= bp ->
  bp + 16 * s <= 2 ^ 36 ->
  wp (join_prev bp p) (fun _ h' => exists l', joined_prev p bp s sp l' /\
    chain (hdr h') l' q /\ (forall b, b <> p -> hdr h' b = hdr h b) /\ freep h' = freep h /\ brk h' = brk h) h.
Proof.
  intros Hp Hb Hne Hp0 Hsp Hs Hle Hend. unfold join_prev, get, plus, sizeof_Header. do 2 wp_step. rewrite Hp.
  destruct (Z.eqb_spec (p + 16 * sp) bp) as [E|E].
  - wp_step. wp_step. rewrite Hb. wp_step. apply set_size_spec. intros h1 H1. wp_step. wp_step.
    rewrite (hs_ne _ _ _ _ H1), Hb by done. cbn [s_ptr s_size]. apply set_ptr_spec. intros h2 H2.
    rewrite (hs_at _ _ _ _ H1) in H2. cbn [s_size] in H2. unfold u32 in H2. rewrite Z.mod_small in H2 by lia.
    destruct (header_set_twice _ _ _ _ _ _ H1 H2). exists [(p, sp + s)]. split; [by right|]. by split_and!.
  - apply set_ptr_spec. intros h1 [A1 N1 F1 B1]. rewrite Hp in A1. exists [(p, sp); (bp, s)].
    split; [left; split; [unfold gap, bend; cbn; lia|done]|]. split_and!; [|done..]. cbn. by rewrite A1, (N1 bp), Hb by done.
Qed.

(** ** The geometry of joining *)

Lemma apart_covers x z :
  1 <= x.2 -> 1 <= z.2 -> apart x z <-> forall a, x.1 <= a < bend x -> z.1 <= a < bend z -> False.
Proof.
  unfold apart, bend. intros Hx Hz. split; [intros ? a; lia|]. intros H.
  destruct (Z.le_gt_cases (x.1 + 16 * x.2) z.1); [by left|]. destruct (Z.le_gt_cases (z.1 + 16 * z.2) x.1); [by right|].
  destruct (H (Z.max x.1 z.1)); lia.
Qed.

Section joining.
Context (l1 l2 l2' m : list block) (pa sp bp s s' : Z).
Hypothesis next : joined_next bp s l2 s' l2'.

Lemma joined_incl b : b ∈ l2' -> b ∈ l2.
Proof using next. pose proof next as Hnext. destruct Hnext as [(_ & -> & _)|(sq & -> & _)]; set_solver. Qed.

Hypothesis l2_sizes : forall b, b ∈ l2 -> 1 <= b.2.
Lemma joined_size : s <= s'.
Proof using next l2_sizes.
  pose proof next as Hnext. destruct Hnext as [(-> & _ & _)|(sq & El & ->)]; [lia|].
  pose proof (l2_sizes (bp + 16 * s, sq)) as Hq. rewrite El in Hq. specialize (Hq ltac:(by left)). cbn in Hq. lia.
Qed.

Hypothesis R_sorted : StronglySorted gap (l1 ++ (pa, sp) :: l2).
Hypothesis p_size : 0 <= sp.
Hypothesis s_size : 1 <= s.
Hypothesis p_before : pa < bp.
Hypothesis prev : joined_prev pa bp s' sp m.

Lemma joined_sorted : StronglySorted gap (l1 ++ m ++ l2').
Proof using All.
  pose proof R_sorted as Hsort. apply StronglySorted_app in Hsort as (Hg1 & Hs1 & Hs2). apply StronglySorted_cons in Hs2 as [Hp Hs2]. rewrite Forall_forall in Hp.
  assert (StronglySorted gap l2' /\ forall y, y ∈ l2' -> gap (bp, s') y) as [Hs2' Hbp].
  { pose proof next as Hnext; destruct Hnext as [(-> & -> & Hg)|(sq & -> & ->)]; [done|]. apply StronglySorted_cons in Hs2 as [Hq Hs2]. split; [done|].
    rewrite Forall_forall in Hq. intros y Hy. specialize (Hq y Hy). unfold gap, bend in *. cbn in *. lia. }
  assert (forall x y, x ∈ l1 -> y ∈ l2' -> gap x y) as H12.
  { intros x y Hx Hy. apply Hg1; [done|]. right. by apply joined_incl. }
  assert (forall x, x ∈ l1 -> gap x (pa, sp)) as H1p by (intros x Hx; apply Hg1; [done|by left]).
  apply StronglySorted_app. pose proof prev as Hprev; destruct Hprev as [[Hg ->]|[E ->]].
  - split_and!; [|done|].
    + intros x y Hx Hy. cbn in Hy. specialize (H1p x Hx). apply elem_of_cons in Hy as [->|Hy]; [done|].
      apply elem_of_cons in Hy as [->|Hy]; [unfold gap, bend in *; cbn in *; lia|auto].
    + cbn. apply StronglySorted_cons. split; [constructor; [done|]|apply StronglySorted_cons; split; [by apply Forall_forall|done]].
      apply Forall_forall. intros y Hy. by apply Hp, joined_incl.
  - split_and!; [|done|].
    + intros x y Hx Hy. cbn in Hy. apply elem_of_cons in Hy as [->|Hy]; [by apply H1p|auto].
    + cbn. apply StronglySorted_cons. split; [|done]. apply Forall_forall. intros y Hy. specialize (Hbp y Hy).
      unfold gap, bend in *. cbn in *. lia.
Qed.

Lemma joined_covers a : covers (l1 ++ m ++ l2') a <-> covers (l1 ++ (pa, sp) :: l2) a \/ bp <= a < bp + 16 * s.
Proof using All.
  pose proof joined_size. assert (bp <= a < bp + 16 * s' \/ covers l2' a <-> bp <= a < bp + 16 * s \/ covers l2 a) as E2.
  { pose proof next as Hnext; destruct Hnext as [(-> & -> & _)|(sq & El & ->)]; [done|]. pose proof (l2_sizes (bp + 16 * s, sq)). rewrite El in *.
    rewrite covers_cons. unfold bend. cbn. assert (1 <= sq) by (apply H0; set_solver). intuition lia. }
  rewrite !covers_app, covers_cons. pose proof prev as Hprev; destruct Hprev as [[_ ->]|[E ->]]; rewrite !covers_cons; unfold bend; cbn [fst snd];
    pose proof (covers_nil a); [intuition lia|].
  assert (pa <= a < pa + 16 * (sp + s') <-> pa <= a < pa + 16 * sp \/ bp <= a < bp + 16 * s') as E3 by lia. rewrite E3. tauto.
Qed.

Lemma joined_elem b : b ∈ m ++ l2' -> b ∈ l2 \/ b = (pa, sp) \/ s <= b.2 /\ b.1 <= bp /\ bp + 16 * s <= bend b.
Proof using All.
  pose proof joined_size as Hs. intros [Hb|Hb]%elem_of_app; [|left; by apply joined_incl]. unfold bend.
  pose proof prev as Hprev; destruct Hprev as [[_ ->]|[E ->]].
  - apply elem_of_cons in Hb as [->|Hb]; [auto|]. apply list_elem_of_singleton in Hb as ->. right. right. cbn. lia.
  - apply list_elem_of_singleton in Hb as ->. right. right. cbn. lia.
Qed.
Lemma joined_block : exists b, b ∈ m ++ l2' /\ s <= b.2 /\ b.1 <= bp /\ bp + 16 * s <= bend b.
Proof using All.
  pose proof joined_size as Hs. unfold bend. pose proof prev as Hprev; destruct Hprev as [[_ ->]|[E ->]].
  - exists (bp, s'). cbn. split; [set_solver|lia].
  - exists (pa, sp + s'). cbn. split; [set_solver|lia].
Qed.
End joining.

(** ** Freeing *)

Lemma blocks_fit (l : list block) lo hi :
  StronglySorted gap l -> Forall (fun b => lo <= b.1 /\ 1 <= b.2 /\ bend b <= hi) l -> lo <= hi -> 16 * Z.of_nat (length l) <= hi - lo.
Proof.
  revert lo. induction l as [|b l IH]; [cbn; lia|]. intros lo Hs Hf Hle. apply StronglySorted_cons in Hs as [Hg Hs].
  apply Forall_cons in Hf as [Hb Hf]. rewrite Forall_forall in Hg, Hf. unfold bend in *.
  assert (16 * Z.of_nat (length l) <= hi - (b.1 + 16 * b.2)); [|cbn [length]; lia].
  apply IH; [done| |lia]. apply Forall_forall. intros c Hc. specialize (Hf c Hc). specialize (Hg c Hc). unfold gap, bend in Hg. lia.
Qed.

(** The header of a block is the header of no other. *)
Lemma apart_ne x y : 1 <= x.2 -> 1 <= y.2 -> apart x y -> x.1 <> y.1.
Proof. unfold apart, bend. lia. Qed.

(** What is known of the ring around the block to be freed. *)
Record around (base : Z) (h : heap) (fr al : list block) (bp s : Z) (l1 : list block) (pa sp : Z) (l2 : list block) : Prop := {
  ar_ring : (base, 0) :: fr = l1 ++ (pa, sp) :: l2;
  ar_before : forall b, b ∈ l1 -> b.1 < pa;
  ar_p : base <= pa < bp /\ 0 <= sp /\ pa + 16 * sp <= bp;
  ar_after : forall b, b ∈ l2 -> 1 <= b.2 /\ bp + 16 * s <= b.1 /\ bend b <= brk h;
}.

Lemma ring_sizes base h fr al : heap_ok base h fr al -> Forall (fun b => base <= b.1 /\ 0 <= b.2) ((base, 0) :: fr).
Proof.
  intros Hok. constructor; [cbn; lia|]. pose proof (ho_in _ _ _ _ Hok) as Hin. apply Forall_app in Hin as [Hin _].
  eapply Forall_impl; [done|]. cbn. lia.
Qed.

Lemma free_around base h fr al bp s :
  heap_ok base h fr ((bp, s) :: al) -> exists l1 pa sp l2, around base h fr al bp s l1 pa sp l2.
Proof.
  intros Hok. pose proof (ring_sizes _ _ _ _ Hok) as Hsz. destruct Hok as [Hs Hin _ _ Hap _ _ _].
  apply Forall_app in Hin as [Hfr Hal]. apply Forall_cons in Hal as [Hbp _]. cbn in Hbp.
  rewrite Forall_forall in Hfr, Hap. assert (forall b, b ∈ fr -> apart b (bp, s)) as Hapb.
  { intros b Hb. specialize (Hap b Hb). by apply Forall_cons in Hap as [? _]. }
  destruct (place ((base, 0) :: fr) bp Hs) as (l1 & [pa sp] & l2 & E & H1 & H2 & H3).
  - constructor; [cbn; lia|]. apply Forall_forall. intros b Hb. specialize (Hfr b Hb). specialize (Hapb b Hb).
    apply apart_ne in Hapb; cbn in *; lia.
  - cbn. lia.
  - exists l1, pa, sp, l2. rewrite E in Hs, Hsz. apply StronglySorted_app in Hs as (Hg & _ & _).
    apply Forall_app in Hsz as [Hsz1 Hsz]. apply Forall_cons in Hsz as [Hp Hsz]. cbn in Hp, H2.
    assert (forall b, b ∈ l1 ++ (pa, sp) :: l2 -> b = (base, 0) \/ b ∈ fr) as Hmem by (intros b; rewrite <- E; apply elem_of_cons).
    rewrite Forall_forall in Hsz1, Hsz. split; [done|..].
    + intros b Hb. specialize (Hg b (pa, sp) Hb ltac:(by left)). specialize (Hsz1 b Hb). unfold gap, bend in Hg. cbn in *. lia.
    + split_and!; try lia. destruct (Hmem (pa, sp)) as [[= -> ->]|Hin]; [set_solver|lia|].
      specialize (Hapb _ Hin). unfold apart, bend in Hapb. cbn in Hapb. lia.
    + intros b Hb. specialize (H3 b Hb). destruct (Hmem b) as [->|Hin]; [set_solver|cbn in H3; lia|].
      specialize (Hapb _ Hin). specialize (Hfr _ Hin). unfold apart, bend in *. cbn in *. lia.
Qed.

(** The headers of the other blocks handed out are not touched. *)
Lemma others_apart base h fr al bp s l1 pa sp l2 :
  heap_ok base h fr ((bp, s) :: al) -> around base h fr al bp s l1 pa sp l2 -> forall b, b ∈ al -> b.1 <> bp /\ b.1 <> pa.
Proof.
  intros [_ Hin _ _ Hap Hdis _ _] [E _ (Hp & _) _] b Hb. apply Forall_app in Hin as [Hfr Hin]. apply Forall_cons in Hin as [Hbp Hin].
  rewrite Forall_forall in Hin, Hap, Hfr. specialize (Hin b Hb). inversion Hdis as [|? ? Hd _]; subst. rewrite Forall_forall in Hd. split.
  - symmetry. apply (apart_ne (bp, s) b); [apply Hbp|lia|by apply Hd].
  - assert ((pa, sp) ∈ (base, 0) :: fr) as Hpin by (rewrite E; set_solver).
    apply elem_of_cons in Hpin as [[= -> ->]|Hpin]; [lia|]. specialize (Hap _ Hpin).
    apply Forall_cons in Hap as [_ Hap]. rewrite Forall_forall in Hap. symmetry.
    apply (apart_ne (pa, sp) b); [by apply (Hfr _ Hpin)|lia|by apply Hap].
Qed.

(** The new ring in the new heap. *)
Lemma joined_chain base h fr al bp s l1 pa sp l2 s' l2' m h1 h2 :
  heap_ok base h fr ((bp, s) :: al) -> around base h fr al bp s l1 pa sp l2 -> joined_next bp s l2 s' l2' ->
  joined_prev pa bp s' sp m -> header_set bp (Header (first l2' base) s') h h1 ->
  (forall b, b <> pa -> hdr h2 b = hdr h1 b) -> chain (hdr h2) m (first l2' base) -> 1 <= s ->
  chain (hdr h2) (l1 ++ m ++ l2') base.
Proof.
  intros Hok [E Hb (Hp & _) Ha] Hn Hpv H1 H2 Hm Hs. pose proof (ho_ring _ _ _ _ Hok) as Hc. rewrite E in Hc.
  apply chain_app in Hc as [Hc1 Hc2]. destruct Hc2 as [_ Hc2]. apply chain_app. rewrite first_app.
  assert (first m (first l2' base) = pa) as -> by (by destruct Hpv as [[_ ->]|[_ ->]]). split.
  - eapply links_ext; [|done]. intros b Hin. specialize (Hb b Hin). rewrite H2, (hs_ne _ _ _ _ H1) by lia. done.
  - apply chain_app. split; [done|]. apply (links_ext (hdr h)).
    + intros b Hin. destruct (Ha b) as (? & ? & _); [by eapply joined_incl|]. rewrite H2, (hs_ne _ _ _ _ H1) by lia. done.
    + destruct Hn as [(_ & -> & _)|(sq & -> & _)]; [done|]. apply Hc2.
Qed.

(** Free blocks that cover the same bytes as before and one block more. *)
Lemma covers_base base l a : covers ((base, 0) :: l) a <-> covers l a.
Proof. rewrite covers_cons. unfold bend. cbn. intuition lia. Qed.

(** Blocks within others inherit their range and what they are apart from. *)
Lemma covered base hi fr fr' al :
  Forall (fun b => base + 16 <= b.1 /\ 1 <= b.2 /\ bend b <= hi) fr -> (forall z, z ∈ al -> 1 <= z.2) ->
  Forall (fun x => Forall (apart x) al) fr -> (forall b, b ∈ fr' -> 1 <= b.2) -> (forall a, covers fr' a -> covers fr a) ->
  Forall (fun b => base + 16 <= b.1 /\ 1 <= b.2 /\ bend b <= hi) fr' /\ Forall (fun x => Forall (apart x) al) fr'.
Proof.
  intros Hfr Hal Hap Hsz Hcov. rewrite Forall_forall in Hfr, Hap.
  assert (forall b a, b ∈ fr' -> b.1 <= a < bend b -> exists c, c ∈ fr /\ c.1 <= a < bend c) as Hat.
  { intros b a Hb Ha. apply Hcov. by exists b. }
  split; apply Forall_forall; intros b Hb; pose proof (Hsz b Hb).
  - destruct (Hat b b.1 Hb) as (c & Hc & Hca); [unfold bend; lia|]. destruct (Hat b (bend b - 1) Hb) as (d & Hd & Hda); [unfold bend; lia|].
    pose proof (Hfr c Hc). pose proof (Hfr d Hd). lia.
  - apply Forall_forall. intros z Hz. pose proof (Hal z Hz). apply apart_covers; [done|done|]. intros a Ha Hza.
    destruct (Hat b a Hb Ha) as (c & Hc & Hca). pose proof (Hfr c Hc). pose proof (Hap c Hc) as Hcz. rewrite Forall_forall in Hcz.
    exact (proj1 (apart_covers c z ltac:(lia) ltac:(done)) (Hcz z Hz) a Hca Hza).
Qed.

(** The free blocks after [free]: a ring again, with exactly the bytes of the block added. *)
Lemma joined_ok base h fr al bp s l1 pa sp l2 s' l2' m h1 h2 :
  heap_ok base h fr ((bp, s) :: al) -> around base h fr al bp s l1 pa sp l2 -> joined_next bp s l2 s' l2' ->
  joined_prev pa bp s' sp m -> header_set bp (Header (first l2' base) s') h h1 ->
  (forall b, b <> pa -> hdr h2 b = hdr h1 b) -> chain (hdr h2) m (first l2' base) -> brk h2 = brk h ->
  exists fr', heap_ok base (h2 <| freep := pa |>) fr' al /\ (forall a, covers fr' a <-> covers ((bp, s) :: fr) a) /\
    exists b, b ∈ fr' /\ s <= b.2.
Proof.
  intros Hok Har Hn Hpv H1 H2 Hm Hbrk. pose proof Hok as [Hs Hin _ Hal Hap Hdis _ Hb]. apply Forall_app in Hin as [Hfr Hin].
  apply Forall_cons in Hin as [Hbp Hin]. cbn in Hbp. destruct Hbp as (Hbp & Hs1 & Hbe).
  pose proof (joined_chain _ _ _ _ _ _ _ _ _ _ _ _ _ _ _ Hok Har Hn Hpv H1 H2 Hm Hs1) as Hc.
  pose proof Har as [E Hbef (Hp & Hsp & Hpe) Haft]. rewrite E in Hs.
  assert (forall b, b ∈ l2 -> 1 <= b.2) as Hl2 by (intros b Hb2; by apply Haft).
  pose proof (joined_sorted l1 l2 l2' m pa sp bp s s' Hn Hl2 Hs Hsp Hs1 ltac:(lia) Hpv) as Hsort.
  pose proof (joined_covers l1 l2 l2' m pa sp bp s s' Hn Hl2 Hs Hsp Hs1 ltac:(lia) Hpv) as Hcov.
  pose proof (joined_elem l1 l2 l2' m pa sp bp s s' Hn Hl2 Hs Hsp Hs1 ltac:(lia) Hpv) as Hel.
  destruct (joined_block l1 l2 l2' m pa sp bp s s' Hn Hl2 Hs Hsp Hs1 ltac:(lia) Hpv) as (blk & Hblk & Hblks & Hblk1 & Hblk2).
  assert (exists fr', l1 ++ m ++ l2' = (base, 0) :: fr') as [fr' E'].
  { destruct l1 as [|c l1]; [|injection E as <- _; by eexists]. injection E as <- <- _. destruct Hpv as [[_ ->]|[? ->]]; [by eexists|lia]. }
  assert (forall a, covers fr' a <-> covers ((bp, s) :: fr) a) as Hcov'.
  { intros a. rewrite <- (covers_base base fr'), <- E', Hcov, <- E, covers_base, covers_cons. unfold bend. cbn. tauto. }
  rewrite E' in Hsort, Hc. pose proof Hsort as Hsort0. apply StronglySorted_cons in Hsort0 as [Hgt _]. rewrite Forall_forall in Hgt.
  assert (forall b, b ∈ fr' -> 1 <= b.2) as Hsz.
  { intros b Hb'. specialize (Hgt b Hb'). unfold gap, bend in Hgt. cbn in Hgt. rewrite Forall_forall in Hfr.
    assert (forall c, c ∈ l1 ++ (pa, sp) :: l2 -> base < c.1 -> 1 <= c.2) as Hmem.
    { intros c. rewrite <- E. intros [->|Hc']%elem_of_cons Hlt; [cbn in Hlt; lia|by apply Hfr]. }
    assert (b ∈ l1 ++ m ++ l2') as [Hb1|Hb1]%elem_of_app by (rewrite E'; by right); [apply Hmem; [set_solver|lia]|].
    apply Hel in Hb1 as [Hb1|[->|Hb1]]; [by apply Hl2|apply Hmem; [set_solver|cbn in Hgt |- *; lia]|lia]. }
  destruct (covered base (brk h) ((bp, s) :: fr) fr' al) as [Hin' Hap']; [by constructor| | |done|by intros a ?%Hcov'|].
  { rewrite Forall_forall in Hin. intros z Hz. by apply Hin. }
  { inversion Hdis as [|? ? Hd _]; subst. constructor; [done|]. eapply Forall_impl; [done|]. by intros x [_ ?]%Forall_cons. }
  exists fr'. split_and!; [|done|].
  - split; cbn; rewrite ?Hbrk; try done.
    + by apply Forall_app.
    + apply Forall_cons in Hal as [_ Hal]. rewrite Forall_forall in Hal |- *. intros b Hb'.
      destruct (others_apart _ _ _ _ _ _ _ _ _ _ Hok Har b Hb') as [Hne Hne']. rewrite H2, (hs_ne _ _ _ _ H1) by done. by apply Hal.
    + by inversion Hdis.
    + assert (pa ∈ (l1 ++ m ++ l2').*1) as Hpa; [|by rewrite E' in Hpa].
      rewrite !fmap_app. destruct Hpv as [[_ ->]|[_ ->]]; cbn; set_solver.
  - exists blk. split; [|lia]. assert (blk ∈ (base, 0) :: fr') as [->|?]%elem_of_cons; [rewrite <- E'; set_solver|cbn in *; lia|done].
Qed.

(** [free] takes a block back. *)
Lemma free_spec base h fr al bp s :
  heap_ok base h fr ((bp, s) :: al) ->
  wp (free (bp + 16)) (fun _ h' => exists fr', heap_ok base h' fr' al /\
    (forall a, covers fr' a <-> covers ((bp, s) :: fr) a) /\ (exists b, b ∈ fr' /\ s <= b.2) /\ brk h' = brk h) h.
Proof.
  intros Hok. destruct (free_around _ _ _ _ _ _ Hok) as (l1 & pa & sp & l2 & Har). pose proof Hok as [Hs Hin Hc Hal _ _ Hf Hb].
  pose proof Har as [E Hbef (Hp & Hsp & Hpe) Haft]. apply Forall_app in Hin as [Hfr Hin]. apply Forall_cons in Hin as [Hbp _]. cbn in Hbp.
  pose proof (ring_sizes _ _ _ _ Hok) as Hsz. pose proof (blocks_fit fr (base + 16) (brk h)) as Hlen.
  unfold free. replace (bp + 16 - sizeof_Header) with bp by (unfold sizeof_Header; lia). wp_step. wp_step. wp_step.
  eapply wp_mono; [apply (search_spec h ((base, 0) :: fr) base bp (Z.of_nat (length l1)) (pa, sp)); try done|].
  - eapply Forall_impl; [done|]. cbn. lia.
  - by exists 0.
  - split; [lia|]. by rewrite Nat2Z.id, E, list_lookup_middle.
  - cbn. lia.
  - intros i b Hi Hgt. rewrite E, lookup_app_r, lookup_cons_ne_0 in Hi by lia. apply list_elem_of_lookup_2 in Hi. destruct (Haft b Hi). lia.
  - apply list_elem_of_fmap in Hf as (b & -> & Hf). apply list_elem_of_lookup in Hf as [i Hi]. by exists i, b.
  - apply StronglySorted_cons in Hs as [_ Hs]. specialize (Hlen Hs Hfr ltac:(lia)). cbn [length]. lia.
  - intros r h0 [-> ->]. cbn [fst]. rewrite E in Hc, Hs. apply chain_app in Hc as [_ [Hcp Hc2]]. cbn [fst snd] in Hcp.
    apply StronglySorted_app in Hs as (_ & _ & Hs2). apply StronglySorted_cons in Hs2 as [_ Hs2].
    apply Forall_cons in Hal as [Hbs _]. cbn in Hbs. wp_step.
    eapply wp_mono; [apply (join_next_spec base h bp pa sp s l2); try done; try lia|].
    { intros b Hb2. destruct (Haft b Hb2) as (? & ? & ?). lia. }
    intros [] h1 (s' & l2' & Hn & H1). wp_step.
    assert (bp + 16 * s' <= 2 ^ 36 /\ s <= s') as [Hs' Hss].
    { unfold bend in *. cbn in Hbp. destruct Hn as [(-> & _ & _)|(sq & -> & ->)]; [lia|].
      destruct (Haft (bp + 16 * s, sq)) as (? & _ & ?); [set_solver|]. cbn in *. lia. }
    eapply wp_mono; [apply (join_prev_spec h1 bp pa sp s' (first l2' base)); try lia; [|apply H1]|].
    { rewrite (hs_ne _ _ _ _ H1), Hcp by lia. done. }
    intros [] h2 (m & Hpv & Hm & H2 & _ & Hbrk). unfold set_freep. wp_step. rewrite (hs_brk _ _ _ _ H1) in Hbrk.
    destruct (joined_ok base h fr al bp s l1 pa sp l2 s' l2' m h1 h2 Hok Har Hn Hpv H1 H2 Hm Hbrk) as (fr' & Hok' & Hcov & Hblk).
    exists fr'. by split_and!.
Qed.

(** ** Carving a block *)

(** The end of the free block at [pa] becomes the block handed out. *)
Section carving.
Context (base : Z) (h : heap) (fr al l1 : list block) (pv : block) (pa sp : Z) (l2 : list block) (n : Z).
Hypothesis Hok : heap_ok base h fr al.
Hypothesis E : (base, 0) :: fr = l1 ++ pv :: (pa, sp) :: l2.
Hypothesis Hn : 1 <= n <= sp.

Let rest : list block := if sp =? n then [] else [(pa, sp - n)].
Let new : block := (pa + 16 * (sp - n), n).

Lemma carve_in b : b ∈ (pa, sp) :: l2 -> b ∈ fr.
Proof using All.
  intros Hb. destruct l1 as [|c l]; [injection E as _ ->; done|]. injection E as _ ->. apply elem_of_app. right. by right.
Qed.
Lemma carve_sorted : StronglySorted gap (l1 ++ pv :: rest ++ l2).
Proof using All.
  pose proof (ho_sorted _ _ _ _ Hok) as Hs. rewrite E in Hs. apply StronglySorted_app in Hs as (H1 & Hs1 & Hs2).
  apply StronglySorted_cons in Hs2 as [Hpv Hs2]. apply StronglySorted_cons in Hs2 as [Hp Hs2]. rewrite Forall_forall in Hpv, Hp.
  assert (forall x b, gap x (pa, sp) -> (forall y, y ∈ l2 -> gap x y) -> b ∈ rest ++ l2 -> gap x b) as Hr.
  { intros x b Hx Hy [Hb|Hb]%elem_of_app; [|by apply Hy]. unfold rest in Hb. destruct (sp =? n); [set_solver|].
    apply list_elem_of_singleton in Hb as ->. done. }
  apply StronglySorted_app. split_and!; [|done|].
  - intros x y Hx Hy. apply elem_of_cons in Hy as [->|Hy]; [apply H1; [done|by left]|].
    eapply Hr; [apply H1; [done|set_solver]| |done]. intros z Hz. apply H1; [done|set_solver].
  - apply StronglySorted_cons. split; [|].
    + apply Forall_forall. intros y Hy. eapply Hr; [apply Hpv; by left| |done]. intros z Hz. apply Hpv. by right.
    + unfold rest. destruct (sp =? n); [done|]. cbn. apply StronglySorted_cons. split; [|done].
      apply Forall_forall. intros y Hy. specialize (Hp y Hy). unfold gap, bend in *. cbn in *. lia.
Qed.
Lemma carve_covers a : covers (l1 ++ pv :: rest ++ l2) a \/ new.1 <= a < bend new <-> covers ((base, 0) :: fr) a.
Proof using All.
  rewrite E, !covers_app, !covers_cons, !covers_app. unfold new, bend. cbn [fst snd].
  assert (covers rest a <-> pa <= a < pa + 16 * (sp - n)) as ->.
  { unfold rest. destruct (Z.eqb_spec sp n); [split; [by intros ?%covers_nil|lia]|]. rewrite covers_cons. unfold bend. cbn.
    pose proof (covers_nil a). intuition lia. }
  intuition lia.
Qed.

Lemma carve_ok h' :
  chain (hdr h') (l1 ++ pv :: rest ++ l2) base -> s_size (hdr h' new.1) = n ->
  (forall b, b ∈ al -> hdr h' b.1 = hdr h b.1) -> brk h' = brk h -> freep h' = pv.1 ->
  exists fr', heap_ok base h' fr' (new :: al) /\ (forall a, covers (new :: fr') a <-> covers fr a).
Proof using All.
  intros Hc Hnew Hal Hbrk Hf. pose proof Hok as [Hs Hin _ Ha Hap Hdis _ Hb]. apply Forall_app in Hin as [Hfr Hin].
  assert (exists fr', l1 ++ pv :: rest ++ l2 = (base, 0) :: fr') as [fr' E'].
  { destruct l1 as [|c l]; injection E as <- _; by eexists. }
  assert ((pa, sp) ∈ fr) as Hpa by (apply carve_in; by left). pose proof carve_sorted as Hs'. pose proof carve_covers as Hcov.
  rewrite E' in Hc, Hs'. assert (forall a, covers (new :: fr') a <-> covers fr a) as Hcov'.
  { intros a. rewrite covers_cons, <- (covers_base base fr), <- Hcov, E', covers_base. tauto. }
  pose proof Hs as Hgap. rewrite E in Hgap. apply StronglySorted_app in Hgap as (Hg1 & _ & Hg2).
  apply StronglySorted_cons in Hg2 as [Hg3 Hg2]. apply StronglySorted_cons in Hg2 as [Hg2 _]. rewrite Forall_forall in Hg2, Hg3.
  assert (forall b, b ∈ fr' -> 1 <= b.2 /\ apart new b) as Hel.
  { apply StronglySorted_cons in Hs' as [Hgt _]. rewrite Forall_forall in Hgt, Hfr. intros b Hb'. specialize (Hgt b Hb').
    assert (b ∈ l1 ++ pv :: (pa, sp) :: l2 -> 1 <= b.2) as Hmem.
    { rewrite <- E. unfold gap, bend in Hgt. cbn in Hgt. intros [->|?]%elem_of_cons; [cbn in *; lia|by apply Hfr]. }
    assert (b ∈ l1 ++ pv :: rest ++ l2) as Hb1 by (rewrite E'; by right). unfold apart, new. unfold gap, bend in *. cbn [fst snd] in *.
    apply elem_of_app in Hb1 as [Hb1|[->|[Hb1|Hb1]%elem_of_app]%elem_of_cons].
    - split; [apply Hmem; set_solver|]. specialize (Hg1 b (pa, sp) Hb1 ltac:(set_solver)). cbn in Hg1. lia.
    - split; [apply Hmem; set_solver|]. specialize (Hg3 (pa, sp) ltac:(set_solver)). cbn in Hg3. lia.
    - unfold rest in Hb1. destruct (Z.eqb_spec sp n); [by apply not_elem_of_nil in Hb1|]. apply list_elem_of_singleton in Hb1 as ->. cbn. lia.
    - split; [apply Hmem; set_solver|]. specialize (Hg2 b Hb1). cbn in Hg2. lia. }
  assert (forall z, z ∈ al -> 1 <= z.2) as Hal1 by (rewrite Forall_forall in Hin; intros z Hz; by apply Hin).
  destruct (covered base (brk h) fr (new :: fr') al) as [Hin' Hap']; [done..| |by intros a ?%Hcov'|].
  { intros b [->|Hb']%elem_of_cons; [cbn; lia|by apply Hel]. }
  apply Forall_cons in Hin' as [Hnin Hin']. apply Forall_cons in Hap' as [Hnap Hap'].
  exists fr'. split; [|done]. split; rewrite ?Hbrk; try done.
  - apply Forall_app. split; [done|by constructor].
  - constructor; [done|]. rewrite Forall_forall in Ha |- *. intros b Hb'. rewrite Hal by done. by apply Ha.
  - rewrite Forall_forall in Hap' |- *. intros b Hb'. constructor; [destruct (Hel b Hb') as [_ [?|?]]; [by right|by left]|by apply Hap'].
  - by constructor.
  - rewrite <- E', Hf. apply list_elem_of_fmap_2. set_solver.
Qed.
End carving.

(** [take_block] hands out a block; the rest of the free block stays in the ring. *)
Definition handed (base : Z) (h' : heap) (fr al : list block) (n r : Z) : Prop :=
  exists fr', heap_ok base h' fr' ((r - 16, n) :: al) /\ forall a, covers ((r - 16, n) :: fr') a <-> covers fr a.

(** Where the other headers are. *)
Lemma carve_apart base h fr al l1 pv pa sp l2 :
  heap_ok base h fr al -> (base, 0) :: fr = l1 ++ pv :: (pa, sp) :: l2 ->
  (base + 16 <= pa /\ 1 <= sp /\ pa + 16 * sp <= brk h) /\ (forall b, b ∈ l1 -> b.1 < pv.1) /\ pv.1 < pa /\
  (forall b, b ∈ l2 -> pa + 16 * sp < b.1) /\ (forall b, b ∈ al -> b.1 <> pv.1 /\ (b.1 < pa \/ pa + 16 * sp <= b.1)).
Proof.
  intros Hok E. pose proof (ring_sizes _ _ _ _ Hok) as Hsz. destruct Hok as [Hs Hr _ _ Hap _ _ _].
  assert (forall b, b ∈ l1 ++ pv :: (pa, sp) :: l2 -> b = (base, 0) \/ b ∈ fr) as Hmem by (intros b; rewrite <- E; apply elem_of_cons).
  rewrite E in Hs, Hsz. rewrite Forall_forall in Hsz, Hap. apply Forall_app in Hr as [Hr Hral]. rewrite Forall_forall in Hr, Hral.
  apply StronglySorted_app in Hs as (H1 & _ & Hs2). apply StronglySorted_cons in Hs2 as [Hpv Hs2]. apply StronglySorted_cons in Hs2 as [Hp _].
  rewrite Forall_forall in Hpv, Hp. pose proof (Hpv (pa, sp) ltac:(by left)) as Hg. pose proof (Hsz pv ltac:(set_solver)) as Hpvs.
  unfold gap, bend in Hg. cbn in Hg. destruct (Hmem (pa, sp)) as [[= -> ->]|Hin]; [set_solver|lia|].
  pose proof (Hr _ Hin) as Hpr. unfold bend in Hpr. cbn in Hpr. split_and!; try lia.
  - intros b Hb. specialize (H1 b pv Hb ltac:(by left)). specialize (Hsz b ltac:(set_solver)). unfold gap, bend in H1. lia.
  - intros b Hb. specialize (Hp b Hb). unfold gap, bend in Hp. cbn in Hp. lia.
  - intros b Hb. specialize (Hral b Hb). split.
    + destruct (Hmem pv) as [->|Hpin]; [set_solver|cbn; lia|]. specialize (Hap _ Hpin). rewrite Forall_forall in Hap. symmetry.
      apply apart_ne; [by apply Hr|lia|by apply Hap].
    + specialize (Hap _ Hin). rewrite Forall_forall in Hap. specialize (Hap _ Hb). unfold apart, bend in Hap. cbn in Hap. lia.
Qed.

Lemma take_block_spec base h fr al l1 pv pa sp l2 n :
  heap_ok base h fr al -> (base, 0) :: fr = l1 ++ pv :: (pa, sp) :: l2 -> 1 <= n <= sp ->
  wp (take_block n pv.1 pa) (fun r h' => r <> 0 /\ brk h' = brk h /\ handed base h' fr al n r) h.
Proof.
  intros Hok E Hn. pose proof (ho_ring _ _ _ _ Hok) as Hc. rewrite E in Hc. apply chain_app in Hc as [Hc1 Hc]. cbn [chain first fst snd] in Hc.
  destruct Hc as (Hpv & Hpa & Hc2). destruct (carve_apart _ _ _ _ _ _ _ _ _ Hok E) as (Hpr & Hl1 & Hlt & Hl2 & Hal).
  pose proof (ho_brk _ _ _ _ Hok) as Hb. unfold take_block, get, set_freep, plus, sizeof_Header. wp_step. wp_step. rewrite Hpa. cbn [s_size s_ptr].
  destruct (Z.eqb_spec sp n) as [->|Hne].
  - wp_step. wp_step. apply set_ptr_spec. intros h1 H1. wp_step. wp_step. wp_step. wp_step. rewrite Hpv in H1. cbn in H1.
    split_and!; [lia|apply H1|]. unfold handed. replace (pa + 16 * 1 - 16) with (pa + 16 * (n - n)) by lia.
    apply (carve_ok base h fr al l1 pv pa n l2 n Hok E Hn); try done; cbn [fst snd]; rewrite ?Z.eqb_refl.
    + apply chain_app. split; [|split; [apply H1|]].
      * eapply links_ext; [|done]. intros b Hin. apply H1. specialize (Hl1 b Hin). lia.
      * eapply links_ext; [|done]. intros b Hin. apply H1. specialize (Hl2 b Hin). lia.
    + replace (pa + 16 * (n - n)) with pa by lia. cbn. rewrite (hs_ne _ _ _ _ H1), Hpa by lia. done.
    + intros b Hin. apply H1. by apply Hal.
    + apply H1.
  - unfold u32. rewrite Z.mod_small by lia. wp_step. wp_step. apply set_size_spec. intros h1 H1. rewrite Hpa in H1. cbn [s_ptr] in H1.
    wp_step. wp_step. rewrite (hs_at _ _ _ _ H1). cbn [s_size]. wp_step. apply set_size_spec. intros h2 H2. wp_step. wp_step. wp_step. wp_step.
    assert (forall b, b <> pa -> b <> pa + 16 * (sp - n) -> hdr h2 b = hdr h b) as Hkeep.
    { intros b Hb1 Hb2. by rewrite (hs_ne _ _ _ _ H2), (hs_ne _ _ _ _ H1). }
    split_and!; [lia|cbn; by rewrite (hs_brk _ _ _ _ H2), (hs_brk _ _ _ _ H1)|]. unfold handed.
    replace (pa + 16 * (sp - n) + 16 * 1 - 16) with (pa + 16 * (sp - n)) by lia.
    apply (carve_ok base h fr al l1 pv pa sp l2 n Hok E Hn); try done; cbn [fst snd]; rewrite ?(proj2 (Z.eqb_neq sp n) Hne).
    + apply chain_app. split; [|cbn; split_and!].
      * eapply links_ext; [|done]. intros b Hin. specialize (Hl1 b Hin). cbn. rewrite Hkeep by lia. done.
      * rewrite Hkeep by lia. done.
      * rewrite (hs_ne _ _ _ _ H2), (hs_at _ _ _ _ H1) by lia. done.
      * eapply links_ext; [|done]. intros b Hin. specialize (Hl2 b Hin). rewrite Hkeep by lia. done.
    + cbn. by rewrite (hs_at _ _ _ _ H2).
    + intros b Hin. destruct (Hal b Hin) as [_ ?]. cbn. apply Hkeep; lia.
    + cbn. by rewrite (hs_brk _ _ _ _ H2), (hs_brk _ _ _ _ H1).
Qed.

(** ** Growing the heap *)

Section grow.
Context (base : Z) (grants : Z -> Z -> bool).
(** The kernel never gives a program more than its physical memory. *)
Hypothesis grants_bounded : forall b n, grants b n = true -> b + n <= 2 ^ 36.

(** [malloc] asks for at least 4096 units. *)
Definition wanted (n : Z) : Z := if n <? 4096 then 4096 else n.

Lemma morecore_spec h fr al n :
  heap_ok base h fr al -> 1 <= n -> 16 * wanted n < 2 ^ 31 ->
  wp (morecore grants n) (fun r h' =>
    if grants (brk h) (16 * wanted n)
    then r = freep h' /\ r <> 0 /\ brk h' = brk h + 16 * wanted n /\ exists fr', heap_ok base h' fr' al /\
      (forall a, covers fr' a <-> covers fr a \/ brk h <= a < brk h') /\ exists b, b ∈ fr' /\ n <= b.2
    else r = 0 /\ h' = h) h.
Proof using grants_bounded.
  intros Hok Hn Hw. unfold morecore. fold (wanted n). rewrite (Z.mul_comm (wanted n)). unfold sizeof_Header.
  assert (n <= wanted n) as Hnw by (unfold wanted; destruct (Z.ltb_spec n 4096); lia).
  rewrite s32_small by lia. unfold sbrk. pose proof Hok as [Hs Hin Hc Hal Hap Hdis Hf Hb].
  wp_step. wp_step. wp_step. destruct (grants (brk h) (16 * wanted n)) eqn:Hg; [|by do 3 wp_step].
  specialize (grants_bounded _ _ Hg). wp_step. wp_step. wp_step. rewrite (proj2 (Z.eqb_neq _ _)) by lia. wp_step. apply set_size_spec.
  intros h1 [A1 N1 F1 B1]. cbn in N1, F1, B1. wp_step. unfold plus, sizeof_Header. rewrite Z.mul_1_r.
  assert (forall b, b ∈ fr ++ al -> b.1 <> brk h) as Hold.
  { rewrite Forall_forall in Hin. intros b Hb'. specialize (Hin b Hb'). unfold bend in Hin. lia. }
  assert (heap_ok base h1 fr ((brk h, wanted n) :: al)) as Hok1.
  { split; try done; rewrite ?F1, ?B1; try done; try lia.
    - apply Forall_app in Hin as [Hi1 Hi2]. apply Forall_app. split; [|constructor; [cbn; unfold bend; cbn; lia|]].
      + eapply Forall_impl; [exact Hi1|]. intros b (? & ? & ?). split_and!; lia.
      + eapply Forall_impl; [exact Hi2|]. intros b (? & ? & ?). split_and!; lia.
    - eapply links_ext; [|done]. intros b [->|Hb']%elem_of_cons; apply N1; [cbn; lia|apply Hold; set_solver].
    - constructor; [cbn; by rewrite A1|]. rewrite Forall_forall in Hal |- *. intros b Hb'. rewrite N1 by (apply Hold; set_solver). by apply Hal.
    - apply Forall_app in Hin as [Hi1 _]. rewrite Forall_forall in Hap, Hi1 |- *. intros b Hb'. constructor; [|by apply Hap].
      specialize (Hi1 b Hb'). left. cbn. lia.
    - constructor; [|done]. apply Forall_app in Hin as [_ Hi2]. rewrite Forall_forall in Hi2 |- *. intros b Hb'.
      specialize (Hi2 b Hb'). right. cbn. lia. }
  eapply wp_mono; [by apply free_spec|]. intros [] h2 (fr' & Hok2 & Hcov & (b & Hbin & Hbs) & B2). wp_step.
  split_and!; [done| |lia|].
  - pose proof (ho_freep _ _ _ _ Hok2) as Hf2. apply list_elem_of_fmap in Hf2 as (c & -> & Hc2).
    pose proof (ring_sizes _ _ _ _ Hok2) as Hsz. rewrite Forall_forall in Hsz. specialize (Hsz c Hc2). lia.
  - exists fr'. split_and!; [done| |exists b; split; [done|lia]]. intros a. rewrite Hcov, covers_cons, B2, B1. unfold bend. cbn. tauto.
Qed.

(** ** Walking round the ring *)

(** The position [v] steps after [k] in a ring of [N] headers. *)
Definition pos (N k v : nat) : nat := if (k + v <? N)%nat then (k + v)%nat else (k + v - N)%nat.

Lemma pos_next N k v : (k < N)%nat -> (v < N)%nat -> (if (S (pos N k v) <? N)%nat then S (pos N k v) else 0%nat) = pos N k (S v).
Proof.
  intros Hk Hv. unfold pos. destruct (Nat.ltb_spec (k + v) N), (Nat.ltb_spec (k + S v) N); cbn zeta;
    match goal with |- context [Nat.ltb ?a ?b] => destruct (Nat.ltb_spec a b) end; lia.
Qed.

Lemma ring_inj h fr al i j x y :
  heap_ok base h fr al -> ((base, 0) :: fr) !! i = Some x -> ((base, 0) :: fr) !! j = Some y -> x.1 = y.1 -> i = j.
Proof.
  intros Hok Hi Hj E. pose proof (ho_sorted _ _ _ _ Hok) as Hs. pose proof (ring_sizes _ _ _ _ Hok) as Hsz.
  assert (Forall (fun b : block => 0 <= b.2) ((base, 0) :: fr)) as Hsz' by (eapply Forall_impl; [exact Hsz|]; cbn; lia).
  destruct (Nat.lt_trichotomy i j) as [Hlt|[->|Hlt]]; [|done|].
  - pose proof (sorted_lookup _ _ _ _ _ Hs Hsz' Hi Hj Hlt). lia.
  - pose proof (sorted_lookup _ _ _ _ _ Hs Hsz' Hj Hi Hlt). lia.
Qed.

(** At [v] steps from [freep]; what lies between is too small. *)
Record walking (h : heap) (fr al : list block) (n : Z) (k v : nat) (prevp p : Z) : Prop := {
  wk_ok : heap_ok base h fr al;
  wk_start : exists s, ((base, 0) :: fr) !! k = Some (freep h, s);
  wk_v : (v <= length fr)%nat;
  wk_prev : exists b, ((base, 0) :: fr) !! pos (S (length fr)) k v = Some b /\ b.1 = prevp;
  wk_p : exists b, ((base, 0) :: fr) !! pos (S (length fr)) k (S v) = Some b /\ b.1 = p;
  wk_small : forall u b, (1 <= u <= v)%nat -> ((base, 0) :: fr) !! pos (S (length fr)) k u = Some b -> b.2 < n;
}.

Lemma ring_next h fr al i b :
  heap_ok base h fr al -> ((base, 0) :: fr) !! i = Some b ->
  exists c, ((base, 0) :: fr) !! (if (S i <? S (length fr))%nat then S i else 0%nat) = Some c /\ s_ptr (hdr h b.1) = c.1.
Proof.
  intros Hok Hi. rewrite (chain_at _ _ _ _ _ (ho_ring _ _ _ _ Hok) Hi). cbn [s_ptr]. rewrite first_drop.
  destruct (Nat.ltb_spec (S i) (S (length fr))) as [Hlt|Hge].
  - destruct (lookup_lt_is_Some_2 ((base, 0) :: fr) (S i)) as [c Hc]; [cbn; lia|]. rewrite Hc. by exists c.
  - exists (base, 0). split; [done|]. by rewrite lookup_ge_None_2 by (cbn; lia).
Qed.

(** Setting out. *)
Lemma walking_start h fr al n : heap_ok base h fr al -> exists k, walking h fr al n k 0 (freep h) (s_ptr (hdr h (freep h))).
Proof.
  intros Hok. pose proof (ho_freep _ _ _ _ Hok) as Hf. apply list_elem_of_fmap in Hf as ([f s] & Ef & Hf). cbn in Ef.
  apply list_elem_of_lookup in Hf as [k Hk]. exists k. pose proof (lookup_lt_Some _ _ _ Hk) as Hlt. cbn [length] in Hlt.
  assert (pos (S (length fr)) k 0 = k) as E0 by (unfold pos; destruct (Nat.ltb_spec (k + 0) (S (length fr))); lia).
  destruct (ring_next _ _ _ _ _ Hok Hk) as (c & Hc & Ec). split; [done|exists s; by rewrite Ef|lia| | |intros; lia].
  - exists (f, s). by rewrite E0, Ef.
  - exists c. split; [|by rewrite Ef]. rewrite <- Hc, <- pos_next, E0 by lia. done.
Qed.

(** One step on. *)
Lemma walking_next h fr al n k v prevp p :
  walking h fr al n k v prevp p -> s_size (hdr h p) < n -> p <> freep h -> walking h fr al n k (S v) p (s_ptr (hdr h p)).
Proof.
  intros [Hok [s Hk] Hv _ (b & Hb & <-) Hsm] Hsz Hne. pose proof (lookup_lt_Some _ _ _ Hk) as Hlt. cbn [length] in Hlt.
  assert (pos (S (length fr)) k (S v) <> k) as Hnk by (intros E; rewrite E, Hk in Hb; by simplify_eq).
  assert (S v <= length fr)%nat as Hv' by (revert Hnk; unfold pos; destruct (Nat.ltb_spec (k + S v) (S (length fr))); lia).
  destruct (ring_next _ _ _ _ _ Hok Hb) as (c & Hc & Ec). split; [done|by exists s|done|by exists b| |].
  - exists c. split; [|done]. rewrite <- Hc, <- (pos_next _ _ (S v)) by lia. done.
  - intros u d Hu Hd. destruct (decide (u = S v)) as [->|]; [|apply (Hsm u); [lia|done]].
    rewrite Hb in Hd. simplify_eq. by rewrite (chain_at _ _ _ _ _ (ho_ring _ _ _ _ Hok) Hb) in Hsz.
Qed.

(** All the way round. *)
Lemma walking_round h fr al n k v prevp p :
  walking h fr al n k v prevp p -> s_size (hdr h p) < n -> p = freep h -> forall b, b ∈ (base, 0) :: fr -> b.2 < n.
Proof.
  intros [Hok [s Hk] Hv _ (b & Hb & <-) Hsm] Hsz E d Hd. apply list_elem_of_lookup in Hd as [i Hi].
  pose proof (lookup_lt_Some _ _ _ Hk) as Hlt. pose proof (lookup_lt_Some _ _ _ Hi) as Hil. cbn [length] in Hlt, Hil.
  pose proof (ring_inj _ _ _ _ _ _ _ Hok Hb Hk E) as Ek.
  rewrite (chain_at _ _ _ _ _ (ho_ring _ _ _ _ Hok) Hb) in Hsz. cbn in Hsz.
  destruct (decide (i = k)) as [->|Hne]; [rewrite Ek in Hb; congruence|].
  assert (v = length fr) as -> by (revert Ek; unfold pos; destruct (Nat.ltb_spec (k + S v) (S (length fr))); lia).
  assert (forall u, pos (S (length fr)) k u = i -> (1 <= u <= length fr)%nat -> d.2 < n) as Hu.
  { intros u Eu Hu. apply (Hsm u); [done|]. by rewrite Eu. }
  destruct (Nat.lt_ge_cases k i); [apply (Hu (i - k)%nat)|apply (Hu (i + S (length fr) - k)%nat)]; try lia;
    unfold pos; match goal with |- context [Nat.ltb ?a ?b] => destruct (Nat.ltb_spec a b) end; lia.
Qed.

(** A block that is large enough follows [prevp] in the ring. *)
Lemma walking_found h fr al n k v prevp p :
  walking h fr al n k v prevp p -> 1 <= n <= s_size (hdr h p) ->
  exists l1 pv sp l2, (base, 0) :: fr = l1 ++ pv :: (p, sp) :: l2 /\ pv.1 = prevp /\ n <= sp.
Proof.
  intros [Hok [s Hk] Hv (pv & Hpv & <-) ([p' sp] & Hb & Ep) Hsm] Hsz. cbn in Ep. subst p'.
  pose proof (chain_at _ _ _ _ _ (ho_ring _ _ _ _ Hok) Hb) as Hh. cbn [fst snd] in Hh. rewrite Hh in Hsz. cbn in Hsz.
  pose proof (lookup_lt_Some _ _ _ Hk) as Hlt. pose proof (lookup_lt_Some _ _ _ Hb) as Hbl. cbn [length] in Hlt, Hbl.
  assert (pos (S (length fr)) k (S v) <> 0%nat) as Hn0 by (intros E; rewrite E in Hb; injection Hb as <- <-; lia).
  assert (pos (S (length fr)) k (S v) = S (pos (S (length fr)) k v)) as E.
  { rewrite <- pos_next in Hn0 |- * by lia. revert Hn0. match goal with |- context [Nat.ltb ?a ?b] => by destruct (Nat.ltb_spec a b) end. }
  rewrite E in Hb. exists (take (pos (S (length fr)) k v) ((base, 0) :: fr)), pv, sp, (drop (S (S (pos (S (length fr)) k v))) ((base, 0) :: fr)).
  split_and!; [|done|lia]. rewrite <- (drop_S _ _ _ Hb), <- (drop_S _ _ _ Hpv). symmetry. apply take_drop.
Qed.

(** ** Allocation *)

(** The outcome of a request for [n] units. *)
Definition malloc_post (h : heap) (fr al : list block) (n r : Z) (h' : heap) : Prop :=
  if r =? 0 then
    heap_ok base h' fr al /\ brk h' = brk h /\ grants (brk h) (16 * wanted n) = false /\ (forall b, b ∈ fr -> b.2 < n)
  else exists fr', heap_ok base h' fr' ((r - 16, n) :: al) /\
    (brk h' = brk h \/ grants (brk h) (16 * wanted n) = true /\ brk h' = brk h + 16 * wanted n) /\
    (forall a, covers ((r - 16, n) :: fr') a <-> covers fr a \/ brk h <= a < brk h').

(** The search in [malloc], [m] steps before it ends: in the ring as it was, or in the
    ring with the new memory, where it will succeed. *)
Definition searching (h : heap) (fr al : list block) (n m : Z) '((prevp, p) : Z * Z) (h1 : heap) : Prop :=
  exists fr1 k v, walking h1 fr1 al n k v prevp p /\
    (fr1 = fr /\ h1 = h /\ m = 2 ^ 40 + Z.of_nat (length fr) - Z.of_nat v \/
     grants (brk h) (16 * wanted n) = true /\ brk h1 = brk h + 16 * wanted n /\ (exists b, b ∈ fr1 /\ n <= b.2) /\
     (forall a, covers fr1 a <-> covers fr a \/ brk h <= a < brk h1) /\ m = Z.of_nat (length fr1) - Z.of_nat v).

Lemma free_few h fr al : heap_ok base h fr al -> Z.of_nat (length fr) < 2 ^ 33.
Proof.
  intros [Hs Hin _ _ _ _ _ Hb]. apply StronglySorted_cons in Hs as [_ Hs]. apply Forall_app in Hin as [Hin _].
  pose proof (blocks_fit fr (base + 16) (brk h) Hs Hin ltac:(lia)). lia.
Qed.

(** A block is found. *)
Lemma searching_found h fr al n m prevp p h1 :
  searching h fr al n m (prevp, p) h1 -> 1 <= n <= s_size (hdr h1 p) ->
  wp (take_block n prevp p) (fun r h' => malloc_post h fr al n r h') h1.
Proof.
  intros (fr1 & k & v & Hw & Hm) Hn. destruct (walking_found _ _ _ _ _ _ _ _ Hw Hn) as (l1 & pv & sp & l2 & E & <- & Hsp).
  eapply wp_mono; [apply (take_block_spec base h1 fr1 al l1 pv p sp l2 n (wk_ok _ _ _ _ _ _ _ _ Hw) E); lia|].
  intros r h' (Hr & Hb & fr' & Hok' & Hcov). unfold malloc_post. rewrite (proj2 (Z.eqb_neq r 0) Hr). exists fr'. split; [done|].
  destruct Hm as [(-> & -> & _)|(Hg & Hb1 & _ & Hcov1 & _)].
  - split; [by left|]. intros a. rewrite Hcov, Hb. intuition lia.
  - rewrite Hb. split; [by right|]. intros a. by rewrite Hcov.
Qed.

(** The whole ring has been searched: more memory, or failure. *)
Lemma searching_round h fr al n m prevp p h1 :
  searching h fr al n m (prevp, p) h1 -> s_size (hdr h1 p) < n -> p = freep h1 -> 1 <= n -> 16 * wanted n < 2 ^ 31 ->
  wp (p' <- morecore grants n ;; if p' =? 0 then ret (Brk 0) else y <- get p' ;; ret (Next (p', s_ptr y)))
    (fun c h' => match c with
      | Next s' => exists m', searching h fr al n m' s' h' /\ 0 <= m' < m
      | Brk r => malloc_post h fr al n r h' end) h1.
Proof using grants_bounded.
  intros (fr1 & k & v & Hw & Hm) Hsz Hp Hn Hwant. pose proof (walking_round _ _ _ _ _ _ _ _ Hw Hsz Hp) as Hall.
  pose proof (wk_ok _ _ _ _ _ _ _ _ Hw) as Hok. destruct Hm as [(-> & -> & ->)|(_ & _ & (b & Hb & Hbn) & _)].
  2:{ specialize (Hall b ltac:(by right)). lia. }
  wp_step. eapply wp_mono; [by apply morecore_spec|]. intros r h' Hr. destruct (grants (brk h) (16 * wanted n)) eqn:Hg.
  - destruct Hr as (-> & Hr0 & Hb & fr' & Hok' & Hcov & Hblk). rewrite (proj2 (Z.eqb_neq _ 0) Hr0). unfold get. do 3 wp_step.
    destruct (walking_start _ _ _ n Hok') as [k' Hw']. pose proof (free_few _ _ _ Hok'). pose proof (wk_v _ _ _ _ _ _ _ _ Hw).
    exists (Z.of_nat (length fr')). split; [|lia]. exists fr', k', 0%nat. split; [done|]. right. split_and!; try done. lia.
  - destruct Hr as [-> ->]. cbn [Z.eqb]. wp_step. unfold malloc_post. cbn [Z.eqb]. split_and!; try done.
    intros b Hb. apply Hall. by right.
Qed.

Lemma malloc_loop h fr al n :
  heap_ok base h fr al -> 1 <= n -> 16 * wanted n < 2 ^ 31 ->
  wp (while_ (fun '(prevp, p) =>
    x <- get p ;;
    if n <=? s_size x then
      r <- take_block n prevp p ;;
      ret (Brk r)
    else
      f <- gets freep ;;
      if p =? f then
        p' <- morecore grants n ;;
        if p' =? 0 then ret (Brk 0)
        else y <- get p' ;; ret (Next (p', s_ptr y))
      else ret (Next (p, s_ptr x))) (freep h, s_ptr (hdr h (freep h)))) (malloc_post h fr al n) h.
Proof using grants_bounded.
  intros Hok Hn Hw. pose proof (free_few _ _ _ Hok). apply (wp_while_idx _ (searching h fr al n)) with (2 ^ 40 + Z.of_nat (length fr)); [|..|lia].
  - intros m [prevp p] h1 Hs. unfold get at 1. wp_step. wp_step. destruct (Z.leb_spec n (s_size (hdr h1 p))) as [Hle|Hgt].
    + wp_step. eapply wp_mono; [by apply (searching_found h fr al n m prevp p h1 Hs)|]. intros r h' Hr. by wp_step.
    + wp_step. wp_step. destruct (Z.eqb_spec p (freep h1)) as [E|E]; [by apply (searching_round _ _ _ _ _ _ _ _ Hs)|]. wp_step.
      destruct Hs as (fr1 & k & v & Hwk & Hm). pose proof (walking_next _ _ _ _ _ _ _ _ Hwk Hgt E) as Hwk'.
      pose proof (wk_v _ _ _ _ _ _ _ _ Hwk') as Hv. exists (m - 1). split.
      * exists fr1, k, (S v). split; [done|]. destruct Hm as [(-> & -> & ->)|(? & ? & ? & ? & ->)]; [left|right]; (split_and!; try done; lia).
      * destruct Hm as [(-> & -> & ->)|(? & ? & ? & ? & ->)]; lia.
  - destruct (walking_start _ _ _ n Hok) as [k Hwk]. exists fr, k, 0%nat. split; [done|]. left. split_and!; try done. lia.
Qed.

(** A heap that has not been used yet. *)
Definition unused (h : heap) : Prop := freep h = 0 /\ 0 < base /\ base + 16 <= brk h <= 2 ^ 36.

Lemma malloc_spec h fr al nbytes :
  heap_ok base h fr al \/ unused h /\ fr = [] /\ al = [] -> 0 <= nbytes < 2 ^ 31 - 2 ^ 17 ->
  wp (malloc base grants nbytes) (fun r h' => malloc_post h fr al (units nbytes) r h') h.
Proof using grants_bounded.
  intros Hh Hnb. assert (1 <= units nbytes /\ 16 * wanted (units nbytes) < 2 ^ 31) as [Hn Hw].
  { unfold units, sizeof_Header, wanted. pose proof (Z.div_mod (nbytes + 16 - 1) 16 ltac:(lia)).
    pose proof (Z.mod_pos_bound (nbytes + 16 - 1) 16 ltac:(lia)). destruct (Z.ltb_spec ((nbytes + 16 - 1) / 16 + 1) 4096); lia. }
  unfold malloc. wp_step. wp_step. destruct Hh as [Hok|((Hf & Hb) & -> & ->)].
  - assert (freep h <> 0) as Hf.
    { pose proof (ho_freep _ _ _ _ Hok) as Hf. apply list_elem_of_fmap in Hf as (c & -> & Hc).
      pose proof (ring_sizes _ _ _ _ Hok) as Hsz. rewrite Forall_forall in Hsz. specialize (Hsz c Hc). pose proof (ho_brk _ _ _ _ Hok). lia. }
    rewrite (proj2 (Z.eqb_neq _ 0) Hf). do 4 wp_step. unfold get at 1. do 2 wp_step. by apply malloc_loop.
  - rewrite Hf. cbn [Z.eqb]. unfold set_freep. wp_step. wp_step. wp_step. wp_step. apply set_ptr_spec. intros h1 [A1 N1 F1 B1].
    apply set_size_spec. intros h2 [A2 N2 F2 B2]. rewrite A1 in A2. cbn in A2, F1, B1.
    assert (heap_ok base h2 [] []) as Hok.
    { split; rewrite ?F2, ?F1, ?B2, ?B1; try done; repeat (constructor || done). }
    do 2 wp_step. unfold get at 1. do 2 wp_step. eapply wp_mono; [by apply malloc_loop|]. intros r h' Hp. unfold malloc_post in *.
    by rewrite B2, B1 in Hp.
Qed.
End grow.

(** ** Programs *)

Lemma apart_sym x y : apart x y -> apart y x.
Proof. unfold apart. tauto. Qed.
Lemma disjoint_perm al al' : al ≡ₚ al' -> ForallOrdPairs apart al -> ForallOrdPairs apart al'.
Proof.
  induction 1 as [|x l l' Hp IH|x y l|l l' l'' _ IH1 _ IH2]; intros Hd; [done| | |auto].
  - inversion Hd; subst. constructor; [by rewrite <- Hp|auto].
  - inversion Hd as [|? ? Hy Hd']; subst. inversion Hd' as [|? ? Hx Hd'']; subst. apply Forall_cons in Hy as [Hyx Hy].
    constructor; [constructor; [by apply apart_sym|done]|by constructor].
Qed.
Lemma heap_ok_perm base h fr al al' : al ≡ₚ al' -> heap_ok base h fr al -> heap_ok base h fr al'.
Proof.
  intros Hp [Hs Hin Hc Ha Hap Hd Hf Hb]. split; try done; [by rewrite <- Hp|by rewrite <- Hp| |by eapply disjoint_perm].
  eapply Forall_impl; [exact Hap|]. cbv beta. intros x Hx. by rewrite <- Hp.
Qed.

Section program.
Context (base : Z) (grants : Z -> Z -> bool).

(** The heaps of a program that frees only what it was given and stores only into
    its blocks; [live] are the blocks it has, [b0] is where its heap starts. *)
Inductive uses (b0 : Z) : heap -> list block -> Prop :=
| uses_start h : unused base h -> brk h = b0 -> uses b0 h []
| uses_malloc h live nbytes r h' :
    uses b0 h live -> 0 <= nbytes < 2 ^ 31 - 2 ^ 17 -> malloc base grants nbytes h = Ok r h' ->
    uses b0 h' (if r =? 0 then live else (r - 16, units nbytes) :: live)
| uses_free h live live' p s h' :
    uses b0 h live -> live ≡ₚ (p, s) :: live' -> free (p + 16) h = Ok tt h' -> uses b0 h' live'
| uses_store h live h' :
    uses b0 h live -> freep h' = freep h -> brk h' = brk h ->
    (forall a, (forall b, b ∈ live -> ~ (b.1 + 16 <= a < bend b)) -> hdr h' a = hdr h a) -> uses b0 h' live.

(** Every byte of the heap is in exactly one free or live block. *)
Definition accounted (b0 : Z) (h : heap) (live : list block) : Prop :=
  unused base h /\ live = [] /\ brk h = b0 \/
  exists fr, heap_ok base h fr live /\ b0 <= brk h /\ forall a, covers fr a \/ covers live a <-> b0 <= a < brk h.

Lemma malloc_accounted b0 h live nbytes :
  (forall b n, grants b n = true -> b + n <= 2 ^ 36) -> accounted b0 h live -> 0 <= nbytes < 2 ^ 31 - 2 ^ 17 ->
  wp (malloc base grants nbytes) (fun r h' =>
    accounted b0 h' (if r =? 0 then live else (r - 16, units nbytes) :: live) /\
    (r = 0 -> grants (brk h) (16 * wanted (units nbytes)) = false)) h.
Proof.
  intros Hg Hac Hn. assert (exists fr, (heap_ok base h fr live \/ unused base h /\ fr = [] /\ live = []) /\ b0 <= brk h /\
    forall a, covers fr a \/ covers live a <-> b0 <= a < brk h) as (fr & Hh & Hb & Hcov).
  { destruct Hac as [(Hu & -> & <-)|(fr & Hok & Hb & Hcov)]; [|exists fr; auto]. exists []. split_and!; [by right|lia|].
    intros a. pose proof (covers_nil a). intuition lia. }
  eapply wp_mono; [by apply (malloc_spec base grants Hg h fr live)|]. intros r h' Hp. unfold malloc_post in Hp.
  destruct (Z.eqb_spec r 0) as [->|Hr].
  - destruct Hp as (Hok' & Hb' & Hgr & _). split; [|done]. right. exists fr. split; [done|]. by rewrite Hb'.
  - destruct Hp as (fr' & Hok' & Hb' & Hcov'). split; [|done]. right. exists fr'.
    assert (brk h <= brk h') as Hbb. { destruct Hb' as [->|[_ ->]]; [lia|]. unfold wanted. destruct (Z.ltb_spec (units nbytes) 4096); lia. }
    split_and!; [done|lia|]. intros a. specialize (Hcov' a). specialize (Hcov a). rewrite covers_cons in Hcov' |- *.
    assert (b0 <= a < brk h' <-> b0 <= a < brk h \/ brk h <= a < brk h') as -> by lia. rewrite <- Hcov. tauto.
Qed.

Lemma free_accounted b0 h live live' p s :
  accounted b0 h live -> live ≡ₚ (p, s) :: live' -> wp (free (p + 16)) (fun _ h' => accounted b0 h' live') h.
Proof.
  intros [(_ & -> & _)|(fr & Hok & Hb & Hcov)] Hp; [by apply Permutation_nil_cons in Hp|].
  pose proof (heap_ok_perm _ _ _ _ _ Hp Hok) as Hok'. eapply wp_mono; [by apply (free_spec base h fr live' p s)|].
  intros [] h' (fr' & Hok2 & Hcov' & _ & Hb'). right. exists fr'. split_and!; [done|lia|]. intros a. rewrite Hb', <- Hcov, Hcov', covers_cons.
  assert (covers live a <-> covers ((p, s) :: live') a) as -> by (unfold covers; by setoid_rewrite Hp). rewrite covers_cons. tauto.
Qed.

Lemma store_accounted b0 h live h' :
  accounted b0 h live -> freep h' = freep h -> brk h' = brk h ->
  (forall a, (forall b, b ∈ live -> ~ (b.1 + 16 <= a < bend b)) -> hdr h' a = hdr h a) -> accounted b0 h' live.
Proof.
  intros [([Hf0 Hb0] & -> & Eb)|(fr & Hok & Hb & Hcov)] Hf Hbk Hh.
  { left. unfold unused. by rewrite Hf, Hbk. }
  right. exists fr. rewrite Hbk. split; [|done]. destruct Hok as [Hs Hin Hc Ha Hap Hd Hfp Hbr].
  apply Forall_app in Hin as Hin'. destruct Hin' as [Hi1 Hi2]. rewrite Forall_forall in Hi1, Hi2, Hap, Ha.
  split; rewrite ?Hf, ?Hbk; try done.
  - eapply links_ext; [|exact Hc]. intros b Hbin. apply Hh. intros c Hcin Hin2. specialize (Hi2 c Hcin).
    apply elem_of_cons in Hbin as [->|Hbin]; [cbn in Hin2; lia|]. specialize (Hap b Hbin). rewrite Forall_forall in Hap.
    specialize (Hap c Hcin). specialize (Hi1 b Hbin). unfold apart, bend in *. lia.
  - apply Forall_forall. intros b Hbin. rewrite Hh; [by apply Ha|]. intros c Hcin Hin2.
    destruct (decide (b = c)) as [->|Hne]; [lia|]. assert (apart b c \/ apart c b) as Hbc.
    { destruct (ForallOrdPairs_In Hd b c) as [?|[?|?]]; [by apply list_elem_of_In..|done|by left|by right]. }
    specialize (Hi2 b Hbin) as Hb2. specialize (Hi2 c Hcin). unfold apart, bend in *. lia.
  - by apply Forall_forall.
Qed.

Lemma uses_accounted b0 h live :
  (forall b n, grants b n = true -> b + n <= 2 ^ 36) -> uses b0 h live -> accounted b0 h live.
Proof.
  intros Hg. induction 1 as [h Hu Hb|h live nb r h' _ IH Hn E|h live live' p s h' _ IH Hp E|h live h' _ IH Hf Hb Hh].
  - by left.
  - exact (proj1 (wp_at _ _ _ _ _ (malloc_accounted _ _ _ _ Hg IH Hn) E)).
  - exact (wp_at _ _ _ _ _ (free_accounted _ _ _ _ _ _ IH Hp) E).
  - by eapply store_accounted.
Qed.
End program.

(** One free block remains when nothing is in use. *)
Lemma one_block base h fr b0 :
  heap_ok base h fr [] -> (forall a, covers fr a \/ covers [] a <-> b0 <= a < brk h) -> b0 <= brk h ->
  fr = [] /\ brk h = b0 \/ exists s, fr = [(b0, s)] /\ bend (b0, s) = brk h.
Proof.
  intros Hok Hcov Hb. pose proof (ho_sorted _ _ _ _ Hok) as Hs. apply StronglySorted_cons in Hs as [_ Hs].
  pose proof (ho_in _ _ _ _ Hok) as Hin. rewrite app_nil_r in Hin.
  assert (forall a, covers fr a <-> b0 <= a < brk h) as Hc by (intros a; rewrite <- Hcov; pose proof (covers_nil a); tauto).
  destruct fr as [|[x s] fr]; [left; split; [done|]|right].
  { destruct (Z.eq_dec (brk h) b0); [done|]. by destruct (covers_nil b0); apply Hc; lia. }
  apply StronglySorted_cons in Hs as [Hg Hs]. apply Forall_cons in Hin as [Hx Hin]. cbn in Hx. unfold bend in *. cbn in *.
  rewrite Forall_forall in Hg. destruct fr as [|y fr].
  - exists s. assert (forall a, x <= a < x + 16 * s <-> b0 <= a < brk h) as Hr.
    { intros a. rewrite <- Hc, covers_cons. unfold bend. cbn. pose proof (covers_nil a). tauto. }
    pose proof (Hr x). pose proof (Hr b0). pose proof (Hr (x + 16 * s - 1)). pose proof (Hr (brk h - 1)).
    assert (x = b0) as -> by lia. split; [done|lia].
  - exfalso. assert (covers ((x, s) :: y :: fr) (x + 16 * s)) as Hbad.
    { apply Hc. pose proof (Hg y ltac:(by left)) as Hgy. apply Forall_cons in Hin as [Hy _]. unfold gap, bend in Hgy. cbn in Hgy.
      assert (b0 <= x < brk h) as Hx0 by (apply Hc; exists (x, s); split; [by left|unfold bend; cbn; lia]). unfold bend in Hy. lia. }
    rewrite covers_cons in Hbad. unfold bend in Hbad. cbn in Hbad. destruct Hbad as [?|(c & Hc1 & Hc2)]; [lia|].
    specialize (Hg c Hc1). unfold gap, bend in Hg. cbn in Hg. lia.
Qed.


(** A program that has allocated, allocated and freed; the kernel grants 128 megabytes. *)
Definition ex_grants (b n : Z) : bool := (0 <=? n) && (b + n <=? 2 ^ 27).
Definition ex_heap : heap := Heap (fun _ => Header 0 0) 0 0x4000.
Definition ex_hp {A} (r : res heap A) : heap := match r with Ok _ h => h | _ => ex_heap end.
Definition ex_h1 : heap := ex_hp (malloc 0x2000 ex_grants 100 ex_heap).
Definition ex_h2 : heap := ex_hp (malloc 0x2000 ex_grants 24 ex_h1).
Definition ex_h3 : heap := ex_hp (free 0x13f90 ex_h2).

Lemma ex_uses : uses 0x2000 ex_grants 0x4000 ex_h3 [(0x13f50, 3)].
Proof.
  apply uses_free with ex_h2 [(0x13f50, 3); (0x13f80, 8)] 0x13f80 8.
  - apply (uses_malloc 0x2000 ex_grants 0x4000 ex_h1 [(0x13f80, 8)] 24 0x13f60); [|lia|].
    + apply (uses_malloc 0x2000 ex_grants 0x4000 ex_heap [] 100 0x13f90); [|lia|].
      * apply uses_start; [split; cbn; lia|done].
      * vm_cast_no_check (eq_refl (Ok 0x13f90 ex_h1)).
    + vm_cast_no_check (eq_refl (Ok 0x13f60 ex_h2)).
  - constructor.
  - vm_cast_no_check (eq_refl (Ok tt ex_h3)).
Qed.

