(* ===== verification/Ulib.v ===== *)
(** * The user library (user/ulib.c) and formatted output to a descriptor

    Strings are lists of bytes without the terminating NUL; a string that runs into
    a NUL ends there. *)

From stdpp Require Import base list gmap strings.
From Stdlib Require Import ZArith Lia.
From S2P Require Import Prelude Printf UserSys.

#[local] Open Scope Z_scope.

Fixpoint strcmp (p q : list Z) : Z :=
  match p, q with
  | [], [] => 0
  | [], y :: _ => 0 - y
  | x :: _, [] => x - 0
  | x :: p', y :: q' => if x =? y then strcmp p' q' else x - y
  end.
Definition strlen (s : list Z) : Z := Z.of_nat (length (to_nul s)).

(** The index of the first [c] before the end of the string. *)
Fixpoint strchr (s : list Z) (c : Z) : option nat :=
  match s with
  | [] => None
  | x :: s' => if x =? 0 then None else if x =? c then Some 0%nat else S <$> strchr s' c
  end.

Fixpoint memcmp (s1 s2 : list Z) (n : nat) : Z :=
  match n, s1, s2 with
  | S n', x :: s1', y :: s2' => if negb (x =? y) then x - y else memcmp s1' s2' n'
  | _, _, _ => 0
  end.

Section ulib.
Context {W : Type} `{UserSys W}.

(** [putc] writes one character at a time. *)
Fixpoint uputs (fd : Z) (l : list Z) : M W unit :=
  match l with
  | [] => ret tt
  | c :: l' => s_write fd [c] ;;; uputs fd l'
  end.
Definition fprintf (fd : Z) (fmt : list Z) (ap : list arg) : M W unit :=
  match vprintf false fmt ap with Some l => uputs fd l | None => hang end.

Definition ugets (max : Z) : M W (list Z) :=
  while_ (fun buf =>
    if Z.of_nat (length buf) + 1 <? max then
      r <- s_read 0 1 ;;
      let '(cc, bytes) := r in
      if cc <? 1 then ret (Brk buf)
      else
        let c := bytes !!! 0%nat in
        if (c =? 10) || (c =? 13) then ret (Brk (buf ++ [c])) else ret (Next (buf ++ [c]))
    else ret (Brk buf)) [].

Lemma uputs_ok fd l w :
  wp (uputs fd l) (fun _ w' => s_out w' fd = s_out w fd ++ l /\
    (forall fd', fd' <> fd -> s_out w' fd' = s_out w fd') /\ (forall path, s_file w' path = s_file w path) /\
    (forall fd', s_good w' fd' = s_good w fd') /\ (forall fd', s_rest w' fd' = s_rest w fd')) w.
Proof.
  revert w. induction l as [|c l IH]; intros w; cbn [uputs].
  - apply wp_ret. by rewrite app_nil_r.
  - apply wp_bind. eapply wp_mono; [apply s_write_ok|]. intros r w1 (_ & E1 & O1 & F1 & G1 & R1).
    eapply wp_mono; [apply IH|]. intros [] w2 (E2 & O2 & F2 & G2 & R2). split_and!.
    + by rewrite E2, E1, <- app_assoc.
    + intros fd' Hne. by rewrite O2, O1.
    + intros path. by rewrite F2, F1.
    + intros fd'. by rewrite G2, G1.
    + intros fd'. by rewrite R2, R1.
Qed.
End ulib.

(** ** Strings *)


Lemma strchr_Some s c k :
  strchr s c = Some k ->
  s = take k s ++ c :: drop (S k) s /\ c ∉ take k s /\ Forall (fun x => x <> 0) (take k s) /\ (k < length s)%nat.
Proof.
  revert k. induction s as [|x s IH]; intros k; [done|]. cbn [strchr].
  destruct (Z.eqb_spec x 0); [done|]. destruct (Z.eqb_spec x c) as [->|Hne].
  - intros [= <-]. cbn. split_and!; [by rewrite drop_0|apply not_elem_of_nil|constructor|lia].
  - destruct (strchr s c) as [j|]; [|done]. intros [= <-]. destruct (IH j eq_refl) as (E & Hn & Hz & Hl).
    cbn [take drop length app]. split_and!; [by rewrite <- E|by rewrite not_elem_of_cons|by constructor|lia].
Qed.

Lemma strchr_None s c : Forall (fun x => x <> 0) s -> strchr s c = None -> c ∉ s.
Proof.
  induction s as [|x s IH]; [intros; apply not_elem_of_nil|]. intros [Hx Hs]%Forall_cons. cbn [strchr].
  destruct (Z.eqb_spec x 0); [done|]. destruct (Z.eqb_spec x c) as [|Hne]; [done|].
  destruct (strchr s c); [done|]. intros _. rewrite not_elem_of_cons. split; [done|]. by apply IH.
Qed.
