(* ===== verification/Grep.v ===== *)
(** * grep (user/grep.c)

    The regular-expression matcher, which is also the one of user/find.c, and the
    loop that searches a file line by line in a buffer of 1024 bytes.  Strings are
    lists of bytes without the terminating NUL. *)

From stdpp Require Import base list gmap strings.
From Stdlib Require Import ZArith Lia.
From S2P Require Import Prelude Printf UserSys Ulib.

#[local] Open Scope Z_scope.

Definition DOT : Z := 46.
Definition STAR : Z := 42.
Definition DOLLAR : Z := 36.
Definition CARET : Z := 94.
Definition NL : Z := 10.

(** ** The matcher *)

(** [matchstar(c, re, text)]; [here] is [matchhere(re, _)]. *)
Fixpoint matchstar (here : list Z -> bool) (c : Z) (text : list Z) : bool :=
  if here text then true
  else match text with
       | [] => false
       | x :: text' => if (x =? c) || (c =? DOT) then matchstar here c text' else false
       end.

Fixpoint matchhere (re text : list Z) : bool :=
  match re with
  | [] => true
  | c :: re1 =>
      match re1 with
      | s :: re2 =>
          if s =? STAR then matchstar (matchhere re2) c text
          else
            match text with
            | x :: text' => if (c =? DOT) || (c =? x) then matchhere re1 text' else false
            | [] => false
            end
      | [] =>
          if c =? DOLLAR then bool_decide (text = [])
          else
            match text with
            | x :: text' => if (c =? DOT) || (c =? x) then matchhere re1 text' else false
            | [] => false
            end
      end
  end.

(** The search over all suffixes of the text, the empty one included. *)
Fixpoint match_at (re text : list Z) : bool :=
  if matchhere re text then true
  else match text with [] => false | _ :: text' => match_at re text' end.

Definition match_ (re text : list Z) : bool :=
  match re with
  | c :: re' => if c =? CARET then matchhere re' text else match_at re text
  | [] => match_at re text
  end.

(** ** The language of a pattern *)

(** A pattern is a sequence of characters to match, some repeated, possibly followed
    by the end of the text. *)
Inductive item : Type := One (c : Z) | Many (c : Z).

Fixpoint items (re : list Z) : list item :=
  match re with
  | [] => []
  | c :: re1 =>
      match re1 with
      | s :: re2 => if s =? STAR then Many c :: items re2 else One c :: items re1
      | [] => if c =? DOLLAR then [] else [One c]
      end
  end.
Fixpoint anchored (re : list Z) : bool :=
  match re with
  | [] => false
  | c :: re1 =>
      match re1 with
      | s :: re2 => if s =? STAR then anchored re2 else anchored re1
      | [] => c =? DOLLAR
      end
  end.

Definition matches_char (c x : Z) : Prop := c = DOT \/ c = x.
Definition item_lang (i : item) (w : list Z) : Prop :=
  match i with
  | One c => exists x, w = [x] /\ matches_char c x
  | Many c => Forall (matches_char c) w
  end.
(** Concatenation of the languages of the items. *)
Fixpoint lang (l : list item) (w : list Z) : Prop :=
  match l with
  | [] => w = []
  | i :: l' => exists w1 w2, w = w1 ++ w2 /\ item_lang i w1 /\ lang l' w2
  end.

(** The pattern describes a prefix of the text, all of it when anchored. *)
Definition prefix_match (re text : list Z) : Prop :=
  exists w rest, text = w ++ rest /\ lang (items re) w /\ (anchored re = true -> rest = []).

Lemma matchstar_spec here c text :
  matchstar here c text = true <->
  exists w rest, text = w ++ rest /\ Forall (matches_char c) w /\ here rest = true.
Proof.
  induction text as [|x text IH]; cbn [matchstar].
  - destruct (here []) eqn:E; split; try done.
    + intros _. by exists [], [].
    + intros (w & rest & Ew & _ & Hr). destruct w; [|done]. simpl in Ew. subst rest. congruence.
  - destruct (here (x :: text)) eqn:E.
    { split; [|done]. intros _. by exists [], (x :: text). }
    assert (((x =? c) || (c =? DOT)) = true <-> matches_char c x) as Hc.
    { unfold matches_char. rewrite orb_true_iff, !Z.eqb_eq. naive_solver. }
    destruct ((x =? c) || (c =? DOT)).
    + rewrite IH. split.
      * intros (w & rest & -> & Hw & Hr). exists (x :: w), rest. split_and!; [done| |done]. constructor; [by apply Hc|done].
      * intros (w & rest & Ew & Hw & Hr). destruct w as [|y w]; [simpl in Ew; subst; congruence|].
        injection Ew as -> ->. apply Forall_cons in Hw as [_ Hw]. by exists w, rest.
    + split; [done|]. intros (w & rest & Ew & Hw & Hr). destruct w as [|y w]; [simpl in Ew; subst; congruence|].
      injection Ew as -> ->. apply Forall_cons in Hw as [Hy _]. by apply Hc in Hy.
Qed.

Lemma prefix_match_one c re text :
  (forall re2, re <> STAR :: re2) -> (re = [] -> c <> DOLLAR) ->
  prefix_match (c :: re) text <-> exists x text', text = x :: text' /\ matches_char c x /\ prefix_match re text'.
Proof.
  intros Hs Hd. unfold prefix_match.
  assert (items (c :: re) = One c :: items re /\ anchored (c :: re) = anchored re) as [-> ->].
  { cbn [items anchored]. destruct re as [|s re].
    - destruct (Z.eqb_spec c DOLLAR); [by destruct Hd|done].
    - destruct (Z.eqb_spec s STAR) as [->|]; [by destruct (Hs re)|done]. }
  cbn [lang item_lang]. split.
  - intros (w & rest & -> & (w1 & w2 & -> & (x & -> & Hx) & Hl) & Ha). exists x, (w2 ++ rest).
    split_and!; [done|done|]. by exists w2, rest.
  - intros (x & text' & -> & Hx & w & rest & -> & Hl & Ha). exists (x :: w), rest. split_and!; [done| |done].
    exists [x], w. split_and!; [done|by exists x|done].
Qed.

Lemma prefix_match_star c re text :
  prefix_match (c :: STAR :: re) text <->
  exists w rest, text = w ++ rest /\ Forall (matches_char c) w /\ prefix_match re rest.
Proof.
  unfold prefix_match. cbn [items anchored]. rewrite Z.eqb_refl. cbn [lang item_lang]. split.
  - intros (w & rest & -> & (w1 & w2 & -> & Hw & Hl) & Ha). exists w1, (w2 ++ rest). rewrite app_assoc.
    split_and!; [done|done|]. by exists w2, rest.
  - intros (w & rest & -> & Hw & w2 & rest' & -> & Hl & Ha). exists (w ++ w2), rest'. rewrite app_assoc.
    split_and!; [done| |done]. by exists w, w2.
Qed.

Lemma match_char c x : (c =? DOT) || (c =? x) = true <-> matches_char c x.
Proof. unfold matches_char. by rewrite orb_true_iff, !Z.eqb_eq. Qed.

Lemma one_step c re1 text (IH : forall text, matchhere re1 text = true <-> prefix_match re1 text) :
  match text with x :: text' => if (c =? DOT) || (c =? x) then matchhere re1 text' else false | [] => false end = true
  <-> exists x text', text = x :: text' /\ matches_char c x /\ prefix_match re1 text'.
Proof.
  destruct text as [|x text']; [naive_solver|]. pose proof (match_char c x) as Hc.
  destruct ((c =? DOT) || (c =? x)).
  - rewrite IH. split; [|naive_solver]. intros ?. exists x, text'. split_and!; [done|by apply Hc|done].
  - split; [done|]. intros (y & t & [= <- <-] & Hy & _). by apply Hc in Hy.
Qed.

Lemma matchhere_spec re text : matchhere re text = true <-> prefix_match re text.
Proof.
  revert text. induction re as [re IH] using (induction_ltof1 _ (@length Z)). unfold ltof in IH. intros text.
  destruct re as [|c [|s re2]]; cbn [matchhere].
  - split; [|done]. intros _. by exists [], text.
  - destruct (Z.eqb_spec c DOLLAR) as [->|Hne].
    + rewrite bool_decide_eq_true. split.
      * intros ->. by exists [], [].
      * intros (w & rest & -> & Hl & Ha). cbn in Hl. subst w. by rewrite Ha.
    + rewrite prefix_match_one by done. apply (one_step c [] text). intros t. apply IH. simpl. lia.
  - destruct (Z.eqb_spec s STAR) as [->|Hne].
    + rewrite prefix_match_star, matchstar_spec. assert (forall t, matchhere re2 t = true <-> prefix_match re2 t) as H.
      { intros t. apply IH. simpl. lia. }
      split; intros (w & rest & ? & ? & ?); exists w, rest; split_and!; try done; by apply H.
    + rewrite prefix_match_one; [|by intros re' [= ? ?]|done]. apply (one_step c (s :: re2) text).
      intros t. apply IH. simpl. lia.
Qed.

Lemma match_at_spec re text :
  match_at re text = true <-> exists skip text', text = skip ++ text' /\ prefix_match re text'.
Proof.
  induction text as [|x text IH]; cbn [match_at]; pose proof (matchhere_spec re) as Hm.
  - specialize (Hm []). destruct (matchhere re []).
    + split; [|done]. intros _. exists [], []. split; [done|by apply Hm].
    + split; [done|]. intros (skip & t & E & Hp). destruct skip; [|done]. simpl in E. subst t. by apply Hm.
  - specialize (Hm (x :: text)). destruct (matchhere re (x :: text)).
    + split; [|done]. intros _. exists [], (x :: text). split; [done|by apply Hm].
    + rewrite IH. split.
      * intros (skip & t & -> & Hp). by exists (x :: skip), t.
      * intros (skip & t & E & Hp). destruct skip as [|y skip]; [simpl in E; subst t; apply Hm in Hp; done|].
        injection E as <- ->. by exists skip, t.
Qed.

(** C33: the recursive matcher decides the language of the pattern: after a leading
    caret the pattern must describe a prefix of the text, otherwise a substring, in
    both cases up to the end of the text if the pattern ends in a dollar sign; a dot
    matches any character and a star repeats the character before it. *)
Theorem match_decides re text :
  match_ re text = true <->
  match re with
  | c :: re' => if c =? CARET then prefix_match re' text
      else exists skip text', text = skip ++ text' /\ prefix_match re text'
  | [] => exists skip text', text = skip ++ text' /\ prefix_match re text'
  end.
Proof.
  unfold match_. destruct re as [|c re']; [apply match_at_spec|].
  destruct (c =? CARET); [apply matchhere_spec|apply match_at_spec].
Qed.

(** ** Searching a file *)

Section grep.
Context {W : Type} `{UserSys W}.

(** The loop over the complete lines in the buffer; the rest of the buffer. *)
Definition grep_lines (pattern p : list Z) : M W (list Z) :=
  while_ (fun p =>
    match strchr p NL with
    | Some q =>
        when (match_ pattern (take q p)) (s_write 1 (take (S q) p) ;;; ret tt) ;;;
        ret (Next (drop (S q) p))
    | None => ret (Brk p)
    end) p.

(** [held] are the [m] bytes in the buffer. *)
Definition grep (pattern : list Z) (fd : Z) : M W unit :=
  while_ (fun held =>
    r <- s_read fd (1024 - Z.of_nat (length held) - 1) ;;
    let '(n, bytes) := r in
    if 0 <? n then
      p <- grep_lines pattern (held ++ bytes) ;;
      ret (Next p)
    else ret (Brk tt)) [].

Definition grep_usage : list Z := chars "usage: grep pattern [file ...]" ++ [NL].
Definition grep_cannot : list Z := chars "grep: cannot open %s" ++ [NL].
Fixpoint grep_files (pattern : list Z) (argv : list (list Z)) : U W unit :=
  match argv with
  | [] => uret tt
  | path :: argv' =>
      fd <~ sys (s_open path) ;;
      if fd <? 0 then sys (fprintf 1 grep_cannot [AStr (Some path)]) ~;; uexit 1
      else sys (grep pattern fd) ~;; sys (s_close fd) ~;; grep_files pattern argv'
  end.
Definition grep_main (argv : list (list Z)) : U W unit :=
  match argv with
  | [] | [_] => sys (fprintf 2 grep_usage []) ~;; uexit 1
  | [_; pattern] => sys (grep pattern 0) ~;; uexit 0
  | _ :: pattern :: files => grep_files pattern files ~;; uexit 0
  end.

(** ** What it prints *)

(** The complete lines of a text, without their newlines. *)
Fixpoint lines_of (s : list Z) : list (list Z) :=
  match s with
  | [] => []
  | x :: s' =>
      if x =? NL then [] :: lines_of s'
      else match lines_of s' with [] => [] | l :: ls => (x :: l) :: ls end
  end.
Definition selected (pattern s : list Z) : list Z :=
  concat (map (fun l => l ++ [NL]) (filter (fun l => match_ pattern l = true) (lines_of s))).

(** No line is longer than the buffer holds. *)
Definition short_lines (s : list Z) : Prop :=
  forall pre l post, s = pre ++ l ++ post -> NL ∉ l -> (length l <= 1022)%nat.

Lemma lines_of_line l s : NL ∉ l -> lines_of (l ++ NL :: s) = l :: lines_of s.
Proof.
  induction l as [|x l IH]; intros Hl; cbn [app lines_of]; [done|].
  apply not_elem_of_cons in Hl as [Hx Hl]. rewrite IH by done. by destruct (Z.eqb_spec x NL).
Qed.
Lemma lines_of_open l : NL ∉ l -> lines_of l = [].
Proof.
  induction l as [|x l IH]; intros Hl; cbn [lines_of]; [done|].
  apply not_elem_of_cons in Hl as [Hx Hl]. rewrite IH by done. by destruct (Z.eqb_spec x NL).
Qed.
Lemma selected_line pattern l s :
  NL ∉ l -> selected pattern (l ++ NL :: s) =
    (if match_ pattern l then l ++ [NL] else []) ++ selected pattern s.
Proof.
  intros Hl. unfold selected. rewrite lines_of_line by done. destruct (match_ pattern l) eqn:E.
  - by rewrite filter_cons_True by done.
  - by rewrite filter_cons_False by (by rewrite E).
Qed.

(** What printing complete lines leaves alone. *)
Definition only_prints (w w' : W) : Prop :=
  (forall fd, fd <> 1 -> s_out w' fd = s_out w fd) /\ (forall path, s_file w' path = s_file w path) /\
  (forall fd, s_good w' fd = s_good w fd) /\ (forall fd, s_rest w' fd = s_rest w fd).

Lemma only_prints_trans w1 w2 w3 : only_prints w1 w2 -> only_prints w2 w3 -> only_prints w1 w3.
Proof.
  intros (A1 & A2 & A3 & A4) (B1 & B2 & B3 & B4). split_and!.
  - intros fd Hne. by rewrite B1, A1.
  - intros path. by rewrite B2, A2.
  - intros fd. by rewrite B3, A3.
  - intros fd. by rewrite B4, A4.
Qed.

(** One complete line. *)
Lemma grep_line_spec pattern p rest q w :
  strchr p NL = Some q ->
  wp (when (match_ pattern (take q p)) (s_write 1 (take (S q) p) ;;; ret tt)) (fun _ w' =>
    s_out w' 1 ++ selected pattern (drop (S q) p ++ rest) = s_out w 1 ++ selected pattern (p ++ rest) /\
    only_prints w w') w.
Proof.
  intros E. destruct (strchr_Some _ _ _ E) as (Ep & Hnl & _ & Hq).
  assert (p ++ rest = take q p ++ NL :: (drop (S q) p ++ rest)) as Es by (rewrite Ep at 1; by rewrite <- app_assoc).
  assert (take (S q) p = take q p ++ [NL]) as Et.
  { apply take_S_r. rewrite Ep at 1. rewrite list_lookup_middle; [done|]. rewrite length_take. lia. }
  rewrite Es, selected_line by done. unfold when. destruct (match_ pattern (take q p)).
  - apply wp_bind. eapply wp_mono; [apply s_write_ok|]. intros r w' (_ & Eo & Oo & F & G & R). apply wp_ret.
    rewrite Eo, Et, <- app_assoc. by split.
  - apply wp_ret. by split.
Qed.

Lemma grep_lines_spec pattern p rest w :
  Forall (fun x => x <> 0) p -> (length p <= 1023)%nat ->
  wp (grep_lines pattern p) (fun p' w' =>
    NL ∉ p' /\ (exists pre, p = pre ++ p') /\
    s_out w' 1 ++ selected pattern (p' ++ rest) = s_out w 1 ++ selected pattern (p ++ rest) /\ only_prints w w') w.
Proof.
  intros Hnz Hlen. unfold grep_lines.
  apply (wp_while _ (fun p' w' => (exists pre, p = pre ++ p') /\
      s_out w' 1 ++ selected pattern (p' ++ rest) = s_out w 1 ++ selected pattern (p ++ rest) /\ only_prints w w')
    (fun p' _ => Z.of_nat (length p'))); [|split_and!; [by exists []|done|done..]|lia].
  intros p' w' ([pre ->] & Eo & Hp). apply Forall_app in Hnz as [_ Hnz].
  destruct (strchr p' NL) as [q|] eqn:E.
  - apply wp_bind. eapply wp_mono; [by apply (grep_line_spec pattern p' rest q)|]. intros [] w2 [Eo2 Hp2]. apply wp_ret.
    destruct (strchr_Some _ _ _ E) as (_ & _ & _ & Hq). rewrite length_drop. split; [|lia]. split_and!.
    + exists (pre ++ take (S q) p'). by rewrite <- app_assoc, take_drop.
    + by rewrite Eo2.
    + by eapply only_prints_trans.
  - apply wp_ret. split_and!; try done; [by apply strchr_None|by exists pre|apply Hp..].
Qed.

(** C34: searching a descriptor that has no NUL bytes and whose lines fit the buffer
    prints exactly the complete lines that match, in order, however the reads are
    cut into pieces; a last line without a newline is not printed. *)
Theorem grep_prints_matches pattern fd w :
  s_good w fd = true -> Forall (fun x => x <> 0) (s_rest w fd) -> short_lines (s_rest w fd) ->
  Z.of_nat (length (s_rest w fd)) < 2 ^ 64 ->
  wp (grep pattern fd) (fun _ w' => s_out w' 1 = s_out w 1 ++ selected pattern (s_rest w fd) /\
    s_rest w' fd = [] /\ forall fd', fd' <> 1 -> s_out w' fd' = s_out w fd') w.
Proof.
  intros Hg Hnz Hsl Hsz. unfold grep.
  apply (wp_while _ (fun held w' => NL ∉ held /\ s_good w' fd = true /\
      (exists pre, s_rest w fd = pre ++ held ++ s_rest w' fd) /\
      s_out w' 1 ++ selected pattern (held ++ s_rest w' fd) = s_out w 1 ++ selected pattern (s_rest w fd) /\
      (forall fd', fd' <> 1 -> s_out w' fd' = s_out w fd'))
    (fun _ w' => Z.of_nat (length (s_rest w' fd)))); [| |lia].
  2: { split_and!; [apply not_elem_of_nil|done|by exists []|done|done]. }
  intros held w' (Hh & Hg' & [pre Epre] & Eo & Ho).
  pose proof (Hsl pre held (s_rest w' fd) Epre Hh) as Hlen.
  apply wp_bind. eapply wp_mono; [apply (s_read_ok w' fd); lia|].
  intros [n bytes] w1 (O1 & F1 & G1 & R1 & Hr). rewrite Hg' in Hr. cbn [fst snd] in Hr.
  destruct Hr as (-> & Hn & Er & Hend). destruct (Z.ltb_spec 0 (Z.of_nat (length bytes))) as [Hpos|Hz].
  - assert (Forall (fun x => x <> 0) (held ++ bytes)) as Hnz'.
    { rewrite Epre, Er in Hnz. rewrite !Forall_app in *. tauto. }
    apply wp_bind. eapply wp_mono; [apply (grep_lines_spec pattern (held ++ bytes) (s_rest w1 fd)); [done|]|].
    { rewrite length_app. lia. }
    intros p w2 (Hp & [pre2 Ep] & Eo2 & P1 & P2 & P3 & P4). apply wp_ret. rewrite P4. split.
    + split_and!; [done|by rewrite P3, G1| | |].
      * exists (pre ++ pre2). rewrite Epre, Er. rewrite <- !app_assoc. f_equal. rewrite !app_assoc. by rewrite Ep.
      * rewrite Eo2, O1, <- app_assoc, <- Er. done.
      * intros fd' Hne. by rewrite P1, O1, Ho.
    + rewrite Er, length_app. lia.
  - assert (bytes = []) as -> by (apply nil_length_inv; lia). specialize (Hend ltac:(lia) eq_refl).
    apply wp_ret. rewrite O1. rewrite Hend in Eo, Er. rewrite app_nil_r in Eo. cbn [app] in Er.
    unfold selected in Eo at 1. rewrite lines_of_open in Eo by done. cbn in Eo. rewrite app_nil_r in Eo.
    split_and!; [done|done|]. intros fd' Hne. by rewrite O1, Ho.
Qed.
End grep.

(** ** Witness, and a long line *)

Definition ex_file (bytes : list Z) : world := World ∅ {[ 0 := bytes ]} ∅ 0 (fun k _ => (2 + k)%nat).

Lemma ex_short : short_lines (chars "ab" ++ [NL] ++ chars "b").
Proof.
  intros pre l post E _. apply (f_equal length) in E. rewrite !length_app in E. cbn in E. lia.
Qed.

Lemma grep_prints_matches_witness :
  wp (grep (chars "a.$") 0) (fun _ w' => written_to w' 1 = chars "ab" ++ [NL])
    (ex_file (chars "ab" ++ [NL] ++ chars "b")).
Proof.
  eapply wp_mono.
  - apply (grep_prints_matches (chars "a.$") 0 (ex_file (chars "ab" ++ [NL] ++ chars "b"))).
    + reflexivity.
    + repeat (apply Forall_cons; split; [discriminate|]). apply Forall_nil_2.
    + exact ex_short.
    + reflexivity.
  - intros [] w' (Eo & _ & _). exact Eo.
Defined.

