(* ===== verification/Utils.v ===== *)
(** * Small utilities (user/cat.c, user/wc.c, user/echo.c, user/sleep.c, user/kill.c,
    user/ln.c, user/mkdir.c, user/rm.c, user/zombie.c, user/trace.c)

    What [cat] and [wc] print is specified; the others are their translations, with the
    system calls that [UserSys] does not have as parameters. *)

From stdpp Require Import base list gmap strings.
From Stdlib Require Import ZArith Lia.
From S2P Require Import Prelude Printf UserSys Ulib.

#[local] Open Scope Z_scope.

Definition nl : list Z := [10].

Section utils.
Context {W : Type} `{UserSys W}.

(** ** cat *)

Definition cat (fd : Z) : U W unit :=
  n <~ uwhile (fun _ : unit =>
    r <~ sys (s_read fd 512) ;;
    let '(n, buf) := r in
    if 0 <? n then
      k <~ sys (s_write 1 buf) ;;
      if negb (k =? n) then sys (fprintf 2 (chars "cat: write error" ++ nl) []) ~;; uexit 1
      else uret (Next tt)
    else uret (Brk n)) tt ;;
  if n <? 0 then sys (fprintf 2 (chars "cat: read error" ++ nl) []) ~;; uexit 1
  else uret tt.

Fixpoint cat_files (argv : list (list Z)) : U W unit :=
  match argv with
  | [] => uexit 0
  | path :: argv' =>
      fd <~ sys (s_open path) ;;
      if fd <? 0 then sys (fprintf 2 (chars "cat: cannot open %s" ++ nl) [AStr (Some path)]) ~;; uexit 1
      else cat fd ~;; sys (s_close fd) ~;; cat_files argv'
  end.
(** [argv] without the name of the program. *)
Definition cat_main (argv : list (list Z)) : U W unit :=
  match argv with
  | [] => cat 0 ~;; uexit 0
  | _ => cat_files argv
  end.

(** ** wc *)

Record counts : Type := Counts { wc_l : Z; wc_w : Z; wc_c : Z; wc_in : bool }.
Definition wc_space (c : Z) : bool :=
  match strchr [32; 13; 9; 10; 11] c with Some _ => true | None => false end.
(** The body of the inner loop. *)
Definition wc_step (k : counts) (x : Z) : counts :=
  let c := s32 (wc_c k + 1) in
  let l := if x =? 10 then s32 (wc_l k + 1) else wc_l k in
  if wc_space x then Counts l (wc_w k) c false
  else if negb (wc_in k) then Counts l (s32 (wc_w k + 1)) c true
  else Counts l (wc_w k) c (wc_in k).

Definition wc (fd : Z) (name : list Z) : U W unit :=
  r <~ uwhile (fun k : counts =>
    r <~ sys (s_read fd 512) ;;
    let '(n, buf) := r in
    if 0 <? n then uret (Next (fold_left wc_step buf k)) else uret (Brk (n, k))) (Counts 0 0 0 false) ;;
  let '(n, k) := r in
  if n <? 0 then sys (fprintf 1 (chars "wc: read error" ++ nl) []) ~;; uexit 1
  else sys (fprintf 1 (chars "%d %d %d %s" ++ nl) [AInt (wc_l k); AInt (wc_w k); AInt (wc_c k); AStr (Some name)]).

Fixpoint wc_files (argv : list (list Z)) : U W unit :=
  match argv with
  | [] => uexit 0
  | path :: argv' =>
      fd <~ sys (s_open path) ;;
      if fd <? 0 then sys (fprintf 1 (chars "wc: cannot open %s" ++ nl) [AStr (Some path)]) ~;; uexit 1
      else wc fd path ~;; sys (s_close fd) ~;; wc_files argv'
  end.
Definition wc_main (argv : list (list Z)) : U W unit :=
  match argv with
  | [] => wc 0 [] ~;; uexit 0
  | _ => wc_files argv
  end.

(** ** echo *)

Fixpoint echo_args (argv : list (list Z)) : U W unit :=
  match argv with
  | [] => uexit 0
  | a :: argv' =>
      sys (s_write 1 a) ~;;
      sys (s_write 1 (match argv' with [] => nl | _ => [32] end)) ~;;
      echo_args argv'
  end.
Definition echo_main (argv : list (list Z)) : U W unit := echo_args argv.

(** ** sleep and kill, with the system call as a parameter *)

Fixpoint sleep_args (sleep : Z -> M W Z) (argv : list (list Z)) : U W unit :=
  match argv with
  | [] => uexit 0
  | a :: argv' =>
      let second := atoi a in
      if (second =? 0) && negb (strcmp a (chars "0") =? 0)
      then sys (fprintf 2 (chars "sleep: invalid time interval" ++ nl) []) ~;; uexit 1
      else sys (sleep second) ~;; sleep_args sleep argv'
  end.
Definition sleep_main (sleep : Z -> M W Z) (argv : list (list Z)) : U W unit :=
  match argv with
  | [] => sys (fprintf 2 (chars "Usage: sleep seconds..." ++ nl) []) ~;; uexit 1
  | _ => sleep_args sleep argv
  end.

Fixpoint kill_args (kill : Z -> M W Z) (argv : list (list Z)) : U W unit :=
  match argv with
  | [] => uexit 0
  | a :: argv' => sys (kill (atoi a)) ~;; kill_args kill argv'
  end.
Definition kill_main (kill : Z -> M W Z) (argv : list (list Z)) : U W unit :=
  match argv with
  | [] => sys (fprintf 2 (chars "usage: kill pid..." ++ nl) []) ~;; uexit 1
  | _ => kill_args kill argv
  end.

(** ** ln, mkdir and rm *)

Definition ln_main (link : list Z -> list Z -> M W Z) (argv : list (list Z)) : U W unit :=
  match argv with
  | [old; new] =>
      r <~ sys (link old new) ;;
      sys (when (r <? 0) (fprintf 2 (chars "link %s %s: failed" ++ nl) [AStr (Some old); AStr (Some new)])) ~;;
      uexit 0
  | _ => sys (fprintf 2 (chars "Usage: ln old new" ++ nl) []) ~;; uexit 1
  end.

(** The loop of mkdir and of rm, which ends at the first failure. *)
Fixpoint each_path (call : list Z -> M W Z) (fmt : list Z) (argv : list (list Z)) : U W unit :=
  match argv with
  | [] => uexit 0
  | a :: argv' =>
      r <~ sys (call a) ;;
      if r <? 0 then sys (fprintf 2 fmt [AStr (Some a)]) ~;; uexit 0
      else each_path call fmt argv'
  end.
Definition mkdir_main (mkdir : list Z -> M W Z) (argv : list (list Z)) : U W unit :=
  match argv with
  | [] => sys (fprintf 2 (chars "Usage: mkdir files..." ++ nl) []) ~;; uexit 1
  | _ => each_path mkdir (chars "mkdir: %s failed to create" ++ nl) argv
  end.
Definition rm_main (unlink : list Z -> M W Z) (argv : list (list Z)) : U W unit :=
  match argv with
  | [] => sys (fprintf 2 (chars "Usage: rm files..." ++ nl) []) ~;; uexit 1
  | _ => each_path unlink (chars "rm: %s failed to delete" ++ nl) argv
  end.

Definition zombie_main (fork : M W Z) (sleep : Z -> M W Z) : U W unit :=
  pid <~ sys fork ;;
  (if 0 <? pid then sys (sleep 5) else uret 0) ~;;
  uexit 0.

(** ** trace *)

(** The pointers in [nargv] when it is passed to [exec]: the array on the stack had the
    contents [stack], and the loop writes only the arguments it has. *)
Definition trace_nargv (argv stack : list (option (list Z))) : list (option (list Z)) :=
  let args := drop 2 (take 32 argv) in args ++ drop (length args) stack.
(** [argv] with the name of the program. *)
Definition trace_main (trace : Z -> M W Z) (exec : list (option (list Z)) -> M W Z)
    (stack : list (option (list Z))) (argv : list (list Z)) : U W unit :=
  match argv with
  | name :: mask :: _ :: _ =>
      let c := match mask with c :: _ => c | [] => 0 end in
      if (c <? 48) || (57 <? c) then sys (fprintf 2 (chars "Usage: %s mask command" ++ nl) [AStr (Some name)]) ~;; uexit 1
      else
        r <~ sys (trace (atoi mask)) ;;
        if r <? 0 then sys (fprintf 2 (chars "%s: trace failed" ++ nl) [AStr (Some name)]) ~;; uexit 1
        else sys (exec (trace_nargv (map Some argv) stack)) ~;; uexit 0
  | name :: _ => sys (fprintf 2 (chars "Usage: %s mask command" ++ nl) [AStr (Some name)]) ~;; uexit 1
  | [] => sys (fprintf 2 (chars "Usage: %s mask command" ++ nl) [AStr None]) ~;; uexit 1
  end.

(** ** cat copies its input *)

Lemma cat_spec fd w :
  s_good w fd = true -> Z.of_nat (length (s_rest w fd)) < 2 ^ 64 ->
  wp (cat fd) (fun r w' => r = inr tt /\ s_out w' 1 = s_out w 1 ++ s_rest w fd /\
    (forall fd', fd' <> 1 -> s_out w' fd' = s_out w fd') /\ forall path, s_file w' path = s_file w path) w.
Proof.
  intros Hg Hsz. unfold cat. usr_steps.
  eapply wp_mono; [apply (wp_uwhile _ (fun _ w' => s_good w' fd = true /\
      s_out w' 1 ++ s_rest w' fd = s_out w 1 ++ s_rest w fd /\
      (forall fd', fd' <> 1 -> s_out w' fd' = s_out w fd') /\ forall path, s_file w' path = s_file w path)
    (fun _ w' => Z.of_nat (length (s_rest w' fd)))
    (fun r w' => r = inr 0 /\ s_out w' 1 = s_out w 1 ++ s_rest w fd /\
      (forall fd', fd' <> 1 -> s_out w' fd' = s_out w fd') /\ forall path, s_file w' path = s_file w path))|].
  - intros [] w' (Hg' & Eo & Ho & Hf). usr_steps.
    eapply wp_mono; [apply (s_read_ok w' fd 512); lia|]. intros [n buf] w1 (O1 & F1 & G1 & R1 & Hr).
    rewrite Hg' in Hr. cbn [fst snd] in Hr. destruct Hr as (-> & Hn & Er & Hend).
    destruct (Z.ltb_spec 0 (Z.of_nat (length buf))) as [Hpos|Hz]; usr_steps.
    + eapply wp_mono; [apply s_write_ok|]. intros k w2 (-> & Eo2 & O2 & F2 & G2 & R2).
      rewrite Z.eqb_refl. cbn [negb]. usr_steps. split_and!; [by rewrite G2, G1| | | | |].
      * by rewrite Eo2, O1, R2, <- app_assoc, <- Er.
      * intros fd' Hne. by rewrite O2, O1, Ho.
      * intros path. by rewrite F2, F1, Hf.
      * lia.
      * rewrite R2, Er, length_app. lia.
    + assert (buf = []) as -> by (apply nil_length_inv; lia). specialize (Hend ltac:(lia) eq_refl).
      rewrite Hend, app_nil_r in Eo. split_and!; [done|by rewrite O1| |].
      * intros fd' Hne. by rewrite O1, Ho.
      * intros path. by rewrite F1, Hf.
  - done.
  - lia.
  - intros r w' (-> & Eo & Ho & Hf). by usr_steps.
Qed.

(** [cat] with files that all exist copies their contents in order to its output
    and exits with 0. *)
Theorem cat_concatenates argv contents w :
  argv <> [] -> map (s_file w) argv = map Some contents ->
  Forall (fun l : list Z => Z.of_nat (length l) < 2 ^ 64) contents ->
  wp (cat_main argv) (fun r w' => r = inl 0 /\ s_out w' 1 = s_out w 1 ++ concat contents /\
    forall fd', fd' <> 1 -> s_out w' fd' = s_out w fd') w.
Proof.
  intros Hne Hf Hsz. assert (cat_main argv = cat_files argv) as -> by (by destruct argv). clear Hne.
  revert contents w Hf Hsz. induction argv as [|path argv IH]; intros contents w Hf Hsz; destruct contents as [|l ls]; try done.
  - cbn [cat_files]. usr_steps. by rewrite app_nil_r.
  - injection Hf as Hl Hls. apply Forall_cons in Hsz as [Hl64 Hsz]. cbn [cat_files]. usr_steps.
    eapply wp_mono; [apply s_open_ok|]. intros fd w1 (F1 & O1 & Hopen). rewrite Hl in Hopen.
    destruct Hopen as (Hfd & Hg & Hr). destruct (Z.ltb_spec fd 0); [lia|]. usr_steps.
    eapply wp_mono; [apply (cat_spec fd w1 Hg); by rewrite Hr|]. intros r w2 (-> & Eo2 & O2 & F2). usr_steps.
    eapply wp_mono; [apply s_close_ok|]. intros k w3 (F3 & O3). usr_steps.
    eapply wp_mono; [apply (IH ls w3); [|done]|].
    + rewrite <- Hls. apply map_ext. intros path'. by rewrite F3, F2, F1.
    + intros r w4 (-> & Eo4 & O4). split_and!; [done| |].
      * rewrite Eo4, O3, Eo2, O1, Hr. cbn. by rewrite app_assoc.
      * intros fd' Hne'. by rewrite O4, O3, O2, O1.
Qed.

(** ** wc counts *)

Definition newlines (s : list Z) : Z := Z.of_nat (length (filter (fun x => x = 10) s)).
(** A word starts where a character that is not white space follows one that is, or
    begins the text. *)
Definition word_starts (s : list Z) : Z :=
  Z.of_nat (length (filter (fun p => wc_space p.1 = true /\ wc_space p.2 = false) (zip (32 :: s) s))).

Lemma wc_fold s l w c prev :
  0 <= l <= c -> 0 <= w <= c -> c + Z.of_nat (length s) < 2 ^ 31 ->
  exists b, fold_left wc_step s (Counts l w c (negb (wc_space prev))) =
    Counts (l + newlines s)
      (w + Z.of_nat (length (filter (fun p => wc_space p.1 = true /\ wc_space p.2 = false) (zip (prev :: s) s))))
      (c + Z.of_nat (length s)) b.
Proof.
  revert l w c prev. induction s as [|x s IH]; intros l w c prev Hl Hw Hc.
  { exists (negb (wc_space prev)). unfold newlines. cbn. f_equal; lia. }
  cbn [fold_left length] in *.
  assert (wc_step (Counts l w c (negb (wc_space prev))) x =
    Counts (if x =? 10 then l + 1 else l) (if wc_space prev && negb (wc_space x) then w + 1 else w) (c + 1)
      (negb (wc_space x))) as ->.
  { unfold wc_step. cbn. rewrite !s32_small by lia. by destruct (wc_space x), (wc_space prev), (x =? 10). }
  destruct (IH (if x =? 10 then l + 1 else l) (if wc_space prev && negb (wc_space x) then w + 1 else w) (c + 1) x)
    as [b E]; [destruct (x =? 10); lia|destruct (_ && _); lia|lia|].
  exists b. rewrite E. f_equal; [| |lia].
  - unfold newlines. destruct (Z.eqb_spec x 10) as [->|Hne].
    + rewrite filter_cons_True by done. cbn [length]. lia.
    + rewrite filter_cons_False by done. lia.
  - cbn [zip zip_with]. destruct (wc_space prev) eqn:Ep, (wc_space x) eqn:Ex; cbn [andb negb].
    2: { rewrite filter_cons_True by (cbn; by rewrite Ep, Ex). cbn [length]. lia. }
    all: rewrite filter_cons_False by (cbn; rewrite Ep, Ex; naive_solver); lia.
Qed.

Lemma wc_counts s : Z.of_nat (length s) < 2 ^ 31 ->
  exists b, fold_left wc_step s (Counts 0 0 0 false) = Counts (newlines s) (word_starts s) (Z.of_nat (length s)) b.
Proof. intros Hs. destruct (wc_fold s 0 0 0 32 ltac:(lia) ltac:(lia) ltac:(lia)) as [b E]. by exists b. Qed.

(** C36: [wc] on a readable descriptor prints the numbers of newlines, words and
    bytes of its input, however the reads are cut into pieces. *)
Theorem wc_prints_counts fd name w out :
  s_good w fd = true -> Z.of_nat (length (s_rest w fd)) < 2 ^ 31 ->
  printf (chars "%d %d %d %s" ++ nl) [AInt (newlines (s_rest w fd)); AInt (word_starts (s_rest w fd));
    AInt (Z.of_nat (length (s_rest w fd))); AStr (Some name)] = Some out ->
  wp (wc fd name) (fun r w' => r = inr tt /\ s_out w' 1 = s_out w 1 ++ out) w.
Proof.
  intros Hg Hsz Hout. unfold wc. usr_steps.
  eapply wp_mono; [apply (wp_uwhile _ (fun k w' => s_good w' fd = true /\ s_out w' 1 = s_out w 1 /\
      exists done, s_rest w fd = done ++ s_rest w' fd /\ k = fold_left wc_step done (Counts 0 0 0 false))
    (fun _ w' => Z.of_nat (length (s_rest w' fd)))
    (fun r w' => r = inr (0, fold_left wc_step (s_rest w fd) (Counts 0 0 0 false)) /\ s_out w' 1 = s_out w 1))|].
  - intros k w' (Hg' & Eo & done & Ed & ->). usr_steps.
    eapply wp_mono; [apply (s_read_ok w' fd 512); lia|]. intros [n buf] w1 (O1 & F1 & G1 & R1 & Hr).
    rewrite Hg' in Hr. cbn [fst snd] in Hr. destruct Hr as (-> & Hn & Er & Hend).
    destruct (Z.ltb_spec 0 (Z.of_nat (length buf))) as [Hpos|Hz]; usr_steps.
    + split; [split_and!; [by rewrite G1|by rewrite O1|]|rewrite Er, length_app; lia].
      exists (done ++ buf). split; [by rewrite Ed, Er, app_assoc|]. by rewrite fold_left_app.
    + assert (buf = []) as -> by (apply nil_length_inv; lia). specialize (Hend ltac:(lia) eq_refl).
      rewrite Hend, app_nil_r in Ed. by rewrite O1, Ed.
  - split_and!; [done|done|]. by exists [].
  - lia.
  - intros r w' (-> & Eo). destruct (wc_counts _ Hsz) as [b ->]. usr_steps. cbn [Z.ltb Z.compare wc_l wc_w wc_c].
    usr_steps. unfold fprintf. change (vprintf false) with printf. rewrite Hout.
    eapply wp_mono; [apply uputs_ok|]. intros [] w2 (E2 & _). by rewrite E2, Eo.
Qed.
End utils.

(** ** Witnesses *)

Definition ex_dir : world :=
  World {[ chars "a" := chars "one two" ++ nl; chars "b" := chars "three" ++ nl ]} {[ 0 := chars "x  y" ++ nl ]} ∅ 0
    (fun k _ => k).

Lemma cat_concatenates_witness :
  wp (cat_main [chars "b"; chars "a"]) (fun r w' => r = inl 0 /\
    written_to w' 1 = (chars "three" ++ nl) ++ chars "one two" ++ nl) ex_dir.
Proof.
  eapply wp_mono.
  - apply (cat_concatenates [chars "b"; chars "a"] [chars "three" ++ nl; chars "one two" ++ nl] ex_dir);
      [discriminate|reflexivity|repeat constructor].
  - intros r w' (-> & Eo & _). by split.
Defined.

Lemma wc_prints_counts_witness :
  wp (wc 0 []) (fun r w' => r = inr tt /\ written_to w' 1 = chars "1 2 5 " ++ nl) ex_dir.
Proof.
  eapply wp_mono.
  - apply (wc_prints_counts 0 [] ex_dir (chars "1 2 5 " ++ nl)); [reflexivity|reflexivity|vm_compute; reflexivity].
  - intros r w' (-> & Eo). by split.
Defined.
