(* ===== verification/Find.v ===== *)
(** * find and ls (user/find.c, user/ls.c)

    The two programs that walk directories.  The file system they see is a parameter:
    which paths can be opened and what [fstat] says of them; a directory also has its
    entries.  A program is the list of messages it prints. *)

From stdpp Require Import base list gmap strings.
From Stdlib Require Import ZArith Lia.
From S2P Require Import Prelude Printf UserSys Ulib Grep.

#[local] Open Scope Z_scope.

Definition SLASH : Z := 47.
Definition T_DIR : Z := 1.
Definition T_FILE : Z := 2.
Definition T_DEVICE : Z := 3.
Definition DIRSIZ : nat := 14.

(** [struct dirent] and what [fstat] reports, with the entries of a directory. *)
Record dirent : Type := Dirent { de_inum : Z; de_name : list Z }.
Record node : Type := Node { st_type : Z; st_ino : Z; st_size : Z; n_entries : list dirent }.

(** The last component of a path. *)
Definition not_slash (x : Z) : bool := negb (x =? SLASH).
Fixpoint before_slash (s : list Z) : list Z :=
  match s with x :: s' => if not_slash x then x :: before_slash s' else [] | [] => [] end.
Definition find_fmtname (path : list Z) : list Z := reverse (before_slash (reverse path)).

(** find.c has its own copy of the matcher of grep.c. *)
Definition find_matchstar : (list Z -> bool) -> Z -> list Z -> bool := matchstar.
Definition find_matchhere : list Z -> list Z -> bool := matchhere.
Definition find_match : list Z -> list Z -> bool := match_.

(** Messages: a name that was found, the failures. *)
Inductive message : Type :=
| Found (path : list Z)
| Listed (name : list Z) (type ino size : Z)
| CannotOpen (path : list Z)
| CannotStat (path : list Z)
| TooLong
| ArgsError.

(** The descriptor and the text of a message of find. *)
Definition find_text (m : message) : Z * option (list Z) :=
  match m with
  | Found path => (1, printf (chars "%s" ++ [NL]) [AStr (Some path)])
  | CannotOpen path => (2, printf (chars "find: cannot open %s" ++ [NL]) [AStr (Some path)])
  | CannotStat path => (1, printf (chars "find: cannot stat %s" ++ [NL]) [AStr (Some path)])
  | TooLong => (1, printf (chars "find: path too long" ++ [NL]) [])
  | ArgsError => (2, printf (chars "find: args error" ++ [NL]) [])
  | Listed _ _ _ _ => (1, None)
  end.

Section walk.
Context (fopen : list Z -> bool) (fstat : list Z -> option node).

(** [stat] of user/ulib.c. *)
Definition stat (path : list Z) : option node := if fopen path then fstat path else None.

(** The path of an entry: [memmove(p, de.name, DIRSIZ); p[DIRSIZ] = 0]. *)
Definition entry_path (path : list Z) (de : dirent) : list Z :=
  path ++ SLASH :: to_nul (take DIRSIZ (de_name de)).
Definition entry_name (de : dirent) : list Z := to_nul (take DIRSIZ (de_name de)).

Definition long_path (path : list Z) : bool := 512 <? Z.of_nat (length path) + 1 + 14 + 1.

(** ** find *)

Definition wanted (pattern : list Z) (is_name : bool) (path : list Z) : bool :=
  if is_name then strcmp pattern (find_fmtname path) =? 0 else find_match pattern (find_fmtname path).

Definition skipped (de : dirent) : bool :=
  (de_inum de =? 0) || (strcmp (entry_name de) (chars ".") =? 0) || (strcmp (entry_name de) (chars "..") =? 0).

(** The loop over the entries; [rec] is the recursive call. *)
Fixpoint find_entries (rec : list Z -> option (list message)) (path : list Z) (es : list dirent)
  : option (list message) :=
  match es with
  | [] => Some []
  | de :: es' =>
      if skipped de then find_entries rec path es'
      else
        let buf := entry_path path de in
        match stat buf with
        | None => cons (CannotStat buf) <$> find_entries rec path es'
        | Some _ =>
            match rec buf, find_entries rec path es' with
            | Some out, Some out' => Some (out ++ out')
            | _, _ => None
            end
        end
  end.

(** [None] when the recursion is deeper than [fuel]. *)
Fixpoint find (fuel : nat) (pattern : list Z) (is_name : bool) (path : list Z) : option (list message) :=
  match fuel with
  | O => None
  | S fuel' =>
      if negb (fopen path) then Some [CannotOpen path]
      else
        match fstat path with
        | None => Some [CannotStat path]
        | Some st =>
            if (st_type st =? T_DEVICE) || (st_type st =? T_FILE) then
              Some (if wanted pattern is_name path then [Found path] else [])
            else if st_type st =? T_DIR then
              if long_path path then Some [TooLong]
              else find_entries (find fuel' pattern is_name) path (n_entries st)
            else Some []
        end
  end.

(** [argv] without the name of the program; the status and the messages. *)
Definition find_main (fuel : nat) (argv : list (list Z)) : option (Z * list message) :=
  match argv with
  | path :: arg :: rest =>
      if strcmp arg (chars "-name") =? 0 then
        match rest with
        | [] => Some (1, [ArgsError])
        | _ => (fun outs => (0, concat outs)) <$> mapM (fun pattern => find fuel pattern true path) rest
        end
      else (fun outs => (0, concat outs)) <$> mapM (fun pattern => find fuel pattern false path) (arg :: rest)
  | _ => Some (1, [ArgsError])
  end.

(** ** ls *)

(** The last component, padded with blanks to DIRSIZ characters. *)
Definition ls_fmtname (path : list Z) : list Z :=
  let p := find_fmtname path in
  if (DIRSIZ <=? length p)%nat then p else p ++ replicate (DIRSIZ - length p) 32.

Definition ls_line (path : list Z) (st : node) : message :=
  Listed (ls_fmtname path) (st_type st) (st_ino st) (st_size st).
Fixpoint ls_entries (path : list Z) (es : list dirent) : list message :=
  match es with
  | [] => []
  | de :: es' =>
      if de_inum de =? 0 then ls_entries path es'
      else
        let buf := entry_path path de in
        match stat buf with
        | None => CannotStat buf :: ls_entries path es'
        | Some st => ls_line buf st :: ls_entries path es'
        end
  end.
Definition ls (path : list Z) : list message :=
  if negb (fopen path) then [CannotOpen path]
  else
    match fstat path with
    | None => [CannotStat path]
    | Some st =>
        if (st_type st =? T_DEVICE) || (st_type st =? T_FILE) then [ls_line path st]
        else if st_type st =? T_DIR then
          if long_path path then [TooLong] else ls_entries path (n_entries st)
        else []
    end.
Definition ls_main (argv : list (list Z)) : list message :=
  match argv with
  | [] => ls (chars ".")
  | _ => argv ≫= ls
  end.

(** ** The files below a path *)

(** A directory that find enters, and the paths it visits. *)
Definition entered (p : list Z) (st : node) : Prop :=
  fopen p = true /\ fstat p = Some st /\ st_type st = T_DIR /\ long_path p = false.
Inductive visits (path : list Z) : list Z -> Prop :=
| visits_self : visits path path
| visits_entry p st de :
    visits path p -> entered p st -> de ∈ n_entries st -> skipped de = false ->
    stat (entry_path p de) <> None -> visits path (entry_path p de).

Definition is_file (p : list Z) : Prop :=
  fopen p = true /\ exists st, fstat p = Some st /\ (st_type st = T_DEVICE \/ st_type st = T_FILE).

Lemma find_entries_some rec path es :
  (forall de, de ∈ es -> is_Some (rec (entry_path path de))) -> is_Some (find_entries rec path es).
Proof.
  induction es as [|de es IH]; intros Hrec; cbn [find_entries]; [done|].
  destruct IH as [out' E']; [intros de' Hd; apply Hrec; by right|]. rewrite E'.
  destruct (skipped de); [done|]. cbv zeta. destruct (stat _); [|done].
  destruct (Hrec de) as [out E]; [by left|]. by rewrite E.
Qed.

(** The path grows with every level and find gives up on long ones, so the recursion
    is bounded whatever the file system looks like. *)
Lemma find_depth fuel pattern is_name path :
  (512 < fuel + length path)%nat -> (0 < fuel)%nat -> is_Some (find fuel pattern is_name path).
Proof.
  revert path. induction fuel as [|fuel IH]; intros path Hf Hp; [lia|]. cbn [find].
  destruct (negb (fopen path)); [done|]. destruct (fstat path) as [st|]; [|done].
  destruct (_ || _); [done|]. destruct (st_type st =? T_DIR); [|done].
  destruct (long_path path) eqn:El; [done|]. apply find_entries_some. intros de _. unfold long_path in El.
  apply Z.ltb_ge in El. apply IH; [|lia]. unfold entry_path. rewrite length_app. cbn [length]. lia.
Qed.

(** What the entries contribute. *)
Lemma find_entries_found rec path es out x :
  find_entries rec path es = Some out ->
  Found x ∈ out <-> exists de sub, de ∈ es /\ skipped de = false /\ stat (entry_path path de) <> None /\
    rec (entry_path path de) = Some sub /\ Found x ∈ sub.
Proof.
  revert out. induction es as [|de es IH]; intros out; cbn [find_entries].
  { intros [= <-]. split; [by intros ?%elem_of_nil|]. intros (de & _ & H & _). by apply elem_of_nil in H. }
  destruct (skipped de) eqn:Esk.
  { intros E. rewrite (IH out E). split; intros (d & sub & H & H'); exists d, sub.
    - split; [by right|done].
    - apply elem_of_cons in H as [->|H]; [destruct H' as (H' & _); congruence|done]. }
  cbv zeta. destruct (stat (entry_path path de)) as [st|] eqn:Est.
  - destruct (rec (entry_path path de)) as [sub|] eqn:Erec; [|done].
    destruct (find_entries rec path es) as [out'|] eqn:Ees; [|done]. intros [= <-]. rewrite elem_of_app, (IH out' eq_refl).
    split.
    + intros [Hin|(d & s' & H & H')]; [exists de, sub|exists d, s']; (split; [by constructor|done]) || idtac.
      split_and!; try done; [by left|by rewrite Est].
    + intros (d & s' & H & Hs & Hst & Er & Hin). apply elem_of_cons in H as [->|H]; [left; congruence|right].
      by exists d, s'.
  - destruct (find_entries rec path es) as [out'|] eqn:Ees; [|done]. intros [= <-].
    rewrite elem_of_cons, (IH out' eq_refl). split.
    + intros [?|(d & s' & H & H')]; [done|]. exists d, s'. split; [by right|done].
    + intros (d & s' & H & Hs & Hst & H'). right. apply elem_of_cons in H as [->|H]; [by rewrite Est in Hst|].
      by exists d, s'.
Qed.

Lemma find_entries_sub rec path es out de :
  find_entries rec path es = Some out -> de ∈ es -> skipped de = false -> stat (entry_path path de) <> None ->
  is_Some (rec (entry_path path de)).
Proof.
  revert out. induction es as [|d es IH]; intros out E Hd Hs Hst; [by apply elem_of_nil in Hd|].
  cbn [find_entries] in E. apply elem_of_cons in Hd as [<-|Hd].
  - rewrite Hs in E. cbv zeta in E. destruct (stat _); [|done]. by destruct (rec _).
  - destruct (skipped d); [by eapply IH|]. cbv zeta in E. destruct (find_entries rec path es) as [o|]; [by eapply IH|].
    destruct (stat (entry_path path d)); [by destruct (rec (entry_path path d))|done].
Qed.

Lemma visits_below path st de p :
  entered path st -> de ∈ n_entries st -> skipped de = false -> stat (entry_path path de) <> None ->
  visits (entry_path path de) p -> visits path p.
Proof.
  intros He Hd Hs Hst. induction 1 as [|p st' de' _ IH He' Hd' Hs' Hst'].
  - apply (visits_entry path path st); [constructor|done..].
  - by apply (visits_entry path p st').
Qed.

Lemma visits_cases path p :
  visits path p <-> p = path \/ exists st de, entered path st /\ de ∈ n_entries st /\ skipped de = false /\
    stat (entry_path path de) <> None /\ visits (entry_path path de) p.
Proof.
  split.
  - induction 1 as [|p st de _ IH He Hd Hs Hst]; [by left|right].
    destruct IH as [->|(st0 & de0 & ? & ? & ? & ? & Hv)].
    + exists st, de. split_and!; try done. constructor.
    + exists st0, de0. split_and!; try done. by apply (visits_entry _ p st).
  - intros [->|(st & de & ? & ? & ? & ? & Hv)]; [constructor|]. by eapply visits_below.
Qed.

Lemma find_found fuel pattern is_name path out p :
  find fuel pattern is_name path = Some out ->
  Found p ∈ out <-> visits path p /\ is_file p /\ wanted pattern is_name p = true.
Proof.
  revert path out. induction fuel as [|fuel IH]; intros path out; [done|]. cbn [find].
  assert (forall st, entered path st -> is_file path -> False) as Hexcl.
  { intros st (_ & E & Ht & _) (_ & st' & E' & Ht'). rewrite E in E'. injection E' as <-. unfold T_DIR, T_DEVICE, T_FILE in *. lia. }
  (* paths that are not entered contribute only themselves *)
  assert ((forall st, ~ entered path st) -> visits path p <-> p = path) as Hleaf.
  { intros Hn. rewrite visits_cases. split; [|by left]. intros [->|(st & de & He & _)]; [done|]. by destruct (Hn st). }
  destruct (fopen path) eqn:Eo; cbn [negb].
  2: { intros [= <-]. rewrite list_elem_of_singleton, Hleaf by (intros st (? & _); congruence).
       split; [done|]. intros (-> & (? & _) & _). congruence. }
  destruct (fstat path) as [st|] eqn:Es.
  2: { intros [= <-]. rewrite list_elem_of_singleton, Hleaf by (intros st (_ & ? & _); congruence).
       split; [done|]. intros (-> & (_ & st & ? & _) & _). congruence. }
  destruct ((st_type st =? T_DEVICE) || (st_type st =? T_FILE)) eqn:Ef.
  { rewrite orb_true_iff, !Z.eqb_eq in Ef. assert (is_file path) as Hf by (split; [done|by exists st]).
    intros [= <-]. rewrite Hleaf by (intros st' He; by apply (Hexcl st')). destruct (wanted pattern is_name path) eqn:Ew.
    - rewrite list_elem_of_singleton. split; [by intros [= ->]|]. by intros (-> & _).
    - rewrite elem_of_nil. split; [done|]. intros (-> & _ & ?). congruence. }
  rewrite orb_false_iff, !Z.eqb_neq in Ef.
  assert (~ is_file path) as Hnf by (intros (_ & st' & E' & Ht'); rewrite Es in E'; injection E' as <-; tauto).
  destruct (Z.eqb_spec (st_type st) T_DIR) as [Ht|Ht].
  2: { intros [= <-]. rewrite elem_of_nil, Hleaf by (intros st' (_ & E' & ? & _); congruence).
       split; [done|]. by intros (-> & ? & _). }
  destruct (long_path path) eqn:El.
  { intros [= <-]. rewrite list_elem_of_singleton, Hleaf by (intros st' (_ & _ & _ & ?); congruence).
    split; [done|]. by intros (-> & ? & _). }
  intros E. rewrite (find_entries_found _ _ _ _ _ E), visits_cases.
  assert (entered path st) as He by done. split.
  - intros (de & sub & Hd & Hs & Hst & Er & Hin). apply (IH _ _ Er) in Hin as (Hv & Hf & Hw).
    split_and!; [|done|done]. right. by exists st, de.
  - intros ([->|(st' & de & (_ & E' & _) & Hd & Hs & Hst & Hv)] & Hf & Hw); [done|].
    rewrite Es in E'. injection E' as <-. pose proof (find_entries_sub (find fuel pattern is_name) path (n_entries st) out de E Hd Hs Hst) as [sub Er].
    exists de, sub. split_and!; try done. by apply (IH _ _ Er).
Qed.

End walk.
