(* ===== verification/Pipeline.v ===== *)
(** * Programs made of several processes (user/primes.c, user/xargs.c, user/pingpong.c)

    Processes connected by pipes are functions on what goes through the pipes (a
    pipe delivers the bytes written to it in order, and ends when its writers have
    closed it); a process that waits for its child goes on after the child has
    ended. *)

From Equations Require Import Equations.
From stdpp Require Import base list gmap strings list_numbers.
From Stdlib Require Import ZArith Lia Znumtheory Sorting.Sorted.
From S2P Require Import Prelude Printf UserSys Ulib Grep.

#[local] Open Scope Z_scope.

(** ** primes *)

(** The filter of one process: what it passes on of the numbers it reads. *)
Definition pass_on (previous : Z) (l : list Z) : list Z :=
  List.filter (fun next => negb (Z.rem next previous =? 0)) l.

Lemma pass_on_shorter previous l : (length (pass_on previous l) <= length l)%nat.
Proof.
  unfold pass_on. induction l as [|x l IH]; [done|]. cbn [List.filter length]. destruct (negb _); cbn [length]; lia.
Qed.

(** [primes(fd)]: the numbers printed by the process that reads [input] and by its
    descendants. *)
Equations primes (input : list Z) : list Z by wf (length input) lt :=
  primes [] := [];
  primes (previous :: rest) := previous :: primes (pass_on previous rest).
Next Obligation. intros. cbn. apply Nat.lt_succ_r, pass_on_shorter. Qed.

Definition primes_main (maxnum : Z) : list Z := primes (seqZ 2 (maxnum - 1)).

(** No divisor from 2 to below [k]. *)
Definition rough (k n : Z) : Prop := forall d, 2 <= d < k -> ~ (d | n).

Lemma rough_prime n : 2 <= n -> rough n n <-> prime n.
Proof.
  intros Hn. split.
  - intros Hr. apply prime_alt. split; [lia|]. intros d Hd. apply Hr. lia.
  - intros Hp d Hd. apply prime_alt in Hp as [_ Hp]. apply Hp. lia.
Qed.

(** Sieving with a prime and skipping a composite number keep the numbers without
    small divisors. *)
Lemma rough_succ k n : rough (k + 1) n <-> rough k n /\ (2 <= k -> ~ (k | n)).
Proof.
  split.
  - intros Hr. split; [intros d Hd; apply Hr; lia|]. intros Hk. apply Hr. lia.
  - intros [Hr Hk] d Hd. destruct (decide (d = k)) as [->|]; [by apply Hk; lia|]. apply Hr. lia.
Qed.
Lemma rough_skip k n : 2 <= k -> ~ rough k k -> rough k n -> ~ (k | n).
Proof.
  intros Hk Hnr Hr Hd. apply Hnr. intros d Hd' Hdk. apply (Hr d Hd'). by transitivity k.
Qed.

(** The same as a test. *)
Definition roughb (k n : Z) : bool := forallb (fun d => negb (n mod d =? 0)) (seqZ 2 (k - 2)).
Lemma roughb_spec k n : roughb k n = true <-> rough k n.
Proof.
  unfold roughb, rough. rewrite forallb_forall. setoid_rewrite <- list_elem_of_In. setoid_rewrite elem_of_seqZ.
  split; intros Hr d Hd.
  - specialize (Hr d ltac:(lia)). apply negb_true_iff, Z.eqb_neq in Hr. intros Hdiv. apply Hr. by apply Z.mod_divide; [lia|].
  - apply negb_true_iff, Z.eqb_neq. intros E. apply (Hr d ltac:(lia)). apply Z.mod_divide; [lia|done].
Qed.

Lemma filter_filter {A} (f g h : A -> bool) l :
  (forall x, x ∈ l -> h x = f x && g x) -> List.filter f (List.filter g l) = List.filter h l.
Proof.
  induction l as [|x l IH]; intros Hh; [done|]. cbn [List.filter]. rewrite (Hh x) by (by left).
  rewrite <- IH by (intros y Hy; apply Hh; by right).
  destruct (g x); cbn [List.filter]; destruct (f x); done.
Qed.
Lemma filter_same {A} (f g : A -> bool) l : (forall x, x ∈ l -> f x = g x) -> List.filter f l = List.filter g l.
Proof.
  induction l as [|x l IH]; intros Hh; [done|]. cbn [List.filter]. rewrite (Hh x) by (by left).
  rewrite IH by (intros y Hy; apply Hh; by right). done.
Qed.

Lemma rem_divides n k : 2 <= k -> 0 <= n -> (Z.rem n k =? 0) = true <-> (k | n).
Proof. intros Hk Hn. rewrite Z.eqb_eq, Z.rem_mod_nonneg by lia. apply Z.mod_divide. lia. Qed.

(** The sieve started at [k]. *)
Lemma primes_sieve m k :
  2 <= k -> primes (List.filter (roughb k) (seqZ k (Z.of_nat m))) = List.filter (fun n => roughb n n) (seqZ k (Z.of_nat m)).
Proof.
  revert k. induction m as [|m IH]; intros k Hk; [by simp primes|].
  rewrite seqZ_cons by lia. replace (Z.pred (Z.of_nat (S m))) with (Z.of_nat m) by lia. unfold Z.succ.
  cbn [List.filter].
  assert (forall n, n ∈ seqZ (k + 1) (Z.of_nat m) -> k < n) as Hgt by (intros n Hn%elem_of_seqZ; lia).
  destruct (roughb k k) eqn:Ek.
  - simp primes. f_equal. rewrite <- IH by lia. f_equal. unfold pass_on. apply filter_filter.
    intros n Hn%Hgt. apply eq_true_iff_eq. rewrite andb_true_iff, negb_true_iff, <- not_true_iff_false.
    rewrite rem_divides, !roughb_spec, rough_succ by lia. tauto.
  - rewrite <- IH by lia. f_equal. apply filter_same. intros n Hn%Hgt. apply eq_true_iff_eq.
    assert (~ rough k k) as Hk' by (rewrite <- roughb_spec; congruence).
    rewrite !roughb_spec, rough_succ. split; [|tauto]. intros Hr. split; [done|]. intros _. by apply rough_skip.
Qed.


(** ** xargs *)

(** What the processes of xargs share: the input, the commands they have tried to
    run and those that ran, and the number of forks. *)
Record xargs_state : Type := Xargs {
  x_in : list Z;
  x_tried : list (list (list Z));
  x_ran : list (list (list Z));
  x_forks : nat;
}.
#[global] Instance eta_xargs : Eta xargs_state := fun x => Xargs (x_in x) (x_tried x) (x_ran x) (x_forks x).

Section xargs.
(** Whether the [k]-th fork succeeds, and what a command does to the input when it
    can be run. *)
Context (fork_ok : nat -> bool) (runs : list (list Z) -> option (list Z -> list Z)).

Definition MAX_ARG_LEN : nat := 1024.

(** The child's [exec]: it does not return when the command can be run. *)
Definition xargs_exec (argv : list (list Z)) : M xargs_state bool :=
  modify (fun x => x <| x_tried := x_tried x ++ [argv] |>) ;;;
  match runs argv with
  | Some f =>
      modify (fun x => x <| x_ran := x_ran x ++ [argv] |> <| x_in := f (x_in x) |>) ;;;
      ret true
  | None => ret false
  end.

(** The loop of [main]; [pre_arg] are the [idx] bytes collected.  A store outside the
    array is undefined.  A child whose [exec] fails stays in the loop; its parent
    waits until it has ended. *)
Fixpoint xargs_loop (fuel : nat) (args : list (list Z)) (pre_arg : list Z) : M xargs_state Z :=
  match fuel with
  | O => hang
  | S fuel' =>
      inp <- gets x_in ;;
      match inp with
      | [] => ret 0
      | tmp :: rest =>
          modify (fun x => x <| x_in := rest |>) ;;;
          if (MAX_ARG_LEN <=? length pre_arg)%nat then panic "undefined"
          else if tmp =? 10 then
            k <- gets x_forks ;;
            modify (fun x => x <| x_forks := S k |>) ;;;
            if negb (fork_ok k) then ret 1
            else
              ok <- xargs_exec (args ++ [to_nul pre_arg]) ;;
              (if ok : bool then ret 0 else xargs_loop fuel' args pre_arg) ;;;
              xargs_loop fuel' args []
          else xargs_loop fuel' args (pre_arg ++ [tmp])
      end
  end.

(** [argv] without the name of the program. *)
Definition xargs_main (argv : list (list Z)) : M xargs_state Z :=
  match argv with
  | [] => ret 1
  | _ => inp <- gets x_in ;; xargs_loop (S (length inp)) argv []
  end.

(** When every command can be run and leaves the input alone. *)
Lemma xargs_loop_spec fuel args pre x :
  (forall k, fork_ok k = true) -> (forall argv, runs argv = Some id) ->
  (length (x_in x) < fuel)%nat -> NL ∉ pre -> Forall (fun c => c <> 0) (pre ++ x_in x) ->
  (forall a l b, pre ++ x_in x = a ++ l ++ b -> NL ∉ l -> (length l < MAX_ARG_LEN)%nat) ->
  wp (xargs_loop fuel args pre) (fun r x' => r = 0 /\ x_in x' = [] /\
    x_ran x' = x_ran x ++ map (fun l => args ++ [l]) (lines_of (pre ++ x_in x))) x.
Proof.
  intros Hfork Hruns. revert pre x. induction fuel as [|fuel IH]; intros pre x Hf Hpre Hnz Hlen; [lia|].
  cbn [xargs_loop]. apply wp_bind, wp_gets. destruct (x_in x) as [|c rest] eqn:Ein.
  { apply wp_ret. rewrite app_nil_r, lines_of_open by done. cbn. by rewrite app_nil_r. }
  pose proof (Hlen [] pre (c :: rest) eq_refl Hpre) as Hp. apply wp_bind, wp_modify.
  destruct (Nat.leb_spec MAX_ARG_LEN (length pre)); [lia|]. cbn [length] in Hf. destruct (Z.eqb_spec c 10) as [->|Hne].
  - apply wp_bind, wp_gets, wp_bind, wp_modify. rewrite Hfork. cbn [negb]. apply wp_bind. unfold xargs_exec.
    apply wp_bind, wp_modify. rewrite Hruns. apply wp_bind, wp_modify, wp_ret, wp_bind, wp_ret.
    assert (to_nul pre = pre) as ->.
    { apply Forall_app in Hnz as [Hnz _]. clear -Hnz. induction pre as [|y pre IH]; [done|].
      apply Forall_cons in Hnz as [Hy Hnz]. cbn [to_nul]. destruct (Z.eqb_spec y 0); [done|]. by rewrite IH. }
    eapply wp_mono; [apply IH; cbn; unfold id|].
    + lia.
    + apply not_elem_of_nil.
    + apply Forall_app in Hnz as [_ Hnz]. by apply Forall_cons in Hnz as [_ Hnz].
    + intros a l b E Hl. apply (Hlen (pre ++ NL :: a) l b); [|done]. rewrite <- app_assoc. cbn. by rewrite <- E.
    + intros r x' (-> & Ei & Er). split_and!; [done|done|]. rewrite Er. cbn. unfold id.
      change (10 :: rest) with (NL :: rest). rewrite lines_of_line by done. cbn. by rewrite <- app_assoc.
  - eapply wp_mono; [apply IH; cbn|].
    + lia.
    + rewrite elem_of_app, list_elem_of_singleton. unfold NL in *. naive_solver.
    + by rewrite <- app_assoc.
    + intros a l b E Hl. apply (Hlen a l b); [|done]. rewrite <- E, <- app_assoc. done.
    + intros r x' (-> & Ei & Er). split_and!; [done|done|]. rewrite Er. cbn. by rewrite <- app_assoc.
Qed.

(** C39: when the command can be run and does not read the input, xargs runs it once
    for every complete line of its input, in order, with the line as its last
    argument; lines must be shorter than its buffer. *)
Theorem xargs_runs_lines argv x :
  argv <> [] -> (forall k, fork_ok k = true) -> (forall a, runs a = Some id) ->
  Forall (fun c => c <> 0) (x_in x) ->
  (forall a l b, x_in x = a ++ l ++ b -> NL ∉ l -> (length l < MAX_ARG_LEN)%nat) ->
  wp (xargs_main argv) (fun r x' => r = 0 /\ x_in x' = [] /\
    x_ran x' = x_ran x ++ map (fun l => argv ++ [l]) (lines_of (x_in x))) x.
Proof.
  intros Hne Hfork Hruns Hnz Hlen. unfold xargs_main. destruct argv as [|a argv]; [done|].
  apply wp_bind, wp_gets. apply (xargs_loop_spec _ (a :: argv) [] x); [done|done|lia|apply not_elem_of_nil|done|done].
Qed.
End xargs.

Lemma xargs_runs_lines_witness :
  wp (xargs_main (fun _ => true) (fun _ => Some id) [chars "echo"; chars "hi"]) (fun r x' => r = 0 /\
    x_ran x' = [[chars "echo"; chars "hi"; chars "1"]; [chars "echo"; chars "hi"; chars "2"]])
    (Xargs (chars "1" ++ [NL] ++ chars "2" ++ [NL]) [] [] 0).
Proof.
  eapply wp_mono.
  - apply (xargs_runs_lines (fun _ => true) (fun _ => Some id) [chars "echo"; chars "hi"]
      (Xargs (chars "1" ++ [NL] ++ chars "2" ++ [NL]) [] [] 0)); [discriminate|reflexivity|reflexivity| |].
    + repeat (apply Forall_cons; split; [discriminate|]). apply Forall_nil_2.
    + intros a l b E _. apply (f_equal length) in E. rewrite !length_app in E. cbn in E. unfold MAX_ARG_LEN. lia.
  - intros r x' (-> & _ & Er). by split.
Defined.


(** ** pingpong *)

(** The text printed by a process whose buffer had the contents [buf] when it
    received the message [msg]: the message is sent without a terminating NUL. *)
Definition received (pid : Z) (msg buf : list Z) : option (list Z) :=
  printf (chars "%d: received %s" ++ [NL]) [AInt pid; AStr (Some (msg ++ drop (length msg) buf))].
Definition pingpong_main (parent child : Z) (child_buf parent_buf : list Z) : list (option (list Z)) :=
  [received child (chars "ping") child_buf; received parent (chars "pong") parent_buf].
