(* ===== verification/Sh.v ===== *)
(** * The shell (user/sh.c)

    The parser runs on the suffix of the line that is still to be read; a position
    in the line is the number of bytes from there to its end, so that a token is the
    pair of the positions of its start and end, as in the C code.  A command is run
    by a tree of system calls. *)

From stdpp Require Import base list gmap strings.
From Stdlib Require Import ZArith Lia.
From S2P Require Import Prelude Printf UserSys Ulib.

#[local] Open Scope Z_scope.

Definition O_RDONLY : Z := 0.
Definition O_WRONLY : Z := 1.
Definition O_CREATE : Z := 0x200.
Definition O_TRUNC : Z := 0x400.
Definition MAXARGS : nat := 10.

(** Start and end of a word. *)
Definition token : Type := nat * nat.

(** [struct cmd] and its variants; [str] is a token, later a string. *)
Inductive cmd (str : Type) : Type :=
| EXEC (argv : list str)
| REDIR (c : cmd str) (file : str) (mode fd : Z)
| PIPE (left right : cmd str)
| LIST (left right : cmd str)
| BACK (c : cmd str).
Arguments EXEC {str}.
Arguments REDIR {str}.
Arguments PIPE {str}.
Arguments LIST {str}.
Arguments BACK {str}.

(** ** Tokens *)

Definition whitespace : list Z := [32; 9; 13; 10; 11].
Definition symbols : list Z := chars "<|>&;()".
Definition in_set (set : list Z) (c : Z) : bool :=
  match strchr set c with Some _ => true | None => false end.

Fixpoint skip_white (s : list Z) : list Z :=
  match s with
  | c :: s' => if in_set whitespace c then skip_white s' else s
  | [] => []
  end.
Fixpoint skip_word (s : list Z) : list Z :=
  match s with
  | c :: s' => if negb (in_set whitespace c) && negb (in_set symbols c) then skip_word s' else s
  | [] => []
  end.

Definition P (A : Type) : Type := M (list Z) A.
Definition tok_word : Z := 97.    (* 'a' *)
Definition tok_append : Z := 43.  (* '+' *)

(** [gettoken]: the token and its extent. *)
Definition gettoken : P (Z * token) :=
  s <- gets id ;;
  let s := skip_white s in
  let q := length s in
  let '(r, s) :=
    match s with
    | [] => (0, s)
    | c :: s' =>
        if in_set (chars "|();&<") c then (c, s')
        else if c =? 62 then
          match s' with
          | d :: s'' => if d =? 62 then (tok_append, s'') else (c, s')
          | [] => (c, s')
          end
        else (tok_word, skip_word s)
    end in
  let eq := length s in
  modify (fun _ => skip_white s) ;;;
  ret (r, (q, eq)).

Definition peek (toks : list Z) : P bool :=
  modify skip_white ;;;
  s <- gets id ;;
  ret (match s with c :: _ => in_set toks c | [] => false end).

(** ** Parsing *)

(** A redirection: file, mode and descriptor. *)
Definition redir : Type := token * Z * Z.
Definition redircmd (c : cmd token) (r : redir) : cmd token := let '(file, mode, fd) := r in REDIR c file mode fd.
Definition wrap_redirs (c : cmd token) (rs : list redir) : cmd token := fold_left redircmd rs c.

(** The redirections read by [parseredirs], in order. *)
Definition read_redirs : P (list redir) :=
  while_ (fun rs =>
    more <- peek (chars "<>") ;;
    if more : bool then
      t <- gettoken ;;
      let '(tok, _) := t in
      f <- gettoken ;;
      let '(kind, file) := f in
      if negb (kind =? tok_word) then panic "missing file for redirection"
      else if tok =? 60 then ret (Next (rs ++ [(file, O_RDONLY, 0)]))
      else if tok =? 62 then ret (Next (rs ++ [(file, Z.lor (Z.lor O_WRONLY O_CREATE) O_TRUNC, 1)]))
      else if tok =? tok_append then ret (Next (rs ++ [(file, Z.lor O_WRONLY O_CREATE, 1)]))
      else ret (Next rs)
    else ret (Brk rs)) [].
Definition parseredirs (c : cmd token) : P (cmd token) := rs <- read_redirs ;; ret (wrap_redirs c rs).

(** The loop of [parseexec]: the arguments go into the exec node, which the
    redirections read before and between them surround. *)
Definition read_args (rs : list redir) : P (list token * list redir) :=
  while_ (fun '(argv, rs) =>
    stop <- peek (chars "|)&;") ;;
    if stop : bool then ret (Brk (argv, rs))
    else
      t <- gettoken ;;
      let '(tok, word) := t in
      if tok =? 0 then ret (Brk (argv, rs))
      else if negb (tok =? tok_word) then panic "syntax"
      else if (MAXARGS <=? length argv + 1)%nat then panic "too many args"
      else
        more <- read_redirs ;;
        ret (Next (argv ++ [word], rs ++ more))) ([], rs).

Fixpoint parseline (fuel : nat) : P (cmd token) :=
  match fuel with
  | O => hang
  | S fuel' =>
      c <- parsepipe fuel' ;;
      c <- while_ (fun c =>
        amp <- peek (chars "&") ;;
        if amp : bool then gettoken ;;; ret (Next (BACK c)) else ret (Brk c)) c ;;
      semi <- peek (chars ";") ;;
      if semi : bool then gettoken ;;; r <- parseline fuel' ;; ret (LIST c r) else ret c
  end
with parsepipe (fuel : nat) : P (cmd token) :=
  match fuel with
  | O => hang
  | S fuel' =>
      c <- parseexec fuel' ;;
      bar <- peek (chars "|") ;;
      if bar : bool then gettoken ;;; r <- parsepipe fuel' ;; ret (PIPE c r) else ret c
  end
with parseexec (fuel : nat) : P (cmd token) :=
  match fuel with
  | O => hang
  | S fuel' =>
      open <- peek (chars "(") ;;
      if open : bool then parseblock fuel'
      else
        rs <- read_redirs ;;
        r <- read_args rs ;;
        let '(argv, rs) := r in
        ret (wrap_redirs (EXEC argv) rs)
  end
with parseblock (fuel : nat) : P (cmd token) :=
  match fuel with
  | O => hang
  | S fuel' =>
      open <- peek (chars "(") ;;
      if negb open then panic "parseblock"
      else
        gettoken ;;;
        c <- parseline fuel' ;;
        close <- peek (chars ")") ;;
        if negb close then panic "syntax - missing )"
        else gettoken ;;; parseredirs c
  end.

(** ** Terminating the words *)

(** The end positions of the words of a command. *)
Fixpoint ends (c : cmd token) : list nat :=
  match c with
  | EXEC argv => argv.*2
  | REDIR c file _ _ => ends c ++ [file.2]
  | PIPE l r | LIST l r => ends l ++ ends r
  | BACK c => ends c
  end.
(** [*eargv = 0]: position [e] is counted from the end of the line, whose last byte
    is followed by the terminating NUL. *)
Definition put_nul (line : list Z) (e : nat) : list Z := <[(length line - e)%nat := 0]> line.
Definition nulterminate (line : list Z) (c : cmd token) : list Z := fold_left put_nul (ends c) line.

(** The string a pointer into the line stands for. *)
Definition string_at (line : list Z) (q : nat) : list Z := to_nul (drop (length line - q) line).
Fixpoint cmd_map {A B} (f : A -> B) (c : cmd A) : cmd B :=
  match c with
  | EXEC argv => EXEC (map f argv)
  | REDIR c file mode fd => REDIR (cmd_map f c) (f file) mode fd
  | PIPE l r => PIPE (cmd_map f l) (cmd_map f r)
  | LIST l r => LIST (cmd_map f l) (cmd_map f r)
  | BACK c => BACK (cmd_map f c)
  end.

Definition parse_fuel (s : list Z) : nat := 4 * length s + 4.
(** [parsecmd] on a line without NUL bytes: the command with its strings, or what is
    left of the line when it is not a command. *)
Definition parsecmd (line : list Z) : P (list Z + cmd (list Z)) :=
  modify (fun _ => line) ;;;
  c <- parseline (parse_fuel line) ;;
  peek [] ;;;
  s <- gets id ;;
  if negb (length s =? 0)%nat then ret (inl s)
  else ret (inr (cmd_map (fun t => string_at (nulterminate line c) t.1) c)).

(** ** Running *)

(** The system calls of a process, with what it does next. *)
Inductive calls : Type :=
| Exit (status : Z)
| Close (fd : Z) (k : calls)
| Open (file : list Z) (mode : Z) (ok fail : calls)
| Dup (fd : Z) (k : calls)
| MakePipe (k : Z -> Z -> calls) (fail : calls)
| Fork (child parent fail : calls)
| Wait (k : calls)
| Exec (argv : list (list Z)) (fail : calls)
| Print (fd : Z) (fmt : list Z) (args : list arg) (k : calls).

(** [panic] and [fork1]. *)
Definition sh_panic (s : string) : calls := Print 2 (chars "%s" ++ [10]) [AStr (Some (chars s))] (Exit 1).
Definition fork1 (child parent : calls) : calls := Fork child parent (sh_panic "fork").

Fixpoint runcmd (c : cmd (list Z)) : calls :=
  match c with
  | EXEC argv =>
      match argv with
      | [] => Exit 1
      | a :: _ => Exec argv (Print 2 (chars "exec %s failed" ++ [10]) [AStr (Some a)] (Exit 0))
      end
  | REDIR c file mode fd =>
      Close fd (Open file mode (runcmd c) (Print 2 (chars "open %s failed" ++ [10]) [AStr (Some file)] (Exit 1)))
  | LIST l r => fork1 (runcmd l) (Wait (runcmd r))
  | PIPE l r =>
      MakePipe (fun p0 p1 =>
        fork1 (Close 1 (Dup p1 (Close p0 (Close p1 (runcmd l)))))
          (fork1 (Close 0 (Dup p0 (Close p0 (Close p1 (runcmd r)))))
             (Close p0 (Close p1 (Wait (Wait (Exit 0)))))))
        (sh_panic "pipe")
  | BACK c => fork1 (runcmd c) (Exit 0)
  end.

(** The child that [main] starts for a line. *)
Definition line_calls (buf : list Z) : calls :=
  match parsecmd buf [] with
  | Ok (inr c) _ => runcmd c
  | Ok (inl s) _ => Print 2 (chars "leftovers: %s" ++ [10]) [AStr (Some s)] (sh_panic "syntax")
  | Panic msg => sh_panic msg
  | Hang => Exit 0
  end.

(** ** Reading commands *)

Section shell.
Context {W : Type} `{UserSys W}.
(** [open] of the console for reading and writing, [chdir], and [fork] of a child that
    runs and is waited for: whether the fork succeeded. *)
Variables (open_rw : list Z -> M W Z) (chdir : list Z -> M W Z) (fork_wait : calls -> M W bool).

(** [getcmd] with a buffer of [nbuf] bytes: the string in it, or the end of the input. *)
Definition getcmd (nbuf : Z) : M W (option (list Z)) :=
  s_write 2 (chars "$ ") ;;;
  line <- ugets nbuf ;;
  let buf := to_nul line in
  ret (if (length buf =? 0)%nat then None else Some buf).

Definition open_console : M W unit :=
  while_ (fun _ =>
    fd <- open_rw (chars "console") ;;
    if fd >=? 0 then if fd >=? 3 then s_close fd ;;; ret (Brk tt) else ret (Next tt)
    else ret (Brk tt)) tt.

Definition is_cd (buf : list Z) : bool :=
  match buf with c :: d :: b :: _ => (c =? 99) && (d =? 100) && (b =? 32) | _ => false end.

Definition sh_main : U W unit :=
  sys open_console ~;;
  uwhile (fun _ =>
    line <~ sys (getcmd 100) ;;
    match line with
    | None => uret (Brk tt)
    | Some buf =>
        if is_cd buf then
          (* chop the newline *)
          let dir := drop 3 (take (length buf - 1) buf) in
          r <~ sys (chdir dir) ;;
          sys (when (r <? 0) (fprintf 2 (chars "cannot cd %s" ++ [10]) [AStr (Some dir)])) ~;;
          uret (Next tt)
        else
          ok <~ sys (fork_wait (line_calls buf)) ;;
          if ok : bool then uret (Next tt)
          else sys (fprintf 2 (chars "%s" ++ [10]) [AStr (Some (chars "fork"))]) ~;; uexit 1
    end) tt ~;;
  uexit 0.
End shell.
