(* ===== verification/ShProps.v ===== *)
(** * What the shell guarantees (user/sh.c)

    The parser ends on every line, and the strings of the command it returns are the
    words of the line: terminating one word never damages another. *)

From stdpp Require Import base list gmap strings.
From Stdlib Require Import ZArith Lia.
From S2P Require Import Prelude Safe Printf UserSys Ulib Sh.

#[local] Open Scope Z_scope.

(** ** Reading tokens *)

(** A character of a word. *)
Definition word_char (c : Z) : bool := negb (in_set whitespace c) && negb (in_set symbols c).

Lemma skip_white_suffix s : skip_white s `suffix_of` s.
Proof.
  induction s as [|c s IH]; [done|]. cbn [skip_white]. destruct (in_set whitespace c); [|done].
  by apply suffix_cons_r.
Qed.
Lemma skip_white_length s : (length (skip_white s) <= length s)%nat.
Proof. apply suffix_length, skip_white_suffix. Qed.

Lemma skip_word_split s :
  exists w, s = w ++ skip_word s /\ Forall (fun c => word_char c = true) w /\
    match skip_word s with c :: _ => word_char c = false | [] => True end.
Proof.
  induction s as [|c s IH]; [by exists []|]. cbn [skip_word]. fold (word_char c).
  destruct (word_char c) eqn:E.
  - destruct IH as (w & Es & Hw & Hn). exists (c :: w). split_and!; [by cbn; rewrite <- Es|by constructor|done].
  - exists []. split_and!; [done|constructor|done].
Qed.

(** A token whose text consists of word characters and is followed by none. *)
Definition good_token (line : list Z) (t : token) : Prop :=
  let q := (length line - t.1)%nat in let e := (length line - t.2)%nat in
  (t.2 < t.1 <= length line)%nat /\
  (forall i, (q <= i < e)%nat -> exists c, line !! i = Some c /\ word_char c = true) /\
  (forall c, line !! e = Some c -> word_char c = false).
Definition token_text (line : list Z) (t : token) : list Z :=
  take (t.1 - t.2) (drop (length line - t.1) line).

Lemma good_token_intro pre w s :
  w <> [] -> Forall (fun c => word_char c = true) w ->
  match s with c :: _ => word_char c = false | [] => True end ->
  good_token (pre ++ w ++ s) (length (w ++ s), length s) /\
  token_text (pre ++ w ++ s) (length (w ++ s), length s) = w.
Proof.
  intros Hne Hw Hs. unfold good_token, token_text. cbn [fst snd]. rewrite !length_app.
  replace (length pre + (length w + length s) - (length w + length s))%nat with (length pre) by lia.
  replace (length pre + (length w + length s) - length s)%nat with (length pre + length w)%nat by lia.
  replace (length w + length s - length s)%nat with (length w) by lia.
  split_and!.
  - destruct w; [done|]. simpl. lia.
  - lia.
  - intros i Hi. rewrite lookup_app_r by lia. rewrite lookup_app_l by lia.
    destruct (lookup_lt_is_Some_2 w (i - length pre)) as [c Hc]; [lia|]. exists c. split; [done|].
    by apply (Forall_lookup_1 _ _ _ _ Hw Hc).
  - intros c. rewrite lookup_app_r by lia. rewrite lookup_app_r by lia.
    replace (length pre + length w - length pre - length w)%nat with 0%nat by lia. destruct s; [done|]. by intros [= ->].
  - by rewrite drop_app_length, take_app_length.
Qed.

Lemma symbols_split c : in_set symbols c = in_set (chars "|();&<") c || (c =? 62).
Proof.
  unfold in_set, symbols. cbn.
  repeat match goal with |- context [?k =? c] => destruct (Z.eqb_spec k c); [subst c; reflexivity|] end.
  by destruct (Z.eqb_spec c 62); [subst|].
Qed.

(** What is in front after blanks were skipped. *)
Lemma skip_white_head s c s' : skip_white s = c :: s' -> in_set whitespace c = false.
Proof.
  induction s as [|d s IH]; [done|]. cbn [skip_white]. destruct (in_set whitespace d) eqn:E; [done|]. by intros [= <- <-].
Qed.

Definition no_nul (line : list Z) : Prop := Forall (fun c => c <> 0) line.

Lemma in_set_nonzero set c : in_set set c = true -> c <> 0.
Proof.
  unfold in_set. induction set as [|x set IH]; [done|]. cbn [strchr]. destruct (Z.eqb_spec x 0); [done|].
  destruct (Z.eqb_spec x c); [by subst|]. by destruct (strchr set c).
Qed.

Lemma gettoken_spec line s :
  s `suffix_of` line ->
  wp gettoken (fun r s' => s' `suffix_of` line /\ (length s' <= length s)%nat /\
    (skip_white s = [] -> r.1 = 0) /\ (skip_white s <> [] -> r.1 <> 0 /\ (length s' < length s)%nat) /\
    (r.1 = tok_word -> good_token line r.2)) s.
Proof.
  intros Hs. unfold gettoken. wp_steps. unfold id. cbv zeta. pose proof (skip_white_length s) as Hl.
  assert (skip_white s `suffix_of` line) as Hs1 by (etrans; [apply skip_white_suffix|done]).
  destruct (skip_white s) as [|c s1] eqn:E.
  { wp_steps. cbn [skip_white fst]. split_and!; done. }
  assert (s1 `suffix_of` line) as Hs2 by (etrans; [by apply suffix_cons_r|done]).
  cbn [length] in Hl. pose proof (skip_white_head _ _ _ E) as Hc.
  (* after the token *)
  assert (forall r t s2, s2 `suffix_of` s1 -> r <> 0 -> (r = tok_word -> good_token line t) ->
    wp (modify (fun _ => skip_white s2) ;;; ret (r, t)) (fun r s' => s' `suffix_of` line /\
      (length s' <= length s)%nat /\ (c :: s1 = [] -> r.1 = 0) /\
      (c :: s1 <> [] -> r.1 <> 0 /\ (length s' < length s)%nat) /\ (r.1 = tok_word -> good_token line r.2)) s) as Hend.
  { intros r t s2 Hs2' Hr0 Hra. wp_steps. cbn [fst]. pose proof (skip_white_length s2). pose proof (suffix_length _ _ Hs2').
    split_and!; [|lia|done| |done]; [|intros _; split; [done|lia]]. etrans; [apply skip_white_suffix|]. by etrans. }
  destruct (in_set (chars "|();&<") c) eqn:Esym.
  { apply Hend; [done|by eapply in_set_nonzero|]. intros ->. by vm_compute in Esym. }
  destruct (Z.eqb_spec c 62) as [->|Hgt].
  { destruct s1 as [|d s2]; [by apply Hend|]. destruct (d =? 62); [|by apply Hend].
    apply Hend; [by apply suffix_cons_r|done|done]. }
  destruct (skip_word_split (c :: s1)) as (w & Ew & Hw & Hn).
  assert (word_char c = true) as Hwc.
  { unfold word_char. rewrite Hc, symbols_split, Esym. by destruct (Z.eqb_spec c 62). }
  assert (w <> []) as Hne.
  { intros ->. cbn [app] in Ew; rewrite <- Ew in Hn. congruence. }
  set (s2 := skip_word (c :: s1)) in *. apply Hend; [|done|].
  - destruct w as [|c' w]; [done|]. injection Ew as _ Ew. by exists w.
  - intros _. destruct Hs1 as [pre ->]. rewrite Ew. by apply good_token_intro.
Qed.

Lemma peek_spec line toks s :
  s `suffix_of` line ->
  wp (peek toks) (fun b s' => s' = skip_white s /\ s' `suffix_of` line /\ (length s' <= length s)%nat /\
    (b = true -> exists c s'', s' = c :: s'' /\ in_set toks c = true) /\
    (b = false -> match s' with c :: _ => in_set toks c = false | [] => True end)) s.
Proof.
  intros Hs. unfold peek. wp_steps. unfold id. split_and!; [done| |apply skip_white_length| |].
  - etrans; [apply skip_white_suffix|done].
  - destruct (skip_white s) as [|c s'']; [done|]. intros Hi. by exists c, s''.
  - by destruct (skip_white s).
Qed.

Lemma skip_white_idem s : skip_white (skip_white s) = skip_white s.
Proof.
  destruct (skip_white s) as [|c s'] eqn:E; [done|]. cbn [skip_white]. by rewrite (skip_white_head _ _ _ E).
Qed.

(** ** The parser ends and its tokens are words *)

Fixpoint tokens {A} (c : cmd A) : list A :=
  match c with
  | EXEC argv => argv
  | REDIR c file _ _ => tokens c ++ [file]
  | PIPE l r | LIST l r => tokens l ++ tokens r
  | BACK c => tokens c
  end.

(** A redirection is of standard input or output. *)
Fixpoint std_redirs {A} (c : cmd A) : Prop :=
  match c with
  | EXEC _ => True
  | REDIR c _ _ fd => std_redirs c /\ (fd = 0 \/ fd = 1)
  | PIPE l r | LIST l r => std_redirs l /\ std_redirs r
  | BACK c => std_redirs c
  end.

Section safety.
Context (line : list Z).
Hypothesis line_fits : Z.of_nat (length line) < 2 ^ 64.

Definition good_cmd (c : cmd token) : Prop := Forall (good_token line) (tokens c) /\ std_redirs c.
Definition good_redirs (rs : list redir) : Prop :=
  Forall (fun r : redir => good_token line r.1.1 /\ (r.2 = 0 \/ r.2 = 1)) rs.

(** The result of a parsing function: it has read some of the line. *)
Definition parsed {A} (good : A -> Prop) (s : list Z) (a : A) (s' : list Z) : Prop :=
  s' `suffix_of` line /\ (length s' <= length s)%nat /\ good a.

Lemma suffix_fits s : s `suffix_of` line -> 0 <= Z.of_nat (length s) < 2 ^ 64.
Proof using line_fits. intros Hs%suffix_length. lia. Qed.

Lemma wrap_good c rs : good_cmd c -> good_redirs rs -> good_cmd (wrap_redirs c rs).
Proof.
  unfold wrap_redirs. revert c. induction rs as [|[[f m] d] rs IH]; intros c Hc Hrs; [done|].
  apply Forall_cons in Hrs as [[Hf Hd] Hrs]. apply IH; [|done]. destruct Hc as [Hc Hstd].
  split; [|done]. apply Forall_app. split; [done|]. by apply Forall_singleton.
Qed.
Lemma two_good l r : good_cmd l -> good_cmd r -> good_cmd (PIPE l r) /\ good_cmd (LIST l r).
Proof. intros [] []. by repeat split; try apply Forall_app. Qed.

Lemma peek_safe toks s (Q : bool -> list Z -> Prop) :
  s `suffix_of` line ->
  (forall b, skip_white s `suffix_of` line -> (length (skip_white s) <= length s)%nat ->
     (b = true -> skip_white s <> []) -> Q b (skip_white s)) ->
  safe (peek toks) Q s.
Proof.
  intros Hs HQ. apply wp_safe. eapply wp_mono; [by apply (peek_spec line)|].
  intros b s' (-> & Hs' & Hl & Ht & _). apply HQ; try done. intros Hb. destruct (Ht Hb) as (c & s'' & -> & _). done.
Qed.
Lemma gettoken_safe s (Q : Z * token -> list Z -> Prop) :
  s `suffix_of` line ->
  (forall r s', s' `suffix_of` line -> (length s' <= length s)%nat -> (skip_white s <> [] -> (length s' < length s)%nat) ->
     (skip_white s = [] -> r.1 = 0) -> (r.1 = tok_word -> good_token line r.2) -> Q r s') ->
  safe gettoken Q s.
Proof.
  intros Hs HQ. apply wp_safe. eapply wp_mono; [by apply (gettoken_spec line)|].
  intros r s' (? & ? & ? & Hn & ?). apply HQ; try done. intros Hne. by apply Hn.
Qed.

Lemma read_redirs_safe s :
  s `suffix_of` line -> safe read_redirs (parsed good_redirs s) s.
Proof using line_fits.
  intros Hs. unfold read_redirs.
  apply (safe_while _ (fun rs st => parsed good_redirs s rs st) (fun _ st => Z.of_nat (length st)));
    [|split_and!; [done|lia|constructor]|by apply suffix_fits].
  intros rs st (Hst & Hl & Hrs). safe_step. apply peek_safe; [done|]. intros b Hs1 Hl1 Hb. destruct b; safe_steps.
  2: { split_and!; [done|lia|done]. }
  apply gettoken_safe; [done|]. rewrite skip_white_idem. intros [tok t] s2 Hs2 Hl2 Hlt _ _. specialize (Hlt (Hb eq_refl)).
  safe_steps. apply gettoken_safe; [done|]. intros [kind file] s3 Hs3 Hl3 _ _ Hgood. cbn [fst snd] in Hgood.
  destruct (Z.eqb_spec kind tok_word) as [Ek|]; cbn [negb]; [|safe_steps]. specialize (Hgood Ek).
  assert (forall m d, d = 0 \/ d = 1 -> parsed good_redirs s (rs ++ [(file, m, d)]) s3) as Hnext.
  { intros m d Hd. split_and!; [done|lia|]. apply Forall_app. split; [done|]. by apply Forall_singleton. }
  destruct (tok =? 60); [safe_steps; split; [by apply Hnext; left|lia]|].
  destruct (tok =? 62); [safe_steps; split; [by apply Hnext; right|lia]|].
  destruct (tok =? tok_append); safe_steps; (split; [|lia]); [by apply Hnext; right|]. split_and!; [done|lia|done].
Qed.

Lemma read_args_safe rs s :
  s `suffix_of` line -> good_redirs rs ->
  safe (read_args rs) (parsed (fun r => Forall (good_token line) r.1 /\ good_redirs r.2) s) s.
Proof using line_fits.
  intros Hs Hrs. unfold read_args.
  apply (safe_while _ (fun r st => parsed (fun r => Forall (good_token line) r.1 /\ good_redirs r.2) s r st)
    (fun _ st => Z.of_nat (length st)));
    [|split_and!; [done|lia|constructor|done]|by apply suffix_fits].
  intros [argv rs'] st (Hst & Hl & Hargv & Hrs'). cbn [fst snd] in *. safe_step.
  apply peek_safe; [done|]. intros b Hs1 Hl1 _. destruct b; safe_steps.
  { split_and!; [done|lia|done|done]. }
  apply gettoken_safe; [done|]. rewrite skip_white_idem. intros [tok t] s2 Hs2 Hl2 Hlt H0 Hgood. cbn [fst snd] in *.
  destruct (Z.eqb_spec tok 0) as [|Hne]; safe_steps.
  { split_and!; [done|lia|done|done]. }
  destruct (Z.eqb_spec tok tok_word) as [Et|]; cbn [negb]; [|safe_steps].
  destruct (_ <=? _)%nat; [safe_steps|]. safe_steps.
  assert (skip_white st <> []) as Hne' by (intros E; by apply Hne, H0). specialize (Hlt Hne').
  eapply safe_mono; [by apply read_redirs_safe|]. intros more s3 (Hs3 & Hl3 & Hmore). safe_steps.
  split; [|lia]. split_and!; [done|lia| |by apply Forall_app]. apply Forall_app. split; [done|].
  apply Forall_singleton. by apply Hgood.
Qed.

Lemma back_loop_safe c s :
  s `suffix_of` line -> good_cmd c ->
  safe (while_ (fun c =>
    amp <- peek (chars "&") ;;
    if amp : bool then gettoken ;;; ret (Next (BACK c)) else ret (Brk c)) c) (parsed good_cmd s) s.
Proof using line_fits.
  intros Hs Hc. apply (safe_while _ (fun c st => parsed good_cmd s c st) (fun _ st => Z.of_nat (length st)));
    [|by split_and!|by apply suffix_fits].
  intros c' st (Hst & Hl & Hc'). safe_step. apply peek_safe; [done|]. intros b Hs1 Hl1 Hb. destruct b; safe_steps.
  2: { split_and!; [done|lia|done]. }
  apply gettoken_safe; [done|]. rewrite skip_white_idem. intros r s2 Hs2 Hl2 Hlt _ _. specialize (Hlt (Hb eq_refl)).
  safe_steps. split; [|lia]. split_and!; [done|lia|done].
Qed.

(** Fuel that is enough for the four mutually recursive functions. *)
Lemma parse_safe fuel :
  (forall s, s `suffix_of` line -> (4 * length s + 4 <= fuel)%nat -> safe (parseline fuel) (parsed good_cmd s) s) /\
  (forall s, s `suffix_of` line -> (4 * length s + 3 <= fuel)%nat -> safe (parsepipe fuel) (parsed good_cmd s) s) /\
  (forall s, s `suffix_of` line -> (4 * length s + 2 <= fuel)%nat -> safe (parseexec fuel) (parsed good_cmd s) s) /\
  (forall s, s `suffix_of` line -> (4 * length s + 1 <= fuel)%nat -> safe (parseblock fuel) (parsed good_cmd s) s).
Proof using line_fits.
  induction fuel as [|fuel (IHline & IHpipe & IHexec & IHblock)]; [split_and!; intros; lia|].
  split_and!; intros s Hs Hf.
  - cbn [parseline]. safe_step. eapply safe_mono; [apply IHpipe; [done|lia]|]. intros c s1 (Hs1 & Hl1 & Hc). safe_step.
    eapply safe_mono; [by apply back_loop_safe|]. intros c2 s2 (Hs2 & Hl2 & Hc2). safe_step.
    apply peek_safe; [done|]. intros b Hs3 Hl3 Hb. destruct b; safe_steps.
    2: { split_and!; [done|lia|done]. }
    apply gettoken_safe; [done|]. rewrite skip_white_idem. intros r s4 Hs4 Hl4 Hlt _ _. specialize (Hlt (Hb eq_refl)).
    safe_step. eapply safe_mono; [apply IHline; [done|lia]|]. intros c3 s5 (Hs5 & Hl5 & Hc3). safe_steps.
    split_and!; [done|lia|]. by apply two_good.
  - cbn [parsepipe]. safe_step. eapply safe_mono; [apply IHexec; [done|lia]|]. intros c s1 (Hs1 & Hl1 & Hc). safe_step.
    apply peek_safe; [done|]. intros b Hs3 Hl3 Hb. destruct b; safe_steps.
    2: { split_and!; [done|lia|done]. }
    apply gettoken_safe; [done|]. rewrite skip_white_idem. intros r s4 Hs4 Hl4 Hlt _ _. specialize (Hlt (Hb eq_refl)).
    safe_step. eapply safe_mono; [apply IHpipe; [done|lia]|]. intros c3 s5 (Hs5 & Hl5 & Hc3). safe_steps.
    split_and!; [done|lia|]. by apply two_good.
  - cbn [parseexec]. safe_step. apply peek_safe; [done|]. intros b Hs1 Hl1 Hb. destruct b.
    { eapply safe_mono; [apply IHblock; [done|lia]|]. intros c s2 (Hs2 & Hl2 & Hc). split_and!; [done|lia|done]. }
    safe_step. eapply safe_mono; [by apply read_redirs_safe|]. intros rs s2 (Hs2 & Hl2 & Hrs). safe_step.
    eapply safe_mono; [by apply read_args_safe|]. intros [argv rs'] s3 (Hs3 & Hl3 & Hargv & Hrs'). safe_steps.
    split_and!; [done|lia|]. by apply wrap_good.
  - cbn [parseblock]. safe_step. apply peek_safe; [done|]. intros b Hs1 Hl1 Hb. destruct b; cbn [negb]; [|safe_steps].
    safe_step. apply gettoken_safe; [done|]. rewrite skip_white_idem. intros r s2 Hs2 Hl2 Hlt _ _. specialize (Hlt (Hb eq_refl)).
    safe_step. eapply safe_mono; [apply IHline; [done|lia]|]. intros c s3 (Hs3 & Hl3 & Hc). safe_step.
    apply peek_safe; [done|]. intros b Hs4 Hl4 _. destruct b; cbn [negb]; [|safe_steps].
    safe_step. apply gettoken_safe; [done|]. intros r' s5 Hs5 Hl5 _ _ _. unfold parseredirs. safe_step.
    eapply safe_mono; [by apply read_redirs_safe|]. intros rs s6 (Hs6 & Hl6 & Hrs). safe_steps.
    split_and!; [done|lia|]. by apply wrap_good.
Qed.
End safety.

(** ** Terminating the words *)

Lemma ends_tokens c : ends c = (tokens c).*2.
Proof. induction c; cbn [ends tokens]; rewrite ?fmap_app; try congruence. by rewrite IHc. Qed.

Lemma put_nuls_length es line : length (fold_left put_nul es line) = length line.
Proof. revert line. induction es as [|e es IH]; intros line; [done|]. cbn. rewrite IH. apply length_insert. Qed.

(** After all words were terminated, the ends are NUL and the rest is as it was. *)
Lemma put_nuls_lookup es line n i :
  length line = n ->
  fold_left put_nul es line !! i =
    (if decide (Exists (fun e => (n - e)%nat = i) es) then (fun _ => 0) <$> line !! i else line !! i).
Proof.
  revert line. induction es as [|e es IH]; intros line Hn; [done|]. cbn [fold_left].
  rewrite IH by (etrans; [apply length_insert|done]).
  assert (put_nul line e !! i = if decide ((n - e)%nat = i) then (fun _ => 0) <$> line !! i else line !! i) as ->.
  { unfold put_nul. rewrite Hn. destruct (decide ((n - e)%nat = i)) as [<-|Hne]; [|by rewrite list_lookup_insert_ne].
    destruct (line !! (n - e)%nat) as [x|] eqn:E.
    - rewrite list_lookup_insert_eq; [done|by eapply lookup_lt_Some].
    - apply lookup_ge_None. rewrite length_insert. by apply lookup_ge_None. }
  destruct (decide (Exists _ (e :: es))) as [H|H]; rewrite Exists_cons in H;
    destruct (decide (Exists _ es)), (decide ((n - e)%nat = i)); try tauto; by destruct (line !! i).
Qed.

Lemma to_nul_take (l : list Z) k :
  (forall i, (i < k)%nat -> exists c, l !! i = Some c /\ c <> 0) -> (forall c, l !! k = Some c -> c = 0) ->
  to_nul l = take k l.
Proof.
  revert k. induction l as [|x l IH]; intros k Hk He; [by rewrite take_nil|]. destruct k as [|k]; cbn [to_nul take].
  - by rewrite (He x eq_refl).
  - destruct (Hk 0%nat) as (c & [= <-] & Hc); [lia|]. destruct (Z.eqb_spec x 0); [done|]. f_equal. apply IH; [|done].
    intros i Hi. apply (Hk (S i)). lia.
Qed.

(** A word of the command keeps its text and is terminated. *)
Lemma string_at_token line c t :
  no_nul line -> good_cmd line c -> t ∈ tokens c ->
  string_at (nulterminate line c) t.1 = token_text line t.
Proof.
  intros Hnz [Hc _] Ht. pose proof (proj1 (Forall_forall _ _) Hc t Ht) as (Hl & Hin & Hend). cbv zeta in *.
  unfold string_at, nulterminate, token_text. rewrite put_nuls_length, ends_tokens.
  set (l' := fold_left put_nul (tokens c).*2 line).
  assert (forall i, (length line - t.1 <= i < length line - t.2)%nat -> l' !! i = line !! i) as Hsame.
  { intros i Hi. unfold l'. rewrite (put_nuls_lookup _ _ _ _ eq_refl). destruct (decide _) as [Hex|]; [|done]. exfalso.
    apply Exists_exists in Hex as (e & He & <-). apply list_elem_of_fmap in He as (t' & -> & Ht').
    destruct (proj1 (Forall_forall _ _) Hc t' Ht') as (_ & _ & Hend'). destruct (Hin _ Hi) as (ch & Hch & Hw).
    by rewrite (Hend' _ Hch) in Hw. }
  rewrite (to_nul_take _ (t.1 - t.2)).
  - apply list_eq. intros i. destruct (decide (i < t.1 - t.2)%nat).
    + rewrite !lookup_take_lt by lia. rewrite !lookup_drop. apply Hsame. lia.
    + by rewrite !lookup_take_ge by lia.
  - intros i Hi. rewrite lookup_drop, Hsame by lia. destruct (Hin (length line - t.1 + i)%nat) as (ch & Hch & _); [lia|].
    exists ch. split; [done|]. by apply (Forall_lookup_1 _ _ _ _ Hnz Hch).
  - intros ch. rewrite lookup_drop. unfold l'. rewrite (put_nuls_lookup _ _ _ _ eq_refl). destruct (decide _) as [|Hex].
    + by intros (? & _ & ->)%fmap_Some.
    + destruct Hex. apply Exists_exists. exists t.2. split; [|lia]. by apply list_elem_of_fmap_2.
Qed.

Lemma cmd_map_ext {A B} (f g : A -> B) c : (forall t, t ∈ tokens c -> f t = g t) -> cmd_map f c = cmd_map g c.
Proof.
  induction c as [argv|c IH file mode fd|l IHl r IHr|l IHl r IHr|c IH]; cbn [tokens cmd_map]; intros H.
  - f_equal. apply map_ext_in. intros t Ht. apply H. by apply list_elem_of_In.
  - rewrite IH, (H file) by set_solver. done.
  - rewrite IHl, IHr by set_solver. done.
  - rewrite IHl, IHr by set_solver. done.
  - by rewrite IH.
Qed.

(** What [parsecmd] returns. *)
Lemma parsecmd_safe line s :
  no_nul line -> Z.of_nat (length line) < 2 ^ 64 ->
  safe (parsecmd line) (fun r _ => forall c, r = inr c -> exists t, good_cmd line t /\ c = cmd_map (token_text line) t) s.
Proof.
  intros Hnz Hfits. unfold parsecmd. safe_steps. eapply safe_mono; [by apply parse_safe|].
  intros c s1 (Hs1 & _ & Hc). safe_step. apply (peek_safe line); [done|]. intros b _ _ _. safe_steps.
  destruct (negb _); safe_steps; [done|]. intros ? [= <-]. exists c. split; [done|]. apply cmd_map_ext. intros t Ht. by apply string_at_token.
Qed.
Lemma std_redirs_map {A B} (f : A -> B) c : std_redirs (cmd_map f c) <-> std_redirs c.
Proof. induction c; cbn; tauto. Qed.

(** C9: [parsecmd] ends on every line without NUL bytes: it reports a syntax
    error, or it returns a command whose strings are exactly the words of the line
    that the tokens of the parse stand for, maximal runs of characters that are
    neither blanks nor symbols.  Terminating one word in place never damages another. *)
Theorem parsecmd_words (line s : list Z) :
  no_nul line -> Z.of_nat (length line) < 2 ^ 64 ->
  match parsecmd line s with
  | Ok (inr c) _ => exists t, Forall (good_token line) (tokens t) /\ c = cmd_map (token_text line) t
  | Ok (inl _) _ | Panic _ => True
  | Hang => False
  end.
Proof.
  intros Hnz Hfits. pose proof (parsecmd_safe line s Hnz Hfits) as H. unfold safe in H.
  destruct (parsecmd line s) as [[left|c] s'| |]; [done| |done..].
  destruct (H c eq_refl) as (t & [Ht _] & ->). by exists t.
Qed.

Example parsecmd_words_witness :
  match parsecmd (chars "cat <in|(wc;echo hi)>out&" ++ [10]) [] with
  | Ok (inr c) _ => exists t, Forall (good_token (chars "cat <in|(wc;echo hi)>out&" ++ [10])) (tokens t) /\
      c = cmd_map (token_text (chars "cat <in|(wc;echo hi)>out&" ++ [10])) t
  | Ok (inl _) _ | Panic _ => True
  | Hang => False
  end.
Proof.
  apply (parsecmd_words (chars "cat <in|(wc;echo hi)>out&" ++ [10]) []); [|by vm_compute].
  apply (bool_decide_unpack _). by vm_compute.
Defined.
