(* ===== verification/ShRun.v ===== *)
(** * How the shell connects programs (user/sh.c)

    The system calls of [runcmd] are run on descriptor tables: [open], [dup] and
    [pipe] take the lowest free descriptor (kernel/sysfile.c, [fdalloc]), a child has
    a copy of the table of its parent, and any call that can fail fails when the run
    says so.  The programs a command starts have exactly the three descriptors that
    the line asks for. *)

From stdpp Require Import base list gmap strings.
From Stdlib Require Import ZArith Lia.
From S2P Require Import Prelude Safe Printf UserSys Ulib Sh ShProps.

#[local] Open Scope Z_scope.

(** ** Descriptor tables *)

Inductive ofile : Type :=
| Given (name : nat)
| File (name : list Z) (mode : Z)
| PipeOut (id : nat)    (* the end that is read *)
| PipeIn (id : nat).    (* the end that is written *)
Definition fdtable : Type := gmap Z ofile.

Definition lowest_free (fds : fdtable) : option Z :=
  List.find (fun fd => match fds !! fd with Some _ => false | None => true end) (seqZ 0 16).

(** The next pipe, and which of the calls to come succeed (all, after the list). *)
Definition oracle : Type := nat * list bool.
Definition succeeds (st : oracle) : bool * oracle :=
  let '(n, l) := st in match l with b :: l => (b, (n, l)) | [] => (true, (n, [])) end.

(** The programs started, with their tables.  A child's come before its parent's next ones. *)
Fixpoint run_calls (k : calls) (fds : fdtable) (st : oracle) : list (list (list Z) * fdtable) * oracle :=
  match k with
  | Exit _ => ([], st)
  | Close fd k => run_calls k (delete fd fds) st
  | Open file mode ok fail =>
      let '(b, st) := succeeds st in
      match b, lowest_free fds with
      | true, Some fd => run_calls ok (<[fd := File file mode]> fds) st
      | _, _ => run_calls fail fds st
      end
  | Dup fd k =>
      match fds !! fd, lowest_free fds with
      | Some f, Some fd' => run_calls k (<[fd' := f]> fds) st
      | _, _ => run_calls k fds st
      end
  | MakePipe k fail =>
      let '(b, (n, l)) := succeeds st in
      match b, lowest_free fds with
      | true, Some fd0 =>
          let fds0 := <[fd0 := PipeOut n]> fds in
          match lowest_free fds0 with
          | Some fd1 => run_calls (k fd0 fd1) (<[fd1 := PipeIn n]> fds0) (S n, l)
          | None => run_calls fail fds (n, l)
          end
      | _, _ => run_calls fail fds (n, l)
      end
  | Fork child parent fail =>
      let '(b, st) := succeeds st in
      if b : bool then
        let '(ps, st) := run_calls child fds st in
        let '(qs, st) := run_calls parent fds st in (ps ++ qs, st)
      else run_calls fail fds st
  | Wait k => run_calls k fds st
  | Exec argv fail =>
      let '(b, st) := succeeds st in
      if b : bool then ([(argv, fds)], st) else run_calls fail fds st
  | Print _ _ _ k => run_calls k fds st
  end.

(** ** What a command asks for *)

Record stdio : Type := Stdio { io_in : ofile; io_out : ofile; io_err : ofile }.
Definition three (io : stdio) : fdtable := {[ 0 := io_in io; 1 := io_out io; 2 := io_err io ]}.

(** The programs of a command and their standard files; [n] is the next pipe. *)
Fixpoint connected (c : cmd (list Z)) (io : stdio) (n : nat) : list (list (list Z) * stdio) * nat :=
  match c with
  | EXEC [] => ([], n)
  | EXEC argv => ([(argv, io)], n)
  | REDIR c file mode fd =>
      connected c (if fd =? 0 then Stdio (File file mode) (io_out io) (io_err io)
                   else Stdio (io_in io) (File file mode) (io_err io)) n
  | PIPE l r =>
      let '(ps, n1) := connected l (Stdio (io_in io) (PipeIn n) (io_err io)) (S n) in
      let '(qs, n2) := connected r (Stdio (PipeOut n) (io_out io) (io_err io)) n1 in (ps ++ qs, n2)
  | LIST l r =>
      let '(ps, n1) := connected l io n in
      let '(qs, n2) := connected r io n1 in (ps ++ qs, n2)
  | BACK c => connected c io n
  end.

Definition on_three (p : list (list Z) * stdio) : list (list Z) * fdtable := (p.1, three p.2).

(** ** The descriptors in the two children of a pipe *)

Lemma three_redir io f fd :
  fd = 0 \/ fd = 1 ->
  lowest_free (delete fd (three io)) = Some fd /\
  <[fd := f]> (delete fd (three io)) =
    three (if fd =? 0 then Stdio f (io_out io) (io_err io) else Stdio (io_in io) f (io_err io)).
Proof. destruct io. intros [-> | ->]; by split. Qed.

Lemma three_pipe io n :
  let fds0 := <[3 := PipeOut n]> (three io) in
  let fds := <[4 := PipeIn n]> fds0 in
  lowest_free (three io) = Some 3 /\ lowest_free fds0 = Some 4 /\
  delete 1 fds !! 4 = Some (PipeIn n) /\ lowest_free (delete 1 fds) = Some 1 /\
  delete 4 (delete 3 (<[1 := PipeIn n]> (delete 1 fds))) = three (Stdio (io_in io) (PipeIn n) (io_err io)) /\
  delete 0 fds !! 3 = Some (PipeOut n) /\ lowest_free (delete 0 fds) = Some 0 /\
  delete 4 (delete 3 (<[0 := PipeOut n]> (delete 0 fds))) = three (Stdio (PipeOut n) (io_out io) (io_err io)) /\
  delete 4 (delete 3 fds) = three io.
Proof. destruct io. by split_and!. Qed.

(** The process of the left side of a pipe, and that of the right side. *)
Lemma left_child io n k st :
  run_calls (Close 1 (Dup 4 (Close 3 (Close 4 k)))) (<[4 := PipeIn n]> (<[3 := PipeOut n]> (three io))) st =
    run_calls k (three (Stdio (io_in io) (PipeIn n) (io_err io))) st.
Proof. destruct (three_pipe io n) as (_ & _ & E1 & E2 & E3 & _). cbn [run_calls]. by rewrite E1, E2, E3. Qed.
Lemma right_child io n k st :
  run_calls (Close 0 (Dup 3 (Close 3 (Close 4 k)))) (<[4 := PipeIn n]> (<[3 := PipeOut n]> (three io))) st =
    run_calls k (three (Stdio (PipeOut n) (io_out io) (io_err io))) st.
Proof. destruct (three_pipe io n) as (_ & _ & _ & _ & _ & E1 & E2 & E3 & _). cbn [run_calls]. by rewrite E1, E2, E3. Qed.

Lemma run_pipe c1 c2 io st :
  run_calls (runcmd (PIPE c1 c2)) (three io) st =
    let '(b, (n, l)) := succeeds st in
    if b : bool then
      run_calls (fork1 (Close 1 (Dup 4 (Close 3 (Close 4 (runcmd c1)))))
          (fork1 (Close 0 (Dup 3 (Close 3 (Close 4 (runcmd c2)))))
             (Close 3 (Close 4 (Wait (Wait (Exit 0)))))))
        (<[4 := PipeIn n]> (<[3 := PipeOut n]> (three io))) (S n, l)
    else ([], (n, l)).
Proof.
  cbn [runcmd run_calls]. destruct (succeeds st) as [b [n l]]. destruct b; [|done].
  destruct (three_pipe io n) as (E1 & E2 & _). by rewrite E1, E2.
Qed.
Lemma run_fork1 child parent fds st :
  run_calls (fork1 child parent) fds st =
    let '(b, st) := succeeds st in
    if b : bool then
      let '(ps, st) := run_calls child fds st in
      let '(qs, st) := run_calls parent fds st in (ps ++ qs, st)
    else ([], st).
Proof. done. Qed.
Lemma run_redir c file mode fd io st :
  fd = 0 \/ fd = 1 ->
  run_calls (runcmd (REDIR c file mode fd)) (three io) st =
    let '(b, st) := succeeds st in
    if b : bool then run_calls (runcmd c) (three (if fd =? 0 then Stdio (File file mode) (io_out io) (io_err io)
                                           else Stdio (io_in io) (File file mode) (io_err io))) st
    else ([], st).
Proof.
  intros Hfd. cbn [runcmd run_calls]. destruct (succeeds st) as [b st']. destruct b; [|done].
  destruct (three_redir io (File file mode) fd Hfd) as [E1 E2]. by rewrite E1, E2.
Qed.

(** When every call succeeds. *)
Lemma run_connected c io n :
  std_redirs c ->
  run_calls (runcmd c) (three io) (n, []) =
    (map on_three (connected c io n).1, ((connected c io n).2, [])).
Proof.
  revert io n. induction c as [argv|c IH file mode fd|l IHl r IHr|l IHl r IHr|c IH]; intros io n Hc.
  - by destruct argv.
  - destruct Hc as [Hc Hfd]. rewrite run_redir by done. cbn [succeeds connected]. by apply IH.
  - destruct Hc as [Hl Hr]. rewrite run_pipe. cbn [succeeds connected]. rewrite run_fork1. cbn [succeeds].
    rewrite left_child, IHl by done. destruct (connected l _ _) as [ps n1]. cbn [fst snd].
    rewrite run_fork1. cbn [succeeds]. rewrite right_child, IHr by done. destruct (connected r _ _) as [qs n2].
    cbn [fst snd run_calls]. by rewrite app_nil_r, map_app.
  - destruct Hc as [Hl Hr]. cbn [runcmd connected]. rewrite run_fork1. cbn [succeeds run_calls].
    rewrite IHl by done. destruct (connected l _ _) as [ps n1]. cbn [fst snd]. rewrite IHr by done.
    destruct (connected r _ _) as [qs n2]. cbn [fst snd]. by rewrite map_app.
  - cbn [runcmd connected]. rewrite run_fork1. cbn [succeeds run_calls]. rewrite IH by done.
    destruct (connected c io n) as [ps n1]. cbn [fst snd]. by rewrite app_nil_r.
Qed.

(** The programs of a command, left to right. *)
Fixpoint programs (c : cmd (list Z)) : list (list (list Z)) :=
  match c with
  | EXEC [] => []
  | EXEC argv => [argv]
  | REDIR c _ _ _ | BACK c => programs c
  | PIPE l r | LIST l r => programs l ++ programs r
  end.

(** Programs of [c], each with three descriptors. *)
Definition sound_run (c : cmd (list Z)) (ps : list (list (list Z) * fdtable)) : Prop :=
  ps.*1 `sublist_of` programs c /\ Forall (fun p => exists io, p.2 = three io) ps.

Lemma sound_nil c : sound_run c [].
Proof. split; [apply sublist_nil_l|constructor]. Qed.
Lemma sound_app c c' ps qs :
  sound_run c ps -> sound_run c' qs -> sound_run (PIPE c c') (ps ++ qs) /\ sound_run (LIST c c') (ps ++ qs).
Proof.
  intros [H1 H2] [H3 H4].
  split; (split; [cbn [programs]; rewrite fmap_app; by apply sublist_app|by apply Forall_app]).
Qed.

(** Whichever calls fail. *)
Lemma run_sound c io st : std_redirs c -> sound_run c (run_calls (runcmd c) (three io) st).1.
Proof.
  revert io st. induction c as [argv|c IH file mode fd|l IHl r IHr|l IHl r IHr|c IH]; intros io st Hc.
  - destruct argv as [|a argv]; [apply sound_nil|]. cbn [runcmd run_calls]. destruct (succeeds st) as [[] st'].
    + split; [done|]. repeat constructor. by exists io.
    + apply sound_nil.
  - destruct Hc as [Hc Hfd]. rewrite run_redir by done. destruct (succeeds st) as [[] st']; [by apply IH|apply sound_nil].
  - destruct Hc as [Hl Hr]. rewrite run_pipe. destruct (succeeds st) as [[] [n bs]]; [|apply sound_nil].
    rewrite run_fork1. destruct (succeeds _) as [[] st1]; [|apply sound_nil]. rewrite left_child.
    specialize (IHl (Stdio (io_in io) (PipeIn n) (io_err io)) st1 Hl). destruct (run_calls (runcmd l) _ _) as [ps st2].
    rewrite run_fork1. destruct (succeeds st2) as [[] st3]; cbn [fst].
    2: { by apply (sound_app l r ps []); [|apply sound_nil]. }
    rewrite right_child. specialize (IHr (Stdio (PipeOut n) (io_out io) (io_err io)) st3 Hr).
    destruct (run_calls (runcmd r) _ _) as [qs st4]. cbn [run_calls fst]. rewrite app_nil_r. by apply sound_app.
  - destruct Hc as [Hl Hr]. cbn [runcmd]. rewrite run_fork1. destruct (succeeds st) as [[] st1]; [|apply sound_nil].
    specialize (IHl io st1 Hl). destruct (run_calls (runcmd l) _ _) as [ps st2]. cbn [run_calls].
    specialize (IHr io st2 Hr). destruct (run_calls (runcmd r) _ _) as [qs st3]. cbn [fst]. by apply sound_app.
  - cbn [runcmd]. rewrite run_fork1. destruct (succeeds st) as [[] st1]; [|apply sound_nil].
    specialize (IH io st1 Hc). destruct (run_calls (runcmd c) _ _) as [ps st2]. cbn [run_calls fst] in *.
    rewrite app_nil_r. apply IH.
Qed.


Definition ex_line : list Z := chars "cat <in|(wc;echo hi)>out&" ++ [10].


(** The programs of that line. *)
Example ex_line_programs :
  match parsecmd ex_line [] with
  | Ok (inr c) _ => connected c (Stdio (Given 0) (Given 1) (Given 2)) 0 =
      ([([chars "cat"], Stdio (File (chars "in") O_RDONLY) (PipeIn 0) (Given 2));
        ([chars "wc"], Stdio (PipeOut 0) (File (chars "out") 0x601) (Given 2));
        ([chars "echo"; chars "hi"], Stdio (PipeOut 0) (File (chars "out") 0x601) (Given 2))], 1%nat)
  | _ => False
  end.
Proof. by vm_compute. Qed.
