(* ===== verification/ShPrint.v ===== *)
(** * The syntax of the shell (user/sh.c)

    A command is printed as a line, with parentheses around what would be read
    differently without them; [parsecmd] reads it back. *)

From stdpp Require Import base list gmap strings.
From Stdlib Require Import ZArith Lia.
From S2P Require Import Prelude Printf UserSys Ulib Sh Safe ShProps.

#[local] Open Scope Z_scope.

(** ** Printing *)

Definition word (w : list Z) : Prop := w <> [] /\ Forall (fun c => word_char c = true /\ c <> 0) w.

Notation sredir := (list Z * Z * Z)%type.
Definition redir_op (mode : Z) : list Z :=
  if mode =? O_RDONLY then chars "<" else if mode =? 0x601 then chars ">" else chars ">>".
Definition show_redir (r : sredir) : list Z := let '(file, mode, _) := r in redir_op mode ++ file ++ [32].
Definition show_words (argv : list (list Z)) : list Z := concat (map (fun w => w ++ [32]) argv).

Definition paren (c : cmd (list Z)) (s : list Z) : list Z :=
  match c with EXEC _ | REDIR _ _ _ _ => s | _ => chars "(" ++ s ++ chars ")" end.
Fixpoint show (c : cmd (list Z)) : list Z :=
  match c with
  | EXEC argv => show_words argv
  | REDIR c file mode fd => paren c (show c) ++ show_redir (file, mode, fd)
  | PIPE l r => paren l (show l) ++ chars "|" ++ paren r (show r)
  | LIST l r => paren l (show l) ++ chars ";" ++ paren r (show r)
  | BACK c => paren c (show c) ++ chars "&"
  end.
Notation atom c := (paren c (show c)).

(** The commands the syntax has: words, at most nine arguments, and the three redirections. *)
Definition valid_redir (r : sredir) : Prop :=
  let '(file, mode, fd) := r in
  word file /\ (mode = O_RDONLY /\ fd = 0 \/ mode = 0x601 /\ fd = 1 \/ mode = 0x201 /\ fd = 1).
Fixpoint printable (c : cmd (list Z)) : Prop :=
  match c with
  | EXEC argv => Forall word argv /\ (length argv < MAXARGS)%nat
  | REDIR c file mode fd => printable c /\ valid_redir (file, mode, fd)
  | PIPE l r | LIST l r => printable l /\ printable r
  | BACK c => printable c
  end.

(** ** Tokens of a printed command *)

Definition first_in (toks s : list Z) : bool := match s with c :: _ => in_set toks c | [] => false end.
Definition front (s : list Z) : Prop := skip_white s = s.

Lemma front_cons c s : in_set whitespace c = false -> front (c :: s).
Proof. unfold front. cbn [skip_white]. by intros ->. Qed.
Lemma in_set_elem set c : in_set set c = true -> c ∈ set.
Proof.
  unfold in_set. induction set as [|x set IH]; [done|]. cbn [strchr]. destruct (Z.eqb_spec x 0); [done|].
  destruct (Z.eqb_spec x c) as [->|]; [left|]. destruct (strchr set c); [|done]. intros _. right. by apply IH.
Qed.
(** A word does not start with any of the symbols. *)
Lemma word_not_in toks c :
  word_char c = true -> forallb (in_set symbols) toks = true -> in_set toks c = false.
Proof.
  intros Hc Hall. destruct (in_set toks c) eqn:E; [|done]. apply in_set_elem, list_elem_of_In in E.
  rewrite forallb_forall in Hall. unfold word_char in Hc. rewrite (Hall _ E), andb_false_r in Hc. done.
Qed.
Lemma word_not_white c : word_char c = true -> in_set whitespace c = false.
Proof. unfold word_char. by destruct (in_set whitespace c). Qed.
Lemma word_head w : word w -> exists c w', w = c :: w' /\ word_char c = true.
Proof. intros [Hne Hw]. destruct w as [|c w']; [done|]. apply Forall_cons in Hw as [[Hc _] _]. by exists c, w'. Qed.
Lemma front_word w s : word w -> front (w ++ s).
Proof. intros (c & w' & -> & Hc)%word_head. by apply front_cons, word_not_white. Qed.
Lemma first_in_word toks w s :
  word w -> forallb (in_set symbols) toks = true -> first_in toks (w ++ s) = false.
Proof. intros (c & w' & -> & Hc)%word_head Ht. by apply word_not_in. Qed.

Lemma peek_front toks s (Q : bool -> list Z -> Prop) : front s -> Q (first_in toks s) s -> wp (peek toks) Q s.
Proof. intros Hs HQ. unfold peek. wp_steps. unfold id. by rewrite Hs. Qed.

Lemma skip_word_app w s :
  word w -> match s with c :: _ => word_char c = false | [] => True end -> skip_word (w ++ s) = s.
Proof.
  intros [_ Hw] Hs. induction Hw as [|c w [Hc _] _ IH].
  - destruct s as [|c s]; [done|]. cbn [app skip_word]. fold (word_char c). by rewrite Hs.
  - cbn [app skip_word]. fold (word_char c). by rewrite Hc.
Qed.

Section parse.
Context (line : list Z).
Hypothesis line_fits : Z.of_nat (length line) < 2 ^ 64.

Notation text := (token_text line).
Definition rtext (r : redir) : sredir := let '(file, mode, fd) := r in (text file, mode, fd).

Lemma suffix_tail (a b : list Z) : (a ++ b) `suffix_of` line -> b `suffix_of` line.
Proof. intros H. etrans; [|done]. by exists a. Qed.

Lemma gettoken_word w s (Q : Z * token -> list Z -> Prop) :
  word w -> (w ++ 32 :: s) `suffix_of` line -> front s ->
  (forall t, text t = w -> Q (tok_word, t) s) -> wp gettoken Q (w ++ 32 :: s).
Proof.
  intros Hw [pre Hpre] Hs HQ. unfold gettoken. wp_steps. unfold id. cbv zeta. rewrite (front_word _ _ Hw).
  pose proof (skip_word_app w (32 :: s) Hw eq_refl) as Hskip.
  destruct (word_head _ Hw) as (c & w' & -> & Hc).
  cbn [app] in *. rewrite (word_not_in (chars "|();&<") c Hc) by done.
  destruct (Z.eqb_spec c 62) as [->|]; [done|]. rewrite Hskip. wp_steps. cbn [skip_white].
  change (in_set whitespace 32) with true. cbn match. rewrite Hs. apply HQ. rewrite Hpre.
  change (c :: w' ++ 32 :: s) with ((c :: w') ++ 32 :: s). apply good_token_intro; [done| |done].
  destruct Hw as [_ Hw]. eapply Forall_impl; [exact Hw|]. by intros ? [].
Qed.

Lemma gettoken_symbol c s (Q : Z * token -> list Z -> Prop) :
  in_set whitespace c = false -> in_set (chars "|();&<") c = true -> front s ->
  (forall t, Q (c, t) s) -> wp gettoken Q (c :: s).
Proof.
  intros Hw Hc Hs HQ. unfold gettoken. wp_steps. unfold id. cbv zeta. rewrite (front_cons _ _ Hw), Hc.
  wp_steps. rewrite Hs. apply HQ.
Qed.

(** ** Redirections *)

Lemma gettoken_redir file mode fd s (Q : Z * token -> list Z -> Prop) :
  valid_redir (file, mode, fd) ->
  (forall t, Q (if mode =? O_RDONLY then 60 else if mode =? 0x601 then 62 else tok_append, t) (file ++ s)) ->
  wp gettoken Q (redir_op mode ++ file ++ s).
Proof.
  intros [Hf Hm] HQ. pose proof (front_word _ s Hf) as Hfr. destruct (word_head _ Hf) as (c & w' & -> & Hc).
  destruct Hm as [[-> ->] | [[-> ->] | [-> ->]]].
  - apply gettoken_symbol; [done..|apply HQ].
  - change (redir_op 0x601) with [62]. unfold gettoken. wp_steps. unfold id. cbv zeta. cbn [app].
    rewrite (front_cons 62) by done. change (in_set (chars "|();&<") 62) with false. change (62 =? 62) with true.
    cbn match. destruct (Z.eqb_spec c 62) as [->|]; [done|]. wp_steps. cbn [app] in Hfr. rewrite Hfr. apply HQ.
  - change (redir_op 0x201) with [62; 62]. unfold gettoken. wp_steps. unfold id. cbv zeta. cbn [app].
    rewrite (front_cons 62) by done. change (in_set (chars "|();&<") 62) with false. change (62 =? 62) with true. cbn match. wp_steps.
    cbn [app] in Hfr. rewrite Hfr. apply HQ.
Qed.

Definition show_redirs (rs : list sredir) : list Z := concat (map show_redir rs).

Lemma front_redirs rs s : front s -> front (show_redirs rs ++ s).
Proof.
  intros Hs. destruct rs as [|[[file mode] fd] rs]; [done|]. unfold show_redirs. cbn. unfold redir_op.
  destruct (mode =? _); [by apply front_cons|]. destruct (mode =? _); by apply front_cons.
Qed.

Lemma first_in_redir mode s : first_in (chars "<>") (redir_op mode ++ s) = true.
Proof. unfold redir_op. destruct (mode =? O_RDONLY); [done|]. by destruct (mode =? 0x601). Qed.

(** The redirections up to something else. *)
Lemma read_redirs_show rs rest :
  Forall valid_redir rs -> (show_redirs rs ++ rest) `suffix_of` line -> front rest -> first_in (chars "<>") rest = false ->
  wp read_redirs (fun r s => map rtext r = rs /\ s = rest) (show_redirs rs ++ rest).
Proof using line_fits.
  intros Hrs Hsuf Hfr Hrest. unfold read_redirs.
  apply (wp_while_idx _ (fun n r st => exists done todo, n = Z.of_nat (length todo) /\ rs = done ++ todo /\
    map rtext r = done /\ st = show_redirs todo ++ rest)) with (Z.of_nat (length rs)).
  3: { apply suffix_length in Hsuf. rewrite length_app in Hsuf.
       assert (length rs <= length (show_redirs rs))%nat; [|lia]. clear. unfold show_redirs.
       induction rs as [|[[file mode] fd] rs IH]; [done|]. cbn. rewrite !length_app. cbn. lia. }
  2: { by exists [], rs. }
  intros n r st (rd & todo & -> & E & Er & ->). wp_step. apply peek_front; [by apply front_redirs|].
  destruct todo as [|[[file mode] fd] todo].
  { cbn [show_redirs map concat app]. rewrite Hrest. wp_steps. by rewrite E, app_nil_r. }
  assert (valid_redir (file, mode, fd)) as Hv by (rewrite E in Hrs; by apply Forall_app in Hrs as [_ [Hv _]%Forall_cons]).
  assert ((show_redirs ((file, mode, fd) :: todo) ++ rest) `suffix_of` line) as Hsuf1.
  { rewrite E in Hsuf. unfold show_redirs in Hsuf. rewrite map_app, concat_app, <- app_assoc in Hsuf.
    by apply suffix_tail in Hsuf. }
  assert (show_redirs ((file, mode, fd) :: todo) ++ rest = redir_op mode ++ file ++ 32 :: show_redirs todo ++ rest) as E1.
  { unfold show_redirs. cbn. by rewrite <- !app_assoc. }
  rewrite E1 in *. rewrite first_in_redir. wp_steps. apply (gettoken_redir _ _ fd); [done|]. intros t. wp_steps.
  apply gettoken_word; [apply Hv|by eapply suffix_tail|by apply front_redirs|]. intros t' Ht'.
  change (negb (tok_word =? tok_word)) with false. cbn match.
  assert (exists r1, rtext r1 = (file, mode, fd) /\ r1 = (t', mode, fd)) as (r1 & Hr1 & ->) by (eexists; split; [|done]; by cbn; rewrite Ht').
  assert (exists rd' todo', Z.of_nat (length todo) = Z.of_nat (length todo') /\ rs = rd' ++ todo' /\
    map rtext (r ++ [(t', mode, fd)]) = rd' /\ show_redirs todo ++ rest = show_redirs todo' ++ rest) as Hnext.
  { exists (rd ++ [(file, mode, fd)]), todo. rewrite map_app, Er. cbn [map]. rewrite Hr1, <- app_assoc. by split_and!. }
  destruct Hv as (_ & [[-> ->] | [[-> ->] | [-> ->]]]); cbn -[show_redirs]; wp_steps;
    exists (Z.of_nat (length todo)); (split; [exact Hnext|lia]).
Qed.

(** ** Arguments *)

Lemma front_words argv s : Forall word argv -> front s -> front (show_words argv ++ s).
Proof.
  intros Hargv Hs. destruct Hargv as [|w argv Hw _]; [done|]. unfold show_words. cbn [map concat].
  rewrite <- !app_assoc. by apply front_word.
Qed.
Lemma show_words_cons w argv s : show_words (w :: argv) ++ s = w ++ 32 :: show_words argv ++ s.
Proof. unfold show_words. cbn [map concat]. by rewrite <- !app_assoc. Qed.

(** What can follow a command inside a line. *)
Definition stops (s : list Z) : Prop := s = [] \/ first_in (chars "|)&;") s = true.
Lemma stops_front s : stops s -> front s.
Proof.
  intros [-> | Hs]; [done|]. destruct s as [|c s]; [done|]. apply front_cons. cbn [first_in] in Hs.
  apply in_set_elem in Hs. repeat (apply elem_of_cons in Hs as [-> | Hs]; [done|]). by apply elem_of_nil in Hs.
Qed.
Lemma stops_not toks s :
  stops s -> forallb (fun c => negb (in_set toks c)) (chars "|)&;") = true -> first_in toks s = false.
Proof.
  intros [-> | Hs] Ht; [done|]. destruct s as [|c s]; [done|]. cbn [first_in] in *.
  apply in_set_elem, list_elem_of_In in Hs. rewrite forallb_forall in Ht. specialize (Ht c Hs). by destruct (in_set toks c).
Qed.

Section exec.
Context (argv : list (list Z)) (rs : list sredir) (rest : list Z).
Hypothesis argv_words : Forall word argv.
Hypothesis argv_few : (length argv < MAXARGS)%nat.
Hypothesis rs_valid : Forall valid_redir rs.
Hypothesis rest_stops : stops rest.

(** The state of the parser with [todo] arguments to read: the redirections follow the last one. *)
Definition args_left (todo : list (list Z)) (r : list redir) (s : list Z) : Prop :=
  if decide (todo = []) then map rtext r = rs /\ s = rest
  else r = [] /\ s = show_words todo ++ show_redirs rs ++ rest.

Lemma read_redirs_args todo :
  Forall word todo -> (show_words todo ++ show_redirs rs ++ rest) `suffix_of` line ->
  wp read_redirs (args_left todo) (show_words todo ++ show_redirs rs ++ rest).
Proof using line_fits rs_valid rest_stops.
  intros Htodo Hsuf. unfold args_left. pose proof (stops_front _ rest_stops) as Hfr.
  destruct Htodo as [|w todo Hw Htodo]; cbn [decide]; destruct (decide _) as [|]; try done.
  - apply (read_redirs_show rs rest); [done|done|done|]. by apply stops_not.
  - eapply wp_mono; [apply (read_redirs_show [] (show_words (w :: todo) ++ show_redirs rs ++ rest))|].
    + constructor.
    + done.
    + apply front_words; [by constructor|]. by apply front_redirs.
    + rewrite show_words_cons. by apply first_in_word.
    + intros [|] s; [by intros [_ ->]|]. by intros [? _].
Qed.

Lemma read_args_show r s :
  (show_words argv ++ show_redirs rs ++ rest) `suffix_of` line -> args_left argv r s ->
  wp (read_args r) (fun p s => map text p.1 = argv /\ map rtext p.2 = rs /\ s = rest) s.
Proof using line_fits argv_words argv_few rs_valid rest_stops.
  intros Hsuf Hr. pose proof (stops_front _ rest_stops) as Hfr. unfold read_args.
  apply (wp_while_idx _ (fun n '(argv0, r0) st => exists done todo, n = Z.of_nat (length todo) /\ argv = done ++ todo /\
    map text argv0 = done /\ args_left todo r0 st)) with (Z.of_nat (length argv)).
  3: { unfold MAXARGS in argv_few. lia. }
  2: { by exists [], argv. }
  clear r s Hr. intros n [argv0 r0] st (ad & todo & -> & E & Ea & Hleft). unfold args_left in Hleft.
  destruct todo as [|w todo]; destruct (decide _) as [|]; try done; destruct Hleft as [Hr0 ->].
  { rewrite app_nil_r in E. wp_step. apply peek_front; [done|]. destruct rest_stops as [Hnil|Hstop].
    - rewrite Hnil. cbn [first_in]. wp_steps. unfold gettoken. wp_steps. by rewrite E.
    - rewrite Hstop. wp_steps. by rewrite E. }
  subst r0. pose proof argv_words as Hw. rewrite E in Hw. apply Forall_app in Hw as [_ [Hw Htodo]%Forall_cons].
  assert ((w ++ 32 :: show_words todo ++ show_redirs rs ++ rest) `suffix_of` line) as Hsuf1.
  { rewrite E in Hsuf. unfold show_words in Hsuf at 1. rewrite map_app, concat_app, <- app_assoc in Hsuf.
    apply suffix_tail in Hsuf. fold (show_words (w :: todo)) in Hsuf. by rewrite show_words_cons in Hsuf. }
  rewrite show_words_cons. wp_step. apply peek_front; [by apply front_word|]. rewrite first_in_word by done. wp_steps.
  apply gettoken_word; [done..| |].
  { apply front_words; [done|]. by apply front_redirs. }
  intros t Ht. change (tok_word =? 0) with false. change (negb (tok_word =? tok_word)) with false. cbn match.
  assert (length argv0 = length ad) as Hlen by (rewrite <- Ea; by rewrite length_map).
  pose proof argv_few as Hfew. rewrite E, length_app in Hfew. cbn [length] in Hfew.
  destruct (Nat.leb_spec MAXARGS (length argv0 + 1)); [lia|]. wp_steps.
  eapply wp_mono; [apply read_redirs_args; [done|]|].
  { change (w ++ 32 :: ?x) with (w ++ [32] ++ x) in Hsuf1. by do 2 apply suffix_tail in Hsuf1. }
  intros more s2 Hmore. wp_steps. exists (Z.of_nat (length todo)). cbn [length]. split; [|lia].
  exists (ad ++ [w]), todo. split_and!; [done|by rewrite <- app_assoc|by rewrite map_app, Ea; cbn; rewrite Ht|done].
Qed.
End exec.

(** ** Commands *)

Definition wraps {A} (c : cmd A) (rs : list (A * Z * Z)) : cmd A :=
  fold_left (fun c '(file, mode, fd) => REDIR c file mode fd) rs c.
Lemma wraps_text c rs : cmd_map text (wrap_redirs c rs) = wraps (cmd_map text c) (map rtext rs).
Proof. revert c. unfold wrap_redirs, wraps. induction rs as [|[[f m] d] rs IH]; intros c; [done|]. cbn. by rewrite IH. Qed.

Fixpoint cmd_size {A} (c : cmd A) : nat :=
  match c with
  | EXEC _ => 1
  | REDIR c _ _ _ | BACK c => S (cmd_size c)
  | PIPE l r | LIST l r => S (cmd_size l + cmd_size r)
  end.
Definition not_redir {A} (c : cmd A) : Prop := match c with REDIR _ _ _ _ => False | _ => True end.

(** A command is one without redirections inside some redirections. *)
Lemma unwrap c :
  printable c -> exists base rs, c = wraps base rs /\ not_redir base /\ printable base /\ Forall valid_redir rs /\
    (cmd_size base <= cmd_size c)%nat /\ atom c = atom base ++ show_redirs rs.
Proof.
  induction c as [argv|c IH file mode fd|l _ r _|l _ r _|c _]; intros Hc.
  2: { destruct Hc as [Hc Hv]. destruct (IH Hc) as (base & rs & E & Hb & Hp & Hrs & Hs & Ha).
       exists base, (rs ++ [(file, mode, fd)]). split_and!; [|done|done| |cbn; lia|].
       - unfold wraps. rewrite fold_left_app. fold (wraps base rs). by rewrite <- E.
       - apply Forall_app. split; [done|]. by apply Forall_singleton.
       - cbn [paren show]. unfold show_redirs. rewrite Ha, map_app, concat_app. cbn. by rewrite app_nil_r, <- !app_assoc. }
  all: match goal with |- exists _ _, ?c = _ /\ _ => exists c, [] end; split_and!; try done; by rewrite app_nil_r.
Qed.

(** [parseexec] reads a command that is printed with parentheses where needed. *)
Definition reads_atom (c : cmd (list Z)) : Prop := forall fuel rest,
  (atom c ++ rest) `suffix_of` line -> (4 * length (atom c ++ rest) + 2 <= fuel)%nat -> stops rest ->
  wp (parseexec fuel) (fun c0 s => cmd_map text c0 = c /\ s = rest) (atom c ++ rest).
(** [parseline] reads a command up to the end of the line or of a block. *)
Definition reads_line (c : cmd (list Z)) : Prop := forall fuel rest,
  (show c ++ rest) `suffix_of` line -> (4 * length (show c ++ rest) + 4 <= fuel)%nat ->
  rest = [] \/ first_in (chars ")") rest = true ->
  wp (parseline fuel) (fun c0 s => cmd_map text c0 = c /\ s = rest) (show c ++ rest).

Lemma front_atom c s : printable c -> stops s -> front (atom c ++ s).
Proof.
  intros Hc Hs. destruct (unwrap c Hc) as (base & rs & _ & Hb & Hp & _ & _ & ->). rewrite <- app_assoc.
  pose proof (stops_front _ Hs) as Hfr. destruct base; [|done|by apply front_cons..].
  apply front_words; [apply Hp|]. by apply front_redirs.
Qed.

(** A command that nothing is appended to. *)
Lemma parsepipe_alone fuel c s rest :
  wp (parseexec fuel) (fun c0 s' => cmd_map text c0 = c /\ s' = rest) s ->
  front rest -> first_in (chars "|") rest = false ->
  wp (parsepipe (S fuel)) (fun c0 s' => cmd_map text c0 = c /\ s' = rest) s.
Proof.
  intros H Hfr Hbar. cbn [parsepipe]. wp_step. eapply wp_mono; [exact H|]. intros c0 s' [Hc ->]. wp_step.
  apply peek_front; [done|]. rewrite Hbar. by wp_steps.
Qed.

Lemma amps_show k (c : cmd token) rest :
  Z.of_nat k < 2 ^ 64 -> front rest -> first_in (chars "&") rest = false ->
  wp (while_ (fun c =>
        amp <- peek (chars "&") ;;
        if amp : bool then gettoken ;;; ret (Next (BACK c)) else ret (Brk c)) c)
    (fun c' s => c' = Nat.iter k BACK c /\ s = rest) (replicate k 38 ++ rest).
Proof.
  intros Hk Hfr Hrest.
  apply (wp_while_idx _ (fun n c' st => exists j, n = Z.of_nat j /\ Nat.iter j BACK c' = Nat.iter k BACK c /\
    st = replicate j 38 ++ rest)) with (Z.of_nat k); [|by exists k|lia].
  intros n c' st (j & -> & E & ->). wp_step. destruct j as [|j]; cbn [replicate app].
  - apply peek_front; [done|]. rewrite Hrest. by wp_steps.
  - apply peek_front; [by apply front_cons|]. cbn [first_in]. change (in_set (chars "&") 38) with true. cbn match.
    wp_steps. apply gettoken_symbol; [done|done| |].
    { destruct j; [done|]. by apply front_cons. }
    intros t. wp_steps. exists (Z.of_nat j). split; [|lia]. exists j. split_and!; [done| |done].
    by rewrite <- E, Nat.iter_succ_r.
Qed.

Lemma backs_map {A B} (f : A -> B) k c : cmd_map f (Nat.iter k BACK c) = Nat.iter k BACK (cmd_map f c).
Proof.
  induction k as [|k IH]; [done|]. change (BACK (cmd_map f (Nat.iter k BACK c)) = BACK (Nat.iter k BACK (cmd_map f c))).
  by rewrite IH.
Qed.

Lemma parseline_alone fuel c k s rest :
  wp (parsepipe fuel) (fun c0 s' => cmd_map text c0 = c /\ s' = replicate k 38 ++ rest) s ->
  Z.of_nat k < 2 ^ 64 -> front rest -> first_in (chars "&") rest = false -> first_in (chars ";") rest = false ->
  wp (parseline (S fuel)) (fun c0 s' => cmd_map text c0 = Nat.iter k BACK c /\ s' = rest) s.
Proof.
  intros H Hk Hfr Ha Hs. cbn [parseline]. wp_step. eapply wp_mono; [exact H|]. intros c0 s' [Hc ->]. wp_step.
  eapply wp_mono; [by apply amps_show|]. intros c1 s1 [-> ->]. wp_step. apply peek_front; [done|].
  rewrite Hs. wp_steps. split; [|done]. rewrite <- Hc. apply backs_map.
Qed.

Definition ends_line (s : list Z) : Prop := s = [] \/ first_in (chars ")") s = true.
Lemma ends_line_shape s : ends_line s -> s = [] \/ exists s', s = 41 :: s'.
Proof.
  intros [-> | H]; [by left|]. right. destruct s as [|c s]; [done|]. cbn [first_in] in H. apply in_set_elem in H.
  apply elem_of_cons in H as [-> | H]; [by exists s|]. by apply elem_of_nil in H.
Qed.

Lemma ends_line_next s :
  ends_line s -> stops s /\ front s /\ first_in (chars "|") s = false /\ first_in (chars "&") s = false /\
    first_in (chars ";") s = false.
Proof. intros [-> | [s' ->]]%ends_line_shape; split_and!; try done; first [by left | by right]. Qed.

Lemma pipe_step l r : printable r -> reads_atom l -> reads_atom r -> reads_line (PIPE l r).
Proof.
  intros Hr Hl Hr' fuel rest Hsuf Hf Hrest. destruct (ends_line_next _ Hrest) as (Hst & Hfr & Hbar & Hamp & Hsemi).
  cbn [show] in *. rewrite <- !app_assoc in *. change (chars "|" ++ ?x) with (124 :: x) in *. rewrite !length_app in Hf. cbn [length] in Hf.
  destruct fuel as [|[|fuel]]; [lia..|]. apply (parseline_alone _ _ 0); [|done..]. cbn [parsepipe].
  destruct fuel as [|fuel]; [lia|]. wp_step.
  eapply wp_mono; [apply Hl; [done|rewrite length_app; cbn [length]; lia|by right]|]. intros c1 s1 [E1 ->]. wp_step.
  apply peek_front; [by apply front_cons|]. cbn [first_in]. change (in_set (chars "|") 124) with true. cbn match.
  wp_step. apply gettoken_symbol; [done|done|by apply front_atom|]. intros t. wp_step.
  eapply wp_mono; [apply (parsepipe_alone _ r _ rest); [|done..]; apply Hr'; [| |done]|].
  - apply (suffix_tail (atom l ++ [124])). by rewrite <- app_assoc.
  - rewrite length_app in *. lia.
  - intros c2 s2 [E2 ->]. wp_steps. cbn [cmd_map]. by rewrite E1, E2.
Qed.

Lemma list_step l r : printable r -> reads_atom l -> reads_atom r -> reads_line (LIST l r).
Proof.
  intros Hr Hl Hr' fuel rest Hsuf Hf Hrest. destruct (ends_line_next _ Hrest) as (Hst & Hfr & Hbar & Hamp & Hsemi).
  cbn [show] in *. rewrite <- !app_assoc in *. change (chars ";" ++ ?x) with (59 :: x) in *. rewrite !length_app in Hf. cbn [length] in Hf.
  destruct fuel as [|fuel]; [lia|]. cbn [parseline]. destruct fuel as [|[|fuel]]; [lia..|]. wp_step.
  eapply wp_mono; [apply (parsepipe_alone _ l _ (59 :: atom r ++ rest)); [|by apply front_cons|done];
    apply Hl; [done|rewrite length_app; cbn [length]; lia|by right]|].
  intros c1 s1 [E1 ->]. wp_step. eapply wp_mono; [apply (amps_show 0 _ (59 :: atom r ++ rest)); [done|by apply front_cons|done]|].
  intros c1' s1 [-> ->]. wp_step.
  apply peek_front; [by apply front_cons|]. cbn [first_in]. change (in_set (chars ";") 59) with true. cbn match.
  wp_step. apply gettoken_symbol; [done|done|by apply front_atom|]. intros t. wp_step.
  eapply wp_mono; [apply (parseline_alone _ r 0 _ rest); [|done..]; apply (parsepipe_alone _ r _ rest); [|done..]; apply Hr'; [| |done]|].
  - apply (suffix_tail (atom l ++ [59])). by rewrite <- app_assoc.
  - rewrite length_app in *. lia.
  - intros c2 s2 [E2 ->]. wp_steps. cbn [cmd_map]. change (Nat.iter 0 BACK c1) with c1. by rewrite E1, E2.
Qed.

Lemma back_step c : reads_atom c -> reads_line (BACK c).
Proof.
  intros Hc fuel rest Hsuf Hf Hrest. destruct (ends_line_next _ Hrest) as (Hst & Hfr & Hbar & Hamp & Hsemi).
  cbn [show] in *. rewrite <- !app_assoc in *. change (chars "&" ++ ?x) with (38 :: x) in *. rewrite !length_app in Hf. cbn [length] in Hf.
  destruct fuel as [|[|fuel]]; [lia..|]. apply (parseline_alone _ c 1); [|done..].
  apply parsepipe_alone; [|by apply front_cons|done]. apply Hc; [done|rewrite length_app; cbn [length]; lia|by right].
Qed.

Lemma alone_step c : atom c = show c -> reads_atom c -> reads_line c.
Proof.
  intros E Hc fuel rest Hsuf Hf Hrest. destruct (ends_line_next _ Hrest) as (Hst & Hfr & Hbar & Hamp & Hsemi).
  destruct fuel as [|[|fuel]]; [lia..|]. apply (parseline_alone _ c 0); [|done..]. apply parsepipe_alone; [|done..].
  rewrite <- E in *. apply Hc; [done|lia|done].
Qed.

(** ** Blocks and simple commands *)

Lemma exec_reads argv rs fuel rest :
  printable (EXEC argv) -> Forall valid_redir rs -> stops rest ->
  (show_words argv ++ show_redirs rs ++ rest) `suffix_of` line ->
  wp (parseexec (S fuel)) (fun c0 s => cmd_map text c0 = wraps (EXEC argv) rs /\ s = rest)
    (show_words argv ++ show_redirs rs ++ rest).
Proof using line_fits.
  intros [Hargv Hfew] Hrs Hst Hsuf. pose proof (stops_front _ Hst) as Hfr. cbn [parseexec]. wp_step.
  apply peek_front; [apply front_words; [done|by apply front_redirs]|].
  assert (first_in (chars "(") (show_words argv ++ show_redirs rs ++ rest) = false) as ->.
  { destruct Hargv as [|w argv Hw _]; [|rewrite show_words_cons; by apply first_in_word].
    destruct rs as [|[[f m] d] rs]; [by apply stops_not|]. unfold show_redirs. cbn. unfold redir_op.
    destruct (m =? O_RDONLY); [done|]. by destruct (m =? 0x601). }
  wp_step. eapply wp_mono; [by apply read_redirs_args|]. intros r s Hleft. wp_step.
  eapply wp_mono; [by apply (read_args_show argv rs rest)|]. intros [a0 r0] s' (Ha & Hr & ->). wp_steps.
  cbn [fst snd] in *. rewrite wraps_text. cbn [cmd_map]. by rewrite Ha, Hr.
Qed.

Lemma block_reads c rs fuel rest :
  reads_line c -> Forall valid_redir rs -> stops rest ->
  (40 :: show c ++ 41 :: show_redirs rs ++ rest) `suffix_of` line ->
  (4 * length (40%Z :: show c ++ 41%Z :: show_redirs rs ++ rest) + 2 <= fuel)%nat ->
  front (show c ++ 41 :: show_redirs rs ++ rest) ->
  wp (parseexec fuel) (fun c0 s => cmd_map text c0 = wraps c rs /\ s = rest) (40 :: show c ++ 41 :: show_redirs rs ++ rest).
Proof using line_fits.
  intros Hc Hrs Hst Hsuf Hf Hfront. pose proof (stops_front _ Hst) as Hfr. cbn [length] in Hf.
  destruct fuel as [|fuel]; [lia|]. cbn [parseexec]. destruct fuel as [|fuel]; [lia|]. wp_step.
  apply peek_front; [by apply front_cons|]. cbn [first_in]. change (in_set (chars "(") 40) with true. cbn match.
  cbn [parseblock]. wp_step. apply peek_front; [by apply front_cons|]. cbn [first_in].
  change (in_set (chars "(") 40) with true. cbn match. cbn [negb]. wp_step.
  apply gettoken_symbol; [done|done|done|]. intros t. wp_step.
  apply (suffix_tail [40]) in Hsuf. eapply wp_mono; [apply Hc; [done|lia|by right]|]. intros c0 s [E ->]. wp_step.
  apply peek_front; [by apply front_cons|]. cbn [first_in]. change (in_set (chars ")") 41) with true. cbn match.
  cbn [negb]. wp_step. apply gettoken_symbol; [done|done|by apply front_redirs|]. intros t'. unfold parseredirs. wp_step.
  apply suffix_tail in Hsuf. apply (suffix_tail [41]) in Hsuf.
  eapply wp_mono; [apply (read_redirs_show rs rest); [done|done|done|by apply stops_not]|]. intros r s [Hr ->]. wp_steps.
  by rewrite wraps_text, E, Hr.
Qed.

Lemma front_show c s : printable c -> stops s -> front (show c ++ s).
Proof.
  intros Hc Hs. destruct c as [argv|c file mode fd|l r|l r|c].
  1-2: by apply (front_atom _ s Hc Hs).
  1-2: destruct Hc as [Hl _]; cbn [show]; rewrite <- app_assoc; apply front_atom; [done|by right].
  cbn [show]. rewrite <- app_assoc. apply front_atom; [done|by right].
Qed.

Lemma atom_step c :
  printable c -> (forall c', (cmd_size c' < cmd_size c)%nat -> printable c' -> reads_atom c') -> reads_atom c.
Proof using line_fits.
  intros Hc IH fuel rest. destruct (unwrap c Hc) as (base & rs & E & Hb & Hp & Hrs & Hsize & ->). rewrite <- app_assoc.
  intros Hsuf Hf Hst. rewrite E. destruct base as [argv| |l r|l r|c0]; [|done|..].
  - destruct fuel as [|fuel]; [lia|]. by apply exec_reads.
  - cbn [paren] in *. rewrite <- !app_assoc in *.
    change (chars "(" ++ ?x) with (40 :: x) in *. change (chars ")" ++ ?x) with (41 :: x) in *.
    destruct Hp as [Hl Hr]. cbn [cmd_size] in Hsize. apply block_reads; try done.
    + apply pipe_step; [done|apply IH; [lia|done]..].
    + apply front_show; [done|by right].
  - cbn [paren] in *. rewrite <- !app_assoc in *.
    change (chars "(" ++ ?x) with (40 :: x) in *. change (chars ")" ++ ?x) with (41 :: x) in *.
    destruct Hp as [Hl Hr]. cbn [cmd_size] in Hsize. apply block_reads; try done.
    + apply list_step; [done|apply IH; [lia|done]..].
    + apply front_show; [done|by right].
  - cbn [paren] in *. rewrite <- !app_assoc in *.
    change (chars "(" ++ ?x) with (40 :: x) in *. change (chars ")" ++ ?x) with (41 :: x) in *. cbn [cmd_size] in Hsize. apply block_reads; try done.
    + apply back_step, IH; [lia|done].
    + apply front_show; [done|by right].
Qed.

Lemma reads_all c : printable c -> reads_atom c /\ reads_line c.
Proof using line_fits.
  assert (forall n c, (cmd_size c < n)%nat -> printable c -> reads_atom c) as Hatom.
  { intros n. induction n as [|n IH]; intros c' Hn Hc'; [lia|]. apply atom_step; [done|].
    intros c'' Hlt. apply IH. lia. }
  assert (forall c, printable c -> reads_atom c) as Hall by (intros c' Hc'; by apply (Hatom (S (cmd_size c'))); [lia|]).
  intros Hc. split; [by apply Hall|].
  destruct c as [argv|c0 file mode fd|l r|l r|c0]; [apply alone_step; [done|by apply Hall]..| | |].
  - destruct Hc. apply pipe_step; [done|by apply Hall..].
  - destruct Hc. apply list_step; [done|by apply Hall..].
  - by apply back_step, Hall.
Qed.
End parse.

(** ** A printed line has no NUL byte *)

Lemma no_nul_chars s : forallb (fun c => negb (c =? 0)) (chars s) = true -> no_nul (chars s).
Proof.
  intros H. apply Forall_forall. intros c Hc%list_elem_of_In. rewrite forallb_forall in H. specialize (H c Hc). lia.
Qed.
Lemma no_nul_redir r : valid_redir r -> no_nul (show_redir r).
Proof.
  destruct r as [[file mode] fd]. intros [[_ Hf] _]. apply Forall_app. split.
  - unfold redir_op. destruct (mode =? O_RDONLY); [by apply no_nul_chars|]. destruct (mode =? 0x601); by apply no_nul_chars.
  - apply Forall_app. split; [|by repeat constructor]. eapply Forall_impl; [exact Hf|]. by intros ? [].
Qed.
Lemma no_nul_paren c s : no_nul s -> no_nul (paren c s).
Proof. intros Hs. destruct c; try done; repeat (apply Forall_app; split); try done; by apply no_nul_chars. Qed.
Lemma no_nul_show c : printable c -> no_nul (show c).
Proof.
  induction c as [argv|c IH file mode fd|l IHl r IHr|l IHl r IHr|c IH]; cbn [printable show].
  - intros [Hw _]. unfold show_words. induction Hw as [|w argv [_ Hw] _ IH]; [constructor|]. cbn [map concat].
    repeat (apply Forall_app; split); [|by repeat constructor|done]. eapply Forall_impl; [exact Hw|]. by intros ? [].
  - intros [Hc Hr]. apply Forall_app. split; [by apply no_nul_paren, IH|by apply no_nul_redir].
  - intros [Hl Hr]. repeat (apply Forall_app; split); [by apply no_nul_paren, IHl|by apply no_nul_chars|by apply no_nul_paren, IHr].
  - intros [Hl Hr]. repeat (apply Forall_app; split); [by apply no_nul_paren, IHl|by apply no_nul_chars|by apply no_nul_paren, IHr].
  - intros Hc. apply Forall_app. split; [by apply no_nul_paren, IH|by apply no_nul_chars].
Qed.

(** C12: A command that is printed as a line parses back to itself: [parsecmd] reads
    words, the three redirections, pipes, lists, background commands and parentheses,
    each with the structure the printed line shows. *)
Theorem parsecmd_show (c : cmd (list Z)) (s : list Z) :
  printable c -> Z.of_nat (length (show c)) < 2 ^ 64 -> exists s', parsecmd (show c) s = Ok (inr c) s'.
Proof.
  intros Hc Hfits. pose proof (no_nul_show c Hc) as Hnz.
  assert (wp (parsecmd (show c)) (fun r _ => r = inr c) s) as (c' & s' & E & ->)%wp_elim; [|by exists s'].
  unfold parsecmd. wp_steps. destruct (reads_all (show c) Hfits c Hc) as [_ Hread].
  destruct (parse_safe (show c) Hfits (parse_fuel (show c))) as [Hsafe _].
  specialize (Hsafe (show c) (reflexivity _) (le_n _)). specialize (Hread (parse_fuel (show c)) []).
  rewrite app_nil_r in Hread. specialize (Hread (reflexivity _) (le_n _) (or_introl eq_refl)).
  apply wp_elim in Hread as (c0 & s0 & E0 & Ec0 & ->). unfold safe in Hsafe. rewrite E0 in Hsafe.
  destruct Hsafe as (_ & _ & Hgood). eapply wp_intro; [exact E0|]. wp_steps. cbn. wp_steps.
  f_equal. etrans; [|exact Ec0]. apply cmd_map_ext. intros t Ht. by apply string_at_token.
Qed.

Definition ex_cmd : cmd (list Z) :=
  BACK (PIPE (REDIR (EXEC [chars "cat"]) (chars "in") O_RDONLY 0)
    (REDIR (LIST (EXEC [chars "wc"]) (EXEC [chars "echo"; chars "hi"])) (chars "out") 0x201 1)).

Example ex_cmd_shown : show ex_cmd = chars "(cat <in |(wc ;echo hi )>>out )&".
Proof. by vm_compute. Qed.

Example parsecmd_show_witness : exists s', parsecmd (show ex_cmd) [] = Ok (inr ex_cmd) s'.
Proof.
  apply (parsecmd_show ex_cmd []); [|by vm_compute].
  repeat split; try discriminate; try (apply (bool_decide_unpack _); by vm_compute); auto 10.
Defined.
